(* ===== verification/_CoqProject ===== *)
-Q . S2P
Prelude.v
GuestMem.v
Paging.v
Boot.v
Smp.v
MemRegions.v
Hypercall.v
Vcpu.v
GdbPacket.v
GdbBreak.v
Gdb.v
Proxy.v
NetQueue.v
CLib.v
Config.v
Utils.v
NetConfig.v
Elf.v
Checkpoint.v
Incremental.v
DirtyLog.v
Snapshot.v
Freeze.v
Migration.v
MigParams.v
Startup.v
Aarch64.v
Rdma.v
RdmaLive.v
Queue.v
GdbList.v
Shutdown.v
Launch.v
Connections.v
Signals.v
Allocations.v
Dump.v
Debugging.v
