(* ===== verification/Prelude.v ===== *)
(** * uhyve: a verification development for the HermitCore hypervisor

    uhyve (src/, C) runs a HermitCore unikernel in a KVM virtual machine.  The
    development models the program's own logic on x86_64, and the loader and
    address translation of the aarch64 port; KVM, the C library's I/O, the
    network and the guest are around it.

    ** The program and its parts

    [main] (src/main.c) reads the environment and calls [uhyve_init]
    (src/uhyve.c), which starts in one of three ways: from a kernel image, from
    the files of a checkpoint, or from a migration.  Then one thread per
    virtual CPU runs [vcpu_loop]; each exit of the guest is a hypercall, a stop
    for the debugger, or the end.  Beside the vCPUs run two network threads, a
    timer that takes checkpoints, and a thread that migrates the guest.  All of
    them share the memory of the guest, one anonymous mapping.

    ** Files

    - Prelude.v: results of C code, loops with fuel, words, bytes.
    - GuestMem.v: the mapping [guest_mem]; every access outside is [Undefined].
    - Paging.v: [virt_to_phys] (uhyve-x86_64.c) and the class
      [AddrTranslation] through which the hypercalls use it.
    - Boot.v: [setup_system], GDT, boot page tables, CPUID filter.
    - Smp.v: [init_cpu_state] as a step relation of the cores on the boot
      header; [save_cpu_state] and [restore_cpu_state].
    - MemRegions.v: [init_kvm_arch]; the regions and chunks of a migration.
    - Hypercall.v: the I/O exits of [vcpu_loop]; Vcpu.v: the loop and the
      arguments of the guest.
    - GdbPacket.v, GdbBreak.v, Gdb.v: the debugger stub (uhyve-gdb.c) from
      bytes to exceptions; GdbList.v: its breakpoint functions on the heap;
      Debugging.v: a debugged run, from the connection to the end.
    - Queue.v: the list macros of queue.h on a store of pointers.
    - Proxy.v: [handle_syscalls] (main.c), and the [Socket] record that
      Migration.v uses too.
    - NetQueue.v: the packet rings and their threads (uhyve-net.h, uhyve.c);
      NetConfig.v: MAC address and TAP device (uhyve-net.c).
    - CLib.v: the conversions of the C library; Config.v: environment, sizes,
      the configuration file; Utils.v: utils.c.
    - Elf.v: [load_kernel]; Checkpoint.v: the files of a checkpoint;
      Incremental.v: what several of them promise together; DirtyLog.v: the
      alternative scan by KVM's dirty log and the restart of that build; Snapshot.v: the barriers that stop
      the cores for a checkpoint, with [rx_thread] beside them, Freeze.v: for a
      migration.
    - Migration.v: uhyve-migration.c, uhyve-migration-tcp.c and the two ends
      of a migration in uhyve-x86_64.c; MigParams.v: the file with its
      parameters.
    - Startup.v: [uhyve_init] composed of all of this, and the directory of the
      checkpoints.
    - Aarch64.v: uhyve-aarch64.c (Module [Arm]).
    - Rdma.v: uhyve-migration-rdma.c, the build option's variant of the transport
      of a migration; RdmaLive.v: its live migration.
    - Launch.v: the threads from [uhyve_loop] into the guest, with the barriers
      and the wait loop on their way, the handlers, masks and the timer they
      install; Shutdown.v: [exit], errors, the signals
      that end the process and the cleanup handlers; Signals.v: the handlers of checkpoints
      and migrations in one process, over Snapshot.v and Freeze.v.
    - Connections.v: the descriptors and addresses of the migration channel and
      of the debugger's connection (uhyve-migration.c, uhyve-gdb.c).
    - Allocations.v: [determine_guest_allocations], the migration thread's
      request for the free list of the guest, and the answer on its port.
    - Dump.v: [print_registers] of both ports, the parameters and the work
      requests of a migration as text.

    ** How the state corresponds to the code

    A piece of C code returns an [outcome]: [OK], [Exited] for [exit], [err] and
    [assert], [Undefined] where it would leave an object or the mapping, and
    [OutOfFuel].  size_t and the fixed-width types are Z with the wrap-around
    of [u64], [u32], [s32] written where the code computes.  Guest memory is a
    sparse map of bytes with a size; a host pointer into it is its offset.  A
    global variable is a field of the record of the component that owns it
    ([config], [machine], [arch_state], [vm]).  System calls, KVM, sockets and
    files are arguments: records of functions ([HostOS], [Socket], [world])
    whose laws, where a theorem needs any, are named records of hypotheses
    ([regular_file], [connection]), met by a concrete instance in the witness.

    Threads that share memory are interleaved: Smp.v, Snapshot.v and Freeze.v have
    step relations for the cores, Launch.v, Shutdown.v, Signals.v and
    Allocations.v step functions that run a schedule, NetQueue.v lets the guest run between any two
    accesses of the network threads.  The lists of queue.h are pointers in a
    store where the macros are the subject (Queue.v, GdbList.v) and lists
    elsewhere; GdbList.v shows that this is the same.

    ** What the theorems show

    - Requests: a write hands a prefix of the buffer to the file through the
      page tables, a read fills the buffer, the command line arrives.
    - Transfer: a cold migration (over TCP or RDMA) brings over the chunks,
      registers, clock and configuration, and a live one (over RDMA, with the
      guest running between the scans and during the transfers) the values of
      the stopped guest in all bytes whose changes get the dirty flag.  A full
      checkpoint gives back the pages with the accessed flag; a series of
      incremental ones every byte it saved, as at the last one, if what changed
      lies in dirty pages (what uhyve itself writes need not:
      [Incremental.host_write_missed]); with KVM's dirty log, the logged pages
      on top of a freshly loaded kernel.  The process that finds the files
      resumes from the last.  A checkpoint is one instant for all cores,
      outside the queue that [rx_thread] goes on filling, when the timer does
      not expire while it is taken; the last transfer of a migration sees vCPUs
      that are frozen, and is reached when no checkpoint is taken meanwhile.
    - Threads: whatever the schedule, the cores on their way from the creation
      of their threads into the guest use nothing that is not there yet, nor can
      the timer expire before its handlers are installed; and all get there,
      unless several of them start normally with a debugger: then none ever does
      ([Launch.debugger_deadlocks]).  A shutdown with one caller of [exit] ends,
      with the status that was asked for, after an error of any core and after a
      migration too; the request for the free list of the guest is answered
      once, and the chunks of a cold migration cover what was allocated then
      below the last free region;
      checkpoints and a migration whose signals come in order do not disturb each
      other, although they share a barrier (and examples where the signals do
      not come in order, and they do).
    - Connections: the channel of a migration goes to the address that is
      configured, and closing it leaves the descriptors as they were, but for a
      socket that the source loses with each refused connection.
    - Lists: the macros edit the lists they mean to, the breakpoint functions on
      the heap answer as on plain lists.
    - Boot: the image is in memory as its headers say, long mode, segments and
      the identity map are set up, one core at a time is in the startup code.
    - Networking: the receive ring is a FIFO of eight packets whatever the
      interleaving, the send ring loses and reorders nothing.
    - Debugging: over a whole run, the packets of the debugger do what their
      commands do one by one, it is told of every stop and of the end (twice when
      the guest halts);
      breakpoints are transparent to the debugger; damaged
      packets are retransmitted.
    - Configuration and helpers: sizes, MAC addresses, brand strings, the
      configuration file, complete reads; the dump of a failed core shows every
      register in full; the parameters of a migration are those its file names.
    - aarch64: the two walks agree, the loader places the image.

    ** Fuel

    Loops that are not structural use [while] with fuel, and each theorem about
    one states the fuel that suffices: the bytes still to transfer and the
    interruptions still to come ([pread_in_full], [Socket]), the length of the
    guest's free list, the records of a checkpoint file, the characters of a
    packet.  No result is conditional on termination alone; where the code may
    spin forever (end of stream in [handle_syscalls], an unmapped buffer in
    the write hypercall) a lemma says so.  Posting work requests needs as much as
    there are requests, and as many polls as the adapter may stay silent for.

    ** Not modelled

    - libibverbs and the InfiniBand adapter: a record of operations with the law
      [reliable], with a send queue of at least the size asked for; the guest
      runs between two page-table scans of a live migration and during the
      transfers, not during a scan, which does not clear the flags atomically.
    - Freeze.v: [rx_thread], which is not stopped for a migration; its writes to
      the receive queue are in NetQueue.v and Snapshot.v.
    - Single messages on stderr and stdout other than the dumps of Dump.v.
    - uhyve-gdb-aarch64.c: empty functions in a file that is not built.
    - Allocations.v: the guest's own code; that it answers each interrupt once is
      an assumption, and an example shows what happens without it.
    - Shutdown.v: errors of the network threads, two threads that call [exit]
      at the same time, and the packet that tells the debugger
      ([uhyve_gdb_handle_term]).
    - Launch.v: system calls that fail, and signals that come while the cores
      start (an example shows what an early request for a migration finds).
    - Time: the interval timer fires as a step of Snapshot.v, on any core but
      not while a checkpoint is taken; Signals.v has the other case. *)

From Stdlib Require Export ZArith Lia Strings.Byte.
From stdpp Require Export prelude gmap list strings.
From coqutil Require Export Byte Word.LittleEndianList.
From coqutil Require Import Z.bitblast.

#[global] Open Scope Z_scope.

(** ** Fallible code *)

(** What a run of a piece of C code can do: return a value, access memory it
    does not own (undefined behaviour of the source, kept apart from every
    defined result), leave the process through [exit], [err] or a failed
    [assert] with a status, or still be running when the fuel of the model is
    used up. *)
Inductive outcome (A : Type) : Type :=
| OK (x : A)
| Undefined
| Exited (status : Z)
| OutOfFuel.

Arguments OK {A} x.
Arguments Undefined {A}.
Arguments Exited {A} status.
Arguments OutOfFuel {A}.

#[export] Instance outcome_ret : MRet outcome := fun _ x => OK x.
#[export] Instance outcome_bind : MBind outcome := fun _ _ f o =>
  match o with
  | OK x => f x
  | Undefined => Undefined
  | Exited s => Exited s
  | OutOfFuel => OutOfFuel
  end.
#[export] Instance outcome_fmap : FMap outcome := fun _ _ f o =>
  match o with
  | OK x => OK (f x)
  | Undefined => Undefined
  | Exited s => Exited s
  | OutOfFuel => OutOfFuel
  end.

(** [assert(b)]: a failed assertion aborts (SIGABRT, status 134 of a shell). *)
Definition SIGABRT_STATUS : Z := 134.
Definition assert_ (b : bool) : outcome unit :=
  if b then OK tt else Exited SIGABRT_STATUS.

Lemma bind_OK {A B} (f : A -> outcome B) (x : A) : (OK x ≫= f) = f x.
Proof. reflexivity. Qed.

Lemma bind_OK_inv {A B} (f : A -> outcome B) (o : outcome A) (b : B) :
  (o ≫= f) = OK b -> exists a, o = OK a /\ f a = OK b.
Proof. destruct o; cbn; intros; eauto; discriminate. Qed.

Lemma OK_inj {A} (x y : A) : OK x = OK y -> x = y.
Proof. congruence. Qed.

Lemma fmap_OK_inv {A B} (f : A -> B) (o : outcome A) (b : B) :
  (f <$> o) = OK b -> exists a, o = OK a /\ b = f a.
Proof. destruct o; cbn; intros; simplify_eq; eauto. Qed.

Lemma assert_OK_inv (b : bool) u : assert_ b = OK u -> b = true.
Proof. destruct b; cbn; congruence. Qed.

(** Split every successful bind in the context. *)
Ltac outcome_inv :=
  repeat match goal with
  | H : (_ ≫= _) = OK _ |- _ =>
      apply bind_OK_inv in H; destruct H as (? & ? & H); cbn beta in H
  | H : (_ <$> _) = OK _ |- _ =>
      apply fmap_OK_inv in H; destruct H as (? & ? & H)
  | H : assert_ _ = OK _ |- _ => apply assert_OK_inv in H
  | H : OK _ = OK _ |- _ => injection H as H
  | H : mret _ = OK _ |- _ => injection H as H
  | p : (_ * _)%type |- _ => destruct p
  end; simplify_eq.

(** ** Loops *)

(** [while (1) body]: the body either continues with a new state or leaves the
    loop with a result. *)
Fixpoint while {S A} (fuel : nat) (body : S -> outcome (S + A)) (s : S) : outcome A :=
  match fuel with
  | O => OutOfFuel
  | Datatypes.S n =>
      r ← body s;
      match r with
      | inl s' => while n body s'
      | inr a => OK a
      end
  end.

Section Loops.
Context {S A : Type} (body : S -> outcome (S + A)).

Lemma while_S n s :
  while (Datatypes.S n) body s =
  (r ← body s; match r with inl s' => while n body s' | inr a => OK a end).
Proof. reflexivity. Qed.

(** Total correctness: an invariant, a variant, a postcondition. *)
Lemma while_total (Inv : S -> Prop) (Post : A -> Prop) (m : S -> nat) :
  (forall s, Inv s ->
     exists r, body s = OK r /\
       match r with
       | inl s' => Inv s' /\ (m s' < m s)%nat
       | inr a => Post a
       end) ->
  forall fuel s, Inv s -> (m s < fuel)%nat ->
  exists a, while fuel body s = OK a /\ Post a.
Proof.
  intros Hbody fuel. induction fuel as [|fuel IH]; intros s Hs Hm; [lia|].
  destruct (Hbody s Hs) as (r & Hr & Hpost).
  rewrite while_S, Hr, bind_OK. destruct r as [s'|a]; [|eauto].
  destruct Hpost as [Hi Hlt]. apply IH; [done|lia].
Qed.

(** A loop whose invariant never lets it leave is still running whatever the
    fuel: the code does not terminate. *)
Lemma while_diverges (Inv : S -> Prop) :
  (forall s, Inv s -> exists s', body s = OK (inl s') /\ Inv s') ->
  forall fuel s, Inv s -> while fuel body s = OutOfFuel.
Proof.
  intros Hbody fuel. induction fuel as [|fuel IH]; intros s Hs; [done|].
  destruct (Hbody s Hs) as (s' & Hr & Hi). rewrite while_S, Hr, bind_OK. eauto.
Qed.

(** More fuel does not change a result. *)
Lemma while_more_fuel n k s a :
  while n body s = OK a -> (n <= k)%nat -> while k body s = OK a.
Proof.
  revert k s. induction n as [|n IH]; intros k s H Hk; [discriminate|].
  destruct k as [|k]; [lia|]. rewrite while_S in H |- *.
  destruct (body s) as [[s'|b]| | |]; cbn in *; try discriminate; [|done].
  apply IH; [done|lia].
Qed.

(** Partial correctness: what holds at the end of any finished run. *)
Lemma while_inv (Inv : S -> Prop) (Post : A -> Prop) :
  (forall s r, Inv s -> body s = OK r ->
     match r with inl s' => Inv s' | inr a => Post a end) ->
  forall fuel s a, Inv s -> while fuel body s = OK a -> Post a.
Proof.
  intros Hbody fuel. induction fuel as [|fuel IH]; intros s a Hs H; [discriminate|].
  rewrite while_S in H. destruct (body s) as [r| | |] eqn:E; cbn in H; try discriminate.
  pose proof (Hbody _ _ Hs E) as Hr. destruct r; simplify_eq; eauto.
Qed.
End Loops.

(** [for (i = i0; i < i0 + n; i++) body(i)] *)
Fixpoint for_upto {S} (n : nat) (i : Z) (body : Z -> S -> outcome S) (s : S) : outcome S :=
  match n with
  | O => OK s
  | Datatypes.S n => s ← body i s; for_upto n (i + 1) body s
  end.

Lemma for_upto_inv {S} (P : Z -> S -> Prop) (body : Z -> S -> outcome S) n : forall i s,
  P i s ->
  (forall j s, i <= j < i + Z.of_nat n -> P j s -> exists s', body j s = OK s' /\ P (j + 1) s') ->
  exists s', for_upto n i body s = OK s' /\ P (i + Z.of_nat n) s'.
Proof.
  induction n as [|n IH]; intros i s Hi Hbody; cbn [for_upto].
  - exists s. by rewrite Z.add_0_r.
  - destruct (Hbody i s) as (s1 & -> & H1); [lia|done|]. rewrite bind_OK.
    destruct (IH (i + 1) s1 H1) as (s' & -> & Hs').
    + intros j s2 Hj. apply Hbody. lia.
    + exists s'. split; [done|]. by replace (i + Z.of_nat (Datatypes.S n)) with (i + 1 + Z.of_nat n) by lia.
Qed.

(** ** Machine integers *)

Declare Scope uhyve_scope.
Delimit Scope uhyve_scope with uhyve.

Definition u8 (z : Z) : Z := z mod 2 ^ 8.
Definition u16 (z : Z) : Z := z mod 2 ^ 16.
Definition u32 (z : Z) : Z := z mod 2 ^ 32.
Definition u64 (z : Z) : Z := z mod 2 ^ 64.

(** Two's complement reading of the low [w] bits. *)
Definition signed (w z : Z) : Z :=
  let u := z mod 2 ^ w in if u <? 2 ^ (w - 1) then u else u - 2 ^ w.
Definition s32 (z : Z) : Z := signed 32 z.
Definition s64 (z : Z) : Z := signed 64 z.

Definition is_u32 (z : Z) : Prop := 0 <= z < 2 ^ 32.
Definition is_u64 (z : Z) : Prop := 0 <= z < 2 ^ 64.

(** Bit tests of the C code, [x & m] used as a condition. *)
Definition has (x m : Z) : bool := negb (Z.land x m =? 0).

Notation "x .& y" := (Z.land x y) (at level 40, left associativity) : uhyve_scope.
Notation "x .| y" := (Z.lor x y) (at level 50, left associativity) : uhyve_scope.
Notation "x << n" := (Z.shiftl x n) (at level 38, left associativity) : uhyve_scope.
Notation "x >> n" := (Z.shiftr x n) (at level 38, left associativity) : uhyve_scope.

Lemma u64_small z : is_u64 z -> u64 z = z.
Proof. apply Z.mod_small. Qed.
Lemma u32_small z : is_u32 z -> u32 z = z.
Proof. apply Z.mod_small. Qed.
Lemma u64_range z : is_u64 (u64 z).
Proof. apply Z.mod_pos_bound. lia. Qed.
Lemma u32_range z : is_u32 (u32 z).
Proof. apply Z.mod_pos_bound. lia. Qed.
Lemma u8_range z : 0 <= u8 z < 256.
Proof. apply Z.mod_pos_bound. lia. Qed.
Lemma u64_idem z : u64 (u64 z) = u64 z.
Proof. apply Z.mod_mod. lia. Qed.

Lemma signed_small w z : 0 < w -> - 2 ^ (w - 1) <= z < 2 ^ (w - 1) -> signed w z = z.
Proof.
  intros Hw Hz. unfold signed.
  assert (2 ^ w = 2 * 2 ^ (w - 1)) as Hp.
  { rewrite <- Z.pow_succ_r by lia. f_equal. lia. }
  destruct (Z.leb_spec 0 z).
  - rewrite Z.mod_small by lia. destruct (Z.ltb_spec z (2 ^ (w - 1))); lia.
  - replace (z mod 2 ^ w) with (z + 2 ^ w)
      by (apply Z.mod_unique with (-1); lia).
    destruct (Z.ltb_spec (z + 2 ^ w) (2 ^ (w - 1))); lia.
Qed.

Lemma testbit_above_pow2 z n i : 0 <= z < 2 ^ n -> n <= i -> Z.testbit z i = false.
Proof.
  intros Hz Hi. destruct (Z.leb_spec 0 n) as [Hn|Hn].
  - rewrite <- (Z.mod_small z (2 ^ n)) by done. by apply Z.mod_pow2_bits_high.
  - rewrite Z.pow_neg_r in Hz by done. lia.
Qed.

Lemma land_ones_mod z n : 0 <= n -> Z.land z (Z.ones n) = z mod 2 ^ n.
Proof. apply Z.land_ones. Qed.

Lemma land_bounds x m : 0 <= m -> 0 <= Z.land x m <= m.
Proof.
  intros Hm. assert (0 <= Z.land x m) by (apply Z.land_nonneg; lia). split; [done|].
  assert (m - Z.land x m = Z.ldiff m (Z.land x m)) as E.
  { apply Z.sub_nocarry_ldiff. apply Z.bits_inj'. intros i _.
    rewrite Z.ldiff_spec, Z.land_spec, Z.bits_0.
    by destruct (Z.testbit x i), (Z.testbit m i). }
  assert (0 <= Z.ldiff m (Z.land x m)) by (apply Z.ldiff_nonneg; lia). lia.
Qed.

(** An [or] of two words without common bits is their sum. *)
Lemma lor_add_disjoint a b n :
  0 <= n -> 0 <= b < 2 ^ n -> a mod 2 ^ n = 0 -> Z.lor a b = a + b.
Proof.
  intros Hn Hb Ha.
  assert (Z.land a b = 0) as E; [|pose proof (Z.add_lor_land a b); lia].
  apply Z.bits_inj'. intros i Hi. rewrite Z.land_spec, Z.bits_0.
  destruct (Z.ltb_spec i n).
  - rewrite <- (Z.mod_pow2_bits_low a n i) by lia. rewrite Ha, Z.bits_0. done.
  - rewrite (testbit_above_pow2 b n i) by lia. apply andb_false_r.
Qed.

Lemma has_pow2 x k : 0 <= k -> has x (2 ^ k) = Z.testbit x k.
Proof.
  intros Hk. unfold has. destruct (Z.testbit x k) eqn:E.
  - destruct (Z.eqb_spec (Z.land x (2 ^ k)) 0) as [H|]; [|done].
    apply (f_equal (fun z => Z.testbit z k)) in H.
    rewrite Z.land_spec, E, Z.pow2_bits_true, Z.bits_0 in H by done. done.
  - destruct (Z.eqb_spec (Z.land x (2 ^ k)) 0) as [|H]; [done|]. destruct H.
    apply Z.bits_inj'. intros i Hi. rewrite Z.land_spec, Z.pow2_bits_eqb, Z.bits_0 by done.
    destruct (Z.eqb_spec k i); subst; [by rewrite E|apply andb_false_r].
Qed.

(** The low bits of a word with an aligned high part. *)
Lemma testbit_aligned a b n k :
  0 <= k < n -> Z.testbit (a * 2 ^ n + b) k = Z.testbit b k.
Proof.
  intros Hk. rewrite <- (Z.mod_pow2_bits_low _ n) by lia.
  rewrite Z.add_comm, Z.mod_add by lia. by rewrite Z.mod_pow2_bits_low by lia.
Qed.

(** *** Packed bit fields

    [fields] normalises reads of masked and shifted fields out of words that
    were assembled from masked and shifted fields: it distributes masks over
    [or], evaluates the constant masks, and merges what remains. *)

Lemma shiftr_shiftl a n m : 0 <= m <= n -> Z.shiftr (Z.shiftl a n) m = Z.shiftl a (n - m).
Proof. intros. by rewrite Z.shiftr_shiftl_l by lia. Qed.
Lemma shiftr_shiftl_r a n m : 0 <= n <= m -> Z.shiftr (Z.shiftl a n) m = Z.shiftr a (m - n).
Proof. intros. by rewrite Z.shiftr_shiftl_r by lia. Qed.

Ltac pos_literal p :=
  lazymatch p with xH => idtac | xO ?q => pos_literal q | xI ?q => pos_literal q end.
Ltac Z_literal z :=
  lazymatch z with Z0 => idtac | Zpos ?p => pos_literal p | Zneg ?p => pos_literal p end.
Ltac ground1 op :=
  repeat match goal with
  | |- context [op ?c ?n] =>
      Z_literal c; Z_literal n;
      let r := eval vm_compute in (op c n) in change (op c n) with r
  end.
Ltac ground_bits :=
  repeat progress (ground1 Z.land; ground1 Z.lor; ground1 Z.shiftl; ground1 Z.shiftr;
                   ground1 Z.sub; ground1 Z.add).
Ltac fields :=
  rewrite ?Z.shiftl_land, ?Z.land_lor_distr_l, <- ?Z.land_assoc; ground_bits;
  rewrite ?Z.land_0_r, ?Z.lor_0_l, ?Z.lor_0_r, ?Z.shiftr_lor, ?Z.shiftr_land, ?Z.shiftr_0_l;
  rewrite ?shiftr_shiftl, ?shiftr_shiftl_r by lia; ground_bits;
  rewrite ?Z.shiftl_0_r, ?Z.shiftr_0_r, ?Z.lor_0_l, ?Z.lor_0_r, <- ?Z.land_lor_distr_r;
  ground_bits.

(** ** Bytes and C strings *)

#[export] Instance byte_eq_dec : EqDecision byte := Byte.byte_eq_dec.

(** A string literal of the source, without its terminating NUL. *)
Definition str (s : string) : list byte := String.list_byte_of_string s.
Definition NUL : byte := Byte.x00.

Lemma byte_unsigned_range b : 0 <= byte.unsigned b < 256.
Proof. apply byte.unsigned_range. Qed.

Lemma byte_of_unsigned b : byte.of_Z (byte.unsigned b) = b.
Proof. apply byte.of_Z_unsigned. Qed.

Lemma byte_unsigned_of_small z : 0 <= z < 256 -> byte.unsigned (byte.of_Z z) = z.
Proof. intros. rewrite byte.unsigned_of_Z. by apply Z.mod_small. Qed.

(** ** Lists *)

Lemma seq_lookup_Z (n i : nat) : (i < n)%nat -> seq 0 n !! i = Some i.
Proof. intros. rewrite lookup_seq. split; lia. Qed.

(** ** Automation *)

Create HintDb uhyve.
Create Rewrite HintDb uhyve.
#[export] Hint Resolve u64_range u32_range u8_range byte_unsigned_range : uhyve.
#[export] Hint Rewrite @bind_OK u64_idem byte_of_unsigned : uhyve.

(** Case analysis on the boolean comparisons in sight. *)
Ltac zbool :=
  repeat match goal with
  | |- context [?a <? ?b] => destruct (Z.ltb_spec a b)
  | |- context [?a <=? ?b] => destruct (Z.leb_spec a b)
  | |- context [?a =? ?b] => destruct (Z.eqb_spec a b)
  | H : context [?a <? ?b] |- _ => destruct (Z.ltb_spec a b)
  | H : context [?a <=? ?b] |- _ => destruct (Z.leb_spec a b)
  | H : context [?a =? ?b] |- _ => destruct (Z.eqb_spec a b)
  end.

Lemma signed_mod w z : 0 <= w -> signed w (z mod 2 ^ w) = signed w z.
Proof. intros. unfold signed. by rewrite Z.mod_mod by lia. Qed.
