(* ===== verification/GuestMem.v ===== *)
(** * Guest memory

    The anonymous mapping [guest_mem] of [guest_size] bytes that
    [init_kvm_arch] creates (src/uhyve-x86_64.c).  A host pointer
    [guest_mem + x] is the offset [x].  The mapping is zero-filled, so a byte
    that was never written reads as zero; an access that leaves
    [0 .. guest_size - 1] is undefined behaviour of the host process and yields
    [Undefined].  Multi-byte accesses are little endian, as on the x86_64 and
    aarch64 hosts uhyve runs on. *)

From S2P Require Import Prelude.

Record gmem := mkmem { msize : Z; mbytes : gmap Z byte }.

Definition fresh_mem (size : Z) : gmem := mkmem size ∅.

Definition peek (m : gmem) (a : Z) : byte := default NUL (mbytes m !! a).
Definition peekn (m : gmem) (a : Z) (n : nat) : list byte :=
  (fun i => peek m (a + Z.of_nat i)) <$> seq 0 n.

Fixpoint pokes (b : gmap Z byte) (a : Z) (bs : list byte) : gmap Z byte :=
  match bs with
  | [] => b
  | x :: bs => pokes (<[a := x]> b) (a + 1) bs
  end.
Definition poken (m : gmem) (a : Z) (bs : list byte) : gmem :=
  mkmem (msize m) (pokes (mbytes m) a bs).

Definition in_range (m : gmem) (a n : Z) : bool := (0 <=? a) && (a + n <=? msize m).

Definition load (m : gmem) (a : Z) (n : nat) : outcome (list byte) :=
  if in_range m a (Z.of_nat n) then OK (peekn m a n) else Undefined.
Definition store (m : gmem) (a : Z) (bs : list byte) : outcome gmem :=
  if in_range m a (Z.of_nat (length bs)) then OK (poken m a bs) else Undefined.

Definition load_le (n : nat) (m : gmem) (a : Z) : outcome Z := le_combine <$> load m a n.
Definition store_le (n : nat) (m : gmem) (a v : Z) : outcome gmem := store m a (le_split n v).

Abbreviation load8 := (load_le 1).
Abbreviation load16 := (load_le 2).
Abbreviation load32 := (load_le 4).
Abbreviation load64 := (load_le 8).
Abbreviation store8 := (store_le 1).
Abbreviation store16 := (store_le 2).
Abbreviation store32 := (store_le 4).
Abbreviation store64 := (store_le 8).

(** [memset(p, 0, n)] *)
Definition memset0 (m : gmem) (a : Z) (n : nat) : outcome gmem := store m a (replicate n NUL).

(** ** Reading back *)

Lemma pokes_lookup bs : forall b a x,
  pokes b a bs !! x =
  if (a <=? x) && (x <? a + Z.of_nat (length bs)) then bs !! Z.to_nat (x - a) else b !! x.
Proof.
  induction bs as [|c bs IH]; intros b a x; cbn [pokes length].
  - zbool; cbn; try done; lia.
  - rewrite IH. destruct (decide (a = x)) as [->|Hne].
    + rewrite Z.sub_diag. zbool; cbn; try lia. by rewrite lookup_insert_eq.
    + rewrite lookup_insert_ne by done. zbool; cbn; try lia; try done.
      replace (Z.to_nat (x - a)) with (S (Z.to_nat (x - (a + 1)))) by lia. done.
Qed.

Lemma peek_poken m a bs x :
  peek (poken m a bs) x =
  if (a <=? x) && (x <? a + Z.of_nat (length bs))
  then default NUL (bs !! Z.to_nat (x - a)) else peek m x.
Proof. unfold peek, poken; cbn. rewrite pokes_lookup. by case_match. Qed.

Lemma peek_poken_out m a bs x :
  x < a \/ a + Z.of_nat (length bs) <= x -> peek (poken m a bs) x = peek m x.
Proof. intros. rewrite peek_poken. zbool; cbn; try done; lia. Qed.

Lemma length_peekn m a n : length (peekn m a n) = n.
Proof. unfold peekn. by rewrite length_fmap, length_seq. Qed.

Lemma lookup_peekn m a n i :
  (i < n)%nat -> peekn m a n !! i = Some (peek m (a + Z.of_nat i)).
Proof. intros. unfold peekn. by rewrite list_lookup_fmap, seq_lookup_Z. Qed.

Lemma peekn_ext m m' a n :
  (forall x, a <= x < a + Z.of_nat n -> peek m x = peek m' x) -> peekn m a n = peekn m' a n.
Proof.
  intros H. unfold peekn. apply list_fmap_ext. intros i x Hi.
  apply lookup_seq in Hi as [-> Hi]. apply H. lia.
Qed.

Lemma peekn_app m a n k : peekn m a (n + k) = peekn m a n ++ peekn m (a + Z.of_nat n) k.
Proof.
  unfold peekn. rewrite seq_app, fmap_app. f_equal.
  rewrite Nat.add_0_l. rewrite <- (Nat.add_0_r n) at 1. rewrite <- fmap_add_seq, <- list_fmap_compose.
  apply list_fmap_ext. intros i x _. cbn. f_equal. lia.
Qed.

Lemma peekn_poken_same m a bs : peekn (poken m a bs) a (length bs) = bs.
Proof.
  apply list_eq_same_length with (length bs); [done|by rewrite length_peekn|].
  intros i x y Hi Hx Hy. rewrite lookup_peekn in Hx by done. simplify_eq.
  rewrite peek_poken. zbool; cbn; try lia.
  replace (Z.to_nat (a + Z.of_nat i - a)) with i by lia. by rewrite Hy.
Qed.

Lemma peekn_poken_out m a bs x n :
  x + Z.of_nat n <= a \/ a + Z.of_nat (length bs) <= x ->
  peekn (poken m a bs) x n = peekn m x n.
Proof. intros. apply peekn_ext. intros. apply peek_poken_out. lia. Qed.

Lemma in_range_true m a n : in_range m a n = true <-> 0 <= a /\ a + n <= msize m.
Proof. unfold in_range. rewrite andb_true_iff, !Z.leb_le. done. Qed.

Lemma load_ok m a n : 0 <= a -> a + Z.of_nat n <= msize m -> load m a n = OK (peekn m a n).
Proof. intros. unfold load. by rewrite (proj2 (in_range_true _ _ _)). Qed.

Lemma store_ok m a bs :
  0 <= a -> a + Z.of_nat (length bs) <= msize m -> store m a bs = OK (poken m a bs).
Proof. intros. unfold store. by rewrite (proj2 (in_range_true _ _ _)). Qed.

Lemma load_inv m a n bs :
  load m a n = OK bs -> 0 <= a /\ a + Z.of_nat n <= msize m /\ bs = peekn m a n.
Proof.
  unfold load. destruct (in_range m a (Z.of_nat n)) eqn:E; [|done].
  apply in_range_true in E as []. intros [= <-]. done.
Qed.

Lemma store_inv m a bs m' :
  store m a bs = OK m' ->
  0 <= a /\ a + Z.of_nat (length bs) <= msize m /\ m' = poken m a bs.
Proof.
  unfold store. destruct (in_range m a (Z.of_nat (length bs))) eqn:E; [|done].
  apply in_range_true in E as []. intros [= <-]. done.
Qed.

Lemma store_size m a bs m' : store m a bs = OK m' -> msize m' = msize m.
Proof. intros (_ & _ & ->)%store_inv. done. Qed.

Lemma load_store_same m a bs m' : store m a bs = OK m' -> load m' a (length bs) = OK bs.
Proof.
  intros (? & ? & ->)%store_inv. rewrite load_ok by (cbn; done). by rewrite peekn_poken_same.
Qed.

Lemma load_store_other m a bs m' x n :
  store m a bs = OK m' ->
  x + Z.of_nat n <= a \/ a + Z.of_nat (length bs) <= x ->
  load m' x n = load m x n.
Proof.
  intros (? & ? & ->)%store_inv Hd. unfold load, in_range. cbn [msize poken].
  rewrite peekn_poken_out by done. done.
Qed.

(** ** Little-endian words *)

Lemma load_le_ok n m a :
  0 <= a -> a + Z.of_nat n <= msize m -> load_le n m a = OK (le_combine (peekn m a n)).
Proof. intros. unfold load_le. by rewrite load_ok. Qed.

Lemma load_le_range n m a v : load_le n m a = OK v -> 0 <= v < 2 ^ (8 * Z.of_nat n).
Proof.
  unfold load_le. intros (bs & Hl & ->)%fmap_OK_inv. apply load_inv in Hl as (_ & _ & ->).
  pose proof (le_combine_bound (peekn m a n)) as H. by rewrite length_peekn in H.
Qed.

Lemma load64_range m a v : load64 m a = OK v -> is_u64 v.
Proof. apply load_le_range. Qed.

Lemma store_le_ok n m a v :
  0 <= a -> a + Z.of_nat n <= msize m -> store_le n m a v = OK (poken m a (le_split n v)).
Proof. intros. unfold store_le. rewrite store_ok; rewrite ?length_le_split; done. Qed.

Lemma store_le_inv n m a v m' :
  store_le n m a v = OK m' ->
  0 <= a /\ a + Z.of_nat n <= msize m /\ m' = poken m a (le_split n v).
Proof. unfold store_le. intros H%store_inv. by rewrite length_le_split in H. Qed.

Lemma load_le_poken_same n m a v :
  0 <= a -> a + Z.of_nat n <= msize m ->
  load_le n (poken m a (le_split n v)) a = OK (v mod 2 ^ (Z.of_nat n * 8)).
Proof.
  intros. rewrite load_le_ok by done. f_equal. rewrite <- le_combine_split. f_equal.
  rewrite <- (peekn_poken_same m a (le_split n v)) at 2. by rewrite length_le_split.
Qed.

Lemma load_le_poken_other n m a bs x :
  x + Z.of_nat n <= a \/ a + Z.of_nat (length bs) <= x ->
  load_le n (poken m a bs) x = load_le n m x.
Proof.
  intros. unfold load_le, load, in_range. cbn [msize poken]. by rewrite peekn_poken_out.
Qed.

(** *** Single bytes *)

Lemma load8_peek m a : 0 <= a < msize m -> load8 m a = OK (byte.unsigned (peek m a)).
Proof.
  intros H. rewrite load_le_ok by (cbn; lia). f_equal. unfold peekn. cbn.
  rewrite Z.add_0_r. apply Z.lor_0_r.
Qed.

Lemma peek_poken1 m a b x : peek (poken m a [b]) x = if decide (x = a) then b else peek m x.
Proof.
  rewrite peek_poken. cbn [length]. case_decide as H.
  - subst. rewrite (proj2 (Z.leb_le _ _)), (proj2 (Z.ltb_lt _ _)), Z.sub_diag by lia. done.
  - destruct (Z.leb_spec a x), (Z.ltb_spec x (a + Z.of_nat 1)); cbn [andb]; try done. lia.
Qed.

Lemma le_split_byte b : le_split 1 (byte.unsigned b) = [b].
Proof. by destruct b. Qed.

(** A load only depends on the bytes it reads. *)
Lemma load_le_ext n m m' a :
  msize m = msize m' -> (forall x, a <= x < a + Z.of_nat n -> peek m x = peek m' x) ->
  load_le n m a = load_le n m' a.
Proof.
  intros Hs Hp. unfold load_le, load, in_range. rewrite Hs. destruct (_ && _); [|done].
  by rewrite (peekn_ext m m').
Qed.

(** ** Extensional equality of memories *)

#[export] Instance gmem_equiv : Equiv gmem := fun m m' =>
  msize m = msize m' /\ forall a, peek m a = peek m' a.

#[export] Instance gmem_equivalence : Equivalence (≡@{gmem}).
Proof.
  split.
  - intros m. split; done.
  - intros m m' [H1 H2]. split; [done|]. intros. by rewrite H2.
  - intros m1 m2 m3 [H1 H2] [H3 H4]. split; [congruence|]. intros. by rewrite H2, H4.
Qed.

#[export] Instance msize_proper : Proper ((≡) ==> (=)) msize.
Proof. by intros m m' [H _]. Qed.

#[export] Instance peek_proper : Proper ((≡) ==> (=) ==> (=)) peek.
Proof. intros m m' [_ H] a ? <-. apply H. Qed.

#[export] Instance load_proper : Proper ((≡) ==> (=) ==> (=) ==> (=)) load.
Proof.
  intros m m' E a ? <- n ? <-. unfold load, in_range. rewrite E. case_match; [|done].
  f_equal. apply peekn_ext. intros. by rewrite E.
Qed.

#[export] Instance load_le_proper n : Proper ((≡) ==> (=) ==> (=)) (load_le n).
Proof. intros m m' E a ? <-. unfold load_le. by rewrite E. Qed.

#[export] Instance poken_proper : Proper ((≡) ==> (=) ==> (=) ==> (≡)) poken.
Proof.
  intros m m' E a ? <- bs ? <-. split; [apply E|]. intros x. rewrite !peek_poken, E. done.
Qed.

(** Writing back what was there restores the memory. *)
Lemma poken_restore m a bs :
  poken (poken m a bs) a (peekn m a (length bs)) ≡ m.
Proof.
  split; [done|]. intros x. rewrite peek_poken, length_peekn.
  destruct (Z.leb_spec a x); cbn; [|rewrite peek_poken_out by lia; done].
  destruct (Z.ltb_spec x (a + Z.of_nat (length bs)));
    [|rewrite peek_poken_out by lia; done].
  rewrite lookup_peekn by lia. cbn. f_equal. lia.
Qed.

(** Two writes to disjoint ranges commute. *)
Lemma poken_comm m a bs a' bs' :
  a + Z.of_nat (length bs) <= a' \/ a' + Z.of_nat (length bs') <= a ->
  poken (poken m a bs) a' bs' ≡ poken (poken m a' bs') a bs.
Proof.
  intros H. split; [done|]. intros x. rewrite !peek_poken. zbool; cbn; try done; lia.
Qed.

#[export] Hint Resolve gmem_equivalence : uhyve.
