(* ===== verification/Paging.v ===== *)
(** * Address translation on x86_64

    The page-table walker of src/uhyve-x86_64.c ([virt_to_phys],
    [virt_to_phys_for_table]), the page masks it uses, and
    [determine_dest_offset], which maps a saved page-table entry back to the
    offset of its page.  [AddrTranslation] is the interface the hypercalls use
    (Hypercall.v): the header src/uhyve.h declares one [virt_to_phys] and each
    architecture implements it. *)

From S2P Require Import Prelude GuestMem.

Open Scope uhyve_scope.

(** ** Page constants *)

Definition PAGE_BITS : Z := 12.
Definition PAGE_2M_BITS : Z := 21.
Definition PAGE_SIZE : Z := 1 << PAGE_BITS.
Definition PAGE_MAP_BITS : Z := 9.
Definition PAGE_MAP_MASK : Z := 0x1FF.
Definition PG_PRESENT : Z := 1 << 0.
Definition PG_ACCESSED : Z := 1 << 5.
Definition PG_DIRTY : Z := 1 << 6.
Definition PG_PSE : Z := 1 << 7.
Definition PG_XD : Z := 1 << 63.

(** [~x] on a 64-bit word, and [~0UL]. *)
Definition not64 (x : Z) : Z := u64 (Z.lnot x).
Definition ONES64 : Z := not64 0.

Definition PAGE_MASK : Z := u64 (ONES64 << PAGE_BITS) .& not64 PG_XD.
Definition PAGE_2M_MASK : Z := u64 (ONES64 << PAGE_2M_BITS) .& not64 PG_XD.

Definition BOOT_PML4 : Z := 0x10000.
Definition BOOT_PDPTE : Z := 0x11000.
Definition BOOT_PDE : Z := 0x12000.

(** ** The walker *)

(** The two out parameters as a pair (physical address, end of its page);
    they stay (0, 0) when the address is not mapped. *)
Fixpoint virt_to_phys_for_table (m : gmem) (virtual_address table : Z) (level : nat)
  : outcome (Z * Z) :=
  let lv := Z.of_nat level * PAGE_MAP_BITS in
  let index := virtual_address >> PAGE_BITS >> lv .& PAGE_MAP_MASK in
  let page_mask := u64 (u64 (ONES64 << PAGE_BITS) << lv) .& not64 PG_XD in
  let page_size := PAGE_SIZE << lv in
  entry ← load64 m (table + 8 * index);
  if has entry PG_PRESENT then
    let leaf :=
      let phy := entry .& page_mask in
      let off := virtual_address .& not64 page_mask in
      OK (phy .| off, u64 (phy + page_size)) in
    match level with
    | O => leaf
    | S level' =>
        if (Z.of_nat level <? 3) && has entry PG_PSE then leaf
        else
          let phy := entry .& PAGE_MASK in
          virt_to_phys_for_table m virtual_address phy level'
    end
  else OK (0, 0).

Definition virt_to_phys (m : gmem) (virtual_address : Z) : outcome (Z * Z) :=
  virt_to_phys_for_table m virtual_address BOOT_PML4 3.

(** Where a saved page-table entry puts its page ([load_checkpoint], RDMA). *)
Definition determine_dest_offset (src_addr : Z) : Z :=
  if has src_addr PG_PSE then src_addr .& PAGE_2M_MASK else src_addr .& PAGE_MASK.

(** ** Mask arithmetic *)

Lemma land_high_mask x k :
  0 <= k <= 63 -> x .& (2 ^ 63 - 2 ^ k) = 2 ^ k * ((x mod 2 ^ 63) / 2 ^ k).
Proof.
  intros Hk.
  replace (2 ^ 63 - 2 ^ k) with (Z.ldiff (Z.ones 63) (Z.ones k)).
  - rewrite Z.ldiff_land, Z.land_assoc, <- Z.ldiff_land, Z.land_ones by lia.
    rewrite Z.ldiff_ones_r, Z.shiftl_mul_pow2, Z.shiftr_div_pow2 by lia. lia.
  - rewrite Z.ldiff_ones_r, Z.shiftl_mul_pow2, Z.shiftr_div_pow2 by lia.
    rewrite Z.ones_equiv. replace (2 ^ 63) with (2 ^ (63 - k) * 2 ^ k)
      by (rewrite <- Z.pow_add_r by lia; f_equal; lia).
    assert (0 < 2 ^ k) by lia.
    rewrite <- Z.sub_1_r.
    replace (2 ^ (63 - k) * 2 ^ k - 1) with ((2 ^ (63 - k) - 1) * 2 ^ k + (2 ^ k - 1)) by lia.
    rewrite Z.div_add_l, Z.div_small by lia. lia.
Qed.

Lemma land_low_mask x k :
  0 <= k < 63 -> x .& (2 ^ 63 + 2 ^ k - 1) = x mod 2 ^ k + 2 ^ 63 * Z.b2z (Z.testbit x 63).
Proof.
  intros Hk.
  replace (2 ^ 63 + 2 ^ k - 1) with (Z.lor (2 ^ 63) (Z.ones k)).
  - rewrite Z.land_lor_distr_r, Z.land_ones by lia.
    assert (x .& 2 ^ 63 = 2 ^ 63 * Z.b2z (Z.testbit x 63)) as ->.
    { apply Z.bits_inj'. intros i Hi. rewrite Z.land_spec, Z.pow2_bits_eqb by lia.
      destruct (Z.testbit x 63) eqn:E; cbn [Z.b2z].
      - rewrite Z.mul_1_r, Z.pow2_bits_eqb by lia. destruct (Z.eqb_spec 63 i); subst;
          [by rewrite E|apply andb_false_r].
      - rewrite Z.mul_0_r, Z.bits_0. destruct (Z.eqb_spec 63 i); subst;
          [by rewrite E|apply andb_false_r]. }
    rewrite Z.add_comm. apply lor_add_disjoint with k; [lia|apply Z.mod_pos_bound; lia|].
    replace (2 ^ 63) with (2 ^ (63 - k) * 2 ^ k)
      by (rewrite <- Z.pow_add_r by lia; f_equal; lia).
    rewrite <- Z.mul_assoc, (Z.mul_comm (2 ^ k)), Z.mul_assoc. apply Z.mod_mul. lia.
  - rewrite lor_add_disjoint with (n := k); rewrite ?Z.ones_equiv; try lia.
    replace (2 ^ 63) with (2 ^ (63 - k) * 2 ^ k)
      by (rewrite <- Z.pow_add_r by lia; f_equal; lia).
    apply Z.mod_mul. lia.
Qed.

Definition page_bits (level : nat) : Z := PAGE_BITS + PAGE_MAP_BITS * Z.of_nat level.

Lemma page_mask_level level :
  (level <= 3)%nat ->
  u64 (u64 (ONES64 << PAGE_BITS) << (Z.of_nat level * PAGE_MAP_BITS)) .& not64 PG_XD
  = 2 ^ 63 - 2 ^ page_bits level.
Proof. intros. do 4 (destruct level as [|level]; [reflexivity|]). lia. Qed.

Lemma off_mask_level level :
  (level <= 3)%nat -> not64 (2 ^ 63 - 2 ^ page_bits level) = 2 ^ 63 + 2 ^ page_bits level - 1.
Proof. intros. do 4 (destruct level as [|level]; [reflexivity|]). lia. Qed.

Lemma page_size_level level :
  (level <= 3)%nat -> PAGE_SIZE << (Z.of_nat level * PAGE_MAP_BITS) = 2 ^ page_bits level.
Proof. intros. do 4 (destruct level as [|level]; [reflexivity|]). lia. Qed.

Lemma PAGE_MASK_eq : PAGE_MASK = 2 ^ 63 - 2 ^ 12.
Proof. reflexivity. Qed.
Lemma PAGE_2M_MASK_eq : PAGE_2M_MASK = 2 ^ 63 - 2 ^ 21.
Proof. reflexivity. Qed.

Lemma page_bits_bounds level : (level <= 3)%nat -> 12 <= page_bits level <= 39.
Proof. unfold page_bits, PAGE_BITS, PAGE_MAP_BITS. lia. Qed.

Definition pt_index (va : Z) (level : nat) : Z := (va / 2 ^ page_bits level) mod 512.

Lemma index_level va level :
  va >> PAGE_BITS >> (Z.of_nat level * PAGE_MAP_BITS) .& PAGE_MAP_MASK = pt_index va level.
Proof.
  unfold pt_index, page_bits, PAGE_BITS, PAGE_MAP_BITS, PAGE_MAP_MASK.
  change 0x1FF with (Z.ones 9). rewrite Z.land_ones, Z.shiftr_shiftr, Z.shiftr_div_pow2 by lia.
  do 3 f_equal. lia.
Qed.

(** The page frame an entry names at a level, and the walker in those terms. *)
Definition frame (entry : Z) (level : nat) : Z :=
  2 ^ page_bits level * ((entry mod 2 ^ 63) / 2 ^ page_bits level).

Definition off_high (va : Z) (level : nat) : Z :=
  va mod 2 ^ page_bits level + 2 ^ 63 * Z.b2z (Z.testbit va 63).

Definition leaf_result (va entry : Z) (level : nat) : Z * Z :=
  (frame entry level .| off_high va level, u64 (frame entry level + 2 ^ page_bits level)).

Lemma walk_unfold m va table level :
  (level <= 3)%nat ->
  virt_to_phys_for_table m va table level =
  (entry ← load64 m (table + 8 * pt_index va level);
   if has entry PG_PRESENT then
     match level with
     | O => OK (leaf_result va entry level)
     | S level' =>
         if (Z.of_nat level <? 3) && has entry PG_PSE then OK (leaf_result va entry level)
         else virt_to_phys_for_table m va (frame entry 0) level'
     end
   else OK (0, 0)).
Proof.
  intros Hl. pose proof (page_bits_bounds level Hl).
  destruct level; cbn [virt_to_phys_for_table];
    rewrite index_level; destruct (load64 _ _); cbn [mbind outcome_bind]; try done;
    unfold leaf_result, frame, off_high;
    rewrite ?page_mask_level, ?page_size_level, ?off_mask_level, ?PAGE_MASK_eq,
      ?land_high_mask, ?land_low_mask by lia; done.
Qed.

(** ** Translations stay inside a page *)

Lemma frame_range entry level :
  (level <= 3)%nat ->
  0 <= frame entry level /\ frame entry level + 2 ^ page_bits level <= 2 ^ 63 /\
  frame entry level mod 2 ^ page_bits level = 0.
Proof.
  intros Hl. pose proof (page_bits_bounds level Hl) as Hb. unfold frame.
  set (k := page_bits level) in *.
  pose proof (Z.mod_pos_bound entry (2 ^ 63) ltac:(lia)) as He.
  set (x := entry mod 2 ^ 63) in *.
  assert (2 ^ 63 = 2 ^ k * 2 ^ (63 - k)) as Hp
    by (rewrite <- Z.pow_add_r by lia; f_equal; lia).
  assert (0 <= x / 2 ^ k < 2 ^ (63 - k)) as Hq.
  { split; [apply Z.div_pos; lia|]. apply Z.div_lt_upper_bound; lia. }
  repeat split; [nia|nia|]. rewrite Z.mul_comm. apply Z.mod_mul. lia.
Qed.

Definition low_half (va : Z) : Prop := 0 <= va < 2 ^ 63.

Lemma leaf_low va entry level :
  (level <= 3)%nat -> low_half va ->
  leaf_result va entry level =
  (frame entry level + va mod 2 ^ page_bits level, frame entry level + 2 ^ page_bits level).
Proof.
  intros Hl Hva. pose proof (page_bits_bounds level Hl).
  destruct (frame_range entry level Hl) as (? & ? & ?).
  unfold leaf_result, off_high. rewrite (testbit_above_pow2 va 63) by (done || lia).
  cbn [Z.b2z]. rewrite Z.mul_0_r, Z.add_0_r, u64_small by (unfold is_u64; lia).
  rewrite lor_add_disjoint with (n := page_bits level); try lia; [done|].
  apply Z.mod_pos_bound. lia.
Qed.

Lemma div_coarser a b k K :
  0 <= k <= K -> a / 2 ^ k = b / 2 ^ k -> a / 2 ^ K = b / 2 ^ K.
Proof.
  intros Hk H. replace (2 ^ K) with (2 ^ k * 2 ^ (K - k))
    by (rewrite <- Z.pow_add_r by lia; f_equal; lia).
  rewrite <- !Z.div_div by lia. by rewrite H.
Qed.

Lemma same_page va i k :
  0 <= k -> 0 <= i < 2 ^ k - va mod 2 ^ k ->
  (va + i) / 2 ^ k = va / 2 ^ k /\ (va + i) mod 2 ^ k = va mod 2 ^ k + i.
Proof.
  intros Hk Hi. pose proof (Z.mod_pos_bound va (2 ^ k) ltac:(lia)).
  pose proof (Z.div_mod va (2 ^ k) ltac:(lia)).
  split; symmetry.
  - apply Z.div_unique with (va mod 2 ^ k + i); lia.
  - apply Z.mod_unique with (va / 2 ^ k); lia.
Qed.

Lemma leaf_page va entry level i :
  (level <= 3)%nat -> low_half va ->
  0 <= i < (leaf_result va entry level).2 - (leaf_result va entry level).1 ->
  (va + i) / 2 ^ page_bits level = va / 2 ^ page_bits level /\
  low_half (va + i) /\
  leaf_result (va + i) entry level =
    ((leaf_result va entry level).1 + i, (leaf_result va entry level).2).
Proof.
  intros Hl Hva. rewrite leaf_low by done. cbn. intros Hi.
  pose proof (page_bits_bounds level Hl). set (k := page_bits level) in *.
  destruct (same_page va i k) as [Hd Hm]; [lia|lia|].
  assert (low_half (va + i)) as Hlow.
  { unfold low_half in *. pose proof (Z.div_mod (va + i) (2 ^ k) ltac:(lia)).
    pose proof (Z.mod_pos_bound (va + i) (2 ^ k) ltac:(lia)).
    assert (va / 2 ^ k < 2 ^ (63 - k)).
    { apply Z.div_lt_upper_bound; [lia|]. rewrite <- Z.pow_add_r by lia.
      replace (k + (63 - k)) with 63 by lia. lia. }
    assert (2 ^ 63 = 2 ^ k * 2 ^ (63 - k)) by (rewrite <- Z.pow_add_r by lia; f_equal; lia).
    nia. }
  split; [done|]. split; [done|]. rewrite leaf_low by done. fold k. rewrite Hm. f_equal. lia.
Qed.

Lemma pt_index_same va va' level :
  va' / 2 ^ page_bits level = va / 2 ^ page_bits level -> pt_index va' level = pt_index va level.
Proof. unfold pt_index. by intros ->. Qed.

Lemma walk_page m : forall level va table p e,
  (level <= 3)%nat -> low_half va ->
  virt_to_phys_for_table m va table level = OK (p, e) ->
  (0 <= p <= e /\ e < 2 ^ 64) /\
  forall i, 0 <= i < e - p ->
    (va + i) / 2 ^ page_bits level = va / 2 ^ page_bits level /\
    low_half (va + i) /\
    virt_to_phys_for_table m (va + i) table level = OK (p + i, e).
Proof.
  assert (Hleaf : forall level va entry p e, (level <= 3)%nat -> low_half va ->
            leaf_result va entry level = (p, e) ->
            (0 <= p <= e /\ e < 2 ^ 64) /\ forall i, 0 <= i < e - p ->
              (va + i) / 2 ^ page_bits level = va / 2 ^ page_bits level /\
              low_half (va + i) /\ leaf_result (va + i) entry level = (p + i, e)).
  { intros level va entry p e Hl Hva H. split.
    - rewrite leaf_low in H by done. injection H as <- <-.
      destruct (frame_range entry level Hl).
      pose proof (page_bits_bounds level Hl).
      pose proof (Z.mod_pos_bound va (2 ^ page_bits level) ltac:(lia)). lia.
    - intros i Hi. pose proof (leaf_page va entry level i Hl Hva) as Hp.
      rewrite H in Hp. cbn in Hp. by apply Hp. }
  induction level as [|level IH]; intros va table p e Hl Hva H;
    rewrite walk_unfold in H by done;
    apply bind_OK_inv in H as (entry & Hload & H);
    (destruct (has entry PG_PRESENT) eqn:HP; [|simplify_eq; split; [lia|lia]]).
  - apply OK_inj in H. destruct (Hleaf 0%nat va entry p e Hl Hva) as [Hr Hi]; [done|].
    split; [done|]. intros i Hb. destruct (Hi i Hb) as (Hd & Hlow & E).
    split; [done|]. split; [done|]. rewrite walk_unfold by done.
    rewrite (pt_index_same va), Hload by done. cbn. by rewrite HP, E.
  - destruct ((Z.of_nat (S level) <? 3) && has entry PG_PSE) eqn:HS.
    + apply OK_inj in H. destruct (Hleaf (S level) va entry p e Hl Hva) as [Hr Hi]; [done|].
      split; [done|]. intros i Hb. destruct (Hi i Hb) as (Hd & Hlow & E).
      split; [done|]. split; [done|]. rewrite walk_unfold by done.
      rewrite (pt_index_same va), Hload by done. cbn [mbind outcome_bind].
      by rewrite HP, HS, E.
    + destruct (IH va (frame entry 0) p e) as [Hr Hi]; [lia|done|done|].
      split; [done|]. intros i Hb. destruct (Hi i Hb) as (Hd & Hlow & E).
      assert ((va + i) / 2 ^ page_bits (S level) = va / 2 ^ page_bits (S level)) as Hd'.
      { apply div_coarser with (page_bits level); [|done].
        unfold page_bits, PAGE_BITS, PAGE_MAP_BITS. lia. }
      split; [done|]. split; [done|]. rewrite walk_unfold by done.
      rewrite (pt_index_same va), Hload by done. cbn [mbind outcome_bind].
      by rewrite HP, HS, E.
Qed.

(** A table entry that is not a page, at the first index. *)
Lemma walk_table m va table level entry :
  (level < 3)%nat -> 0 <= va < 2 ^ page_bits (S level) ->
  load64 m table = OK entry -> has entry PG_PRESENT = true ->
  (Z.of_nat (S level) <? 3) && has entry PG_PSE = false ->
  virt_to_phys_for_table m va table (S level) =
  virt_to_phys_for_table m va (frame entry 0) level.
Proof.
  intros Hl Hva Hload HP HS. rewrite walk_unfold by lia. unfold pt_index.
  rewrite Z.div_small by done. change (8 * (0 mod 512)) with 0.
  by rewrite Z.add_0_r, Hload, bind_OK, HP, HS.
Qed.

(** ** The interface to the hypercalls *)

(** A translation mechanism, and what its clients rely on: translating an
    address gives the rest of one page, on which translation is linear. *)
Class AddrTranslation (T : Type) := translate : T -> Z -> outcome (Z * Z).

Class PageTranslation (T : Type) `{AddrTranslation T} (va_ok : Z -> Prop) := {
  translate_range : forall t va p e,
    va_ok va -> translate t va = OK (p, e) -> 0 <= p <= e /\ e < 2 ^ 64;
  translate_page : forall t va p e i,
    va_ok va -> translate t va = OK (p, e) -> 0 <= i < e - p ->
    va_ok (va + i) /\ translate t (va + i) = OK (p + i, e)
}.

#[export] Instance x86_translation : AddrTranslation gmem := virt_to_phys.

#[export] Instance x86_page_translation : PageTranslation gmem low_half.
Proof.
  split; unfold translate, x86_translation, virt_to_phys.
  - intros t va p e Hva H. by apply walk_page in H as [? _]; [|lia|].
  - intros t va p e i Hva H Hi. apply walk_page in H as [_ H]; [|lia|done].
    by destruct (H i Hi) as (_ & ? & ?).
Qed.

(** ** Addresses of the upper half *)

(** The offset mask is the complement of a frame mask without bit 63 (the NX
    bit of an entry), so it keeps bit 63 of the virtual address. *)
Lemma leaf_high va entry level :
  (level <= 3)%nat -> 2 ^ 63 <= va < 2 ^ 64 -> 2 ^ 63 <= (leaf_result va entry level).1.
Proof.
  intros Hl Hva. pose proof (page_bits_bounds level Hl).
  destruct (frame_range entry level Hl) as (? & ? & ?).
  unfold leaf_result, off_high. cbn [fst].
  assert (Z.testbit va 63 = true) as ->.
  { apply Z.testbit_true; [lia|].
    replace (va / 2 ^ 63) with 1; [done|]. apply Z.div_unique with (va - 2 ^ 63); lia. }
  cbn [Z.b2z]. pose proof (Z.mod_pos_bound va (2 ^ page_bits level) ltac:(lia)).
  pose proof (Z.add_lor_land (frame entry level)
    (va mod 2 ^ page_bits level + 2 ^ 63 * 1)) as E.
  pose proof (land_bounds (frame entry level)
    (va mod 2 ^ page_bits level + 2 ^ 63 * 1) ltac:(lia)).
  pose proof (land_bounds (va mod 2 ^ page_bits level + 2 ^ 63 * 1) (frame entry level) ltac:(lia)).
  rewrite Z.land_comm in E. lia.
Qed.

(** An address of the upper half is never translated into guest memory: the
    result is "not mapped" or a physical address of at least 2^63, even where
    the page tables map it (the boot tables map themselves at the top of the
    address space). *)
Theorem high_half_translation m va p e :
  2 ^ 63 <= va < 2 ^ 64 -> virt_to_phys m va = OK (p, e) -> (p, e) = (0, 0) \/ 2 ^ 63 <= p.
Proof.
  intros Hva. unfold virt_to_phys. generalize BOOT_PML4 as table.
  assert (Hleaf : forall level entry, (level <= 3)%nat ->
    OK (leaf_result va entry level) = OK (p, e) -> (p, e) = (0, 0) \/ 2 ^ 63 <= p).
  { intros level entry Hl H%OK_inj. right.
    pose proof (leaf_high va entry level Hl Hva) as Hp. by rewrite H in Hp. }
  enough (forall level table, (level <= 3)%nat ->
    virt_to_phys_for_table m va table level = OK (p, e) -> (p, e) = (0, 0) \/ 2 ^ 63 <= p)
    by eauto.
  induction level as [|level IH]; intros table Hl H; rewrite walk_unfold in H by done;
    apply bind_OK_inv in H as (entry & _ & H);
    (destruct (has entry PG_PRESENT); [|left; congruence]).
  - by apply (Hleaf 0%nat entry).
  - destruct ((Z.of_nat (S level) <? 3) && has entry PG_PSE); [|by eapply IH; [lia|]].
    by apply (Hleaf (S level) entry).
Qed.

(** The top page of a table that maps itself at its last entry. *)
Definition self_mapped : gmem := poken (fresh_mem 0x20000) (BOOT_PML4 + 8 * 511)
  (le_split 8 (BOOT_PML4 + 3)).

Lemma high_half_translation_witness :
  virt_to_phys self_mapped 0xFFFFFFFFFFFFF010 = OK (2 ^ 63 + 0x10010, 0x11000) /\
  ((2 ^ 63 + 0x10010, 0x11000) = (0, 0) \/ 2 ^ 63 <= 2 ^ 63 + 0x10010).
Proof.
  assert (virt_to_phys self_mapped 0xFFFFFFFFFFFFF010 = OK (2 ^ 63 + 0x10010, 0x11000)) as E
    by (vm_compute; reflexivity).
  split; [exact E|].
  apply (high_half_translation self_mapped 0xFFFFFFFFFFFFF010 _ 0x11000); [lia|exact E].
Defined.
