(* ===== verification/Boot.v ===== *)
(** * Bringing up a virtual CPU on x86_64

    The boot part of src/uhyve-x86_64.c: the segment descriptors and page
    tables of [setup_system] and the CPUID filter of [setup_cpuid].  The order
    in which the cores come here is the matter of Smp.v. *)

From S2P Require Import Prelude GuestMem Paging.

Open Scope uhyve_scope.

(** ** Segment descriptors (uhyve-x86_64.h) *)

Definition GDT_GET_BASE (x : Z) : Z :=
  (x .& 0xFF00000000000000) >> 32 .| (x .& 0x000000FF00000000) >> 16
  .| (x .& 0x00000000FFFF0000) >> 16.
Definition GDT_GET_LIMIT (x : Z) : Z :=
  u32 ((x .& 0x000F000000000000) >> 32 .| (x .& 0x000000000000FFFF)).
Definition GDT_ENTRY (flags base limit : Z) : Z :=
  u64 ((base .& 0xff000000) << 32) .| u64 ((flags .& 0x0000f0ff) << 40)
  .| u64 ((limit .& 0x000f0000) << 32) .| u64 ((base .& 0x00ffffff) << 16)
  .| (limit .& 0x0000ffff).
Definition GDT_GET_G (x : Z) : Z := u8 ((x .& 0x0080000000000000) >> 55).
Definition GDT_GET_DB (x : Z) : Z := u8 ((x .& 0x0040000000000000) >> 54).
Definition GDT_GET_L (x : Z) : Z := u8 ((x .& 0x0020000000000000) >> 53).
Definition GDT_GET_AVL (x : Z) : Z := u8 ((x .& 0x0010000000000000) >> 52).
Definition GDT_GET_P (x : Z) : Z := u8 ((x .& 0x0000800000000000) >> 47).
Definition GDT_GET_DPL (x : Z) : Z := u8 ((x .& 0x0000600000000000) >> 45).
Definition GDT_GET_S (x : Z) : Z := u8 ((x .& 0x0000100000000000) >> 44).
Definition GDT_GET_TYPE (x : Z) : Z := u8 ((x .& 0x00000F0000000000) >> 40).

Record kvm_segment := mkseg {
  seg_base : Z; seg_limit : Z; seg_selector : Z; seg_type : Z; seg_present : Z;
  seg_dpl : Z; seg_db : Z; seg_s : Z; seg_l : Z; seg_g : Z; seg_avl : Z
}.

(** [GDT_TO_KVM_SEGMENT(seg, gdt_table, sel)], given the entry [gdt_table\[sel\]]. *)
Definition GDT_TO_KVM_SEGMENT (gdt_ent sel : Z) : kvm_segment :=
  {| seg_base := GDT_GET_BASE gdt_ent;
     seg_limit := GDT_GET_LIMIT gdt_ent;
     seg_selector := sel * 8;
     seg_type := GDT_GET_TYPE gdt_ent;
     seg_present := GDT_GET_P gdt_ent;
     seg_dpl := GDT_GET_DPL gdt_ent;
     seg_db := GDT_GET_DB gdt_ent;
     seg_s := GDT_GET_S gdt_ent;
     seg_l := GDT_GET_L gdt_ent;
     seg_g := GDT_GET_G gdt_ent;
     seg_avl := GDT_GET_AVL gdt_ent |}.

(** The fields of [struct kvm_sregs] that uhyve names. *)
Record kvm_sregs := mksregs {
  cs : kvm_segment; ds : kvm_segment; es : kvm_segment; fs : kvm_segment;
  gs : kvm_segment; ss : kvm_segment;
  gdt_base : Z; gdt_limit : Z;
  cr0 : Z; cr3 : Z; cr4 : Z; efer : Z
}.

Definition X86_CR0_PE : Z := 1 << 0.
Definition X86_CR0_PG : Z := 1 << 31.
Definition X86_CR4_PAE : Z := 1 << 5.
Definition EFER_LME : Z := 1 << 8.
Definition EFER_LMA : Z := 1 << 10.
Definition EFER_NX : Z := 1 << 11.
Definition X86_PDPT_P : Z := 1 << 0.
Definition X86_PDPT_RW : Z := 1 << 1.
Definition X86_PDPT_PS : Z := 1 << 7.
Definition GUEST_PAGE_SIZE : Z := 0x200000.
Definition BOOT_GDT : Z := 0x1000.
Definition BOOT_GDT_NULL : Z := 0.
Definition BOOT_GDT_CODE : Z := 1.
Definition BOOT_GDT_DATA : Z := 2.
Definition BOOT_GDT_MAX : Z := 3.

Definition setup_system_64bit (sregs : kvm_sregs) : kvm_sregs :=
  let '(mksregs cs ds es fs gs ss gb gl cr0 cr3 cr4 efer) := sregs in
  mksregs cs ds es fs gs ss gb gl (cr0 .| X86_CR0_PE) cr3 (cr4 .| X86_CR4_PAE)
    (efer .| (EFER_LME .| EFER_LMA .| EFER_NX)).

(** The loop over the 512 entries of the page directory: [n] are left. *)
Fixpoint setup_pde (m : gmem) (paddr i : Z) (n : nat) : outcome gmem :=
  match n with
  | O => OK m
  | S n =>
      m ← store64 m (BOOT_PDE + 8 * i) (paddr .| (X86_PDPT_P .| X86_PDPT_RW .| X86_PDPT_PS));
      setup_pde m (u64 (paddr + GUEST_PAGE_SIZE)) (i + 1) n
  end.

Definition setup_system_page_tables (sregs : kvm_sregs) (m : gmem)
  : outcome (kvm_sregs * gmem) :=
  m ← memset0 m BOOT_PML4 4096;
  m ← memset0 m BOOT_PDPTE 4096;
  m ← memset0 m BOOT_PDE 4096;
  m ← store64 m (BOOT_PML4 + 8 * 0) (BOOT_PDPTE .| (X86_PDPT_P .| X86_PDPT_RW));
  m ← store64 m (BOOT_PML4 + 8 * 511) (BOOT_PML4 .| (X86_PDPT_P .| X86_PDPT_RW));
  m ← store64 m (BOOT_PDPTE + 8 * 0) (BOOT_PDE .| (X86_PDPT_P .| X86_PDPT_RW));
  m ← setup_pde m 0 0 512;
  let '(mksregs cs ds es fs gs ss gb gl cr0 _ cr4 efer) := sregs in
  OK (mksregs cs ds es fs gs ss gb gl (cr0 .| X86_CR0_PG) BOOT_PML4
        (cr4 .| X86_CR4_PAE) efer, m).

Definition setup_system_gdt (sregs : kvm_sregs) (m : gmem) (off : Z)
  : outcome (kvm_sregs * gmem) :=
  m ← store64 m (off + 8 * BOOT_GDT_NULL) (GDT_ENTRY 0 0 0);
  m ← store64 m (off + 8 * BOOT_GDT_CODE) (GDT_ENTRY 0xA09B 0 0xFFFFF);
  m ← store64 m (off + 8 * BOOT_GDT_DATA) (GDT_ENTRY 0xC093 0 0xFFFFF);
  code_ent ← load64 m (off + 8 * BOOT_GDT_CODE);
  data_ent ← load64 m (off + 8 * BOOT_GDT_DATA);
  let code_seg := GDT_TO_KVM_SEGMENT code_ent BOOT_GDT_CODE in
  let data_seg := GDT_TO_KVM_SEGMENT data_ent BOOT_GDT_DATA in
  let '(mksregs _ _ _ _ _ _ _ _ cr0 cr3 cr4 efer) := sregs in
  OK (mksregs code_seg data_seg data_seg data_seg data_seg data_seg
        off (8 * BOOT_GDT_MAX - 1) cr0 cr3 cr4 efer, m).

(** [setup_system]: the static [sregs] is shared by all cores; core 0 reads
    its own registers into it and initialises it, every core installs it. The
    result is the static and the memory; the installed registers are the
    static. *)
Definition setup_system (static_sregs vcpu_sregs : kvm_sregs) (m : gmem) (id : Z)
  : outcome (kvm_sregs * gmem) :=
  if id =? 0 then
    '(sregs, m) ← setup_system_gdt vcpu_sregs m BOOT_GDT;
    '(sregs, m) ← setup_system_page_tables sregs m;
    OK (setup_system_64bit sregs, m)
  else OK (static_sregs, m).

(** ** Descriptor encoding *)

Lemma land_ones_small x m n :
  0 <= n -> m = Z.ones n -> 0 <= x < 2 ^ n -> x .& m = x.
Proof. intros ? -> Hx. rewrite Z.land_ones by done. by apply Z.mod_small. Qed.

Lemma GDT_ENTRY_raw flags base limit :
  GDT_ENTRY flags base limit =
  (base .& 0xff000000) << 32 .| (flags .& 0x0000f0ff) << 40
  .| (limit .& 0x000f0000) << 32 .| (base .& 0x00ffffff) << 16
  .| (limit .& 0x0000ffff).
Proof.
  assert (H : forall x m s, 0 <= m -> m << s < 2 ^ 64 -> 0 <= s ->
                u64 ((x .& m) << s) = (x .& m) << s).
  { intros x m s Hm Hs Hs0. apply u64_small. rewrite Z.shiftl_mul_pow2 in * by done.
    pose proof (land_bounds x m Hm).
    unfold is_u64. nia. }
  unfold GDT_ENTRY. by rewrite !H by (done || lia).
Qed.

Ltac gdt_field :=
  rewrite GDT_ENTRY_raw; cbv beta delta [GDT_GET_BASE GDT_GET_LIMIT GDT_GET_TYPE GDT_GET_S
    GDT_GET_DPL GDT_GET_P GDT_GET_AVL GDT_GET_L GDT_GET_DB GDT_GET_G]; fields.

Lemma u8_masked x m : 0 <= m < 256 -> u8 (x .& m) = x .& m.
Proof.
  intros Hm. apply Z.mod_small. pose proof (land_bounds x m). lia.
Qed.

(** The descriptor a segment is encoded in decodes to the same segment: base
    and limit are recovered, and each attribute is its bit field of [flags]. *)
Theorem gdt_entry_decode flags base limit :
  0 <= base < 2 ^ 32 -> 0 <= limit < 2 ^ 20 -> forall sel,
  GDT_TO_KVM_SEGMENT (GDT_ENTRY flags base limit) sel =
  {| seg_base := base; seg_limit := limit; seg_selector := sel * 8;
     seg_type := flags .& 0xF;
     seg_present := (flags >> 7) .& 1;
     seg_dpl := (flags >> 5) .& 3;
     seg_db := (flags >> 14) .& 1;
     seg_s := (flags >> 4) .& 1;
     seg_l := (flags >> 13) .& 1;
     seg_g := (flags >> 15) .& 1;
     seg_avl := (flags >> 12) .& 1 |}.
Proof.
  intros Hb Hl sel. unfold GDT_TO_KVM_SEGMENT. f_equal; gdt_field;
    try (rewrite u8_masked by lia; done).
  - by apply land_ones_small with 32.
  - rewrite (land_ones_small limit _ 20) by (done || lia).
    apply u32_small. unfold is_u32. lia.
Qed.

Lemma gdt_entry_decode_witness :
  GDT_TO_KVM_SEGMENT (GDT_ENTRY 0xA09B 0x12345678 0xFFFFF) 1 =
  mkseg 0x12345678 0xFFFFF 8 0xB 1 0 0 1 1 1 0.
Proof. rewrite gdt_entry_decode; [reflexivity|lia|lia]. Defined.

(** ** The boot page tables *)

Lemma pde_value i :
  0 <= i < 512 ->
  (i * GUEST_PAGE_SIZE) .| (X86_PDPT_P .| X86_PDPT_RW .| X86_PDPT_PS) =
  i * GUEST_PAGE_SIZE + 0x83.
Proof.
  intros. unfold GUEST_PAGE_SIZE. change (_ .| X86_PDPT_PS) with 0x83.
  apply lor_add_disjoint with 21; [lia|lia|].
  change 0x200000 with (2 ^ 21). apply Z.mod_mul. lia.
Qed.

Lemma poken_entry_other m a v x :
  x + 8 <= a \/ a + 8 <= x -> load64 (poken m a (le_split 8 v)) x = load64 m x.
Proof. intros. apply load_le_poken_other. rewrite length_le_split. lia. Qed.

Lemma poken_entry_same m a v :
  0 <= a -> a + 8 <= msize m -> is_u64 v -> load64 (poken m a (le_split 8 v)) a = OK v.
Proof. intros. rewrite load_le_poken_same by done. f_equal. by apply Z.mod_small. Qed.

Lemma setup_pde_spec n : forall m i,
  0 <= i -> i + Z.of_nat n <= 512 -> BOOT_PDE + 4096 <= msize m ->
  exists m', setup_pde m (i * GUEST_PAGE_SIZE) i n = OK m' /\ msize m' = msize m /\
    (forall x, x + 8 <= BOOT_PDE + 8 * i -> load64 m' x = load64 m x) /\
    (forall x, x < BOOT_PDE + 8 * i \/ BOOT_PDE + 8 * (i + Z.of_nat n) <= x ->
       peek m' x = peek m x) /\
    (forall j, i <= j < i + Z.of_nat n ->
       load64 m' (BOOT_PDE + 8 * j) = OK (j * GUEST_PAGE_SIZE + 0x83)).
Proof.
  induction n as [|n IH]; intros m i Hi Hn Hm; cbn [setup_pde]; unfold BOOT_PDE in *.
  { exists m. repeat split; try done. intros. lia. }
  rewrite pde_value by lia. rewrite store_le_ok by lia. rewrite bind_OK.
  rewrite u64_small by (unfold is_u64, GUEST_PAGE_SIZE; lia).
  replace (i * GUEST_PAGE_SIZE + GUEST_PAGE_SIZE) with ((i + 1) * GUEST_PAGE_SIZE) by lia.
  set (m1 := poken _ _ _).
  destruct (IH m1 (i + 1)) as (m' & H1 & H2 & H3 & Hp & H4); [lia|lia|done|].
  exists m'. split; [done|]. split; [done|]. split; [|split].
  - intros x Hx. rewrite H3 by lia. apply poken_entry_other. lia.
  - intros x Hx. rewrite Hp by lia. apply peek_poken_out. rewrite length_le_split. lia.
  - intros j Hj. destruct (decide (j = i)) as [->|].
    + rewrite H3 by lia. unfold m1. apply poken_entry_same; [lia|lia|].
      unfold is_u64, GUEST_PAGE_SIZE. lia.
    + apply H4. lia.
Qed.

(** What the walker sees of the boot tables. *)
Definition boot_tables (m : gmem) : Prop :=
  load64 m BOOT_PML4 = OK (BOOT_PDPTE + 3) /\
  load64 m (BOOT_PML4 + 8 * 511) = OK (BOOT_PML4 + 3) /\
  load64 m BOOT_PDPTE = OK (BOOT_PDE + 3) /\
  (forall j, 0 < j < 511 -> load64 m (BOOT_PML4 + 8 * j) = OK 0) /\
  (forall j, 0 < j < 512 -> load64 m (BOOT_PDPTE + 8 * j) = OK 0) /\
  forall j, 0 <= j < 512 -> load64 m (BOOT_PDE + 8 * j) = OK (j * GUEST_PAGE_SIZE + 0x83).

Lemma load64_zeroed m a n x :
  0 <= a -> a + Z.of_nat n <= msize m -> a <= x -> x + 8 <= a + Z.of_nat n ->
  load64 (poken m a (replicate n NUL)) x = OK 0.
Proof.
  intros. rewrite load_le_ok by (cbn [msize poken]; lia). f_equal.
  rewrite <- (le_combine_0 8). f_equal. apply list_eq_same_length with 8%nat;
    [done|by rewrite length_peekn|]. intros i c d Hi Hc Hd.
  rewrite lookup_peekn in Hc by done. injection Hc as <-.
  rewrite peek_poken, length_replicate. zbool; cbn [andb]; try lia.
  rewrite lookup_replicate_2 by lia. cbn.
  do 8 (destruct i as [|i]; [cbn in Hd; unfold NUL; congruence|]). lia.
Qed.

Lemma page_tables_boot sregs m :
  0x13000 <= msize m ->
  exists sregs' m', setup_system_page_tables sregs m = OK (sregs', m') /\
    msize m' = msize m /\ boot_tables m' /\
    (forall x, x < BOOT_PML4 \/ BOOT_PDE + 4096 <= x -> peek m' x = peek m x) /\
    cr3 sregs' = BOOT_PML4 /\ cr4 sregs' = cr4 sregs .| X86_CR4_PAE /\
    cr0 sregs' = cr0 sregs .| X86_CR0_PG /\ efer sregs' = efer sregs /\
    cs sregs' = cs sregs /\ gdt_base sregs' = gdt_base sregs.
Proof.
  intros Hm. unfold setup_system_page_tables, memset0, BOOT_PML4, BOOT_PDPTE, BOOT_PDE.
  do 3 (rewrite store_ok by (rewrite ?length_replicate; cbn [msize poken]; lia);
        rewrite bind_OK).
  do 3 (rewrite store_le_ok by (cbn [msize poken]; lia); rewrite bind_OK).
  match goal with |- context [setup_pde ?x] => set (m1 := x) end.
  destruct (setup_pde_spec 512 m1 0) as (m' & H1 & H2 & H3 & Hp & H4);
    [lia|lia|unfold m1, BOOT_PDE; cbn [msize poken]; lia|].
  rewrite Z.mul_0_l in H1. rewrite H1, bind_OK. unfold BOOT_PDE in *.
  destruct sregs as [? ? ? ? ? ? ? ? ? ? ? ?]. do 2 eexists. split; [done|].
  split; [rewrite H2; done|]. split; [|split; [|done]].
  2:{ intros x Hx. rewrite Hp by lia. unfold m1.
      by rewrite !peek_poken_out by (rewrite ?length_le_split, ?length_replicate; lia). }
  unfold boot_tables, BOOT_PML4, BOOT_PDPTE, BOOT_PDE.
  repeat split.
  - rewrite H3 by lia. unfold m1. rewrite !poken_entry_other by lia.
    apply poken_entry_same; cbn [msize poken]; [lia|lia|done].
  - rewrite H3 by lia. unfold m1. rewrite poken_entry_other by lia.
    apply poken_entry_same; cbn [msize poken]; [lia|lia|done].
  - rewrite H3 by lia. unfold m1.
    apply poken_entry_same; cbn [msize poken]; [lia|lia|done].
  - intros j Hj. rewrite H3 by lia. unfold m1. rewrite !poken_entry_other by lia.
    rewrite !load_le_poken_other by (rewrite length_replicate; lia).
    apply load64_zeroed; lia.
  - intros j Hj. rewrite H3 by lia. unfold m1. rewrite !poken_entry_other by lia.
    rewrite load_le_poken_other by (rewrite length_replicate; lia).
    apply load64_zeroed; cbn [msize poken]; lia.
  - intros j Hj. apply H4. lia.
Qed.

Lemma has_pde j k :
  0 <= k < 21 -> has (j * GUEST_PAGE_SIZE + 0x83) (2 ^ k) = Z.testbit 0x83 k.
Proof.
  intros. rewrite has_pow2 by lia. change GUEST_PAGE_SIZE with (2 ^ 21).
  by rewrite testbit_aligned by lia.
Qed.

Lemma walk_boot_tables m va :
  boot_tables m -> 0 <= va < 2 ^ 30 ->
  virt_to_phys m va = OK (va, va / GUEST_PAGE_SIZE * GUEST_PAGE_SIZE + GUEST_PAGE_SIZE).
Proof.
  intros (H4 & _ & H3 & _ & _ & H2) Hva. unfold virt_to_phys.
  assert (pt_index va 3 = 0) as E3.
  { unfold pt_index. change (2 ^ page_bits 3) with (2 ^ 39). by rewrite Z.div_small by lia. }
  assert (pt_index va 2 = 0) as E2.
  { unfold pt_index. change (2 ^ page_bits 2) with (2 ^ 30). by rewrite Z.div_small by lia. }
  assert (pt_index va 1 = va / GUEST_PAGE_SIZE) as E1.
  { unfold pt_index. change (2 ^ page_bits 1) with GUEST_PAGE_SIZE. apply Z.mod_small.
    unfold GUEST_PAGE_SIZE. split; [apply Z.div_pos; lia|apply Z.div_lt_upper_bound; lia]. }
  rewrite walk_unfold, E3, Z.add_0_r, H4, bind_OK by lia.
  change (has (BOOT_PDPTE + 3) PG_PRESENT) with true. cbn [Z.ltb Z.compare andb].
  change (Z.of_nat 3 <? 3) with false. cbn [andb].
  change (frame (BOOT_PDPTE + 3) 0) with BOOT_PDPTE.
  rewrite walk_unfold, E2, Z.add_0_r, H3, bind_OK by lia.
  change (has (BOOT_PDE + 3) PG_PRESENT) with true.
  change ((Z.of_nat 2 <? 3) && has (BOOT_PDE + 3) PG_PSE) with false. cbn iota.
  change (frame (BOOT_PDE + 3) 0) with BOOT_PDE.
  assert (0 <= va / GUEST_PAGE_SIZE < 512) as Hj.
  { unfold GUEST_PAGE_SIZE. split; [apply Z.div_pos; lia|apply Z.div_lt_upper_bound; lia]. }
  rewrite walk_unfold, E1, H2, bind_OK by (done || lia).
  change PG_PRESENT with (2 ^ 0). change PG_PSE with (2 ^ 7). rewrite !has_pde by lia.
  change (Z.testbit 0x83 0) with true. change (Z.testbit 0x83 7) with true. cbn iota.
  change (Z.of_nat 1 <? 3) with true. cbn [andb].
  rewrite leaf_low by (unfold low_half; lia).
  change (2 ^ page_bits 1) with GUEST_PAGE_SIZE.
  assert (frame (va / GUEST_PAGE_SIZE * GUEST_PAGE_SIZE + 0x83) 1
          = va / GUEST_PAGE_SIZE * GUEST_PAGE_SIZE) as ->.
  { unfold frame. change (2 ^ page_bits 1) with GUEST_PAGE_SIZE.
    rewrite Z.mod_small by (unfold GUEST_PAGE_SIZE in *; lia).
    rewrite Z.add_comm, Z.div_add by done. rewrite (Z.div_small 0x83) by done. lia. }
  f_equal. f_equal. pose proof (Z.div_mod va GUEST_PAGE_SIZE ltac:(done)). lia.
Qed.

Lemma walk_boot_unmapped m va :
  boot_tables m -> 2 ^ 30 <= va < 2 ^ 47 -> virt_to_phys m va = OK (0, 0).
Proof.
  intros (H4 & _ & H3 & Hz4 & Hz3 & _) Hva. unfold virt_to_phys.
  rewrite walk_unfold by lia. unfold pt_index at 1.
  change (2 ^ page_bits 3) with (2 ^ 39).
  assert (0 <= va / 2 ^ 39 < 256).
  { split; [apply Z.div_pos; lia|apply Z.div_lt_upper_bound; lia]. }
  rewrite Z.mod_small by lia. destruct (decide (va / 2 ^ 39 = 0)) as [E|E].
  - rewrite E, Z.add_0_r, H4, bind_OK.
    change (has (BOOT_PDPTE + 3) PG_PRESENT) with true.
    change (Z.of_nat 3 <? 3) with false. cbn [andb].
    change (frame (BOOT_PDPTE + 3) 0) with BOOT_PDPTE.
    rewrite walk_unfold by lia. unfold pt_index at 1.
    change (2 ^ page_bits 2) with (2 ^ 30).
    assert (1 <= va / 2 ^ 30 < 512).
    { assert (va < 2 ^ 39) by (apply Z.div_small_iff in E; lia).
      split; [apply Z.div_le_lower_bound; lia|apply Z.div_lt_upper_bound; lia]. }
    rewrite Z.mod_small, Hz3 by lia. done.
  - rewrite Hz4 by lia. done.
Qed.

(** A register file and a fresh memory to evaluate the boot code on. *)
Definition null_segment : kvm_segment := mkseg 0 0 0 0 0 0 0 0 0 0 0.
Definition null_sregs : kvm_sregs :=
  mksregs null_segment null_segment null_segment null_segment null_segment null_segment
    0 0 0 0 0 0.

(** C25. The boot page tables map exactly the first GiB of the lower half of
    the address space, and map it onto itself in 2 MiB pages: translating an
    address below 2^30 gives that address and the end of its 2 MiB page, and an
    address from there up to 2^47 is not mapped. CR3 points at the tables and no
    byte outside them changes. *)
Theorem boot_identity_map sregs m :
  0x13000 <= msize m ->
  exists sregs' m', setup_system_page_tables sregs m = OK (sregs', m') /\
    cr3 sregs' = BOOT_PML4 /\
    (forall va, 0 <= va < 2 ^ 30 ->
       virt_to_phys m' va = OK (va, (va / GUEST_PAGE_SIZE + 1) * GUEST_PAGE_SIZE)) /\
    (forall va, 2 ^ 30 <= va < 2 ^ 47 -> virt_to_phys m' va = OK (0, 0)) /\
    (forall x, x < BOOT_PML4 \/ BOOT_PDE + 4096 <= x -> peek m' x = peek m x).
Proof.
  intros Hm. destruct (page_tables_boot sregs m Hm) as (s' & m' & E & _ & Hb & Hp & Hc & _).
  exists s', m'. split; [done|]. split; [done|]. split; [|split; [|done]].
  - intros va Hva. rewrite walk_boot_tables by done. do 2 f_equal. lia.
  - intros. by apply walk_boot_unmapped.
Qed.

Lemma boot_identity_map_witness :
  exists sregs' m',
    setup_system_page_tables null_sregs (fresh_mem 0x20000) = OK (sregs', m') /\
    virt_to_phys m' 0x345678 = OK (0x345678, 0x400000).
Proof.
  destruct (boot_identity_map null_sregs (fresh_mem 0x20000)) as (s & m & E & _ & H & _);
    [cbn; lia|].
  exists s, m. split; [exact E|]. rewrite H by lia. reflexivity.
Defined.

Lemma setup_system_gdt_ok sregs m off :
  0 <= off -> off + 24 <= msize m ->
  exists m', setup_system_gdt sregs m off = OK (
    {| cs := {| seg_base := 0; seg_limit := 0xFFFFF; seg_selector := 8; seg_type := 0xB;
                seg_present := 1; seg_dpl := 0; seg_db := 0; seg_s := 1; seg_l := 1;
                seg_g := 1; seg_avl := 0 |};
       ds := GDT_TO_KVM_SEGMENT (GDT_ENTRY 0xC093 0 0xFFFFF) 2;
       es := GDT_TO_KVM_SEGMENT (GDT_ENTRY 0xC093 0 0xFFFFF) 2;
       fs := GDT_TO_KVM_SEGMENT (GDT_ENTRY 0xC093 0 0xFFFFF) 2;
       gs := GDT_TO_KVM_SEGMENT (GDT_ENTRY 0xC093 0 0xFFFFF) 2;
       ss := GDT_TO_KVM_SEGMENT (GDT_ENTRY 0xC093 0 0xFFFFF) 2;
       gdt_base := off; gdt_limit := 23;
       cr0 := cr0 sregs; cr3 := cr3 sregs; cr4 := cr4 sregs; efer := efer sregs |}, m') /\
    msize m' = msize m /\
    load64 m' off = OK 0 /\
    load64 m' (off + 8) = OK (GDT_ENTRY 0xA09B 0 0xFFFFF) /\
    load64 m' (off + 16) = OK (GDT_ENTRY 0xC093 0 0xFFFFF) /\
    (forall x, x < off \/ off + 24 <= x -> peek m' x = peek m x).
Proof.
  intros Ho Hm. unfold setup_system_gdt, BOOT_GDT_NULL, BOOT_GDT_CODE, BOOT_GDT_DATA.
  do 3 (rewrite store_le_ok by (cbn [msize poken]; lia); rewrite bind_OK).
  match goal with |- context [load64 ?x _] => set (m3 := x) end.
  assert (load64 m3 (off + 8 * 1) = OK (GDT_ENTRY 0xA09B 0 0xFFFFF)) as E1.
  { unfold m3. rewrite poken_entry_other by lia.
    apply poken_entry_same; [lia|cbn [msize poken]; lia|done]. }
  assert (load64 m3 (off + 8 * 2) = OK (GDT_ENTRY 0xC093 0 0xFFFFF)) as E2.
  { unfold m3. apply poken_entry_same; [lia|cbn [msize poken]; lia|done]. }
  rewrite E1, bind_OK, E2, bind_OK. destruct sregs. exists m3.
  split; [done|]. split; [done|]. split; [|split; [|split; [|]]].
  - unfold m3. rewrite !poken_entry_other by lia. rewrite Z.add_0_r.
    apply poken_entry_same; [lia|cbn [msize poken]; lia|done].
  - by rewrite <- E1.
  - by rewrite <- E2.
  - intros x Hx. unfold m3. by rewrite !peek_poken_out by (rewrite length_le_split; lia).
Qed.

Lemma setup_system_boot static vcpu m :
  0x13000 <= msize m ->
  exists sregs m', setup_system static vcpu m 0 = OK (sregs, m') /\
    Z.testbit (cr0 sregs) 0 = true /\ Z.testbit (cr0 sregs) 31 = true /\
    Z.testbit (cr4 sregs) 5 = true /\
    Z.testbit (efer sregs) 8 = true /\ Z.testbit (efer sregs) 10 = true /\
    Z.testbit (efer sregs) 11 = true /\
    seg_l (cs sregs) = 1 /\ seg_db (cs sregs) = 0 /\ seg_present (cs sregs) = 1 /\
    (exists e, load64 m' (gdt_base sregs + seg_selector (cs sregs)) = OK e /\
       GDT_TO_KVM_SEGMENT e 1 = cs sregs) /\
    cr3 sregs = BOOT_PML4 /\ boot_tables m' /\ msize m' = msize m.
Proof.
  intros Hm. unfold setup_system. cbn [Z.eqb].
  destruct (setup_system_gdt_ok vcpu m BOOT_GDT) as (m1 & E1 & Hs1 & _ & Hcode & _ & _);
    [done|unfold BOOT_GDT; lia|]. rewrite E1, bind_OK.
  match goal with |- context [setup_system_page_tables ?s _] => set (s1 := s) end.
  destruct (page_tables_boot s1 m1) as (s2 & m2 & E2 & Hs2 & Hb & Hp & Hc3 & Hc4 & Hc0 & He & Hcs & Hgb);
    [lia|]. rewrite E2, bind_OK.
  destruct s2 as [cs2 ds2 es2 fs2 gs2 ss2 gb2 gl2 c0 c3 c4 ef].
  cbn in Hc3, Hc4, Hc0, He, Hcs, Hgb. subst. do 2 eexists. split; [reflexivity|].
  cbn [setup_system_64bit cr0 cr3 cr4 efer cs gdt_base seg_selector seg_l seg_db seg_present].
  rewrite !Z.lor_spec, !orb_true_r.
  repeat (split; [done|]). split; [|split; [done|split; [done|lia]]]. exists (GDT_ENTRY 0xA09B 0 0xFFFFF). split; [|done].
  rewrite <- Hcode. unfold load_le, load, in_range. rewrite Hs2.
  erewrite peekn_ext; [reflexivity|]. intros x Hx. apply Hp.
  unfold BOOT_GDT, BOOT_PML4 in *. cbn in Hx. lia.
Qed.

(** C26. [setup_system] brings the boot core into 64-bit mode with the tables it
    needs: protected mode, paging, PAE and EFER.LME/LMA/NX are on, CS is a
    present 64-bit code segment, the GDT in guest memory holds the descriptors
    the segments were loaded from, and CR3 points at page tables that map the
    first GiB onto itself; the GDT survives the construction of the tables. *)
Theorem setup_system_long_mode static vcpu m :
  0x13000 <= msize m ->
  exists sregs m', setup_system static vcpu m 0 = OK (sregs, m') /\
    Z.testbit (cr0 sregs) 0 = true /\ Z.testbit (cr0 sregs) 31 = true /\
    Z.testbit (cr4 sregs) 5 = true /\
    Z.testbit (efer sregs) 8 = true /\ Z.testbit (efer sregs) 10 = true /\
    Z.testbit (efer sregs) 11 = true /\
    seg_l (cs sregs) = 1 /\ seg_db (cs sregs) = 0 /\ seg_present (cs sregs) = 1 /\
    (exists e, load64 m' (gdt_base sregs + seg_selector (cs sregs)) = OK e /\
       GDT_TO_KVM_SEGMENT e 1 = cs sregs) /\
    cr3 sregs = BOOT_PML4 /\ boot_tables m'.
Proof.
  intros Hm. destruct (setup_system_boot static vcpu m Hm) as (r & m' & H). exists r, m'. tauto.
Qed.

Lemma setup_system_long_mode_witness :
  exists sregs m', setup_system null_sregs null_sregs (fresh_mem 0x20000) 0 = OK (sregs, m') /\
    cr3 sregs = 0x10000.
Proof.
  destruct (setup_system_long_mode null_sregs null_sregs (fresh_mem 0x20000))
    as (s & m & E & _ & _ & _ & _ & _ & _ & _ & _ & _ & _ & H & _); [cbn; lia|].
  exists s, m. split; [exact E|exact H].
Defined.

(** ** The CPUID filter *)

Record cpuid_entry := mkcpuid {
  function : Z; index : Z; flags : Z; eax : Z; ebx : Z; ecx : Z; edx : Z
}.

Definition CPUID_FUNC_PERFMON : Z := 0x0A.

Definition filter_entry (cap_tsc_deadline : bool) (e : cpuid_entry) : cpuid_entry :=
  let '(mkcpuid function index flags eax ebx ecx edx) := e in
  if function =? 1 then
    let ecx := ecx .| (1 << 31) in
    let ecx := if cap_tsc_deadline then ecx .| (1 << 24) else ecx in
    mkcpuid function index flags eax ebx ecx (edx .| (1 << 5))
  else if function =? CPUID_FUNC_PERFMON then mkcpuid function index flags 0x00 ebx ecx edx
  else e.

Definition filter_cpuid (cap_tsc_deadline : bool) (entries : list cpuid_entry)
  : list cpuid_entry := filter_entry cap_tsc_deadline <$> entries.

(** [KVM_GET_SUPPORTED_CPUID] with room for [max_entries]: [None] when KVM has
    more (E2BIG).  The result is what [KVM_SET_CPUID2] is given, if KVM takes it. *)
Definition setup_cpuid (cap_tsc_deadline : bool) (KVM_GET_SUPPORTED_CPUID : nat -> option (list cpuid_entry))
    (KVM_SET_CPUID2 : list cpuid_entry -> bool) : outcome (list cpuid_entry) :=
  let max_entries := 100%nat in
  match KVM_GET_SUPPORTED_CPUID max_entries with
  | None => Exited 1
  | Some entries =>
      let entries := filter_cpuid cap_tsc_deadline entries in
      if KVM_SET_CPUID2 entries then OK entries else Exited 1
  end.

Lemma testbit_set x b k :
  0 <= b -> 0 <= k -> Z.testbit (x .| (1 << b)) k = Z.testbit x k || (k =? b).
Proof.
  intros. rewrite Z.lor_spec, Z.shiftl_mul_pow2, Z.mul_1_l, Z.pow2_bits_eqb by lia.
  by rewrite Z.eqb_sym.
Qed.

(** The filter keeps the table's shape and every leaf but two. Leaf 1 gains
    exactly the hypervisor bit (ECX.31), the TSC-deadline bit when KVM has it
    (ECX.24) and the MSR bit (EDX.5); leaf 0xA reports no performance counters;
    filtering twice is filtering once. *)
Theorem filter_cpuid_spec cap entries :
  length (filter_cpuid cap entries) = length entries /\
  filter_cpuid cap (filter_cpuid cap entries) = filter_cpuid cap entries /\
  forall i e, entries !! i = Some e ->
    exists e', filter_cpuid cap entries !! i = Some e' /\
      function e' = function e /\ index e' = index e /\ ebx e' = ebx e /\
      eax e' = (if function e =? 0xA then 0 else eax e) /\
      forall k, 0 <= k ->
        Z.testbit (ecx e') k = Z.testbit (ecx e) k
          || ((function e =? 1) && ((k =? 31) || (cap && (k =? 24)))) /\
        Z.testbit (edx e') k = Z.testbit (edx e) k || ((function e =? 1) && (k =? 5)).
Proof.
  unfold filter_cpuid. split; [by rewrite length_fmap|]. split.
  - rewrite <- list_fmap_compose. apply list_fmap_ext. intros i [f ? ? ? ? ? ?] _.
    unfold compose, filter_entry.
    assert (H : forall a b, (a .| b) .| b = a .| b)
      by (intros; by rewrite <- Z.lor_assoc, Z.lor_diag).
    destruct (f =? 1) eqn:E1; [|destruct (f =? CPUID_FUNC_PERFMON) eqn:E2];
      rewrite ?E1, ?E2; try done.
    f_equal; [|apply H]. destruct cap; [|apply H].
    rewrite <- !Z.lor_assoc. done.
  - intros i e He. rewrite list_lookup_fmap, He. eexists. split; [done|].
    destruct e as [f ? ? ? ? ? ?]. unfold filter_entry, CPUID_FUNC_PERFMON.
    cbn [function index ebx eax ecx edx].
    destruct (Z.eqb_spec f 1) as [->|]; [|destruct (Z.eqb_spec f 0xA)];
      cbn [function index ebx eax ecx edx Z.eqb andb]; repeat (split; [done|]);
      intros k Hk; [|by rewrite !orb_false_r|by rewrite !orb_false_r].
    destruct cap; rewrite ?testbit_set by lia; rewrite ?orb_false_r, <- ?orb_assoc;
      split; done.
Qed.

(** The vCPU sees the host's CPUID filtered, or the process ends. *)
Lemma setup_cpuid_filters cap get set es :
  setup_cpuid cap get set = OK es <-> exists l, get 100%nat = Some l /\ es = filter_cpuid cap l /\ set es = true.
Proof.
  unfold setup_cpuid. destruct (get 100%nat) as [l|]; [|split; [done|by intros (? & ? & _)]].
  destruct (set (filter_cpuid cap l)) eqn:E; split.
  - intros [= <-]. by exists l.
  - by intros (l' & [= <-] & -> & _).
  - done.
  - intros (l' & [= <-] & -> & H). congruence.
Qed.
