(* ===== verification/Smp.v ===== *)
(** * Starting the cores, saving and restoring them

    [init_cpu_state], [save_cpu_state] and [restore_cpu_state] of
    src/uhyve-x86_64.c.  The vCPU threads start concurrently; the loop on
    [kheader->cpu_online] lets one core at a time into the guest's startup
    code.  What [vcpu_loop] does between [init_cpu_state] and [KVM_RUN], the
    barrier of the debugger among it, is in Launch.v.  The interleaving is a step relation on the state the threads share. *)

From stdpp Require Import functions.
From S2P Require Import Prelude GuestMem Paging Boot.

(** ** The boot order *)

(** Where a core is in [init_cpu_state] and after it. *)
Inductive phase :=
| Waiting                              (* in the while loop *)
| Passed                               (* behind the loop *)
| Claimed                              (* current_boot_id written *)
| Loaded                               (* setup_system done *)
| Started                              (* KVM_SET_REGS done, in startup code *)
| Online.                              (* the guest has counted the core *)

#[export] Instance phase_eq_dec : EqDecision phase.
Proof. solve_decision. Defined.

Definition past_loop (p : phase) : bool :=
  match p with Waiting => false | _ => true end.
Definition in_startup (p : phase) : bool :=
  match p with Passed | Claimed | Loaded | Started => true | _ => false end.
Definition has_claimed (p : phase) : bool :=
  match p with Claimed | Loaded | Started => true | _ => false end.
Definition has_sregs (p : phase) : bool :=
  match p with Loaded | Started | Online => true | _ => false end.

Record smp := mksmp {
  cpu_online : Z;                      (* kheader->cpu_online *)
  current_boot_id : Z;                 (* kheader->current_boot_id *)
  static_sregs : kvm_sregs;            (* the static variable of setup_system *)
  smem : gmem;
  phases : Z -> phase;
  vcpu_sregs : Z -> option kvm_sregs   (* what KVM_SET_SREGS gave the core *)
}.

(** What [setup_system] leaves for the cores behind the first. *)
Definition long_mode (r : kvm_sregs) : Prop :=
  Z.testbit (cr0 r) 0 = true /\ Z.testbit (cr0 r) 31 = true /\ Z.testbit (cr4 r) 5 = true /\
  Z.testbit (efer r) 8 = true /\ Z.testbit (efer r) 10 = true /\ cr3 r = BOOT_PML4.

Lemma setup_system_long r0 r m :
  0x13000 <= msize m ->
  exists sregs m', setup_system r0 r m 0 = OK (sregs, m') /\ long_mode sregs /\
    msize m' = msize m.
Proof.
  intros Hm. destruct (setup_system_boot r0 r m Hm) as (sregs & m' & H).
  exists sregs, m'. unfold long_mode. tauto.
Qed.

Section BootOrder.
Context (ncores : Z) (get_sregs : Z -> kvm_sregs).

Definition set_phase (s : smp) (c : Z) (p : phase) : smp :=
  mksmp (cpu_online s) (current_boot_id s) (static_sregs s) (smem s)
    (<[c := p]> (phases s)) (vcpu_sregs s).

(** The next step of the thread of core [c] in [init_cpu_state]. *)
Definition init_cpu_step (c : Z) (s : smp) : outcome smp :=
  match phases s c with
  | Waiting =>
      (* while (kheader->cpu_online < cpuid) pthread_yield(); *)
      OK (if cpu_online s <? c then s else set_phase s c Passed)
  | Passed =>
      (* kheader->current_boot_id = cpuid; *)
      OK (mksmp (cpu_online s) c (static_sregs s) (smem s) (<[c := Claimed]> (phases s))
            (vcpu_sregs s))
  | Claimed =>
      (* setup_system(vcpufd, guest_mem, cpuid); *)
      '(sregs, m) ← setup_system (static_sregs s) (get_sregs c) (smem s) c;
      OK (mksmp (cpu_online s) (current_boot_id s) sregs m (<[c := Loaded]> (phases s))
            (<[c := Some sregs]> (vcpu_sregs s)))
  | Loaded =>
      (* kvm_ioctl(vcpufd, KVM_SET_REGS, &regs); *)
      OK (set_phase s c Started)
  | Started | Online => OK s
  end.

(** The guest's startup code counts the core it has booted. *)
Definition guest_online (c : Z) (s : smp) : smp :=
  match phases s c with
  | Started => mksmp (cpu_online s + 1) (current_boot_id s) (static_sregs s) (smem s)
                 (<[c := Online]> (phases s)) (vcpu_sregs s)
  | _ => s
  end.

Inductive smp_step : smp -> smp -> Prop :=
| step_host c s s' : 0 <= c < ncores -> init_cpu_step c s = OK s' -> smp_step s s'
| step_guest c s : 0 <= c < ncores -> smp_step s (guest_online c s).

Definition smp_init (sregs : kvm_sregs) (m : gmem) : smp :=
  mksmp 0 0 sregs m (fun _ => Waiting) (fun _ => None).

Record smp_inv (s : smp) : Prop := {
  inv_online : forall c, phases s c = Online <-> 0 <= c < cpu_online s;
  inv_past : forall c, past_loop (phases s c) = true -> 0 <= c <= cpu_online s;
  inv_claim : forall c, has_claimed (phases s c) = true -> current_boot_id s = c;
  inv_count : 0 <= cpu_online s;
  inv_sregs : forall c, vcpu_sregs s c =
    if has_sregs (phases s c) then Some (static_sregs s) else None;
  inv_mem : 0x13000 <= msize (smem s);
  inv_mode : has_sregs (phases s 0) = true -> long_mode (static_sregs s)
}.

Lemma smp_inv_init sregs m : 0x13000 <= msize m -> smp_inv (smp_init sregs m).
Proof. intros Hm. split; cbn; try done. intros c. split; [done|lia]. Qed.

(** A core that is behind the loop and not counted is the next to be counted. *)
Lemma in_startup_next s c : smp_inv s -> in_startup (phases s c) = true -> c = cpu_online s.
Proof.
  intros Hi Hc. pose proof (inv_past s Hi c) as Hp. pose proof (inv_online s Hi c) as Ho.
  destruct (decide (phases s c = Online)) as [E|Hne]; [by rewrite E in Hc|].
  assert (past_loop (phases s c) = true) by (by destruct (phases s c)).
  specialize (Hp ltac:(done)).
  destruct (Z.ltb_spec c (cpu_online s)); [|lia]. destruct Hne. apply Ho. lia.
Qed.

Lemma claimed_startup p : has_claimed p = true -> in_startup p = true.
Proof. by destruct p. Qed.

(** Moving core [c] from a phase in startup to another one of the host side. *)
Lemma smp_inv_move c p s online boot sregs m loaded :
  smp_inv s -> p <> Online -> phases s c <> Online -> 0 <= c -> c = cpu_online s ->
  past_loop p = true -> online = cpu_online s ->
  (has_claimed p = true -> boot = c) ->
  (forall d, d <> c -> loaded d = vcpu_sregs s d) ->
  (forall d, d <> c -> has_sregs (phases s d) = true -> sregs = static_sregs s) ->
  loaded c = (if has_sregs p then Some sregs else None) ->
  0x13000 <= msize m ->
  (has_sregs (<[c := p]> (phases s) 0) = true -> long_mode sregs) ->
  smp_inv (mksmp online boot sregs m (<[c := p]> (phases s)) loaded).
Proof.
  intros Hi Hp Hno Hc Hcc Hpast -> Hboot Hld Hst Hlc Hm Hmode. pose proof Hi as [Ho Hpa Hcl Hn Hr _ _].
  split; cbn [phases cpu_online current_boot_id vcpu_sregs static_sregs smem]; try done.
  - intros d. unfold insert, fn_insert. destruct (decide (c = d)) as [<-|]; [|apply Ho].
    split; [done|lia].
  - intros d. unfold insert, fn_insert. destruct (decide (c = d)) as [<-|]; [lia|apply Hpa].
  - intros d. unfold insert, fn_insert. destruct (decide (c = d)) as [<-|Hne]; [done|].
    intros Hd. pose proof (in_startup_next s d Hi (claimed_startup _ Hd)). lia.
  - intros d. unfold insert, fn_insert. destruct (decide (c = d)) as [<-|Hne]; [done|].
    rewrite Hld, Hr by done. destruct (has_sregs (phases s d)) eqn:E; [|done].
    by rewrite (Hst d).
Qed.

Lemma smp_inv_host c s s' :
  0 <= c -> smp_inv s -> init_cpu_step c s = OK s' -> smp_inv s'.
Proof.
  intros Hc Hi H. pose proof Hi as [Ho Hp Hcl Hn Hr Hm Hl]. unfold init_cpu_step in H.
  pose proof (in_startup_next s c Hi) as Hnext. pose proof (Ho c) as Hoc.
  pose proof (Hr c) as Hrc. pose proof (Hcl c) as Hclc.
  assert (has_sregs (phases s c) = false -> has_sregs (<[c := Passed]> (phases s) 0) = true ->
          long_mode (static_sregs s)) as H0.
  { unfold insert, fn_insert. by destruct (decide (c = 0)). }
  destruct (phases s c) eqn:E; cbn [has_sregs has_claimed in_startup] in *.
  - destruct (Z.ltb_spec (cpu_online s) c); simplify_eq; [done|].
    assert (c = cpu_online s).
    { destruct (Z.eqb_spec c (cpu_online s)); [done|]. rewrite <- E in Hoc.
      assert (phases s c = Online) by (apply Ho; lia). congruence. }
    apply smp_inv_move; rewrite ?E; try done. by apply H0.
  - simplify_eq. apply smp_inv_move; rewrite ?E; try done; [by apply Hnext|].
    unfold insert, fn_insert in H0 |- *. destruct (decide (c = 0)); [done|by apply H0].
  - apply bind_OK_inv in H as ([sregs m] & Hset & H). simplify_eq.
    assert (long_mode sregs /\ msize m = msize (smem s) /\
            (c <> 0 -> sregs = static_sregs s)) as (Hlong & Hms & Hsame).
    { destruct (decide (c = 0)) as [->|Hne].
      - destruct (setup_system_long (static_sregs s) (get_sregs 0) (smem s) Hm)
          as (r & m' & E' & ? & ?). rewrite E' in Hset. by simplify_eq.
      - unfold setup_system in Hset. rewrite (proj2 (Z.eqb_neq _ _)) in Hset by done. simplify_eq.
        split; [|done]. apply Hl. assert (phases s 0 = Online) as ->; [apply Ho|done].
        specialize (Hnext eq_refl). lia. }
    apply smp_inv_move; rewrite ?E; try done; try (by apply Hnext); try lia.
    + intros d Hd. by rewrite fn_lookup_insert_ne.
    + intros d Hd Hs. apply Hsame. intros ->.
      destruct (decide (phases s d = Online)) as [Ed|Hno].
      * apply Ho in Ed. specialize (Hnext eq_refl). lia.
      * assert (in_startup (phases s d) = true) as Hin by (by destruct (phases s d)).
        apply in_startup_next in Hin; [|done]. specialize (Hnext eq_refl). lia.
    + by rewrite fn_lookup_insert.
  - simplify_eq. apply smp_inv_move; rewrite ?E; try done; [by apply Hnext|].
    intros _. destruct (decide (c = 0)) as [->|Hne]; [apply Hl; by rewrite E|].
    apply Hl. assert (phases s 0 = Online) as ->; [apply Ho|done]. specialize (Hnext eq_refl). lia.
  - by simplify_eq.
  - by simplify_eq.
Qed.

Lemma smp_inv_guest c s : 0 <= c -> smp_inv s -> smp_inv (guest_online c s).
Proof.
  intros Hc Hi. pose proof Hi as [Ho Hp Hcl Hn Hr Hm Hl]. unfold guest_online.
  pose proof (in_startup_next s c Hi) as Hnext.
  destruct (phases s c) eqn:E; try done. specialize (Hnext eq_refl).
  split; cbn [phases cpu_online current_boot_id vcpu_sregs static_sregs smem]; try done; try lia.
  - intros d. unfold insert, fn_insert. destruct (decide (c = d)) as [<-|]; [split; [lia|done]|].
    rewrite Ho. lia.
  - intros d. unfold insert, fn_insert. destruct (decide (c = d)) as [<-|]; [lia|].
    intros Hd. specialize (Hp d Hd). lia.
  - intros d. unfold insert, fn_insert. destruct (decide (c = d)) as [<-|]; [done|apply Hcl].
  - intros d. unfold insert, fn_insert. destruct (decide (c = d)) as [<-|]; [|apply Hr].
    by rewrite Hr, E.
  - unfold insert, fn_insert. destruct (decide (c = 0)) as [->|]; [|done].
    intros _. apply Hl. by rewrite E.
Qed.

Lemma smp_inv_step s s' : smp_inv s -> smp_step s s' -> smp_inv s'.
Proof.
  intros Hi H. destruct H as [c s s' [Hc _] H|c s [Hc _]].
  - by eapply smp_inv_host.
  - by apply smp_inv_guest.
Qed.

Lemma smp_inv_reachable s s' : smp_inv s -> rtc smp_step s s' -> smp_inv s'.
Proof. intros Hi H. revert Hi. induction H; eauto using smp_inv_step. Qed.
End BootOrder.

(** C23. However the threads interleave, at most one core is between the wait
    loop and its count in the guest; [current_boot_id] names it once it has
    written it; every core before it is online; and every core runs with the
    same long-mode segment and control registers, computed by the boot core. *)
Theorem one_core_boots_at_a_time ncores get_sregs sregs m s :
  0x13000 <= msize m -> rtc (smp_step ncores get_sregs) (smp_init sregs m) s ->
  (forall c d, in_startup (phases s c) = true -> in_startup (phases s d) = true -> c = d) /\
  (forall c, has_claimed (phases s c) = true -> current_boot_id s = c) /\
  (forall c d, past_loop (phases s c) = true -> 0 <= d < c -> phases s d = Online) /\
  (forall c, has_sregs (phases s c) = true ->
     exists r, vcpu_sregs s c = Some r /\ vcpu_sregs s 0 = Some r /\ long_mode r).
Proof.
  intros Hm H. apply smp_inv_reachable in H; [|by apply smp_inv_init].
  pose proof H as [Ho Hp Hcl Hn Hr _ Hl]. split; [|split; [|split]].
  - intros c d Hc Hd. apply in_startup_next in Hc, Hd; try done. lia.
  - done.
  - intros c d Hc Hd. apply Ho. specialize (Hp c Hc). lia.
  - intros c Hc. exists (static_sregs s). rewrite !Hr, Hc.
    assert (has_sregs (phases s 0) = true) as H0; [|rewrite H0; auto].
    destruct (decide (c = 0)) as [->|Hne]; [done|].
    assert (phases s 0 = Online) as ->; [|done]. apply Ho.
    assert (past_loop (phases s c) = true) as Hpc by (by destruct (phases s c)).
    specialize (Hp c Hpc). lia.
Qed.

(** Without a debugger the boot never gets stuck: as long as a core is missing,
    the thread of some core can take a step that is not a spin of its wait loop.
    With one, the threads meet at a barrier behind [init_cpu_state], and several
    cores never start ([Launch.debugger_deadlocks]). *)
Lemma boot_progress ncores get_sregs sregs m s :
  0x13000 <= msize m -> rtc (smp_step ncores get_sregs) (smp_init sregs m) s ->
  (exists c, 0 <= c < ncores /\ phases s c <> Online) ->
  exists c s', 0 <= c < ncores /\ phases s' c <> phases s c /\
    (init_cpu_step get_sregs c s = OK s' \/ s' = guest_online c s).
Proof.
  intros Hm H (d & Hd & Hdo). apply smp_inv_reachable in H; [|by apply smp_inv_init].
  pose proof H as [Ho Hp Hcl Hn Hr Hms Hl].
  assert (cpu_online s <= d) by (destruct (Z.ltb_spec d (cpu_online s)); [destruct Hdo; apply Ho|]; lia).
  exists (cpu_online s). destruct (phases s (cpu_online s)) eqn:E.
  1-4: unfold init_cpu_step; rewrite E.
  - rewrite Z.ltb_irrefl. eexists. split; [lia|]. split; [|by left].
    cbn. by rewrite fn_lookup_insert.
  - eexists. split; [lia|]. split; [|by left]. cbn. by rewrite fn_lookup_insert.
  - assert (exists r m', setup_system (static_sregs s) (get_sregs (cpu_online s)) (smem s)
        (cpu_online s) = OK (r, m')) as (r & m' & ->).
    { destruct (decide (cpu_online s = 0)) as [->|Hne].
      - destruct (setup_system_long (static_sregs s) (get_sregs 0) (smem s) Hms) as (r & m' & ? & _).
        eauto.
      - unfold setup_system. rewrite (proj2 (Z.eqb_neq _ _)) by done. eauto. }
    eexists. split; [lia|]. split; [|by left]. cbn. by rewrite fn_lookup_insert.
  - eexists. split; [lia|]. split; [|by left]. cbn. by rewrite fn_lookup_insert.
  - exists (guest_online (cpu_online s) s). split; [lia|]. split; [|by right].
    unfold guest_online. rewrite E. cbn. by rewrite fn_lookup_insert.
  - apply Ho in E. lia.
Qed.

(** The boot core alone, up to the end of [setup_system]. *)
Lemma boot_core_loads ncores get_sregs sregs m :
  0 < ncores -> 0x13000 <= msize m ->
  exists s, rtc (smp_step ncores get_sregs) (smp_init sregs m) s /\ phases s 0 = Loaded.
Proof.
  intros Hc Hm. destruct (setup_system_long sregs (get_sregs 0) m Hm) as (r & m' & E & _).
  eexists. split.
  - eapply rtc_l; [apply (step_host _ _ 0); [lia|reflexivity]|].
    eapply rtc_l; [apply (step_host _ _ 0); [lia|reflexivity]|].
    eapply rtc_l; [apply (step_host _ _ 0); [lia|]|apply rtc_refl].
    unfold init_cpu_step. cbn [phases static_sregs smem set_phase smp_init].
    change (<[0 := Claimed]> (<[0 := Passed]> (fun _ : Z => Waiting)) 0) with Claimed. cbv iota.
    cbn. cbn in E. rewrite E. reflexivity.
  - cbn. by rewrite fn_lookup_insert.
Qed.

Lemma one_core_boots_at_a_time_witness :
  exists s r, rtc (smp_step 2 (fun _ => null_sregs)) (smp_init null_sregs (fresh_mem 0x20000)) s /\
    vcpu_sregs s 0 = Some r /\ long_mode r.
Proof.
  destruct (boot_core_loads 2 (fun _ => null_sregs) null_sregs (fresh_mem 0x20000)) as (s & H & E);
    [lia|cbn; lia|].
  destruct (one_core_boots_at_a_time 2 (fun _ => null_sregs) null_sregs (fresh_mem 0x20000) s)
    as (_ & _ & _ & Hr); [cbn; lia|exact H|].
  destruct (Hr 0) as (r & Hr0 & _ & Hl); [rewrite E; reflexivity|]. exists s, r. auto.
Defined.

Lemma boot_progress_witness :
  exists c s', phases s' c <> Waiting /\
    init_cpu_step (fun _ => null_sregs) c (smp_init null_sregs (fresh_mem 0x20000)) = OK s' \/
    s' = guest_online c (smp_init null_sregs (fresh_mem 0x20000)).
Proof.
  destruct (boot_progress 2 (fun _ => null_sregs) null_sregs (fresh_mem 0x20000)
    (smp_init null_sregs (fresh_mem 0x20000))) as (c & s' & Hc & Hp & [E|E]).
  - cbn. lia.
  - apply rtc_refl.
  - exists 0. split; [lia|discriminate].
  - exists c, s'. left. split; [exact Hp|exact E].
  - exists c, s'. right. exact E.
Defined.

(** ** Saving and restoring a vCPU *)

(** The parts of a vCPU that KVM reads and writes. *)
Inductive vcpu_part :=
| SREGS | REGS | XCRS | LAPIC | FPU | XSAVE | VCPU_EVENTS | MP_STATE | MSR (index : Z).

Definition MAX_MSR_ENTRIES : nat := 25.

Definition MSR_IA32_APICBASE : Z := 0x1b.
Definition MSR_IA32_SYSENTER_CS : Z := 0x174.
Definition MSR_IA32_SYSENTER_ESP : Z := 0x175.
Definition MSR_IA32_SYSENTER_EIP : Z := 0x176.
Definition MSR_IA32_CR_PAT : Z := 0x277.
Definition MSR_IA32_MISC_ENABLE : Z := 0x1a0.
Definition MSR_IA32_TSC : Z := 0x10.
Definition MSR_CSTAR : Z := 0xc0000083.
Definition MSR_STAR : Z := 0xc0000081.
Definition MSR_EFER : Z := 0xc0000080.
Definition MSR_LSTAR : Z := 0xc0000082.
Definition MSR_GS_BASE : Z := 0xc0000101.
Definition MSR_FS_BASE : Z := 0xc0000100.
Definition MSR_KERNEL_GS_BASE : Z := 0xc0000102.

Definition saved_msrs : list Z :=
  [MSR_IA32_APICBASE; MSR_IA32_SYSENTER_CS; MSR_IA32_SYSENTER_ESP; MSR_IA32_SYSENTER_EIP;
   MSR_IA32_CR_PAT; MSR_IA32_MISC_ENABLE; MSR_IA32_TSC; MSR_CSTAR; MSR_STAR; MSR_EFER;
   MSR_LSTAR; MSR_GS_BASE; MSR_FS_BASE; MSR_KERNEL_GS_BASE].

(** KVM as the code uses it: reads and writes of the parts.  Parts may share
    registers (EFER is in SREGS and an MSR), so a write is only required to
    keep what already agrees with the state its value comes from. *)
Record Kvm (V D : Type) := {
  kvm_get : vcpu_part -> V -> D;
  kvm_set : vcpu_part -> D -> V -> V
}.
Arguments kvm_get {V D}.
Arguments kvm_set {V D}.

Record kvm_laws {V D} (k : Kvm V D) (runnable : D) : Prop := {
  get_set : forall x v v0, kvm_get k x (kvm_set k x (kvm_get k x v) v0) = kvm_get k x v;
  set_keeps : forall x y v v0, kvm_get k y v0 = kvm_get k y v ->
    kvm_get k y (kvm_set k x (kvm_get k x v) v0) = kvm_get k y v;
  get_runnable : forall v0, kvm_get k MP_STATE (kvm_set k MP_STATE runnable v0) = runnable;
  runnable_keeps : forall y v0, y <> MP_STATE ->
    kvm_get k y (kvm_set k MP_STATE runnable v0) = kvm_get k y v0;
  set_keeps_mp : forall x d v0, x <> MP_STATE ->
    kvm_get k MP_STATE (kvm_set k x d v0) = kvm_get k MP_STATE v0
}.

(** struct _vcpu_state *)
Record vcpu_state (D : Type) := mkvcpu {
  msr_data : list (Z * D); regs : D; sregs_ : D; fpu : D; lapic : D; xsave : D; xcrs : D;
  events : D; mp_state : D
}.
Arguments mkvcpu {D}.
Arguments msr_data {D}.
Arguments regs {D}.
Arguments sregs_ {D}.
Arguments fpu {D}.
Arguments lapic {D}.
Arguments xsave {D}.
Arguments xcrs {D}.
Arguments events {D}.
Arguments mp_state {D}.

Section SaveRestore.
Context {V D : Type} (k : Kvm V D) (KVM_MP_STATE_RUNNABLE : D) (setup_cpuid : V -> V).

Definition save_cpu_state (v : V) : vcpu_state D :=
  mkvcpu ((fun i => (i, kvm_get k (MSR i) v)) <$> saved_msrs)
    (kvm_get k REGS v) (kvm_get k SREGS v) (kvm_get k FPU v) (kvm_get k LAPIC v)
    (kvm_get k XSAVE v) (kvm_get k XCRS v) (kvm_get k VCPU_EVENTS v) (kvm_get k MP_STATE v).

Definition set_msrs (l : list (Z * D)) (v : V) : V :=
  foldl (fun v '(i, d) => kvm_set k (MSR i) d v) v l.

Definition restore_cpu_state (cpu_state : vcpu_state D) (v : V) : V :=
  let v := setup_cpuid v in
  let v := kvm_set k SREGS (sregs_ cpu_state) v in
  let v := kvm_set k REGS (regs cpu_state) v in
  let v := set_msrs (msr_data cpu_state) v in
  let v := kvm_set k XCRS (xcrs cpu_state) v in
  let v := kvm_set k MP_STATE KVM_MP_STATE_RUNNABLE v in
  let v := kvm_set k LAPIC (lapic cpu_state) v in
  let v := kvm_set k FPU (fpu cpu_state) v in
  let v := kvm_set k XSAVE (xsave cpu_state) v in
  kvm_set k VCPU_EVENTS (events cpu_state) v.

Context (Hk : kvm_laws k KVM_MP_STATE_RUNNABLE).

Lemma set_msrs_spec v l : forall v0,
  let v1 := set_msrs ((fun i => (i, kvm_get k (MSR i) v)) <$> l) v0 in
  (forall y, kvm_get k y v0 = kvm_get k y v -> kvm_get k y v1 = kvm_get k y v) /\
  (forall i, i ∈ l -> kvm_get k (MSR i) v1 = kvm_get k (MSR i) v).
Proof.
  unfold set_msrs. induction l as [|j l IH]; intros v0; cbv zeta in *; [split; [done|set_solver]|].
  cbn [fmap list_fmap foldl]. destruct (IH (kvm_set k (MSR j) (kvm_get k (MSR j) v) v0)) as [H1 H2]. split.
  - intros y Hy. apply H1. by apply (set_keeps _ _ Hk).
  - intros i Hi. apply elem_of_cons in Hi as [->|Hi]; [|by apply H2].
    apply H1, (get_set _ _ Hk).
Qed.
End SaveRestore.

(** The parts a checkpoint or a migration carries over. *)
Definition part_saved (x : vcpu_part) : bool :=
  match x with
  | MP_STATE => false
  | MSR i => bool_decide (i ∈ saved_msrs)
  | _ => true
  end.

(** Restoring a saved vCPU state on any vCPU gives back every saved part,
    leaves the vCPU runnable, and the list of MSRs fits its array. *)
Theorem restore_save_cpu_state {V D} (k : Kvm V D) runnable setup_cpuid v v0 :
  kvm_laws k runnable ->
  let v1 := restore_cpu_state k runnable setup_cpuid (save_cpu_state k v) v0 in
  (forall x, part_saved x = true -> kvm_get k x v1 = kvm_get k x v) /\
  kvm_get k MP_STATE v1 = runnable /\
  (length (msr_data (save_cpu_state k v)) <= MAX_MSR_ENTRIES)%nat.
Proof.
  intros Hk v1. split; [|split].
  - unfold restore_cpu_state in v1. cbn [save_cpu_state msr_data regs sregs_ fpu lapic xsave xcrs
      events mp_state] in v1.
    assert (Hkeep : forall x y w, kvm_get k y w = kvm_get k y v ->
      kvm_get k y (kvm_set k x (kvm_get k x v) w) = kvm_get k y v)
      by (intros; by apply (set_keeps _ _ Hk)).
    assert (Hrun : forall y w, y <> MP_STATE -> kvm_get k y w = kvm_get k y v ->
      kvm_get k y (kvm_set k MP_STATE runnable w) = kvm_get k y v)
      by (intros; by rewrite (runnable_keeps _ _ Hk)).
    assert (Hmsr : forall y w, kvm_get k y w = kvm_get k y v ->
      kvm_get k y (set_msrs k ((fun i => (i, kvm_get k (MSR i) v)) <$> saved_msrs) w)
      = kvm_get k y v) by 
        (intros y w; by destruct (set_msrs_spec k runnable Hk v saved_msrs w) as [H _]; apply H).
    intros x Hx. unfold v1.
    assert ((exists i, x = MSR i) \/ ~ exists i, x = MSR i) as [[i ->]|Hno]
      by (destruct x; (by right; intros [? ?]) || eauto).
    + do 4 apply Hkeep. apply Hrun; [done|]. apply Hkeep.
      cbn [part_saved] in Hx. apply bool_decide_eq_true in Hx.
      by apply (set_msrs_spec k runnable Hk v saved_msrs).
    + destruct x; try discriminate Hx; try (destruct Hno; eauto; fail);
        repeat first [apply (get_set _ _ Hk) | apply Hkeep | apply Hrun; [done|] | apply Hmsr].
  - unfold v1, restore_cpu_state. rewrite !(set_keeps_mp _ _ Hk) by done.
    apply (get_runnable _ _ Hk).
  - cbn. unfold MAX_MSR_ENTRIES. lia.
Qed.

(** A KVM whose parts are independent registers. *)
#[export] Instance vcpu_part_eq_dec : EqDecision vcpu_part.
Proof. solve_decision. Defined.

Definition plain_kvm : Kvm (vcpu_part -> Z) Z := {|
  kvm_get x v := v x;
  kvm_set x d v := <[x := d]> v
|}.

Lemma plain_kvm_laws : kvm_laws plain_kvm 0.
Proof.
  split; cbn; unfold insert, fn_insert; intros; repeat case_decide; congruence.
Qed.

Lemma restore_save_cpu_state_witness :
  kvm_get plain_kvm (MSR MSR_LSTAR)
    (restore_cpu_state plain_kvm 0 (fun v => v)
       (save_cpu_state plain_kvm (fun _ => 7)) (fun _ => 9)) = 7.
Proof.
  destruct (restore_save_cpu_state plain_kvm 0 (fun v => v) (fun _ => 7) (fun _ => 9) plain_kvm_laws)
    as (H & _).
  apply (H (MSR MSR_LSTAR)). reflexivity.
Defined.
