(* ===== verification/MemRegions.v ===== *)
(** * The layout of guest memory

    The memory slots [init_kvm_arch] registers with KVM, the guest-physical
    regions and allocated chunks a migration transfers
    ([determine_guest_physical_memory_regions], [determine_mem_mappings],
    [check_for_io_gap], [convert_to_host_virt]); all in src/uhyve-x86_64.c.
    Below 4 GiB the guest-physical address space has a 768 MiB hole for
    memory-mapped devices, the I/O gap. *)

From S2P Require Import Prelude GuestMem Paging.

Open Scope uhyve_scope.

Definition KVM_32BIT_MAX_MEM_SIZE : Z := 1 << 32.
Definition KVM_32BIT_GAP_SIZE : Z := 768 << 20.
Definition KVM_32BIT_GAP_START : Z := KVM_32BIT_MAX_MEM_SIZE - KVM_32BIT_GAP_SIZE.
Definition KVM_32BIT_GAP_END : Z := KVM_32BIT_GAP_START + KVM_32BIT_GAP_SIZE.

(** ** init_kvm_arch *)

(** The extensions uhyve asks KVM for; KVM's answers are a parameter. *)
Inductive kvm_cap :=
| KVM_CAP_SYNC_MMU | KVM_CAP_TSC_DEADLINE_TIMER | KVM_CAP_IRQCHIP
| KVM_CAP_ADJUST_CLOCK | KVM_CAP_IRQFD | KVM_CAP_VAPIC.

Definition KVM_CLOCK_TSC_STABLE : Z := 2.

Record kvm_region := mkregion {
  slot : Z; guest_phys_addr : Z; memory_size : Z; userspace_addr : Z
}.

(** The requests sent to the VM file descriptor, in order. *)
Inductive vm_ioctl :=
| KVM_SET_IDENTITY_MAP_ADDR (addr : Z)
| KVM_SET_TSS_ADDR (addr : Z)
| KVM_SET_USER_MEMORY_REGION (r : kvm_region)
| KVM_CREATE_IRQCHIP
| KVM_ENABLE_CAP_X2APIC_API.

Inductive advice := MADV_MERGEABLE | MADV_HUGEPAGE.

Record arch_state := mkarch {
  guest_mem : Z;                       (* host address of the mapping *)
  guest_size : Z;
  no_access : option (Z * Z);          (* range passed to mprotect(PROT_NONE) *)
  advices : list advice;
  vm_ioctls : list vm_ioctl;
  cap_tsc_deadline : bool; cap_irqchip : bool; cap_adjust_clock_stable : bool;
  cap_irqfd : bool; cap_vapic : bool
}.

Section InitKvmArch.
(** [accepts io]: the [ioctl] of the request [io] does not fail. *)
Context (check_extension : kvm_cap -> Z) (accepts : vm_ioctl -> bool) (mmap : Z -> option Z).
Context (HERMIT_MERGEABLE HERMIT_HUGEPAGE : option (list byte)).

(** [kvm_ioctl(vmfd, KVM_CHECK_EXTENSION, c)] *)
Definition kvm_check_extension (c : kvm_cap) : outcome Z :=
  if check_extension c =? -1 then Exited 1 else OK (check_extension c).

(** [kvm_ioctl(vmfd, ...)] for requests in order: uhyve ends at the first that
    fails. *)
Fixpoint kvm_ioctls (l : list vm_ioctl) : outcome unit :=
  match l with
  | [] => OK tt
  | io :: l => if accepts io then kvm_ioctls l else Exited 1
  end.

Definition identity_map_ioctls : list vm_ioctl :=
  let identity_base := 0xfffbc000 in
  if 0 <? check_extension KVM_CAP_SYNC_MMU then
    let identity_base := 0xfeffc000 in
    [KVM_SET_IDENTITY_MAP_ADDR identity_base; KVM_SET_TSS_ADDR (identity_base + 0x1000)]
  else [KVM_SET_TSS_ADDR (identity_base + 0x1000)].

Definition memory_region_ioctls (mem size : Z) : list vm_ioctl :=
  if size <=? KVM_32BIT_GAP_START then
    [KVM_SET_USER_MEMORY_REGION (mkregion 0 0 size mem)]
  else
    [KVM_SET_USER_MEMORY_REGION (mkregion 0 0 KVM_32BIT_GAP_START mem);
     KVM_SET_USER_MEMORY_REGION
       (mkregion 1 (KVM_32BIT_GAP_START + KVM_32BIT_GAP_SIZE)
          (u64 (size - KVM_32BIT_GAP_SIZE - KVM_32BIT_GAP_START))
          (u64 (mem + KVM_32BIT_GAP_START + KVM_32BIT_GAP_SIZE)))].

Definition init_kvm_arch (guest_size : Z) : outcome arch_state :=
  _ ← kvm_ioctls identity_map_ioctls;
  '(size, protect) ←
    (if guest_size <? KVM_32BIT_GAP_START then OK (guest_size, false)
     else OK (u64 (guest_size + KVM_32BIT_GAP_SIZE), true));
  mem ← match mmap size with Some p => OK p | None => Exited 1 end;
  let no_access :=
    if protect : bool then Some (u64 (mem + KVM_32BIT_GAP_START), KVM_32BIT_GAP_SIZE) else None in
  let merge :=
    match HERMIT_MERGEABLE with
    | Some v => if decide (v = str "0") then [] else [MADV_MERGEABLE]
    | None => []
    end in
  let hugepage :=
    match HERMIT_HUGEPAGE with
    | Some v => if decide (v = str "0") then [] else [MADV_HUGEPAGE]
    | None => [MADV_HUGEPAGE]
    end in
  _ ← kvm_ioctls (memory_region_ioctls mem size);
  _ ← kvm_ioctls [KVM_CREATE_IRQCHIP; KVM_ENABLE_CAP_X2APIC_API];
  tsc_deadline ← kvm_check_extension KVM_CAP_TSC_DEADLINE_TIMER;
  irqchip ← kvm_check_extension KVM_CAP_IRQCHIP;
  adjust_clock ← kvm_check_extension KVM_CAP_ADJUST_CLOCK;
  irqfd ← kvm_check_extension KVM_CAP_IRQFD;
  if irqfd <=? 0 then Exited 1
  else
    vapic ← kvm_check_extension KVM_CAP_VAPIC;
    OK {| guest_mem := mem; MemRegions.guest_size := size; no_access := no_access;
          advices := merge ++ hugepage;
          vm_ioctls := identity_map_ioctls ++ memory_region_ioctls mem size
                       ++ [KVM_CREATE_IRQCHIP; KVM_ENABLE_CAP_X2APIC_API];
          cap_tsc_deadline := 0 <? tsc_deadline;
          cap_irqchip := 0 <? irqchip;
          cap_adjust_clock_stable := adjust_clock =? KVM_CLOCK_TSC_STABLE;
          cap_irqfd := true;
          cap_vapic := 0 <? vapic |}.
End InitKvmArch.

Lemma kvm_ioctls_ok accepts l : kvm_ioctls accepts l = OK tt <-> Forall (fun io => accepts io = true) l.
Proof.
  induction l as [|io l IH]; cbn [kvm_ioctls]; [by split|]. rewrite Forall_cons, <- IH.
  destruct (accepts io); [by split; [|intros [_ H]]|by split; [|intros [? _]]].
Qed.

(** The size of the mapping and the protected range. *)
Lemma init_kvm_arch_sizes check accepts mmap merge huge g arch :
  init_kvm_arch check accepts mmap merge huge g = OK arch ->
  guest_size arch = (if g <? KVM_32BIT_GAP_START then g else u64 (g + KVM_32BIT_GAP_SIZE)) /\
  no_access arch = (if g <? KVM_32BIT_GAP_START then None
                    else Some (u64 (guest_mem arch + KVM_32BIT_GAP_START), KVM_32BIT_GAP_SIZE)).
Proof.
  intros E. unfold init_kvm_arch in E. apply bind_OK_inv in E as ([] & _ & E).
  destruct (g <? KVM_32BIT_GAP_START); rewrite bind_OK in E; cbn match in E;
    (destruct (mmap _) as [mem|]; [|done]); rewrite bind_OK in E; cbn zeta in E;
    repeat (apply bind_OK_inv in E as (? & _ & E)); (destruct (_ <=? 0); [done|]);
    apply bind_OK_inv in E as (? & _ & E); by injection E as <-.
Qed.

(** ** Memory chunks (uhyve-migration.h) *)

Record mem_chunk := mkchunk { ptr : Z; size : Z }.

(** [mem_chunks] is a malloc'd array: [None] is an element never written. *)
Record mem_mappings := mkmappings { mem_chunks : list (option mem_chunk); count : Z }.

#[export] Instance mem_chunk_eq_dec : EqDecision mem_chunk.
Proof. solve_decision. Defined.

Definition determine_guest_physical_memory_regions (guest_size : Z) : mem_mappings :=
  if guest_size <? KVM_32BIT_GAP_START then mkmappings [Some (mkchunk 0 guest_size)] 1
  else
    mkmappings
      [Some (mkchunk 0 KVM_32BIT_GAP_START);
       Some (mkchunk (KVM_32BIT_GAP_START + KVM_32BIT_GAP_SIZE)
               (u64 (guest_size - (KVM_32BIT_GAP_START + KVM_32BIT_GAP_SIZE))))] 2.

(** The first [count] chunks; reading an element past the array or one that
    was never written is undefined. *)
Fixpoint read_chunks (l : list (option mem_chunk)) (n : nat) : outcome (list mem_chunk) :=
  match n, l with
  | O, _ => OK []
  | S n, Some c :: l => cs ← read_chunks l n; OK (c :: cs)
  | S _, _ => Undefined
  end.
Definition counted_chunks (mm : mem_mappings) : outcome (list mem_chunk) :=
  read_chunks (mem_chunks mm) (Z.to_nat (count mm)).

Definition convert_to_host_virt (guest_mem : Z) (mm : mem_mappings) : outcome mem_mappings :=
  cs ← counted_chunks mm;
  OK (mkmappings
        (((fun c => Some (mkchunk (u64 (guest_mem + ptr c)) (size c))) <$> cs)
         ++ drop (length cs) (mem_chunks mm))
        (count mm)).

(** ** The slots back all of guest memory except the gap *)

Definition regions_of (ios : list vm_ioctl) : list kvm_region :=
  omap (fun io => match io with KVM_SET_USER_MEMORY_REGION r => Some r | _ => None end) ios.

(** KVM's second-stage translation: guest-physical to host address. *)
Fixpoint gpa_to_hva (rs : list kvm_region) (a : Z) : option Z :=
  match rs with
  | [] => None
  | r :: rs =>
      if (guest_phys_addr r <=? a) && (a <? guest_phys_addr r + memory_size r)
      then Some (userspace_addr r + (a - guest_phys_addr r)) else gpa_to_hva rs a
  end.

Definition in_gap (a : Z) : bool := (KVM_32BIT_GAP_START <=? a) && (a <? KVM_32BIT_GAP_END).

Ltac gap_consts :=
  unfold in_gap, KVM_32BIT_GAP_END, KVM_32BIT_GAP_START, KVM_32BIT_GAP_SIZE,
    KVM_32BIT_MAX_MEM_SIZE in *;
  change (768 << 20) with 0x30000000 in *; change (1 << 32) with 0x100000000 in *.

Lemma regions_of_init check accepts mmap merge huge g st :
  init_kvm_arch check accepts mmap merge huge g = OK st ->
  mmap (guest_size st) = Some (guest_mem st) /\
  guest_size st = (if g <? KVM_32BIT_GAP_START then g else u64 (g + KVM_32BIT_GAP_SIZE)) /\
  vm_ioctls st = identity_map_ioctls check ++ memory_region_ioctls (guest_mem st) (guest_size st)
                 ++ [KVM_CREATE_IRQCHIP; KVM_ENABLE_CAP_X2APIC_API] /\
  Forall (fun io => accepts io = true) (vm_ioctls st).
Proof.
  unfold init_kvm_arch. intros H. apply bind_OK_inv in H as ([] & Hi%kvm_ioctls_ok & H). apply bind_OK_inv in H as ([sz pr] & Hsz & H).
  apply bind_OK_inv in H as (b & Hb & H). destruct (mmap sz) eqn:E; [|done]. simplify_eq.
  apply bind_OK_inv in H as ([] & Hr%kvm_ioctls_ok & H). apply bind_OK_inv in H as ([] & Hc%kvm_ioctls_ok & H).
  do 4 (apply bind_OK_inv in H as (? & _ & H)). destruct (_ <=? 0); [done|].
  apply bind_OK_inv in H as (? & _ & H). injection H as <-. cbn [MemRegions.guest_mem MemRegions.guest_size vm_ioctls].
  split; [done|]. split; [|split; [done|by rewrite !Forall_app]]. by destruct (g <? KVM_32BIT_GAP_START); simplify_eq.
Qed.

Lemma regions_of_ioctls check mem sz l :
  regions_of (identity_map_ioctls check ++ memory_region_ioctls mem sz ++ l)
  = regions_of (memory_region_ioctls mem sz) ++ regions_of l.
Proof.
  unfold regions_of, identity_map_ioctls. rewrite !omap_app.
  by destruct (0 <? check KVM_CAP_SYNC_MMU).
Qed.

Lemma reserved_pages check mem sz io a :
  io ∈ identity_map_ioctls check ++ memory_region_ioctls mem sz
       ++ [KVM_CREATE_IRQCHIP; KVM_ENABLE_CAP_X2APIC_API] ->
  io = KVM_SET_IDENTITY_MAP_ADDR a \/ io = KVM_SET_TSS_ADDR a ->
  a = 0xfeffc000 \/ a = 0xfeffd000 \/ a = 0xfffbd000.
Proof.
  rewrite list_elem_of_In. unfold identity_map_ioctls, memory_region_ioctls.
  destruct (0 <? check KVM_CAP_SYNC_MMU), (sz <=? KVM_32BIT_GAP_START); cbn [In app];
    intros Hin [-> | ->];
    repeat (destruct Hin as [Hin|Hin]; [try discriminate Hin; injection Hin as <-; lia|]);
    destruct Hin.
Qed.

(** C24. After [init_kvm_arch] with [g] bytes requested, KVM backs exactly the
    guest-physical addresses below the (gap-extended) guest size that are not in
    the I/O gap, each by the host byte at the same offset of the mapping; the
    regions a migration sends are the same ranges; the TSS and identity-map
    pages KVM reserves lie inside the gap; and KVM has accepted every request. *)
Theorem kvm_slots_back_guest_memory check accepts mmap merge huge g st :
  0 < g <= 2 ^ 46 ->
  (forall n p, mmap n = Some p -> 0 <= p /\ p + n < 2 ^ 64) ->
  init_kvm_arch check accepts mmap merge huge g = OK st ->
  guest_size st = (if g <? KVM_32BIT_GAP_START then g else g + KVM_32BIT_GAP_SIZE) /\
  (forall a, gpa_to_hva (regions_of (vm_ioctls st)) a =
     if (0 <=? a) && (a <? guest_size st) && negb (in_gap a)
     then Some (guest_mem st + a) else None) /\
  counted_chunks (determine_guest_physical_memory_regions (guest_size st)) =
    OK ((fun r => mkchunk (guest_phys_addr r) (memory_size r)) <$> regions_of (vm_ioctls st)) /\
  (forall io a, io ∈ vm_ioctls st ->
     io = KVM_SET_IDENTITY_MAP_ADDR a \/ io = KVM_SET_TSS_ADDR a ->
     forall x, a <= x < a + 3 * 4096 -> in_gap x = true) /\
  (forall io, io ∈ vm_ioctls st -> accepts io = true).
Proof.
  intros Hg Hmmap H. apply regions_of_init in H as (Hm & Hs & Hio & Hok). rewrite Forall_forall in Hok.
  destruct (Hmmap _ _ Hm) as [Hp Hp']. rewrite Hio in Hok |- *. rewrite regions_of_ioctls. clear Hio.
  assert (Hs' : guest_size st = if g <? KVM_32BIT_GAP_START then g else g + KVM_32BIT_GAP_SIZE).
  { rewrite Hs. destruct (g <? KVM_32BIT_GAP_START); [done|]. apply u64_small.
    unfold is_u64. gap_consts. lia. }
  clear Hs. split; [done|]. rewrite Hs' in Hp', Hok |- *. clear Hs' Hm Hmmap.
  set (mem := guest_mem st) in *. clearbody mem.
  unfold memory_region_ioctls, determine_guest_physical_memory_regions, regions_of.
  split; [|split; [|split; [|exact Hok]]].
  - intros a. destruct (Z.ltb_spec g KVM_32BIT_GAP_START) as [Hlt|Hlt].
    + rewrite (proj2 (Z.leb_le _ _)) by lia. cbn. gap_consts. zbool; cbn; try done; try lia.
      f_equal. lia.
    + rewrite (proj2 (Z.leb_gt _ _)) by (gap_consts; lia). cbn. gap_consts.
      rewrite !u64_small by (unfold is_u64; lia). zbool; cbn; try done; try lia; f_equal; lia.
  - destruct (Z.ltb_spec g KVM_32BIT_GAP_START) as [Hlt|Hlt].
    + rewrite (proj2 (Z.leb_le _ _)), (proj2 (Z.ltb_lt _ _)) by lia. done.
    + rewrite (proj2 (Z.leb_gt _ _)), (proj2 (Z.ltb_ge _ _)) by (gap_consts; lia).
      replace (g + KVM_32BIT_GAP_SIZE - KVM_32BIT_GAP_SIZE - KVM_32BIT_GAP_START)
        with (g + KVM_32BIT_GAP_SIZE - (KVM_32BIT_GAP_START + KVM_32BIT_GAP_SIZE)) by lia.
      done.
  - intros io a Hin Ha x Hx. pose proof (reserved_pages _ _ _ _ _ Hin Ha). gap_consts.
    zbool; cbn; try done; lia.
Qed.

Lemma kvm_slots_back_guest_memory_witness :
  exists st, init_kvm_arch (fun _ => 1) (fun _ => true) (fun _ => Some 0x7f0000000000) None None (2 ^ 33) = OK st /\
    gpa_to_hva (regions_of (vm_ioctls st)) 0x100000000 = Some 0x7f0100000000 /\
    gpa_to_hva (regions_of (vm_ioctls st)) 0xE0000000 = None.
Proof.
  eexists. split; [reflexivity|].
  edestruct (kvm_slots_back_guest_memory (fun _ => 1) (fun _ => true) (fun n =>
    if n <=? 2 ^ 40 then Some 0x7f0000000000 else None) None None (2 ^ 33))
    as (_ & H & _); [lia| |reflexivity|].
  - intros n p. destruct (Z.leb_spec n (2 ^ 40)); [|done]. intros [= <-]. lia.
  - cbn [vm_ioctls guest_size guest_mem] in H.
    split; [exact (H 0x100000000)|exact (H 0xE0000000)].
Defined.

(** ** The allocated chunks, from the guest's free list *)

Definition get_chunk (mm : mem_mappings) (i : Z) : outcome mem_chunk :=
  match mem_chunks mm !! Z.to_nat i with
  | Some (Some c) => if 0 <=? i then OK c else Undefined
  | _ => Undefined
  end.
Definition set_chunk (mm : mem_mappings) (i : Z) (c : mem_chunk) : outcome mem_mappings :=
  if (0 <=? i) && (i <? Z.of_nat (length (mem_chunks mm)))
  then OK (mkmappings (<[Z.to_nat i := Some c]> (mem_chunks mm)) (count mm)) else Undefined.

(** Takes and returns the index of the current slot. *)
Definition check_for_io_gap (mm : mem_mappings) (cur_slot : Z) : outcome (mem_mappings * Z) :=
  c ← get_chunk mm cur_slot;
  let cur_start := ptr c in
  let cur_end := u64 (ptr c + size c) in
  if (cur_start =? KVM_32BIT_GAP_START) && (cur_end =? KVM_32BIT_GAP_END) then
    OK (mkmappings (mem_chunks mm) (u64 (count mm - 1)), u64 (cur_slot - 1))
  else if cur_end =? KVM_32BIT_GAP_END then
    mm ← set_chunk mm cur_slot (mkchunk (ptr c) (u64 (size c - KVM_32BIT_GAP_SIZE)));
    OK (mm, cur_slot)
  else if cur_start =? KVM_32BIT_GAP_START then
    mm ← set_chunk mm cur_slot
      (mkchunk (u64 (ptr c + KVM_32BIT_GAP_SIZE)) (u64 (size c - KVM_32BIT_GAP_SIZE)));
    OK (mm, cur_slot)
  else if (cur_start <? KVM_32BIT_GAP_START) && (KVM_32BIT_GAP_END <? cur_end) then
    mm ← set_chunk mm cur_slot (mkchunk (ptr c) (KVM_32BIT_GAP_START - cur_start));
    let cur_slot := u64 (cur_slot + 1) in
    mm ← set_chunk mm cur_slot (mkchunk KVM_32BIT_GAP_END (cur_end - KVM_32BIT_GAP_END));
    OK (mkmappings (mem_chunks mm) (u64 (count mm + 1)), cur_slot)
  else OK (mm, cur_slot).

(** A node of the guest's free list (struct free_list of uhyve.h). *)
Definition free_start (m : gmem) (node : Z) : outcome Z := load64 m node.
Definition free_end (m : gmem) (node : Z) : outcome Z := load64 m (node + 8).
(** [virt_to_phys_with_offset(node->next)] *)
Definition free_next (m : gmem) (node : Z) : outcome Z :=
  next ← load64 m (node + 16); fst <$> virt_to_phys m next.

(** Write a chunk into the current slot, then cut the gap out of it. *)
Definition place_chunk (mm : mem_mappings) (cur_slot : Z) (c : mem_chunk)
  : outcome (mem_mappings * Z) :=
  mm ← set_chunk mm cur_slot c;
  check_for_io_gap mm cur_slot.

Definition free_list_length (fuel : nat) (m : gmem) (free_list : Z) : outcome Z :=
  while fuel (fun '(cur, len) =>
    if cur =? 0 then OK (inr len)
    else cur ← free_next m cur; OK (inl (cur, u64 (len + 1)))) (free_list, 0).

Definition FIRST_ALLOCATION : Z := 0x800000.

Definition determine_mem_mappings (fuel : nat) (m : gmem) (guest_size free_list : Z)
  : outcome mem_mappings :=
  len ← free_list_length fuel m free_list;
  let mem_mappings_cnt_max := u64 (len + 2) in
  let mm := mkmappings (replicate (Z.to_nat mem_mappings_cnt_max) None)
              (u64 (mem_mappings_cnt_max - 2)) in
  start ← free_start m free_list;
  '(mm, cur_slot) ← place_chunk mm 0
     (mkchunk FIRST_ALLOCATION (u64 (start - FIRST_ALLOCATION)));
  next ← free_next m free_list;
  '(cur, cur_slot, mm) ←
    while fuel (fun '(cur, next, cur_slot, mm) =>
      if next =? 0 then OK (inr (cur, cur_slot, mm))
      else
        cur_end ← free_end m cur;
        next_start ← free_start m next;
        '(mm, cur_slot) ← place_chunk mm cur_slot
           (mkchunk cur_end (u64 (next_start - cur_end)));
        cur ← free_next m cur;
        next ← free_next m cur;
        OK (inl (cur, next, u64 (cur_slot + 1), mm)))
      (free_list, next, u64 (cur_slot + 1), mm);
  cur_end ← free_end m cur;
  if negb (guest_size =? cur_end) then
    fst <$> place_chunk mm cur_slot (mkchunk cur_end (u64 (guest_size - cur_end)))
  else OK mm.

(** *** Reading the list as data *)

Inductive free_list_at (m : gmem) : Z -> list (Z * Z) -> Prop :=
| free_list_nil : free_list_at m 0 []
| free_list_cons node s e next l :
    node <> 0 -> free_start m node = OK s -> free_end m node = OK e ->
    free_next m node = OK next -> free_list_at m next l ->
    free_list_at m node ((s, e) :: l).

(** The free regions are disjoint, ascending, and not adjacent. *)
Fixpoint ascending (prev : Z) (l : list (Z * Z)) : Prop :=
  match l with
  | [] => True
  | (s, e) :: l => prev < s /\ s < e /\ ascending e l
  end.

(** The chunks between the free regions, starting at [prev]. *)
Fixpoint chunks_before (prev : Z) (l : list (Z * Z)) : list mem_chunk :=
  match l with
  | [] => []
  | (s, e) :: l => mkchunk prev (s - prev) :: chunks_before e l
  end.

Definition contains_gap (c : mem_chunk) : bool :=
  (ptr c <=? KVM_32BIT_GAP_START) && (KVM_32BIT_GAP_END <=? ptr c + size c).
Definition avoids_gap (c : mem_chunk) : bool :=
  (ptr c + size c <=? KVM_32BIT_GAP_START) || (KVM_32BIT_GAP_END <=? ptr c).

Definition chunk_ok (c : mem_chunk) : Prop :=
  0 <= ptr c /\ 0 < size c /\ ptr c + size c < 2 ^ 63 /\
  (contains_gap c || avoids_gap c) = true.

(** The part of a chunk outside the gap. *)
Definition cut_gap (c : mem_chunk) : list mem_chunk :=
  if contains_gap c then
    (if ptr c <? KVM_32BIT_GAP_START
     then [mkchunk (ptr c) (KVM_32BIT_GAP_START - ptr c)] else []) ++
    (if KVM_32BIT_GAP_END <? ptr c + size c
     then [mkchunk KVM_32BIT_GAP_END (ptr c + size c - KVM_32BIT_GAP_END)] else [])
  else [c].

Lemma take_snoc_insert {A} (arr : list A) n x :
  (n < length arr)%nat -> take (S n) (<[n := x]> arr) = take n arr ++ [x].
Proof.
  intros H. erewrite take_S_r by (by apply list_lookup_insert_eq).
  by rewrite take_insert_ge by lia.
Qed.

Lemma set_chunk_ok arr cnt n c :
  (n < length arr)%nat ->
  set_chunk (mkmappings arr cnt) (Z.of_nat n) c = OK (mkmappings (<[n := Some c]> arr) cnt).
Proof.
  intros H. unfold set_chunk. cbn [mem_chunks count].
  rewrite (proj2 (Z.leb_le _ _)), (proj2 (Z.ltb_lt _ _)) by lia. cbn. by rewrite Nat2Z.id.
Qed.

Lemma get_set_chunk arr cnt n c :
  (n < length arr)%nat ->
  get_chunk (mkmappings (<[n := Some c]> arr) cnt) (Z.of_nat n) = OK c.
Proof.
  intros H. unfold get_chunk. cbn [mem_chunks]. rewrite Nat2Z.id, list_lookup_insert_eq by done.
  by rewrite (proj2 (Z.leb_le _ _)) by lia.
Qed.

(** Placing a chunk appends its part outside the gap to the chunks placed so
    far, leaves [cur_slot] on the last chunk, and corrects [count] by what the
    gap added or removed. *)
Section PlaceChunk.
Context (arr : list (option mem_chunk)) (cnt : Z) (placed : list mem_chunk) (p z : Z).
Context (Hp : 0 <= p) (Hz : 0 < z) (Hend : p + z < 2 ^ 63) (Hcnt : is_u64 cnt).
Context (Hplaced : take (length placed) arr = Some <$> placed).
Context (Hlen : (length placed < length arr)%nat).
Context (Hbound : Z.of_nat (length arr) < 2 ^ 62).

Let n := length placed.
Let arr1 := <[n := Some (mkchunk p z)]> arr.

Lemma take_placed d arr' :
  length arr' = length arr -> take n arr' = take n arr ->
  take (S n) (<[n := Some d]> arr') = Some <$> (placed ++ [d]).
Proof.
  intros Hl Ht. unfold n in *. rewrite take_snoc_insert by lia.
  by rewrite Ht, Hplaced, fmap_app.
Qed.

Lemma take_placed_twice d :
  take (S n) (<[n := Some d]> arr1) = Some <$> (placed ++ [d]).
Proof. apply take_placed; unfold arr1; rewrite ?length_insert, ?take_insert_ge; done. Qed.

Lemma cut_one : u64 (cnt + Z.of_nat 1 - 1) = cnt /\ u64 (Z.of_nat (n + 1) - 1) = Z.of_nat n.
Proof.
  split; [replace (cnt + Z.of_nat 1 - 1) with cnt by lia; by apply u64_small|].
  rewrite u64_small by (unfold is_u64; lia). lia.
Qed.

Lemma place_unfold :
  place_chunk (mkmappings arr cnt) (Z.of_nat n) (mkchunk p z) =
  check_for_io_gap (mkmappings arr1 cnt) (Z.of_nat n) /\
  get_chunk (mkmappings arr1 cnt) (Z.of_nat n) = OK (mkchunk p z) /\
  u64 (p + z) = p + z.
Proof.
  unfold place_chunk. rewrite set_chunk_ok by done. split; [done|]. split.
  - by apply get_set_chunk.
  - apply u64_small. unfold is_u64. lia.
Qed.

Lemma place_outside :
  contains_gap (mkchunk p z) = false -> avoids_gap (mkchunk p z) = true ->
  place_chunk (mkmappings arr cnt) (Z.of_nat n) (mkchunk p z) =
  OK (mkmappings arr1 cnt, Z.of_nat n).
Proof.
  destruct place_unfold as (-> & Hget & Hu). unfold check_for_io_gap. rewrite Hget, bind_OK.
  cbn [ptr size]. rewrite Hu. unfold contains_gap, avoids_gap. cbn [ptr size]. gap_consts.
  intros. zbool; cbn [andb orb] in *; done || lia.
Qed.

Lemma place_split :
  p < KVM_32BIT_GAP_START -> KVM_32BIT_GAP_END < p + z -> (S n < length arr)%nat ->
  place_chunk (mkmappings arr cnt) (Z.of_nat n) (mkchunk p z) =
  OK (mkmappings
        (<[S n := Some (mkchunk KVM_32BIT_GAP_END (p + z - KVM_32BIT_GAP_END))]>
           (<[n := Some (mkchunk p (KVM_32BIT_GAP_START - p))]> arr1)) (u64 (cnt + 1)),
      Z.of_nat (S n)).
Proof.
  intros H1 H2 Hl. destruct place_unfold as (-> & Hget & Hu).
  unfold check_for_io_gap. rewrite Hget, bind_OK. cbn [ptr size]. rewrite Hu.
  rewrite (proj2 (Z.eqb_neq _ _)), (proj2 (Z.eqb_neq (p + z) _)) by lia. cbn [andb].
  rewrite (proj2 (Z.ltb_lt _ _)), (proj2 (Z.ltb_lt KVM_32BIT_GAP_END _)) by lia. cbn [andb].
  rewrite set_chunk_ok by (unfold arr1; rewrite length_insert; done). rewrite bind_OK.
  replace (u64 (Z.of_nat n + 1)) with (Z.of_nat (S n))
    by (rewrite u64_small by (unfold is_u64; lia); lia).
  by rewrite set_chunk_ok by (unfold arr1; rewrite !length_insert; lia).
Qed.

Lemma place_shrink :
  p < KVM_32BIT_GAP_START -> p + z = KVM_32BIT_GAP_END ->
  place_chunk (mkmappings arr cnt) (Z.of_nat n) (mkchunk p z) =
  OK (mkmappings (<[n := Some (mkchunk p (KVM_32BIT_GAP_START - p))]> arr1) cnt, Z.of_nat n).
Proof.
  intros H1 H2. destruct place_unfold as (-> & Hget & Hu).
  unfold check_for_io_gap. rewrite Hget, bind_OK. cbn [ptr size]. rewrite Hu.
  rewrite (proj2 (Z.eqb_neq _ _)), (proj2 (Z.eqb_eq (p + z) _)) by lia. cbn [andb].
  rewrite u64_small by (unfold is_u64; gap_consts; lia).
  replace (z - KVM_32BIT_GAP_SIZE) with (KVM_32BIT_GAP_START - p) by (gap_consts; lia).
  by rewrite set_chunk_ok by (unfold arr1; rewrite length_insert; done).
Qed.

Lemma place_move :
  p = KVM_32BIT_GAP_START -> KVM_32BIT_GAP_END < p + z ->
  place_chunk (mkmappings arr cnt) (Z.of_nat n) (mkchunk p z) =
  OK (mkmappings (<[n := Some (mkchunk KVM_32BIT_GAP_END (p + z - KVM_32BIT_GAP_END))]> arr1) cnt,
      Z.of_nat n).
Proof.
  intros H1 H2. destruct place_unfold as (-> & Hget & Hu).
  unfold check_for_io_gap. rewrite Hget, bind_OK. cbn [ptr size]. rewrite Hu.
  rewrite (proj2 (Z.eqb_eq _ _)), (proj2 (Z.eqb_neq (p + z) _)) by lia. cbn [andb].
  rewrite !u64_small by (unfold is_u64; gap_consts; lia).
  replace (z - KVM_32BIT_GAP_SIZE) with (p + z - KVM_32BIT_GAP_END) by (gap_consts; lia).
  replace (p + KVM_32BIT_GAP_SIZE) with KVM_32BIT_GAP_END by (gap_consts; lia).
  by rewrite set_chunk_ok by (unfold arr1; rewrite length_insert; done).
Qed.

Lemma place_gap :
  p = KVM_32BIT_GAP_START -> p + z = KVM_32BIT_GAP_END ->
  place_chunk (mkmappings arr cnt) (Z.of_nat n) (mkchunk p z) =
  OK (mkmappings arr1 (u64 (cnt - 1)), u64 (Z.of_nat n - 1)).
Proof.
  intros H1 H2. destruct place_unfold as (-> & Hget & Hu).
  unfold check_for_io_gap. rewrite Hget, bind_OK. cbn [ptr size]. rewrite Hu.
  by rewrite (proj2 (Z.eqb_eq _ _)), (proj2 (Z.eqb_eq (p + z) _)) by lia.
Qed.
End PlaceChunk.

Lemma place_chunk_spec arr cnt placed c :
  chunk_ok c -> is_u64 cnt -> take (length placed) arr = Some <$> placed ->
  (length placed < length arr)%nat ->
  (length placed + length (cut_gap c) <= length arr)%nat -> Z.of_nat (length arr) < 2 ^ 62 ->
  exists arr',
    place_chunk (mkmappings arr cnt) (Z.of_nat (length placed)) c =
      OK (mkmappings arr' (u64 (cnt + Z.of_nat (length (cut_gap c)) - 1)),
          u64 (Z.of_nat (length placed + length (cut_gap c)) - 1)) /\
    length arr' = length arr /\
    take (length (placed ++ cut_gap c)) arr' = Some <$> (placed ++ cut_gap c).
Proof.
  destruct c as [p z]. intros (Hp & Hz & He & Hgap) Hcnt Ht Hl Hcap Hb. cbn [ptr size] in *.
  destruct (cut_one arr cnt placed Hcnt Hl Hb) as [Hc1 Hs1]. rewrite length_app.
  unfold cut_gap in *. destruct (contains_gap (mkchunk p z)) eqn:Hcg; cbn [orb ptr size] in *.
  2:{ rewrite place_outside by done. eexists. cbn [length]. rewrite Hc1, Hs1.
      split; [done|]. rewrite length_insert, Nat.add_1_r. split; [done|].
      by apply take_placed with arr. }
  unfold contains_gap in Hcg. cbn [ptr size] in Hcg.
  apply andb_true_iff in Hcg as [H1%Z.leb_le H2%Z.leb_le].
  destruct (Z.ltb_spec p KVM_32BIT_GAP_START) as [H3|H3];
    destruct (Z.ltb_spec KVM_32BIT_GAP_END (p + z)) as [H4|H4]; cbn [app length] in *.
  - rewrite place_split by (done || lia). eexists.
    replace (cnt + Z.of_nat 2 - 1) with (cnt + 1) by lia.
    replace (u64 (Z.of_nat (length placed + 2) - 1)) with (Z.of_nat (S (length placed)))
      by (rewrite u64_small by (unfold is_u64; lia); lia).
    split; [done|]. rewrite !length_insert, (Nat.add_comm _ 2). split; [done|]. cbn [plus].
    rewrite take_snoc_insert by (rewrite !length_insert; lia).
    rewrite take_placed_twice by done. by rewrite <- fmap_snoc, <- app_assoc.
  - rewrite place_shrink by (done || lia). eexists. rewrite Hc1, Hs1. split; [done|].
    rewrite !length_insert, Nat.add_1_r. split; [done|]. by apply take_placed_twice.
  - rewrite place_move by (done || lia). eexists. rewrite Hc1, Hs1. split; [done|].
    rewrite !length_insert, Nat.add_1_r. split; [done|]. by apply take_placed_twice.
  - rewrite place_gap by (done || lia). eexists. rewrite Nat.add_0_r.
    replace (cnt + Z.of_nat 0 - 1) with (cnt - 1) by lia. split; [done|].
    rewrite length_insert, app_nil_r, take_insert_ge by lia. done.
Qed.

(** *** The whole list *)

Lemma free_list_length_spec m l : forall node fuel len,
  free_list_at m node l -> (length l < fuel)%nat -> 0 <= len ->
  len + Z.of_nat (length l) < 2 ^ 64 ->
  while fuel (fun '(cur, len) =>
    if cur =? 0 then OK (inr len)
    else cur ← free_next m cur; OK (inl (cur, u64 (len + 1)))) (node, len)
  = OK (len + Z.of_nat (length l)).
Proof.
  induction l as [|[s e] l IH]; intros node fuel len Hl Hf H0 Hb;
    (destruct fuel as [|fuel]; [cbn in Hf; lia|]); rewrite while_S; inversion Hl; subst.
  - cbn. f_equal. lia.
  - rewrite (proj2 (Z.eqb_neq _ _)) by done. cbn [length] in *.
    match goal with H : free_next m node = OK _ |- _ => rewrite H end. cbn [mbind outcome_bind].
    rewrite u64_small by (unfold is_u64; lia). rewrite (IH next) by (done || lia). f_equal. lia.
Qed.

Definition placed_chunks (prev : Z) (l : list (Z * Z)) : list mem_chunk :=
  chunks_before prev l ≫= cut_gap.

Lemma cut_gap_avoiding c : KVM_32BIT_GAP_START < ptr c -> cut_gap c = [c].
Proof.
  intros H. unfold cut_gap, contains_gap. by rewrite (proj2 (Z.leb_gt _ _)) by done.
Qed.

Lemma placed_above_gap l : forall prev,
  KVM_32BIT_GAP_START < prev -> ascending prev l ->
  length (placed_chunks prev l) = length l.
Proof.
  unfold placed_chunks. induction l as [|[s e] l IH]; intros prev Hp Ha; [done|].
  cbn in *. destruct Ha as (? & ? & ?). rewrite cut_gap_avoiding by done. cbn.
  by rewrite IH by (done || lia).
Qed.

(** At most one chunk contains the gap, so cutting adds at most one element. *)
Lemma placed_length l : forall prev,
  Forall chunk_ok (chunks_before prev l) -> ascending prev l ->
  (length (placed_chunks prev l) <= S (length l))%nat.
Proof.
  unfold placed_chunks. induction l as [|[s e] l IH]; intros prev Hok Ha; [cbn; lia|].
  cbn [chunks_before ascending length] in *. destruct Ha as (? & ? & Ha).
  apply Forall_cons in Hok as [(_ & _ & _ & Hc) Hok]. cbn [mbind list_bind].
  rewrite length_app. unfold cut_gap at 1.
  destruct (contains_gap (mkchunk prev (s - prev))) eqn:E.
  - unfold contains_gap in E. cbn [ptr size] in E. apply andb_true_iff in E as [_ E%Z.leb_le].
    pose proof (placed_above_gap l e ltac:(gap_consts; lia) Ha) as Hl.
    unfold placed_chunks in Hl. rewrite Hl, length_app.
    destruct (_ <? _), (_ <? _); cbn; lia.
  - specialize (IH e Hok Ha). cbn [length]. lia.
Qed.

Lemma placed_cons s e prev l :
  placed_chunks prev ((s, e) :: l) = cut_gap (mkchunk prev (s - prev)) ++ placed_chunks e l.
Proof. reflexivity. Qed.

Lemma cut_gap_length c : (length (cut_gap c) <= 2)%nat.
Proof. unfold cut_gap. repeat case_match; cbn; lia. Qed.

(** A split chunk is the one around the gap; what follows lies above it. *)
Lemma cut_gap_split prev s e l :
  length (cut_gap (mkchunk prev (s - prev))) = 2%nat -> s < e -> ascending e l ->
  length (placed_chunks e l) = length l.
Proof.
  unfold cut_gap. destruct (contains_gap _) eqn:E; [|done]. cbn [ptr size].
  unfold contains_gap in E. cbn [ptr size] in E. apply andb_true_iff in E as [_ E%Z.leb_le].
  intros _ Hse Ha. apply placed_above_gap; [gap_consts; lia|done].
Qed.

(** The space the chunks of [l] still need. *)
Definition room (prev : Z) (l : list (Z * Z)) : nat :=
  S (length l `max` length (placed_chunks prev l)).

Lemma room_cons prev s e l :
  prev < s -> s < e -> ascending e l ->
  (length (cut_gap (mkchunk prev (s - prev))) + room e l <= room prev ((s, e) :: l))%nat.
Proof.
  intros H1 H2 H3. unfold room. rewrite placed_cons, length_app. cbn [length].
  pose proof (cut_gap_length (mkchunk prev (s - prev))) as Hl.
  pose proof (cut_gap_split prev s e l) as Hs.
  destruct (length (cut_gap (mkchunk prev (s - prev)))) as [|[|[|n]]]; try lia.
  rewrite Hs by done. lia.
Qed.

(** One step of the collection: the chunk before the free region [(s, e)]. *)
Lemma collect_step arr placed prev s e l :
  chunk_ok (mkchunk prev (s - prev)) -> prev < s -> s < e -> ascending e l ->
  take (length placed) arr = Some <$> placed ->
  (length placed + room prev ((s, e) :: l) <= length arr)%nat ->
  Z.of_nat (length arr) < 2 ^ 62 ->
  exists arr', let placed' := placed ++ cut_gap (mkchunk prev (s - prev)) in
    place_chunk (mkmappings arr (Z.of_nat (length placed + S (length l))))
      (Z.of_nat (length placed)) (mkchunk prev (s - prev)) =
      OK (mkmappings arr' (Z.of_nat (length placed' + length l)),
          u64 (Z.of_nat (length placed') - 1)) /\
    u64 (u64 (Z.of_nat (length placed') - 1) + 1) = Z.of_nat (length placed') /\
    length arr' = length arr /\
    take (length placed') arr' = Some <$> placed' /\
    (length placed' + room e l <= length arr')%nat.
Proof.
  intros Hc H1 H2 H3 Ht Hr Hb. pose proof (room_cons prev s e l H1 H2 H3) as Hroom.
  unfold room in Hroom, Hr |- *. rewrite placed_cons, length_app in Hr, Hroom. cbn [length] in *.
  destruct (place_chunk_spec arr (Z.of_nat (length placed + S (length l))) placed
    (mkchunk prev (s - prev)) Hc) as (arr' & Hp & Hla & Hta);
    [unfold is_u64; lia|done|lia|lia|lia|].
  exists arr'. cbv zeta. rewrite Hp, length_app.
  set (k := length (cut_gap (mkchunk prev (s - prev)))) in *. split; [|split].
  - do 3 f_equal.
    rewrite u64_small; unfold is_u64; lia.
  - unfold u64. rewrite Zplus_mod_idemp_l, Z.mod_small; lia.
  - split; [done|]. split; [|lia]. unfold k. by rewrite <- length_app.
Qed.

Definition collect_body (m : gmem) : Z * Z * Z * mem_mappings ->
    outcome (Z * Z * Z * mem_mappings + Z * Z * mem_mappings) :=
  fun '(cur, next, cur_slot, mm) =>
      if next =? 0 then OK (inr (cur, cur_slot, mm))
      else
        cur_end ← free_end m cur;
        next_start ← free_start m next;
        '(mm, cur_slot) ← place_chunk mm cur_slot
           (mkchunk cur_end (u64 (next_start - cur_end)));
        cur ← free_next m cur;
        next ← free_next m cur;
        OK (inl (cur, next, u64 (cur_slot + 1), mm)).

Lemma collect_body_more m cur next cur_slot mm :
  next <> 0 ->
  collect_body m (cur, next, cur_slot, mm) =
    (cur_end ← free_end m cur;
     next_start ← free_start m next;
     '(mm, cur_slot) ← place_chunk mm cur_slot (mkchunk cur_end (u64 (next_start - cur_end)));
     cur ← free_next m cur;
     next ← free_next m cur;
     OK (inl (cur, next, u64 (cur_slot + 1), mm))).
Proof. intros H. unfold collect_body. by rewrite (proj2 (Z.eqb_neq _ _)). Qed.

Lemma chunk_bounds prev s : chunk_ok (mkchunk prev (s - prev)) -> u64 (s - prev) = s - prev.
Proof. intros (H1 & H2 & H3 & _). cbn [ptr size] in *. apply u64_small. unfold is_u64. lia. Qed.

(** The end of the last free region. *)
Fixpoint last_end (e : Z) (l : list (Z * Z)) : Z :=
  match l with [] => e | (_, e) :: l => last_end e l end.

Lemma collect_loop m l : forall s0 e0 cur next placed arr fuel,
  free_list_at m cur ((s0, e0) :: l) -> free_next m cur = OK next ->
  (length l < fuel)%nat -> Forall chunk_ok (chunks_before e0 l) -> ascending e0 l ->
  take (length placed) arr = Some <$> placed ->
  (length placed + room e0 l <= length arr)%nat -> Z.of_nat (length arr) < 2 ^ 62 ->
  exists cur' arr', let placed' := placed ++ placed_chunks e0 l in
    while fuel (collect_body m)
      (cur, next, Z.of_nat (length placed),
       mkmappings arr (Z.of_nat (length placed + length l))) =
      OK (cur', Z.of_nat (length placed'), mkmappings arr' (Z.of_nat (length placed'))) /\
    free_end m cur' = OK (last_end e0 l) /\
    length arr' = length arr /\ take (length placed') arr' = Some <$> placed' /\
    (length placed' < length arr')%nat.
Proof.
  induction l as [|[s e] l IH]; intros s0 e0 cur next placed arr fuel Hl Hn Hf Hok Ha Ht Hr Hb;
    (destruct fuel as [|fuel]; [cbn in Hf; lia|]); rewrite while_S;
    inversion Hl as [|? ? ? next' ? ? Hs He Hn' Hl']; subst;
    rewrite Hn in Hn'; injection Hn' as <-; inversion Hl'; subst.
  - unfold collect_body. cbn [Z.eqb mbind outcome_bind]. exists cur, arr. cbv zeta.
    rewrite app_nil_r, Nat.add_0_r. unfold room in Hr. cbn in Hr. repeat split; try done. lia.
  - cbn [chunks_before ascending length last_end] in *. destruct Ha as (Ha1 & Ha2 & Ha3).
    apply Forall_cons in Hok as [Hc Hok].
    destruct (collect_step arr placed e0 s e l) as (arr1 & Hp & Hu & Hla & Hta & Hra); try done.
    rewrite collect_body_more by done.
    repeat match goal with
    | H : ?x = OK _ |- context [?x] => rewrite H; rewrite bind_OK end.
    rewrite (chunk_bounds _ _ Hc), Hp, bind_OK. cbv beta iota.
    repeat match goal with
    | H : ?x = OK _ |- context [?x] => rewrite H; rewrite bind_OK end.
    rewrite Hu, bind_OK. cbv beta iota.
    match goal with H : free_next m next = OK ?n |- _ =>
      destruct (IH s e next n (placed ++ cut_gap (mkchunk e0 (s - e0))) arr1 fuel)
        as (cur' & arr2 & Hw & Hrest) end; try done; [lia|lia|].
    rewrite Hw. exists cur', arr2. cbv zeta in *. rewrite placed_cons, app_assoc.
    rewrite <- Hla. done.
Qed.

Lemma read_chunks_take l : forall cs,
  take (length cs) l = Some <$> cs -> read_chunks l (length cs) = OK cs.
Proof.
  induction l as [|o l IH]; intros [|c cs] H; cbn in *; try done.
  injection H as -> H. by rewrite (IH _ H).
Qed.

(** What the two loops leave: [count] and the array agree on the chunks
    between the free regions. *)
Section MemMappings.
Context (m : gmem) (free_list s0 e0 : Z) (l : list (Z * Z)) (fuel : nat).
Context (Hlist : free_list_at m free_list ((s0, e0) :: l)) (Hfuel : (length ((s0, e0) :: l) < fuel)%nat).
Context (Hlen : Z.of_nat (length ((s0, e0) :: l)) < 2 ^ 60).
Context (Hasc : ascending FIRST_ALLOCATION ((s0, e0) :: l)).
Context (Hok : Forall chunk_ok (chunks_before FIRST_ALLOCATION ((s0, e0) :: l))).
Let placed := placed_chunks FIRST_ALLOCATION ((s0, e0) :: l).

Lemma mem_mappings_loops guest_size :
  exists arr,
    determine_mem_mappings fuel m guest_size free_list =
      (if negb (guest_size =? last_end e0 l) then
         fst <$> place_chunk (mkmappings arr (Z.of_nat (length placed)))
                   (Z.of_nat (length placed))
                   (mkchunk (last_end e0 l) (u64 (guest_size - last_end e0 l)))
       else OK (mkmappings arr (Z.of_nat (length placed)))) /\
    length arr = S (S (length ((s0, e0) :: l))) /\ take (length placed) arr = Some <$> placed /\
    (length placed < length arr)%nat.
Proof.
  unfold determine_mem_mappings, free_list_length.
  rewrite (free_list_length_spec m ((s0, e0) :: l)) by (done || lia).
  rewrite bind_OK. cbv zeta. set (arr0 := replicate _ _).
  assert (length arr0 = S (S (length ((s0, e0) :: l)))) as Hl0.
  { unfold arr0. rewrite length_replicate, u64_small by (unfold is_u64; lia). lia. }
  replace (u64 (u64 (0 + Z.of_nat (length ((s0, e0) :: l)) + 2) - 2)) with (Z.of_nat (0 + S (length l)))
    by (rewrite (u64_small (_ + 2)), u64_small by (unfold is_u64; cbn [length] in *; lia);
        cbn [length]; lia).
  inversion Hlist as [|? ? ? next ? Hne Hs He Hn Hl']; subst.
  rewrite Hs, bind_OK. cbn [ascending chunks_before] in *. destruct Hasc as (H1 & H2 & H3).
  apply Forall_cons in Hok as [Hc Hok']. rewrite (chunk_bounds _ _ Hc).
  pose proof (placed_length ((s0, e0) :: l) FIRST_ALLOCATION ltac:(by constructor) ltac:(done)) as Hpl.
  destruct (collect_step arr0 [] FIRST_ALLOCATION s0 e0 l) as (arr1 & Hp & Hu & Hla & Hta & Hra);
    try done; [unfold room; cbn [length] in *; lia|cbn [length] in *; lia|].
  change (Z.of_nat (length [])) with 0 in Hp. cbn [length app] in *. rewrite Hp, !bind_OK.
  rewrite Hn, bind_OK, Hu.
  destruct (collect_loop m l s0 e0 free_list next
    (cut_gap (mkchunk FIRST_ALLOCATION (s0 - FIRST_ALLOCATION))) arr1 fuel)
    as (cur & arr2 & Hw & Hend & Hl2 & Ht2 & Hb2); try done; [lia|lia|].
  unfold collect_body in Hw. rewrite Hw, bind_OK, Hend, bind_OK.
  exists arr2. unfold placed. rewrite placed_cons. split; [done|].
  split; [congruence|]. split; [done|lia].
Qed.
End MemMappings.

(** *** Which bytes are transferred *)

Definition in_chunk (x : Z) (c : mem_chunk) : Prop := ptr c <= x < ptr c + size c.
Definition in_chunks (x : Z) (cs : list mem_chunk) : Prop := Exists (in_chunk x) cs.

Definition is_free (x : Z) (l : list (Z * Z)) : Prop := Exists (fun '(s, e) => s <= x < e) l.

(** Ascending, non-empty, without overlap. *)
Fixpoint chunks_ordered (prev : Z) (cs : list mem_chunk) : Prop :=
  match cs with
  | [] => True
  | c :: cs => prev <= ptr c /\ 0 < size c /\ chunks_ordered (ptr c + size c) cs
  end.

Lemma chunks_ordered_weaken p q cs : p <= q -> chunks_ordered q cs -> chunks_ordered p cs.
Proof. destruct cs; cbn; [done|]. intros ? (? & ? & ?). split; [lia|done]. Qed.

Lemma in_chunks_cons x c cs : in_chunks x (c :: cs) <-> in_chunk x c \/ in_chunks x cs.
Proof. apply Exists_cons. Qed.
Lemma in_chunks_nil x : in_chunks x [] <-> False.
Proof. apply Exists_nil. Qed.
Lemma in_chunks_app x cs ds : in_chunks x (cs ++ ds) <-> in_chunks x cs \/ in_chunks x ds.
Proof. apply Exists_app. Qed.

Lemma gap_start_eq : KVM_32BIT_GAP_START = 0xD0000000. Proof. reflexivity. Qed.
Lemma gap_end_eq : KVM_32BIT_GAP_END = 0x100000000. Proof. reflexivity. Qed.

Lemma in_gap_false x : in_gap x = false <-> x < KVM_32BIT_GAP_START \/ KVM_32BIT_GAP_END <= x.
Proof. unfold in_gap. by rewrite andb_false_iff, Z.leb_gt, Z.ltb_ge. Qed.

Lemma in_cut_gap x c : chunk_ok c -> in_chunks x (cut_gap c) <-> in_chunk x c /\ in_gap x = false.
Proof.
  destruct c as [p z]. intros (Hp & Hz & _ & Hg). unfold cut_gap. cbn [ptr size] in *.
  rewrite in_gap_false. pose proof gap_start_eq as G1. pose proof gap_end_eq as G2.
  destruct (contains_gap (mkchunk p z)) eqn:E.
  - unfold contains_gap in E. cbn [ptr size] in E.
    apply andb_true_iff in E as [E1%Z.leb_le E2%Z.leb_le].
    destruct (Z.ltb_spec p KVM_32BIT_GAP_START), (Z.ltb_spec KVM_32BIT_GAP_END (p + z)); cbn [app];
      rewrite ?in_chunks_cons, ?in_chunks_nil; unfold in_chunk; cbn [ptr size]; lia.
  - cbn [orb] in Hg. unfold avoids_gap in Hg. cbn [ptr size] in Hg.
    rewrite in_chunks_cons, in_chunks_nil. unfold in_chunk. cbn [ptr size].
    apply orb_true_iff in Hg. rewrite !Z.leb_le in Hg. lia.
Qed.

Lemma last_end_le l : forall prev, ascending prev l -> prev <= last_end prev l.
Proof.
  induction l as [|[s e] l IH]; intros prev H; cbn in *; [lia|].
  destruct H as (? & ? & H). apply IH in H. lia.
Qed.

Lemma in_placed x l : forall prev,
  ascending prev l -> Forall chunk_ok (chunks_before prev l) ->
  in_chunks x (placed_chunks prev l) <->
  prev <= x < last_end prev l /\ in_gap x = false /\ ~ is_free x l.
Proof.
  induction l as [|[s e] l IH]; intros prev Ha Hok; cbn in *.
  - rewrite in_chunks_nil. lia.
  - destruct Ha as (H1 & H2 & H3). apply Forall_cons in Hok as [Hc Hok].
    unfold placed_chunks. cbn [chunks_before mbind list_bind].
    rewrite in_chunks_app, in_cut_gap by done. fold (placed_chunks e l).
    rewrite IH by done. unfold is_free. rewrite Exists_cons. unfold in_chunk. cbn [ptr size].
    pose proof (last_end_le l e H3).
    assert (is_free x l -> e < x) as Hf.
    { clear -H3. intros Hf. revert e H3. induction Hf as [[s e'] l Hx|[s e'] l Hx IH];
        intros e Ha; cbn in *; [lia|]. destruct Ha as (? & ? & Ha). apply IH in Ha. lia. }
    unfold is_free in *. split.
    + intros [[? ?]|(? & ? & ?)]; (split; [lia|]); split; try done; intros [|Hin]; try lia.
      * apply Hf in Hin. lia.
      * done.
    + intros (Hx & Hg & Hn). destruct (Z.ltb_spec x s); [left; split; [lia|done]|].
      right. split; [|tauto]. destruct (Z.ltb_spec x e); [|lia]. destruct Hn. left. lia.
Qed.

Lemma placed_ordered l : forall prev,
  ascending prev l -> Forall chunk_ok (chunks_before prev l) ->
  chunks_ordered prev (placed_chunks prev l).
Proof.
  induction l as [|[s e] l IH]; intros prev Ha Hok; [done|]. cbn [ascending chunks_before] in *.
  destruct Ha as (H1 & H2 & H3). apply Forall_cons in Hok as [Hc Hok].
  rewrite placed_cons. specialize (IH e H3 Hok). apply (chunks_ordered_weaken s) in IH; [|lia].
  unfold cut_gap. destruct (contains_gap _) eqn:E; cbn [ptr size] in *.
  - unfold contains_gap in E. cbn [ptr size] in E. apply andb_true_iff in E as [E1%Z.leb_le E2%Z.leb_le].
    pose proof gap_start_eq as G1. pose proof gap_end_eq as G2.
    destruct (Z.ltb_spec prev KVM_32BIT_GAP_START), (Z.ltb_spec KVM_32BIT_GAP_END (prev + (s - prev)));
      cbn [app chunks_ordered ptr size]; repeat split; try lia;
      (eapply chunks_ordered_weaken; [|exact IH]); lia.
  - cbn [app chunks_ordered ptr size]. repeat split; try lia.
    eapply chunks_ordered_weaken; [|exact IH]. lia.
Qed.

Lemma counted_take arr cs :
  take (length cs) arr = Some <$> cs ->
  counted_chunks (mkmappings arr (Z.of_nat (length cs))) = OK cs.
Proof.
  intros. unfold counted_chunks. cbn [mem_chunks count]. rewrite Nat2Z.id.
  by apply read_chunks_take.
Qed.

Lemma avoids_not_contains c : chunk_ok c -> avoids_gap c = true -> contains_gap c = false.
Proof.
  intros (H1 & H2 & _). unfold avoids_gap, contains_gap.
  rewrite orb_true_iff, andb_false_iff, !Z.leb_le, !Z.leb_gt.
  pose proof gap_start_eq. pose proof gap_end_eq. lia.
Qed.

(** Two free regions, [0x900000, 0xA00000) and [0x100000000, 0x140000000), the
    nodes in a 2 MiB page that is mapped to itself. *)
Definition two_regions : gmem :=
  foldl (fun m '(a, v) => poken m a (le_split 8 v)) (fresh_mem 0x20000)
    [(BOOT_PML4, BOOT_PDPTE + 3); (BOOT_PDPTE, BOOT_PDE + 3); (BOOT_PDE, 0x83);
     (0x13000, 0x900000); (0x13008, 0xA00000); (0x13010, 0x13100);
     (0x13100, 0x100000000); (0x13108, 0x140000000); (0x13110, 0)].

Lemma two_regions_list :
  free_list_at two_regions 0x13000 [(0x900000, 0xA00000); (0x100000000, 0x140000000)].
Proof.
  eapply free_list_cons with (next := 0x13100); [done|vm_compute; reflexivity..|].
  eapply free_list_cons with (next := 0); [done|vm_compute; reflexivity..|].
  apply free_list_nil.
Qed.

(** The memory behind the last free region, which ends at [e]: there is none,
    or it is one chunk on one side of the gap. *)
Definition tail_ok (guest_size e : Z) : Prop :=
  guest_size = e \/
  chunk_ok (mkchunk e (guest_size - e)) /\ avoids_gap (mkchunk e (guest_size - e)) = true.

(** For a well-formed free list (free regions ascending and disjoint, the I/O
    gap either inside one allocated chunk or outside it, and not behind the last
    region), [determine_mem_mappings] ends without leaving its array, and the
    chunks it counts cover exactly the bytes from 8 MiB up to the end of the
    last free region that are neither free nor in the gap, in ascending order,
    without overlap. *)
Lemma determine_mem_mappings_spec m free_list s0 e0 l fuel guest_size :
  let L := (s0, e0) :: l in
  free_list_at m free_list L -> (length L < fuel)%nat -> Z.of_nat (length L) < 2 ^ 60 ->
  ascending FIRST_ALLOCATION L -> Forall chunk_ok (chunks_before FIRST_ALLOCATION L) ->
  tail_ok guest_size (last_end FIRST_ALLOCATION L) ->
  exists mm cs,
    determine_mem_mappings fuel m guest_size free_list = OK mm /\
    counted_chunks mm = OK cs /\ count mm = Z.of_nat (length cs) /\
    chunks_ordered FIRST_ALLOCATION cs /\
    forall x, in_chunks x cs <->
      FIRST_ALLOCATION <= x < last_end FIRST_ALLOCATION L /\ in_gap x = false /\ ~ is_free x L.
Proof.
  intros L Hl Hf Hb Ha Hok Hg. subst L. cbn [last_end] in Hg.
  destruct (mem_mappings_loops m free_list s0 e0 l fuel Hl Hf Hb Ha Hok guest_size)
    as (arr & Hd & Hla & Ht & Hp).
  assert (exists arr', determine_mem_mappings fuel m guest_size free_list =
      OK (mkmappings arr' (Z.of_nat (length (placed_chunks FIRST_ALLOCATION ((s0, e0) :: l))))) /\
    take (length (placed_chunks FIRST_ALLOCATION ((s0, e0) :: l))) arr' = Some <$> placed_chunks FIRST_ALLOCATION ((s0, e0) :: l))
    as (arr' & E & Ht').
  { destruct (Z.eqb_spec guest_size (last_end e0 l)) as [|Hne]; [by exists arr|].
    destruct Hg as [|[Hc Hav]]; [done|]. pose proof (avoids_not_contains _ Hc Hav) as Hco.
    cbn [negb] in Hd. rewrite (chunk_bounds _ _ Hc) in Hd. pose proof Hc as (Hc1 & Hc2 & Hc3 & _).
    cbn [length ptr size] in *.
    rewrite Hd, place_outside by (done || unfold is_u64; lia). eexists. split; [done|].
    by rewrite take_insert_ge by lia. }
  exists (mkmappings arr' (Z.of_nat (length (placed_chunks FIRST_ALLOCATION ((s0, e0) :: l))))), (placed_chunks FIRST_ALLOCATION ((s0, e0) :: l)).
  split; [done|]. split; [by apply counted_take|]. split; [done|]. split; [by apply placed_ordered|].
  intros x. by rewrite in_placed by done.
Qed.

(** When memory behind the last free region is allocated, its chunk is
    written to the array at index [count], which is never raised: the loops
    that send [count] chunks do not send it. *)
Theorem trailing_allocation_not_counted m free_list s0 e0 l fuel guest_size :
  let L := (s0, e0) :: l in
  let tail := mkchunk (last_end e0 l) (guest_size - last_end e0 l) in
  free_list_at m free_list L -> (length L < fuel)%nat -> Z.of_nat (length L) < 2 ^ 60 ->
  ascending FIRST_ALLOCATION L -> Forall chunk_ok (chunks_before FIRST_ALLOCATION L) ->
  chunk_ok tail -> avoids_gap tail = true ->
  exists mm cs,
    determine_mem_mappings fuel m guest_size free_list = OK mm /\
    get_chunk mm (count mm) = OK tail /\ counted_chunks mm = OK cs /\
    forall x, in_chunk x tail -> ~ in_chunks x cs.
Proof.
  intros L tail Hl Hf Hb Ha Hok Hc Hav. unfold tail in *.
  pose proof (avoids_not_contains _ Hc Hav) as Hco.
  destruct (mem_mappings_loops m free_list s0 e0 l fuel Hl Hf Hb Ha Hok guest_size)
    as (arr & Hd & Hla & Ht & Hp).
  pose proof (chunk_bounds _ _ Hc) as Hu. destruct Hc as (Hc1 & Hc2 & Hc3 & _).
  cbn [ptr size] in *. rewrite Hd, (proj2 (Z.eqb_neq _ _)) by lia. cbn [negb]. rewrite Hu.
  cbn [length] in *.
  rewrite place_outside by (done || unfold is_u64; lia). eexists _, _. split; [done|].
  cbn [count fst]. split; [by apply get_set_chunk|].
  split; [apply counted_take; by rewrite take_insert_ge by lia|].
  intros x Hx. rewrite in_placed by done. unfold in_chunk in Hx. cbn [ptr size last_end] in *. lia.
Qed.

Lemma determine_mem_mappings_spec_witness :
  exists mm cs,
    determine_mem_mappings 3 two_regions 0x140000000 0x13000 = OK mm /\
    counted_chunks mm = OK cs /\ in_chunks 0xB00000 cs /\ ~ in_chunks 0x900000 cs.
Proof.
  destruct (determine_mem_mappings_spec two_regions 0x13000 0x900000 0xA00000
    [(0x100000000, 0x140000000)] 3 0x140000000) as (mm & cs & E & Ec & _ & _ & H).
  - exact two_regions_list.
  - cbn. lia.
  - cbn. lia.
  - cbn. repeat split; lia.
  - apply Forall_cons_2; [|apply Forall_cons_2; [|by apply Forall_nil_2]];
      split_and!; vm_compute; congruence.
  - by left.
  - exists mm, cs. split; [exact E|]. split; [exact Ec|]. split.
    + apply H. split; [cbv; split; congruence|]. split; [reflexivity|].
      intros Hf. apply Exists_cons in Hf as [Hf|Hf]; [lia|].
      apply Exists_cons in Hf as [Hf|Hf]; [lia|]. by apply Exists_nil in Hf.
    + intros (_ & _ & Hf)%H. destruct Hf. apply Exists_cons. left. lia.
Defined.

Lemma trailing_allocation_not_counted_witness :
  exists mm cs,
    determine_mem_mappings 3 two_regions 0x180000000 0x13000 = OK mm /\
    counted_chunks mm = OK cs /\ ~ in_chunks 0x140000000 cs.
Proof.
  destruct (trailing_allocation_not_counted two_regions 0x13000 0x900000 0xA00000
    [(0x100000000, 0x140000000)] 3 0x180000000) as (mm & cs & E & _ & Ec & H).
  - exact two_regions_list.
  - cbn. lia.
  - cbn. lia.
  - cbn. repeat split; lia.
  - apply Forall_cons_2; [|apply Forall_cons_2; [|by apply Forall_nil_2]];
      split_and!; vm_compute; congruence.
  - split_and!; vm_compute; congruence.
  - reflexivity.
  - exists mm, cs. split; [exact E|]. split; [exact Ec|]. apply H.
    split; vm_compute; congruence.
Defined.
