(* ===== verification/Hypercall.v ===== *)
(** * Hypercalls

    The requests a guest makes by writing the guest-physical address of a
    request record to an I/O port: the [KVM_EXIT_IO] / [KVM_EXIT_MMIO] branch of
    [vcpu_loop] (src/uhyve.c) with the packed records of src/uhyve-syscalls.h.
    The operating system below uhyve is a [HostOS] record of operations on an
    abstract state; address translation is the interface of Paging.v. *)

From S2P Require Import Prelude GuestMem Paging MemRegions.

Open Scope uhyve_scope.

(** ** The ports (uhyve.h) *)

Definition UHYVE_PORT_WRITE : Z := 0x400.
Definition UHYVE_PORT_OPEN : Z := 0x440.
Definition UHYVE_PORT_CLOSE : Z := 0x480.
Definition UHYVE_PORT_READ : Z := 0x500.
Definition UHYVE_PORT_EXIT : Z := 0x540.
Definition UHYVE_PORT_LSEEK : Z := 0x580.
Definition UHYVE_PORT_NETINFO : Z := 0x600.
Definition UHYVE_PORT_NETWRITE : Z := 0x640.
Definition UHYVE_PORT_FREELIST : Z := 0x720.
Definition UHYVE_PORT_CMDSIZE : Z := 0x740.
Definition UHYVE_PORT_CMDVAL : Z := 0x780.
Definition UHYVE_UART_PORT : Z := 0x800.
Definition UHYVE_PORT_UNLINK : Z := 0x840.

(** ** The host operating system *)

(** Every call returns the C function's return value and the new state; [-1]
    stands for an error.  [os_read] also returns the bytes it stored,
    [os_realpath] the returned pointer and what is in the result buffer. *)
Record HostOS (W : Type) := {
  os_write : W -> Z -> list byte -> Z * W;
  os_read : W -> Z -> Z -> Z * list byte * W;
  os_open : W -> list byte -> Z -> Z -> Z * W;
  os_close : W -> Z -> Z * W;
  os_unlink : W -> list byte -> Z * W;
  os_lseek : W -> Z -> Z -> Z -> Z * W;
  os_realpath : W -> list byte -> Z * list byte;
  os_putc : W -> byte -> W;
  os_start_network : W -> W
}.
Arguments os_write {W}.
Arguments os_read {W}.
Arguments os_open {W}.
Arguments os_close {W}.
Arguments os_unlink {W}.
Arguments os_lseek {W}.
Arguments os_realpath {W}.
Arguments os_putc {W}.
Arguments os_start_network {W}.

Definition min (a b : Z) : Z := if a <? b then a else b.

(** The C string at an address: the bytes up to the first NUL. *)
Fixpoint cstring (fuel : nat) (m : gmem) (a : Z) : outcome (list byte) :=
  match fuel with
  | O => OutOfFuel
  | S fuel =>
      b ← load8 m a;
      if b =? 0 then OK [] else s ← cstring fuel m (a + 1); OK (byte.of_Z b :: s)
  end.

(** [strcpy(guest_mem + a, s)] *)
Definition strcpy (m : gmem) (a : Z) (s : list byte) : outcome gmem := store m a (s ++ [NUL]).

(** What a vCPU thread and the threads it wakes share. *)
Record machine (W : Type) := mkmachine {
  mem : gmem;
  os : W;
  tx_sem : Z;                          (* posts of the network semaphore *)
  mig_sem : Z;                         (* posts of the migration semaphore *)
  mem_map : mem_mappings;
  efd : Z                              (* negative: network threads not started *)
}.
Arguments mkmachine {W}.
Arguments mem {W}.
Arguments os {W}.
Arguments tx_sem {W}.
Arguments mig_sem {W}.
Arguments mem_map {W}.
Arguments efd {W}.

(** How a handler ends: the vCPU goes on, or its thread ends with a pointer to
    its result. *)
Inductive control := Continue | PthreadExit (result : Z).

Section Hypercalls.
Context {W : Type} (host : HostOS W) (verbose : bool) (cpuid : Z).
Context (uhyve_argc uhyve_envc : Z) (uhyve_argv uhyve_envp : list (list byte)).
Context (uhyve_get_mac : list byte) (HERMIT_NETIF : option (list byte)) (eventfd : Z).
Context (guest_size : Z) (fuel : nat).
Context `{AddrTranslation gmem}.

Abbreviation machine := (machine W).

Definition with_mem (s : machine) (m : gmem) : machine :=
  mkmachine m (os s) (tx_sem s) (mig_sem s) (mem_map s) (efd s).
Definition with_mem_os (s : machine) (m : gmem) (w : W) : machine :=
  mkmachine m w (tx_sem s) (mig_sem s) (mem_map s) (efd s).

(** *** Output and input through the guest's page tables *)

Definition write_body (m : gmem) (raddr : Z)
    : Z * Z * W -> outcome (Z * Z * W + Z * W) :=
  fun '(bytes_to_write, bytes_written, w) =>
    if 0 <? bytes_to_write then
      buf ← load64 m (raddr + 4);
      '(physical_address, physical_address_end) ← translate m (u64 (buf + bytes_written));
      let step := min (u64 (physical_address_end - physical_address)) bytes_to_write in
      fd ← load32 m raddr;
      data ← load m physical_address (Z.to_nat step);
      let '(ret, w) := os_write host w (s32 fd) data in
      let bytes_written_step := u64 ret in
      let bytes_written := u64 (bytes_written + bytes_written_step) in
      if bytes_written_step <? step then OK (inr (bytes_written, w))
      else OK (inl (u64 (bytes_to_write - step), bytes_written, w))
    else OK (inr (bytes_written, w)).

Definition hypercall_write (s : machine) (raddr : Z) : outcome machine :=
  len ← load64 (mem s) (raddr + 12);
  '(bytes_written, w) ← while fuel (write_body (mem s) raddr) (len, 0, os s);
  m ← store64 (mem s) (raddr + 12) bytes_written;
  OK (with_mem_os s m w).

Definition read_body (raddr : Z)
    : Z * Z * gmem * W -> outcome (Z * Z * gmem * W + Z * gmem * W) :=
  fun '(bytes_to_read, bytes_read, m, w) =>
    if 0 <? bytes_to_read then
      buf ← load64 m (raddr + 4);
      '(physical_address, physical_address_end) ← translate m (u64 (buf + bytes_read));
      let step := min (u64 (physical_address_end - physical_address)) bytes_to_read in
      fd ← load32 m raddr;
      let '(ret, data, w) := os_read host w (s32 fd) step in
      m ← store m physical_address data;
      let bytes_read_step := u64 ret in
      let bytes_read := u64 (bytes_read + bytes_read_step) in
      if bytes_read_step <? step then OK (inr (bytes_read, m, w))
      else OK (inl (u64 (bytes_to_read - step), bytes_read, m, w))
    else OK (inr (bytes_read, m, w)).

Definition hypercall_read (s : machine) (raddr : Z) : outcome machine :=
  len ← load64 (mem s) (raddr + 12);
  '(bytes_read, m, w) ← while fuel (read_body raddr) (len, 0, mem s, os s);
  m ← store64 m (raddr + 20) bytes_read;
  OK (with_mem_os s m w).

(** *** Files *)

Definition hypercall_unlink (s : machine) (raddr : Z) : outcome machine :=
  name ← load64 (mem s) raddr;
  path ← cstring fuel (mem s) name;
  let '(ret, w) := os_unlink host (os s) path in
  m ← store32 (mem s) (raddr + 8) ret;
  OK (with_mem_os s m w).

(** [p < 0] on a pointer compares addresses. *)
Definition ptr_negative (p : Z) : bool := u64 p <? 0.

Definition hypercall_open (s : machine) (raddr : Z) : outcome machine :=
  name ← load64 (mem s) raddr;
  path ← cstring fuel (mem s) name;
  let '(p, rpath) := os_realpath host (os s) path in
  '(ret, w) ←
    (if ptr_negative p then OK (-1, os s)
     else if decide (rpath = str "/dev/kvm") then OK (-1, os s)
     else
       flags ← load32 (mem s) (raddr + 8);
       mode ← load32 (mem s) (raddr + 12);
       OK (os_open host (os s) path (s32 flags) (s32 mode)));
  m ← store32 (mem s) (raddr + 16) ret;
  OK (with_mem_os s m w).

Definition hypercall_close (s : machine) (raddr : Z) : outcome machine :=
  fd ← load32 (mem s) raddr;
  let '(ret, w) := if 2 <? s32 fd then os_close host (os s) (s32 fd) else (0, os s) in
  m ← store32 (mem s) (raddr + 4) ret;
  OK (with_mem_os s m w).

Definition hypercall_lseek (s : machine) (raddr : Z) : outcome machine :=
  fd ← load32 (mem s) raddr;
  offset ← load64 (mem s) (raddr + 4);
  whence ← load32 (mem s) (raddr + 12);
  let '(ret, w) := os_lseek host (os s) (s32 fd) (s64 offset) (s32 whence) in
  m ← store64 (mem s) (raddr + 4) ret;
  OK (with_mem_os s m w).

(** *** Network *)

Definition check_network (s : machine) : machine :=
  match HERMIT_NETIF with
  | Some _ =>
      if efd s <? 0
      then mkmachine (mem s) (os_start_network host (os s)) 1 (mig_sem s) (mem_map s) eventfd
      else s
  | None => s
  end.

Definition hypercall_netinfo (s : machine) (raddr : Z) : outcome machine :=
  m ← store (mem s) raddr (take 6 uhyve_get_mac);
  OK (check_network (with_mem s m)).

(** *** Command line and environment *)

Definition MAX_ARGC_ENVC : Z := 128.

Definition arg (l : list (list byte)) (i : Z) : outcome (list byte) :=
  match l !! Z.to_nat i with Some s => OK s | None => Undefined end.

Definition store_sizes (l : list (list byte)) (n a : Z) (m : gmem) : outcome gmem :=
  for_upto (Z.to_nat n) 0 (fun i m =>
    s ← arg l i; store32 m (a + 4 * i) (Z.of_nat (length s) + 1)) m.

Definition hypercall_cmdsize (s : machine) (raddr : Z) : outcome machine :=
  m ← store32 (mem s) raddr uhyve_argc;
  m ← store_sizes uhyve_argv uhyve_argc (raddr + 4) m;
  m ← store32 m (raddr + 4 + 4 * MAX_ARGC_ENVC) uhyve_envc;
  m ← store_sizes uhyve_envp uhyve_envc (raddr + 8 + 4 * MAX_ARGC_ENVC) m;
  OK (with_mem s m).

Definition copy_strings (l : list (list byte)) (n table : Z) (m : gmem) : outcome gmem :=
  for_upto (Z.to_nat n) 0 (fun i m =>
    p ← load64 m (table + 8 * i);
    s ← arg l i;
    strcpy m p s) m.

Definition hypercall_cmdval (s : machine) (raddr : Z) : outcome machine :=
  argv_ptr ← load64 (mem s) raddr;
  m ← copy_strings uhyve_argv uhyve_argc argv_ptr (mem s);
  env_ptr ← load64 m (raddr + 8);
  m ← copy_strings uhyve_envp uhyve_envc env_ptr m;
  OK (with_mem s m).

(** *** Migration *)

Definition hypercall_freelist (s : machine) (raddr : Z) : outcome machine :=
  if raddr =? 0 then
    OK (mkmachine (mem s) (os s) (tx_sem s) (mig_sem s + 1) (mem_map s) (efd s))
  else
    mm ← determine_mem_mappings fuel (mem s) guest_size raddr;
    OK (mkmachine (mem s) (os s) (tx_sem s) (mig_sem s + 1) mm (efd s)).

(** *** Dispatch *)

Definition continue (o : outcome machine) : outcome (machine * control) :=
  s ← o; OK (s, Continue).

Definition handle_io (s : machine) (port raddr : Z) : outcome (machine * control) :=
  if port =? UHYVE_UART_PORT then
    OK (if verbose then with_mem_os s (mem s) (os_putc host (os s) (byte.of_Z raddr)) else s,
        Continue)
  else if port =? UHYVE_PORT_WRITE then continue (hypercall_write s raddr)
  else if port =? UHYVE_PORT_READ then continue (hypercall_read s raddr)
  else if port =? UHYVE_PORT_EXIT then
    if negb (cpuid =? 0) then OK (s, PthreadExit raddr)
    else status ← load32 (mem s) raddr; Exited (s32 status)
  else if port =? UHYVE_PORT_UNLINK then continue (hypercall_unlink s raddr)
  else if port =? UHYVE_PORT_OPEN then continue (hypercall_open s raddr)
  else if port =? UHYVE_PORT_CLOSE then continue (hypercall_close s raddr)
  else if port =? UHYVE_PORT_NETINFO then continue (hypercall_netinfo s raddr)
  else if port =? UHYVE_PORT_NETWRITE then
    OK (mkmachine (mem s) (os s) (tx_sem s + 1) (mig_sem s) (mem_map s) (efd s), Continue)
  else if port =? UHYVE_PORT_LSEEK then continue (hypercall_lseek s raddr)
  else if port =? UHYVE_PORT_CMDSIZE then continue (hypercall_cmdsize s raddr)
  else if port =? UHYVE_PORT_CMDVAL then continue (hypercall_cmdval s raddr)
  else if port =? UHYVE_PORT_FREELIST then continue (hypercall_freelist s raddr)
  else Exited 1.
End Hypercalls.

(** ** A guest buffer, byte by byte *)

Section Buffers.
Context `{PageTranslation gmem va_ok}.

(** The specification of a buffer: every byte goes through the translation. *)
Fixpoint buffer_bytes (m : gmem) (va : Z) (n : nat) : outcome (list byte) :=
  match n with
  | O => OK []
  | S n =>
      '(p, e) ← translate m va;
      if p <? e then b ← load m p 1; bs ← buffer_bytes m (va + 1) n; OK (b ++ bs)
      else Undefined
  end.

Lemma load_single m a b : load m a 1 = OK b -> b = [peek m a] /\ 0 <= a < msize m.
Proof. intros (? & ? & ->)%load_inv. unfold peekn. cbn. rewrite Z.add_0_r. split; [done|lia]. Qed.

Lemma buffer_bytes_nth m n : forall va bs i,
  buffer_bytes m va n = OK bs -> (i < n)%nat ->
  exists p e, translate m (va + Z.of_nat i) = OK (p, e) /\ p < e /\
    0 <= p < msize m /\ bs !! i = Some (peek m p).
Proof.
  induction n as [|n IH]; intros va bs i Hb Hi; [lia|]. cbn [buffer_bytes] in Hb.
  apply bind_OK_inv in Hb as ([p e] & Ht & Hb). cbn in Hb.
  destruct (Z.ltb_spec p e); [|done].
  apply bind_OK_inv in Hb as (b & Hl & Hb). apply bind_OK_inv in Hb as (bs' & Hbs & Hb).
  apply OK_inj in Hb as <-. apply load_single in Hl as [-> Hr]. destruct i as [|i].
  - exists p, e. rewrite Z.add_0_r. done.
  - destruct (IH (va + 1) bs' i Hbs ltac:(lia)) as (p' & e' & Ht' & ? & ? & ?).
    exists p', e'. split; [|done]. by replace (va + Z.of_nat (S i)) with (va + 1 + Z.of_nat i) by lia.
Qed.

Lemma buffer_bytes_length m n : forall va bs, buffer_bytes m va n = OK bs -> length bs = n.
Proof.
  induction n as [|n IH]; intros va bs Hb; cbn [buffer_bytes] in Hb; [by injection Hb as <-|].
  apply bind_OK_inv in Hb as ([p e] & Ht & Hb). cbn in Hb.
  destruct (Z.ltb_spec p e); [|done].
  apply bind_OK_inv in Hb as (b & Hl & Hb). apply bind_OK_inv in Hb as (bs' & Hbs & Hb).
  apply OK_inj in Hb as <-. apply load_single in Hl as [-> _]. cbn. by rewrite (IH _ _ Hbs).
Qed.

(** A run of a buffer inside one page is a run of physical memory. *)
Lemma buffer_run m va n bs k step p e :
  va_ok (va + Z.of_nat k) -> buffer_bytes m va n = OK bs ->
  translate m (va + Z.of_nat k) = OK (p, e) ->
  (0 < step)%nat -> Z.of_nat step <= e - p -> (k + step <= n)%nat ->
  load m p step = OK (take step (drop k bs)).
Proof.
  intros Hva Hb Ht Hpos Hs Hk. pose proof (buffer_bytes_length _ _ _ _ Hb) as Hlen.
  assert (forall i, (i < step)%nat ->
    0 <= p + Z.of_nat i < msize m /\ bs !! (k + i)%nat = Some (peek m (p + Z.of_nat i))) as Hi.
  { intros i Hi. destruct (buffer_bytes_nth m n va bs (k + i) Hb ltac:(lia))
      as (p' & e' & Ht' & _ & Hr & Hl).
    destruct (translate_page m _ p e (Z.of_nat i) Hva Ht ltac:(lia)) as [_ Ht''].
    replace (va + Z.of_nat (k + i)) with (va + Z.of_nat k + Z.of_nat i) in Ht' by lia.
    rewrite Ht'' in Ht'. by injection Ht' as <- <-. }
  pose proof (Hi 0%nat Hpos) as [Hfst _]. pose proof (Hi (step - 1)%nat ltac:(lia)) as [Hlst _].
  rewrite load_ok by lia.
  f_equal. apply list_eq_same_length with step.
  - rewrite length_take, length_drop. lia.
  - apply length_peekn.
  - intros i x y Hlt Hx Hy. rewrite lookup_peekn in Hx by done. simplify_eq.
    rewrite lookup_take_lt, lookup_drop in Hy by done.
    destruct (Hi i Hlt) as [_ Hl]. rewrite Hl in Hy. by simplify_eq.
Qed.

Lemma translate_step m va n bs k p e :
  va_ok (va + Z.of_nat k) -> buffer_bytes m va n = OK bs -> (k < n)%nat ->
  translate m (va + Z.of_nat k) = OK (p, e) -> 0 <= p < e.
Proof.
  intros Hva Hb Hk Ht. destruct (buffer_bytes_nth m n va bs k Hb Hk)
    as (p' & e' & Ht' & ? & ? & _). rewrite Ht in Ht'. simplify_eq. lia.
Qed.

(** ** Writing a buffer *)

(** A host file that takes some prefix of what it is given, as [write] does
    when no error occurs: [sink] is what the file makes of a byte sequence. *)
Record accepting {W} (host : HostOS W) (sink : W -> Z -> list byte -> W) := {
  sink_nil : forall w fd, sink w fd [] = w;
  sink_app : forall w fd a b, sink (sink w fd a) fd b = sink w fd (a ++ b);
  write_accepts : forall w fd data, exists k,
    os_write host w fd data = (Z.of_nat k, sink w fd (take k data)) /\ (k <= length data)%nat
}.

Section Write.
Context {W : Type} (host : HostOS W) (sink : W -> Z -> list byte -> W).
Context (Hhost : accepting host sink).
Context (m : gmem) (raddr buf fd : Z) (n : nat) (bs : list byte).
Context (Hbuf : load64 m (raddr + 4) = OK buf) (Hfd : load32 m raddr = OK fd).
Context (Hbytes : buffer_bytes m buf n = OK bs).
Context (Hva : forall i, 0 <= i < Z.of_nat n -> va_ok (buf + i)).
Context (Hwrap : buf + Z.of_nat n < 2 ^ 64) (Hbuf0 : 0 <= buf).

(** No write is short. *)
Definition takes_all : Prop :=
  forall w fd data, (os_write host w fd data).1 = Z.of_nat (length data).

Lemma write_step k w :
  (k < n)%nat ->
  exists d, let w' := sink w (s32 fd) (take (d - k) (drop k bs)) in
    (k <= d <= n)%nat /\
    (write_body host m raddr (Z.of_nat (n - k), Z.of_nat k, w) = OK (inr (Z.of_nat d, w')) /\
       (takes_all -> d = n) \/
     write_body host m raddr (Z.of_nat (n - k), Z.of_nat k, w) =
       OK (inl (Z.of_nat (n - d), Z.of_nat d, w')) /\ (k < d)%nat).
Proof.
  intros Hk. destruct (buffer_bytes_nth m n buf bs k Hbytes Hk) as (p & e & Ht & Hpe & Hr & _).
  pose proof (buffer_bytes_length _ _ _ _ Hbytes) as Hlen.
  pose proof (Hva (Z.of_nat k) ltac:(lia)) as Hvk.
  unfold write_body. rewrite (proj2 (Z.ltb_lt _ _)) by lia. rewrite Hbuf, bind_OK.
  rewrite u64_small by (unfold is_u64; lia). rewrite Ht, bind_OK. cbv beta iota.
  rewrite Hfd, bind_OK. set (step := min _ _).
  assert (0 < step /\ step <= e - p /\ step <= Z.of_nat (n - k)) as (Hs1 & Hs2 & Hs3).
  { pose proof (translate_range m _ p e Hvk Ht). unfold step, min.
    rewrite u64_small by (unfold is_u64; lia). zbool; lia. }
  rewrite (buffer_run m buf n bs k (Z.to_nat step) p e) by (done || lia). rewrite bind_OK.
  destruct (write_accepts _ _ Hhost w (s32 fd) (take (Z.to_nat step) (drop k bs)))
    as (j & Hw & Hj). rewrite length_take, length_drop in Hj.
  rewrite Hw. exists (k + j)%nat. cbv zeta. rewrite take_take.
  replace (k + j - k)%nat with j by lia. rewrite Nat.min_l by lia. split; [lia|].
  rewrite !u64_small by (unfold is_u64; lia).
  destruct (Z.ltb_spec (Z.of_nat j) step).
  - left. split; [do 3 f_equal; lia|]. intros Hall. 
    pose proof (Hall w (s32 fd) (take (Z.to_nat step) (drop k bs))) as Ha. rewrite Hw in Ha.
    cbn [fst] in Ha. rewrite length_take, length_drop in Ha. lia.
  - right. split; [|lia]. do 3 f_equal. f_equal; lia.
Qed.
Lemma write_loop fuel w :
  (n < fuel)%nat ->
  exists k, (k <= n)%nat /\ (takes_all -> k = n) /\
    while fuel (write_body host m raddr) (Z.of_nat n, 0, w) =
    OK (Z.of_nat k, sink w (s32 fd) (take k bs)).
Proof.
  intros Hfuel.
  destruct (while_total (write_body host m raddr)
    (fun '(tw, bw, w') => exists k, (k <= n)%nat /\ tw = Z.of_nat (n - k) /\ bw = Z.of_nat k /\
       w' = sink w (s32 fd) (take k bs))
    (fun '(bw, w') => exists k, (k <= n)%nat /\ (takes_all -> k = n) /\ bw = Z.of_nat k /\
       w' = sink w (s32 fd) (take k bs))
    (fun '(tw, _, _) => Z.to_nat tw)) with (fuel := fuel) (s := (Z.of_nat n, 0, w))
    as ([bw w'] & Hw & k & ? & ? & -> & ->).
  - intros [[tw bw] w'] (k & Hk & -> & -> & ->). destruct (decide (k = n)) as [->|Hne].
    + eexists. unfold write_body. rewrite Nat.sub_diag. split; [done|]. by exists n.
    + destruct (write_step k (sink w (s32 fd) (take k bs)) ltac:(lia)) as (d & Hd & H').
      rewrite (sink_app _ _ Hhost) in H'.
      replace (take k bs ++ take (d - k) (drop k bs)) with (take d bs) in H'.
      2:{ rewrite take_take_drop. f_equal. lia. }
      destruct H' as [[-> ?]|[-> ?]]; (eexists; split; [done|]).
      * exists d. split; [lia|done].
      * split; [exists d; split; [lia|done]|lia].
  - exists 0%nat. rewrite Nat.sub_0_r, take_0, (sink_nil _ _ Hhost). split; [lia|done].
  - lia.
  - eauto.
Qed.
End Write.

(** C1. A write request hands the file exactly a prefix of the guest's buffer,
    byte for byte through the page tables, in order, across any number of
    pages; the length field of the request returns how much was taken; the
    whole buffer is delivered when the file takes everything; nothing else of
    guest memory changes. *)
Theorem hypercall_write_delivers {W} (host : HostOS W) sink (s : machine W) raddr fd buf n bs fuel :
  accepting host sink ->
  load32 (mem s) raddr = OK fd -> load64 (mem s) (raddr + 4) = OK buf ->
  load64 (mem s) (raddr + 12) = OK (Z.of_nat n) ->
  buffer_bytes (mem s) buf n = OK bs ->
  (forall i, 0 <= i < Z.of_nat n -> va_ok (buf + i)) ->
  0 <= buf -> buf + Z.of_nat n < 2 ^ 64 -> (n < fuel)%nat ->
  exists k m', (k <= n)%nat /\ (takes_all host -> k = n) /\
    hypercall_write host fuel s raddr =
      OK (with_mem_os s m' (sink (os s) (s32 fd) (take k bs))) /\
    load64 m' (raddr + 12) = OK (Z.of_nat k) /\
    forall x, x < raddr + 12 \/ raddr + 20 <= x -> peek m' x = peek (mem s) x.
Proof.
  intros Hhost Hfd Hbuf Hlen Hbytes Hva Hb0 Hwrap Hfuel.
  destruct (write_loop host sink Hhost (mem s) raddr buf fd n bs Hbuf Hfd Hbytes Hva Hwrap Hb0
    fuel (os s) Hfuel) as (k & Hk & Hall & Hw).
  pose proof Hlen as (l & Hl & _)%fmap_OK_inv. apply load_inv in Hl as (? & ? & _).
  exists k, (poken (mem s) (raddr + 12) (le_split 8 (Z.of_nat k))). split; [done|].
  split; [done|]. split; [|split].
  - unfold hypercall_write. rewrite Hlen, bind_OK, Hw, bind_OK. cbv beta iota.
    by rewrite store_le_ok.
  - rewrite load_le_poken_same by done. f_equal. apply Z.mod_small. cbn. lia.
  - intros x Hx. apply peek_poken_out. rewrite length_le_split. lia.
Qed.
(** Where the buffer is not mapped the translation yields an empty page;
    zero bytes are written, which is not short, and the loop runs for ever: a
    guest can hang its vCPU thread inside the request. *)
Theorem write_unmapped_diverges {W} (host : HostOS W) (s : machine W) raddr fd buf len fuel :
  load32 (mem s) raddr = OK fd -> load64 (mem s) (raddr + 4) = OK buf ->
  load64 (mem s) (raddr + 12) = OK len -> 0 < len ->
  translate (mem s) buf = OK (0, 0) -> 0 <= msize (mem s) ->
  (forall w, os_write host w (s32 fd) [] = (0, w)) ->
  hypercall_write host fuel s raddr = OutOfFuel.
Proof.
  intros Hfd Hbuf Hlen Hpos Ht Hm Hw. unfold hypercall_write. rewrite Hlen, bind_OK.
  pose proof (load64_range _ _ _ Hbuf). pose proof (load64_range _ _ _ Hlen).
  rewrite (while_diverges _ (fun '(tw, bw, _) => tw = len /\ bw = 0)); [done| |done].
  intros [[tw bw] w] [-> ->]. exists (len, 0, w). split; [|done].
  unfold write_body. rewrite (proj2 (Z.ltb_lt _ _)), Hbuf, bind_OK by done.
  rewrite Z.add_0_r, u64_small, Ht, bind_OK by done. cbv beta iota.
  unfold min. change (u64 (0 - 0)) with 0. rewrite (proj2 (Z.ltb_lt _ _)) by done.
  rewrite Hfd, bind_OK, load_ok, bind_OK by (cbn; lia). cbn [Z.to_nat peekn seq fmap list_fmap].
  rewrite Hw. change (u64 0 <? 0) with false. cbv iota.
  by rewrite Z.sub_0_r, u64_small by done.
Qed.

(** ** Reading into a buffer *)

(** A host whose reads do not fail: each returns the number of bytes it stored. *)
Definition providing {W} (host : HostOS W) : Prop :=
  forall w fd n, 0 < n -> exists data w',
    os_read host w fd n = (Z.of_nat (length data), data, w') /\ Z.of_nat (length data) <= n.

(** The bytes a sequence of reads yields. *)
Inductive received {W} (host : HostOS W) (fd : Z) (w : W) : list byte -> W -> Prop :=
| received_nil : received host fd w [] w
| received_snoc ds w1 n d ret w2 :
    received host fd w ds w1 -> os_read host w1 fd n = (ret, d, w2) ->
    received host fd w (ds ++ d) w2.

Section Read.
Context {W : Type} (host : HostOS W) (Hhost : providing host).
Context (m : gmem) (raddr buf fd : Z) (n : nat) (phys : Z -> Z).

(** What the read leaves alone: everything but the buffer's physical bytes. *)
Definition same_outside (m' : gmem) : Prop :=
  msize m' = msize m /\
  forall x, (forall j, 0 <= j < Z.of_nat n -> x <> phys j) -> peek m' x = peek m x.

(** The buffer is mapped by tables outside it, no two of its bytes share a
    physical byte, and it does not cover the request. *)
Context (Hmap : forall m' i, same_outside m' -> 0 <= i < Z.of_nat n ->
  exists e, translate m' (buf + i) = OK (phys i, e) /\ phys i < e).
Context (Hinj : forall i j, 0 <= i < Z.of_nat n -> 0 <= j < Z.of_nat n -> phys i = phys j -> i = j).
Context (Hmem : forall i, 0 <= i < Z.of_nat n -> 0 <= phys i < msize m).
Context (Hreq : forall i, 0 <= i < Z.of_nat n -> phys i < raddr \/ raddr + 28 <= phys i).
Context (Hva : forall i, 0 <= i < Z.of_nat n -> va_ok (buf + i)).
Context (Hbuf : load64 m (raddr + 4) = OK buf) (Hfd : load32 m raddr = OK fd).
Context (Hwrap : buf + Z.of_nat n < 2 ^ 64) (Hbuf0 : 0 <= buf).

Lemma same_outside_load k a m' :
  same_outside m' -> raddr <= a -> a + Z.of_nat k <= raddr + 28 ->
  load_le k m' a = load_le k m a.
Proof.
  intros [Hs Hp] H1 H2. apply load_le_ext; [done|]. intros x Hx. apply Hp.
  intros j Hj ->. destruct (Hreq j Hj); lia.
Qed.

(** The bytes already received are in place. *)
Definition filled (m' : gmem) (ds : list byte) : Prop :=
  same_outside m' /\ (length ds <= n)%nat /\
  forall i b, ds !! i = Some b -> peek m' (phys (Z.of_nat i)) = b.

Lemma phys_run m' k e j :
  same_outside m' -> translate m' (buf + Z.of_nat k) = OK (phys (Z.of_nat k), e) ->
  (k + j < n)%nat -> Z.of_nat j < e - phys (Z.of_nat k) ->
  phys (Z.of_nat (k + j)) = phys (Z.of_nat k) + Z.of_nat j.
Proof.
  intros Hs Ht Hk Hj.
  destruct (translate_page m' _ _ e (Z.of_nat j) (Hva (Z.of_nat k) ltac:(lia)) Ht ltac:(lia))
    as [_ Ht'].
  destruct (Hmap m' (Z.of_nat (k + j)) Hs ltac:(lia)) as (e' & Ht'' & _).
  replace (buf + Z.of_nat (k + j)) with (buf + Z.of_nat k + Z.of_nat j) in Ht'' by lia.
  rewrite Ht' in Ht''. by injection Ht'' as <-.
Qed.

Lemma fill_step m' ds d e :
  filled m' ds -> translate m' (buf + Z.of_nat (length ds)) = OK (phys (Z.of_nat (length ds)), e) ->
  (length ds + length d <= n)%nat -> Z.of_nat (length d) <= e - phys (Z.of_nat (length ds)) ->
  (0 < length d)%nat ->
  store m' (phys (Z.of_nat (length ds))) d = OK (poken m' (phys (Z.of_nat (length ds))) d) /\
  filled (poken m' (phys (Z.of_nat (length ds))) d) (ds ++ d).
Proof.
  intros (Hs & Hl & Hf) Ht Hn He Hd. set (k := length ds) in *. set (p := phys (Z.of_nat k)) in *.
  assert (forall j, (j < length d)%nat -> phys (Z.of_nat (k + j)) = p + Z.of_nat j) as Hrun
    by (intros; eapply phys_run; [done|done|lia|unfold p in *; lia]).
  pose proof (Hrun (length d - 1)%nat ltac:(lia)) as Hlast.
  pose proof (Hmem (Z.of_nat (k + (length d - 1))) ltac:(lia)).
  pose proof (Hmem (Z.of_nat k) ltac:(lia)). fold p in H2.
  destruct Hs as [Hsz Hout]. split; [apply store_ok; lia|]. split; [split|split].
  - done.
  - intros x Hx. rewrite peek_poken_out; [by apply Hout|].
    destruct (Z.ltb_spec x p); [lia|]. destruct (Z.leb_spec (p + Z.of_nat (length d)) x); [lia|].
    destruct (Hx (Z.of_nat (k + Z.to_nat (x - p)))); [lia|]. rewrite Hrun by lia. lia.
  - rewrite length_app. fold k. lia.
  - intros i b Hi. apply lookup_app_Some in Hi as [Hi|[Hge Hi]].
    + pose proof (lookup_lt_Some _ _ _ Hi) as Hlt. fold k in Hlt. rewrite peek_poken_out; [by apply Hf|].
      destruct (Z.ltb_spec (phys (Z.of_nat i)) p); [lia|].
      destruct (Z.leb_spec (p + Z.of_nat (length d)) (phys (Z.of_nat i))); [lia|].
      pose proof (Hrun (Z.to_nat (phys (Z.of_nat i) - p)) ltac:(lia)) as Hr.
      assert (Z.of_nat i = Z.of_nat (k + Z.to_nat (phys (Z.of_nat i) - p))); [|lia].
      apply Hinj; [lia|lia|]. rewrite Hr. lia.
    + pose proof (lookup_lt_Some _ _ _ Hi) as Hlt. fold k in Hge, Hi, Hlt.
      replace i with (k + (i - k))%nat by lia. rewrite Hrun, peek_poken by lia.
      rewrite (proj2 (Z.leb_le _ _)), (proj2 (Z.ltb_lt _ _)) by lia. cbn.
      replace (Z.to_nat (p + Z.of_nat (i - k) - p)) with (i - k)%nat by lia. by rewrite Hi.
Qed.

Lemma read_step m' ds w w1 :
  filled m' ds -> received host (s32 fd) w ds w1 -> (length ds < n)%nat ->
  exists d m2 w2, filled m2 (ds ++ d) /\ received host (s32 fd) w (ds ++ d) w2 /\
    (read_body host raddr (Z.of_nat (n - length ds), Z.of_nat (length ds), m', w1) =
       OK (inr (Z.of_nat (length (ds ++ d)), m2, w2)) \/
     read_body host raddr (Z.of_nat (n - length ds), Z.of_nat (length ds), m', w1) =
       OK (inl (Z.of_nat (n - length (ds ++ d)), Z.of_nat (length (ds ++ d)), m2, w2)) /\
     (0 < length d)%nat).
Proof.
  intros Hfill Hrec Hk. pose proof Hfill as (Hs & _ & Hf).
  destruct (Hmap m' (Z.of_nat (length ds)) Hs ltac:(lia)) as (e & Ht & Hpe).
  pose proof (Hva (Z.of_nat (length ds)) ltac:(lia)) as Hvk.
  pose proof (translate_range _ _ _ _ Hvk Ht) as He.
  unfold read_body. rewrite (proj2 (Z.ltb_lt _ _)) by lia.
  rewrite (same_outside_load 8), Hbuf, bind_OK by (done || lia).
  rewrite u64_small by (unfold is_u64; lia). rewrite Ht, bind_OK. cbv beta iota.
  rewrite (same_outside_load 4), Hfd, bind_OK by (done || lia).
  rewrite u64_small by (unfold is_u64; lia). set (step := min _ _).
  assert (0 < step /\ step <= e - phys (Z.of_nat (length ds)) /\ step <= Z.of_nat (n - length ds))
    as (Hs1 & Hs2 & Hs3) by (unfold step, min; zbool; lia).
  destruct (Hhost w1 (s32 fd) step Hs1) as (d & w2 & Hread & Hd). rewrite Hread.
  assert (length (ds ++ d) = (length ds + length d)%nat) as Hld by apply length_app.
  exists d. destruct (decide (length d = 0%nat)) as [Hd0|Hd0].
  - apply nil_length_inv in Hd0 as ->. rewrite app_nil_r in *. exists m', w2.
    split; [done|]. split; [rewrite <- (app_nil_r ds); by eapply received_snoc|]. left.
    assert (store m' (phys (Z.of_nat (length ds))) [] = OK m') as ->.
    { rewrite store_ok; [by destruct m'| |]; destruct Hs as [Hsz _];
        pose proof (Hmem (Z.of_nat (length ds)) ltac:(lia)); cbn; lia. }
    rewrite bind_OK. cbn [length]. change (u64 (Z.of_nat 0)) with 0.
    rewrite (proj2 (Z.ltb_lt _ _)) by done. rewrite Z.add_0_r, u64_small by (unfold is_u64; lia).
    done.
  - destruct (fill_step m' ds d e) as [-> Hfill']; [done|done|lia|lia|lia|].
    eexists _, w2. split; [exact Hfill'|]. split; [by eapply received_snoc|].
    rewrite bind_OK, Hld, !u64_small by (unfold is_u64; lia).
    destruct (Z.ltb_spec (Z.of_nat (length d)) step); [left|right; split; [|lia]];
      repeat f_equal; lia.
Qed.

Lemma read_loop fuel w :
  (n < fuel)%nat ->
  exists ds m' w', filled m' ds /\ received host (s32 fd) w ds w' /\
    while fuel (read_body host raddr) (Z.of_nat n, 0, m, w) = OK (Z.of_nat (length ds), m', w').
Proof.
  intros Hfuel.
  destruct (while_total (read_body host raddr)
    (fun '(tr, br, m', w') => exists ds, tr = Z.of_nat (n - length ds) /\
       br = Z.of_nat (length ds) /\ filled m' ds /\ received host (s32 fd) w ds w')
    (fun '(br, m', w') => exists ds, br = Z.of_nat (length ds) /\ filled m' ds /\
       received host (s32 fd) w ds w')
    (fun '(tr, _, _, _) => Z.to_nat tr)) with (fuel := fuel) (s := (Z.of_nat n, 0, m, w))
    as ([[br m'] w'] & Hw & ds & -> & ? & ?).
  - intros [[[tr br] m'] w'] (ds & -> & -> & Hf & Hr). pose proof Hf as (_ & Hl & _).
    destruct (decide (length ds = n)) as [E|Hne].
    + eexists. unfold read_body. rewrite E, Nat.sub_diag. split; [done|]. exists ds.
      by rewrite E.
    + destruct (read_step m' ds w w' Hf Hr ltac:(lia)) as (d & m2 & w2 & Hf2 & Hr2 & H').
      destruct H' as [->|[-> Hd]]; (eexists; split; [done|]); [by eexists|].
      split; [by eexists|]. rewrite length_app. destruct Hf2 as (_ & Hl2 & _).
      rewrite length_app in Hl2. lia.
  - exists []. cbn [length]. rewrite Nat.sub_0_r. split; [done|]. split; [done|].
    split; [|constructor]. split; [done|]. split; [cbn; lia|]. by intros i b.
  - lia.
  - eauto 10.
Qed.
End Read.

(** C2. A read request stores exactly the bytes the file yields, in order, at
    the start of the guest's buffer, across any number of pages; [ret] is their
    number; no byte outside the buffer and the result field changes. *)
Theorem hypercall_read_fills {W} (host : HostOS W) (s : machine W) raddr fd buf n phys fuel :
  providing host ->
  (forall m' i, same_outside (mem s) n phys m' -> 0 <= i < Z.of_nat n ->
     exists e, translate m' (buf + i) = OK (phys i, e) /\ phys i < e) ->
  (forall i j, 0 <= i < Z.of_nat n -> 0 <= j < Z.of_nat n -> phys i = phys j -> i = j) ->
  (forall i, 0 <= i < Z.of_nat n -> 0 <= phys i < msize (mem s)) ->
  (forall i, 0 <= i < Z.of_nat n -> phys i < raddr \/ raddr + 28 <= phys i) ->
  (forall i, 0 <= i < Z.of_nat n -> va_ok (buf + i)) ->
  load32 (mem s) raddr = OK fd -> load64 (mem s) (raddr + 4) = OK buf ->
  load64 (mem s) (raddr + 12) = OK (Z.of_nat n) ->
  0 <= raddr -> raddr + 28 <= msize (mem s) ->
  buf + Z.of_nat n < 2 ^ 64 -> 0 <= buf -> (n < fuel)%nat ->
  exists ds m' w',
    hypercall_read host fuel s raddr = OK (with_mem_os s m' w') /\
    received host (s32 fd) (os s) ds w' /\ (length ds <= n)%nat /\
    (forall i b, ds !! i = Some b -> peek m' (phys (Z.of_nat i)) = b) /\
    load64 m' (raddr + 20) = OK (Z.of_nat (length ds)) /\
    forall x, (forall j, 0 <= j < Z.of_nat n -> x <> phys j) ->
      x < raddr + 20 \/ raddr + 28 <= x -> peek m' x = peek (mem s) x.
Proof.
  intros Hhost Hmap Hinj Hmem Hreq Hva Hfd Hbuf Hlen Hr0 Hr1 Hwrap Hb0 Hfuel.
  destruct (read_loop host Hhost (mem s) raddr buf fd n phys Hmap Hinj Hmem Hreq Hva Hbuf Hfd
    Hwrap Hb0 fuel (os s) Hfuel) as (ds & m1 & w' & ((Hsz & Hout) & Hl & Hf) & Hrec & Hw).
  exists ds, (poken m1 (raddr + 20) (le_split 8 (Z.of_nat (length ds)))), w'.
  split; [|split; [done|split; [done|split; [|split]]]].
  - unfold hypercall_read. rewrite Hlen, bind_OK, Hw, bind_OK. cbv beta iota.
    by rewrite store_le_ok by lia.
  - intros i b Hi. rewrite peek_poken_out; [by apply Hf|]. rewrite length_le_split.
    pose proof (lookup_lt_Some _ _ _ Hi). destruct (Hreq (Z.of_nat i)); lia.
  - rewrite load_le_poken_same by lia. f_equal. apply Z.mod_small. cbn. lia.
  - intros x Hx Ho. rewrite peek_poken_out by (rewrite length_le_split; lia). by apply Hout.
Qed.

End Buffers.

(** ** Command line and environment *)

(** The guest's plan for a block of strings: a table of pointers, and disjoint
    destinations that do not cover it. *)
Record string_block (m : gmem) (l : list (list byte)) (table : Z) (dest : nat -> Z) : Prop := {
  block_table : forall i s, l !! i = Some s -> load64 m (table + 8 * Z.of_nat i) = OK (dest i);
  block_nul : forall i s, l !! i = Some s -> NUL ∉ s;
  block_range : forall i s, l !! i = Some s ->
    0 <= dest i /\ dest i + Z.of_nat (length s) + 1 <= msize m;
  block_disjoint : forall i j s t, l !! i = Some s -> l !! j = Some t -> i <> j ->
    dest i + Z.of_nat (length s) + 1 <= dest j \/ dest j + Z.of_nat (length t) + 1 <= dest i;
  block_apart : forall i s, l !! i = Some s ->
    dest i + Z.of_nat (length s) + 1 <= table \/ table + 8 * Z.of_nat (length l) <= dest i
}.

(** The bytes the block covers. *)
Definition in_block (l : list (list byte)) (dest : nat -> Z) (x : Z) : Prop :=
  exists i s, l !! i = Some s /\ dest i <= x < dest i + Z.of_nat (length s) + 1.

Lemma cstring_peekn m s : forall a,
  NUL ∉ s -> 0 <= a -> a + Z.of_nat (length s) + 1 <= msize m ->
  peekn m a (length s + 1) = s ++ [NUL] -> cstring (S (length s)) m a = OK s.
Proof.
  induction s as [|b s IH]; intros a Hn H0 H1 Hp; cbn [cstring length] in *.
  - rewrite (load_le_ok 1 m a), bind_OK by (cbn; lia).
    change (Z.to_nat 1) with 1%nat. cbn in Hp |- *. injection Hp as ->. done.
  - apply not_elem_of_cons in Hn as [Hb Hn]. rewrite (load_le_ok 1 m a), bind_OK by (cbn; lia).
    assert (peekn m a 1 = [b] /\ peekn m (a + 1) (length s + 1) = s ++ [NUL]) as [-> Hs].
    { change (S (length s) + 1)%nat with (1 + (length s + 1))%nat in Hp.
      rewrite peekn_app in Hp. by injection Hp as ? ?; simplify_eq. }
    assert (le_combine [b] = byte.unsigned b) as -> by (cbn; apply Z.lor_0_r).
    destruct (Z.eqb_spec (byte.unsigned b) 0) as [E|].
    + destruct Hb. rewrite <- (byte_of_unsigned b), E. done.
    + rewrite IH, bind_OK, byte_of_unsigned by (done || lia). done.
Qed.

Lemma copy_strings_spec m l table dest :
  string_block m l table dest ->
  exists m', copy_strings l (Z.of_nat (length l)) table m = OK m' /\ msize m' = msize m /\
    (forall x, ~ in_block l dest x -> peek m' x = peek m x) /\
    forall i s, l !! i = Some s -> peekn m' (dest i) (length s + 1) = s ++ [NUL].
Proof.
  intros Hb. unfold copy_strings. rewrite Nat2Z.id.
  destruct (for_upto_inv (fun i m' => 0 <= i /\ msize m' = msize m /\
    (forall x, ~ in_block l dest x -> peek m' x = peek m x) /\
    forall j s, Z.of_nat j < i -> l !! j = Some s -> peekn m' (dest j) (length s + 1) = s ++ [NUL])
    (fun i m => p ← load64 m (table + 8 * i); s ← arg l i; strcpy m p s) (length l) 0 m)
    as (m' & -> & _ & Hs & Ho & Hd).
  - split; [done|]. split; [done|]. split; [done|]. lia.
  - intros i m1 Hi (_ & Hs & Ho & Hd).
    destruct (lookup_lt_is_Some_2 l (Z.to_nat i)) as [s Hl]; [lia|].
    assert (load64 m1 (table + 8 * i) = OK (dest (Z.to_nat i))) as ->.
    { rewrite <- (block_table _ _ _ _ Hb _ _ Hl), Z2Nat.id by lia. apply load_le_ext; [done|].
      intros x Hx. apply Ho. intros (j & t & Hj & Hx').
      pose proof (block_apart _ _ _ _ Hb j t Hj). lia. }
    rewrite bind_OK. unfold arg. rewrite Hl, bind_OK. unfold strcpy.
    destruct (block_range _ _ _ _ Hb _ _ Hl) as [H1 H2].
    rewrite store_ok by (rewrite ?length_app; cbn [length]; lia). eexists. split; [done|].
    split; [lia|]. split; [done|]. split.
    + intros x Hx. rewrite peek_poken_out; [by apply Ho|]. rewrite length_app. cbn [length].
      destruct (Z.ltb_spec x (dest (Z.to_nat i))); [lia|].
      destruct (Z.leb_spec (dest (Z.to_nat i) + Z.of_nat (length s + 1)) x); [lia|].
      destruct Hx. exists (Z.to_nat i), s. split; [done|lia].
    + intros j t Hj Hl'. destruct (decide (j = Z.to_nat i)) as [->|Hne].
      * rewrite Hl in Hl'. injection Hl' as <-.
        pose proof (peekn_poken_same m1 (dest (Z.to_nat i)) (s ++ [NUL])) as Hpp.
        by rewrite length_app in Hpp.
      * rewrite peekn_poken_out; [apply Hd; [lia|done]|]. rewrite length_app. cbn [length].
        pose proof (block_disjoint _ _ _ _ Hb j _ _ _ Hl' Hl Hne). lia.
  - exists m'. split; [done|]. split; [done|]. split; [done|]. intros i s Hl. apply Hd; [|done].
    apply lookup_lt_Some in Hl. lia.
Qed.

(** C34. The values request gives the guest its command line and environment:
    every string arrives at the address the guest put in its table, terminated,
    and reads back as the C string the host holds. *)
Theorem hypercall_cmdval_delivers {W} (s : machine W) argv envp raddr argv_ptr env_ptr da de :
  load64 (mem s) raddr = OK argv_ptr -> load64 (mem s) (raddr + 8) = OK env_ptr ->
  string_block (mem s) argv argv_ptr da -> string_block (mem s) envp env_ptr de ->
  (forall x, in_block argv da x -> ~ in_block envp de x) ->
  (forall x, in_block argv da x -> x < raddr + 8 \/ raddr + 16 <= x) ->
  (forall x, in_block argv da x -> x < env_ptr \/ env_ptr + 8 * Z.of_nat (length envp) <= x) ->
  exists m',
    hypercall_cmdval (Z.of_nat (length argv)) (Z.of_nat (length envp)) argv envp s raddr
      = OK (with_mem s m') /\
    (forall i a, argv !! i = Some a -> cstring (S (length a)) m' (da i) = OK a) /\
    (forall i e, envp !! i = Some e -> cstring (S (length e)) m' (de i) = OK e).
Proof.
  intros Ha He Hba Hbe Hdis Hreq Htab.
  destruct (copy_strings_spec _ _ _ _ Hba) as (m1 & E1 & Hs1 & Ho1 & Hd1).
  assert (string_block m1 envp env_ptr de) as Hbe1.
  { destruct Hbe as [Ht Hn Hr Hd Hap]. split; [|done|by rewrite Hs1|done|done].
    intros i e Hi. rewrite <- (Ht i e Hi). apply load_le_ext; [done|]. intros x Hx. apply Ho1.
    intros Hin. apply Htab in Hin. apply lookup_lt_Some in Hi. lia. }
  destruct (copy_strings_spec _ _ _ _ Hbe1) as (m2 & E2 & Hs2 & Ho2 & Hd2).
  exists m2. split; [|split].
  - unfold hypercall_cmdval. rewrite Ha, bind_OK, E1, bind_OK.
    rewrite (load_le_ext 8 m1 (mem s)), He, bind_OK, E2; [done|done|].
    intros x Hx. apply Ho1. intros Hin%Hreq. lia.
  - intros i a Hi. destruct (block_range _ _ _ _ Hba _ _ Hi).
    apply cstring_peekn; [exact (block_nul _ _ _ _ Hba _ _ Hi)|done|by rewrite Hs2, Hs1|].
    rewrite <- (Hd1 i a Hi). apply peekn_ext. intros x Hx. apply Ho2. apply Hdis.
    exists i, a. split; [done|lia].
  - intros i e Hi. destruct (block_range _ _ _ _ Hbe1 _ _ Hi).
    apply cstring_peekn; [exact (block_nul _ _ _ _ Hbe1 _ _ Hi)|done|by rewrite Hs2|by apply Hd2].
Qed.

(** ** A concrete host and guest *)

(** A host whose file takes and gives bytes without errors. *)
Definition file_host : HostOS (list byte) := {|
  os_write w _ data := (Z.of_nat (length data), w ++ data);
  os_read w _ n := let got := take (Z.to_nat n) w in
    (Z.of_nat (length got), got, drop (Z.to_nat n) w);
  os_open w _ _ _ := (3, w);
  os_close w _ := (0, w);
  os_unlink w _ := (0, w);
  os_lseek w _ off _ := (off, w);
  os_realpath w path := (1, path);
  os_putc w b := w ++ [b];
  os_start_network w := w
|}.

Lemma file_host_accepting : accepting file_host (fun w _ data => w ++ data).
Proof.
  split.
  - intros. apply app_nil_r.
  - intros. by rewrite app_assoc.
  - intros w fd data. exists (length data). by rewrite take_ge.
Qed.

(** A guest whose first 2 MiB are mapped to themselves, with a request at
    0x15000 for the [n] bytes at 0x14000. *)
Definition request_guest (n : Z) (data : list byte) : gmem :=
  poken
    (foldl (fun m '(a, v) => poken m a (le_split 8 v)) (fresh_mem 0x20000)
       [(BOOT_PML4, BOOT_PDPTE + 3); (BOOT_PDPTE, BOOT_PDE + 3); (BOOT_PDE, 0x83);
        (0x15000, 1); (0x15004, 0x14000); (0x1500C, n)])
    0x14000 data.

Definition request_machine {W} (w : W) (n : Z) (data : list byte) : machine W :=
  mkmachine (request_guest n data) w 0 0 (mkmappings [] 0) (-1).

Lemma hypercall_write_delivers_witness :
  exists k m', hypercall_write file_host 6 (request_machine [] 5 (str "hello")) 0x15000 =
    OK (with_mem_os (request_machine [] 5 (str "hello")) m' (take k (str "hello"))) /\
    k = 5%nat.
Proof.
  destruct (hypercall_write_delivers (va_ok := low_half) file_host
    (fun w _ data => w ++ data) (request_machine [] 5 (str "hello")) 0x15000 1 0x14000 5
    (str "hello") 6) as (k & m' & Hk & Hall & E & _).
  - exact file_host_accepting.
  - vm_compute; reflexivity.
  - vm_compute; reflexivity.
  - vm_compute; reflexivity.
  - vm_compute; reflexivity.
  - intros i Hi. unfold low_half. lia.
  - lia.
  - lia.
  - lia.
  - exists k, m'. split; [exact E|]. apply Hall. intros w fd data. reflexivity.
Defined.

(** The tables of [request_guest] are outside its buffer. *)
Lemma file_host_providing : providing file_host.
Proof.
  intros w fd n Hn. exists (take (Z.to_nat n) w), (drop (Z.to_nat n) w). split; [done|].
  rewrite length_take. lia.
Qed.

Lemma request_guest_tables m' data i :
  same_outside (request_guest 8 data) 8 (fun i => 0x14000 + i) m' -> 0 <= i < 8 ->
  length data = 8%nat ->
  translate m' (0x14000 + i) = OK (0x14000 + i, 0x200000).
Proof.
  intros [Hs Hp] Hi Hd.
  assert (Hq : forall a v, load64 (request_guest 8 []) a = OK v -> a + 8 <= 0x14000 ->
    load64 m' a = OK v).
  { intros a v Hv Ha. rewrite (load_le_ext 8 m' (request_guest 8 data)).
    - unfold request_guest in *. rewrite load_le_poken_other in Hv by (cbn; lia).
      by rewrite load_le_poken_other by lia.
    - done.
    - intros x Hx. apply Hp. lia. }
  pose proof (Hq BOOT_PML4 (BOOT_PDPTE + 3) ltac:(vm_compute; reflexivity) ltac:(done)) as H4.
  pose proof (Hq BOOT_PDPTE (BOOT_PDE + 3) ltac:(vm_compute; reflexivity) ltac:(done)) as H3.
  pose proof (Hq BOOT_PDE 0x83 ltac:(vm_compute; reflexivity) ltac:(done)) as H2.
  unfold translate, x86_translation, virt_to_phys.
  rewrite (walk_table _ _ _ _ (BOOT_PDPTE + 3));
    [|lia|change (2 ^ page_bits 3) with (2 ^ 39); lia|exact H4|reflexivity|reflexivity].
  change (frame (BOOT_PDPTE + 3) 0) with BOOT_PDPTE.
  rewrite (walk_table _ _ _ _ (BOOT_PDE + 3));
    [|lia|change (2 ^ page_bits 2) with (2 ^ 30); lia|exact H3|reflexivity|reflexivity].
  change (frame (BOOT_PDE + 3) 0) with BOOT_PDE.
  rewrite walk_unfold by lia. unfold pt_index. change (page_bits 1) with 21.
  rewrite Z.div_small by lia. change (8 * (0 mod 512)) with 0. rewrite Z.add_0_r, H2, bind_OK.
  change (has 0x83 PG_PRESENT) with true. cbv iota.
  change ((Z.of_nat 1 <? 3) && has 0x83 PG_PSE) with true. cbv iota.
  rewrite leaf_low by (unfold low_half; lia). change (frame 0x83 1) with 0.
  change (page_bits 1) with 21. rewrite Z.mod_small by lia. done.
Qed.

Lemma hypercall_read_fills_witness :
  exists (ds : list byte) m' w',
    hypercall_read file_host 9 (request_machine (str "hello") 8 (replicate 8 NUL)) 0x15000 =
      OK (with_mem_os (request_machine (str "hello") 8 (replicate 8 NUL)) m' w') /\
    load64 m' 0x15014 = OK (Z.of_nat (length ds)).
Proof.
  destruct (hypercall_read_fills (va_ok := low_half) file_host
    (request_machine (str "hello") 8 (replicate 8 NUL)) 0x15000 1 0x14000 8
    (fun i => 0x14000 + i) 9) as (ds & m' & w' & E & _ & _ & _ & Hl & _).
  - exact file_host_providing.
  - intros m' i Hs Hi. exists 0x200000. split; [|lia].
    by apply (request_guest_tables m' (replicate 8 NUL)).
  - lia.
  - cbn. lia.
  - lia.
  - unfold low_half. lia.
  - vm_compute; reflexivity.
  - vm_compute; reflexivity.
  - vm_compute; reflexivity.
  - lia.
  - cbn. lia.
  - lia.
  - lia.
  - lia.
  - exists ds, m', w'. split; [exact E|exact Hl].
Defined.

(** The top page of [self_mapped] as a buffer: the loop does not end. *)
Lemma write_unmapped_diverges_witness :
  hypercall_write file_host 1000 (request_machine [] 5 (str "hello")) 0x15000 <> OutOfFuel /\
  let s := mkmachine (poken (request_guest 5 []) 0x15004 (le_split 8 0x40000000)) []
             0 0 (mkmappings [] 0) (-1) in
  hypercall_write file_host 1000 s 0x15000 = OutOfFuel.
Proof.
  split; [vm_compute; discriminate|].
  apply (write_unmapped_diverges file_host _ 0x15000 1 0x40000000 5 1000).
  - vm_compute; reflexivity.
  - vm_compute; reflexivity.
  - vm_compute; reflexivity.
  - lia.
  - vm_compute; reflexivity.
  - cbn. lia.
  - intros w. cbn. by rewrite app_nil_r.
Defined.

(** The command line [a.out -v] and the environment [H=1]; the guest's tables
    at 0x16000 and 0x16100, its strings from 0x17000. *)
Definition cmdval_guest : gmem :=
  foldl (fun m '(a, v) => poken m a (le_split 8 v)) (fresh_mem 0x20000)
    [(0x15000, 0x16000); (0x15008, 0x16100); (0x16000, 0x17000); (0x16008, 0x17010);
     (0x16100, 0x17020)].

Lemma hypercall_cmdval_delivers_witness :
  exists m', hypercall_cmdval 2 1 [str "a.out"; str "-v"] [str "H=1"]
      (mkmachine cmdval_guest tt 0 0 (mkmappings [] 0) (-1)) 0x15000 =
    OK (with_mem (mkmachine cmdval_guest tt 0 0 (mkmappings [] 0) (-1)) m') /\
    cstring 4 m' 0x17020 = OK (str "H=1").
Proof.
  destruct (hypercall_cmdval_delivers (mkmachine cmdval_guest tt 0 0 (mkmappings [] 0) (-1))
    [str "a.out"; str "-v"] [str "H=1"] 0x15000 0x16000 0x16100
    (fun i => match i with O => 0x17000 | _ => 0x17010 end) (fun _ => 0x17020))
    as (m' & E & _ & He).
  - vm_compute; reflexivity.
  - vm_compute; reflexivity.
  - split.
    + intros [|[|i]]; cbn; intros; simplify_eq; vm_compute; reflexivity.
    + intros [|[|i]]; cbn; intros; simplify_eq; refine (bool_decide_eq_true_1 _ _); vm_compute; reflexivity.
    + intros [|[|i]]; cbn; intros; simplify_eq; cbn; lia.
    + intros [|[|i]] [|[|j]]; cbn; intros; simplify_eq; cbn; lia.
    + intros [|[|i]]; cbn; intros; simplify_eq; cbn; lia.
  - split.
    + intros [|i]; cbn; intros; simplify_eq; vm_compute; reflexivity.
    + intros [|i]; cbn; intros; simplify_eq; refine (bool_decide_eq_true_1 _ _); vm_compute; reflexivity.
    + intros [|i]; cbn; intros; simplify_eq; cbn; lia.
    + intros [|i] [|j]; cbn; intros; simplify_eq; cbn; lia.
    + intros [|i]; cbn; intros; simplify_eq; cbn; lia.
  - intros x (i & a & Hi & Hx) (j & e & Hj & Hx'). destruct i as [|[|i]], j as [|j]; cbn in *;
      simplify_eq; cbn in *; lia.
  - intros x (i & a & Hi & Hx). destruct i as [|[|i]]; cbn in *; simplify_eq; cbn in *; lia.
  - intros x (i & a & Hi & Hx). destruct i as [|[|i]]; cbn in *; simplify_eq; cbn in *; lia.
  - exists m'. split; [exact E|]. exact (He 0%nat (str "H=1") eq_refl).
Defined.
