(* ===== verification/Vcpu.v ===== *)
(** * The vCPU loop and the command line

    [vcpu_loop] of src/uhyve.c from its first [KVM_RUN] on: what it does with
    every way [KVM_RUN] returns, the I/O exits going to Hypercall.v; and the
    part of [uhyve_loop] that fixes the command line the guest is given.  The
    debugger stub is a parameter here; Gdb.v models it. *)

From S2P Require Import Prelude GuestMem Paging MemRegions Hypercall.

(** ** Exits of KVM_RUN *)

(** The errors of the ioctl, and the exit reasons with the fields of [run] the
    loop reads. *)
Inductive kvm_exit :=
| RUN_EINTR
| RUN_EFAULT
| RUN_ERROR
| EXIT_HLT
| EXIT_MMIO (phys_addr : Z) (is_write : bool) (data : Z)
| EXIT_IO (port data : Z)
| EXIT_FAIL_ENTRY
| EXIT_INTERNAL_ERROR
| EXIT_SHUTDOWN
| EXIT_DEBUG
| EXIT_OTHER (reason : Z).

(** How the loop ends without ending the process. *)
Inductive vcpu_end := Returned (ret : Z) | ThreadExited (result : Z).

Definition EXIT_FAILURE : Z := 1.
Definition GDB_SIGNAL_TRAP : Z := 5.
Definition GDB_SIGNAL_SEGV : Z := 11.

Section VcpuLoop.
Context {W : Type}.
Context (io : machine W -> Z -> Z -> outcome (machine W * control)).
Context (uhyve_gdb_enabled : bool).
Context (gdb_handle_exception : machine W -> Z -> outcome (machine W)).
Context (gdb_handle_term : machine W -> outcome (machine W)).

Definition after_io (r : machine W * control) : machine W + machine W * vcpu_end :=
  match r with
  | (s, Continue) => inl s
  | (s, PthreadExit p) => inr (s, ThreadExited p)
  end.

(** One turn of [while (1)]: the next state, or the end of the loop. *)
Definition vcpu_step (s : machine W) (e : kvm_exit)
  : outcome (machine W + machine W * vcpu_end) :=
  match e with
  | RUN_EINTR => OK (inl s)
  | RUN_EFAULT | RUN_ERROR => Exited 1
  | EXIT_HLT =>
      s ← (if uhyve_gdb_enabled then gdb_handle_term s else OK s);
      OK (inr (s, Returned 0))
  | EXIT_MMIO phys_addr is_write data =>
      let port := phys_addr in
      let raddr := if is_write : bool then data else 0 in
      (* with port 0 the KVM_EXIT_IO case reads the io member of the union *)
      if port =? 0 then Undefined else after_io <$> io s port raddr
  | EXIT_IO port raddr => after_io <$> io s port raddr
  | EXIT_FAIL_ENTRY | EXIT_INTERNAL_ERROR =>
      s ← (if uhyve_gdb_enabled then gdb_handle_exception s GDB_SIGNAL_SEGV else OK s);
      Exited 1
  | EXIT_SHUTDOWN | EXIT_DEBUG =>
      if uhyve_gdb_enabled
      then s ← gdb_handle_exception s GDB_SIGNAL_TRAP; OK (inl s)
      else Exited EXIT_FAILURE
  | EXIT_OTHER _ => Exited EXIT_FAILURE
  end.

(** The loop over a sequence of exits; the state when the sequence ends. *)
Fixpoint vcpu_run (s : machine W) (exits : list kvm_exit)
  : outcome (machine W * option vcpu_end) :=
  match exits with
  | [] => OK (s, None)
  | e :: exits =>
      r ← vcpu_step s e;
      match r with
      | inl s => vcpu_run s exits
      | inr (s, end_) => OK (s, Some end_)
      end
  end.

Lemma vcpu_run_app s exits exits' :
  vcpu_run s (exits ++ exits') =
  ('(s, r) ← vcpu_run s exits;
   match r with None => vcpu_run s exits' | Some _ => OK (s, r) end).
Proof.
  revert s. induction exits as [|e exits IH]; intros s; [done|].
  cbn [vcpu_run app]. destruct (vcpu_step s e) as [[s1|[s1 r]]| | |]; cbn; try done; apply IH.
Qed.

(** What the loop makes of an exit: interruptions vanish, and a memory-mapped
    write is the port write at its address. *)
Definition normalise (e : kvm_exit) : list kvm_exit :=
  match e with
  | RUN_EINTR => []
  | EXIT_MMIO a w d => if a =? 0 then [e] else [EXIT_IO a (if w then d else 0)]
  | e => [e]
  end.

(** Signals that interrupt [KVM_RUN] and the choice between port and
    memory-mapped access make no difference to what the guest's requests do:
    the loop behaves as on the sequence of port accesses alone. *)
Lemma vcpu_run_normalise s exits : vcpu_run s (exits ≫= normalise) = vcpu_run s exits.
Proof.
  revert s. induction exits as [|e exits IH]; intros s; [done|].
  change ((e :: exits) ≫= normalise) with (normalise e ++ (exits ≫= normalise)).
  rewrite vcpu_run_app.
  assert (vcpu_run s (normalise e) = vcpu_run s [e]) as ->.
  { destruct e; cbn [normalise]; try done. destruct (Z.eqb_spec phys_addr 0) as [|Hne]; [done|].
    cbn [vcpu_run vcpu_step]. by rewrite (proj2 (Z.eqb_neq _ _)). }
  cbn [vcpu_run]. destruct (vcpu_step s e) as [[s1|[s1 r]]| | |]; cbn; try done; apply IH.
Qed.
End VcpuLoop.

(** ** The command line (uhyve_loop) *)

(** [argv[0]] is uhyve itself; both counts are cut to what the request record
    of the guest holds.  [None]: the function returns -1. *)
Definition uhyve_loop_args (argc envc : Z) : option (Z * Z) :=
  let uhyve_argc := argc - 1 in
  let uhyve_envc := envc in
  let uhyve_argc := if MAX_ARGC_ENVC <? uhyve_argc then MAX_ARGC_ENVC else uhyve_argc in
  let uhyve_envc :=
    if MAX_ARGC_ENVC - 1 <? uhyve_envc then MAX_ARGC_ENVC - 1 else uhyve_envc in
  if (MAX_ARGC_ENVC <? uhyve_argc) || (MAX_ARGC_ENVC <? uhyve_envc) then None
  else Some (uhyve_argc, uhyve_envc).

Lemma uhyve_loop_args_spec argc envc :
  0 < argc -> 0 <= envc ->
  uhyve_loop_args argc envc =
    Some (Z.min (argc - 1) MAX_ARGC_ENVC, Z.min envc (MAX_ARGC_ENVC - 1)).
Proof.
  intros. unfold uhyve_loop_args, MAX_ARGC_ENVC. zbool; cbn [orb]; try lia; do 2 f_equal; lia.
Qed.

(** sizeof(uhyve_cmdsize_t) *)
Definition CMDSIZE_BYTES : Z := 4 + 4 * MAX_ARGC_ENVC + 4 + 4 * MAX_ARGC_ENVC.

(** The sizes of the strings, with their terminators, in an int array. *)
Lemma store_sizes_spec m l n a :
  n <= Z.of_nat (length l) -> 0 <= a -> a + 4 * n <= msize m ->
  Forall (fun s => Z.of_nat (length s) + 1 < 2 ^ 32) l ->
  exists m', store_sizes l n a m = OK m' /\ msize m' = msize m /\
    (forall x, x < a \/ a + 4 * n <= x -> peek m' x = peek m x) /\
    forall i s, l !! i = Some s -> Z.of_nat i < n ->
      load32 m' (a + 4 * Z.of_nat i) = OK (Z.of_nat (length s) + 1).
Proof.
  intros Hn Ha Hm Hl. unfold store_sizes.
  destruct (for_upto_inv (fun i m' => 0 <= i /\ msize m' = msize m /\
    (forall x, x < a \/ a + 4 * n <= x -> peek m' x = peek m x) /\
    forall j s, l !! j = Some s -> Z.of_nat j < i ->
      load32 m' (a + 4 * Z.of_nat j) = OK (Z.of_nat (length s) + 1))
    (fun i m => s ← arg l i; store32 m (a + 4 * i) (Z.of_nat (length s) + 1)) (Z.to_nat n) 0 m)
    as (m' & -> & _ & Hs & Ho & Hd).
  - split; [done|]. split; [done|]. split; [done|]. lia.
  - intros i m1 Hi (_ & Hs & Ho & Hd).
    destruct (lookup_lt_is_Some_2 l (Z.to_nat i)) as [s Hls]; [lia|].
    unfold arg. rewrite Hls, bind_OK, store_le_ok by lia. eexists. split; [done|].
    split; [lia|]. split; [done|]. split.
    + intros x Hx. rewrite peek_poken_out by (rewrite length_le_split; lia). by apply Ho.
    + intros j t Hj Hlt. destruct (decide (j = Z.to_nat i)) as [->|Hne].
      * rewrite Hls in Hj. injection Hj as <-. rewrite Z2Nat.id by lia.
        rewrite load_le_poken_same by lia. f_equal. apply Z.mod_small. cbn.
        rewrite Forall_lookup in Hl. specialize (Hl _ _ Hls). cbn in Hl. lia.
      * rewrite load_le_poken_other by (rewrite length_le_split; lia). apply Hd; [done|lia].
  - exists m'. split; [done|]. split; [done|]. split; [done|]. intros i s Hi Hlt.
    apply Hd; [done|lia].
Qed.

(** With the counts [uhyve_loop] computes from any command line and
    environment, the sizes request stays inside the guest's record, and reports
    both counts and the length, terminator included, of every string it will
    deliver. *)
Theorem hypercall_cmdsize_reports {W} (s : machine W) argv envp argc envc raddr :
  uhyve_loop_args (Z.of_nat (length argv) + 1) (Z.of_nat (length envp)) = Some (argc, envc) ->
  Forall (fun a => Z.of_nat (length a) + 1 < 2 ^ 32) (argv ++ envp) ->
  0 <= raddr -> raddr + CMDSIZE_BYTES <= msize (mem s) ->
  exists m',
    hypercall_cmdsize argc envc argv envp s raddr = OK (with_mem s m') /\
    (forall x, x < raddr \/ raddr + CMDSIZE_BYTES <= x -> peek m' x = peek (mem s) x) /\
    load32 m' raddr = OK argc /\ load32 m' (raddr + 516) = OK envc /\
    (forall i a, argv !! i = Some a -> Z.of_nat i < argc ->
       load32 m' (raddr + 4 + 4 * Z.of_nat i) = OK (Z.of_nat (length a) + 1)) /\
    (forall i e, envp !! i = Some e -> Z.of_nat i < envc ->
       load32 m' (raddr + 520 + 4 * Z.of_nat i) = OK (Z.of_nat (length e) + 1)).
Proof.
  intros Hargs Hl Hr Hm. apply Forall_app in Hl as [Hla Hle].
  rewrite uhyve_loop_args_spec in Hargs by lia. injection Hargs as Hargc Henvc.
  unfold CMDSIZE_BYTES in *. change MAX_ARGC_ENVC with 128 in *. cbn in Hm.
  unfold hypercall_cmdsize. change MAX_ARGC_ENVC with 128.
  rewrite store_le_ok, bind_OK by lia.
  set (m1 := poken (mem s) raddr _).
  destruct (store_sizes_spec m1 argv argc (raddr + 4)) as (m2 & -> & Hs2 & Ho2 & Hd2);
    [lia|lia|cbn [msize m1 poken]; lia|done|].
  rewrite bind_OK. change (4 * 128) with 512.
  rewrite store_le_ok, bind_OK by (rewrite ?Hs2; cbn [msize m1 poken]; lia).
  set (m3 := poken m2 (raddr + 4 + 512) _).
  destruct (store_sizes_spec m3 envp envc (raddr + 8 + 512)) as (m4 & -> & Hs4 & Ho4 & Hd4);
    [lia|lia|cbn [msize m3 m1 poken]; rewrite Hs2; cbn [msize m1 poken]; lia|done|].
  rewrite bind_OK. exists m4. split; [done|].
  assert (Hld : forall x, raddr <= x -> x + 4 <= raddr + 516 -> load32 m4 x = load32 m2 x).
  { intros x H1 H2. transitivity (load32 m3 x).
    - apply load_le_ext; [done|]. intros y Hy. apply Ho4. lia.
    - apply load_le_poken_other. rewrite length_le_split. lia. }
  split; [|split; [|split; [|split]]].
  - intros x Hx. cbn in Hx. rewrite Ho4 by lia. unfold m3. rewrite peek_poken_out
      by (rewrite length_le_split; lia). rewrite Ho2 by lia. unfold m1.
    by rewrite peek_poken_out by (rewrite length_le_split; lia).
  - rewrite Hld by lia. transitivity (load32 m1 raddr).
    + apply load_le_ext; [done|]. intros y Hy. apply Ho2. lia.
    + unfold m1. rewrite load_le_poken_same by lia. f_equal. apply Z.mod_small. cbn. lia.
  - transitivity (load32 m3 (raddr + 516)).
    + apply load_le_ext; [done|]. intros y Hy. apply Ho4. lia.
    + unfold m3. replace (raddr + 4 + 512) with (raddr + 516) by lia.
      rewrite load_le_poken_same by (rewrite ?Hs2; cbn [msize m1 poken]; lia). f_equal.
      apply Z.mod_small. cbn. lia.
  - intros i a Hi Hlt. rewrite Hld by lia. by apply Hd2.
  - intros i e Hi Hlt. replace (raddr + 520) with (raddr + 8 + 512) by lia. by apply Hd4.
Qed.

Lemma hypercall_cmdsize_reports_witness :
  exists m', hypercall_cmdsize 2 1 [str "a.out"; str "-v"] [str "H=1"]
      (mkmachine (fresh_mem 0x20000) tt 0 0 (mkmappings [] 0) (-1)) 0x15000 =
    OK (with_mem (mkmachine (fresh_mem 0x20000) tt 0 0 (mkmappings [] 0) (-1)) m') /\
    load32 m' 0x15008 = OK 3.
Proof.
  destruct (hypercall_cmdsize_reports (mkmachine (fresh_mem 0x20000) tt 0 0 (mkmappings [] 0) (-1))
    [str "a.out"; str "-v"] [str "H=1"] 2 1 0x15000) as (m' & E & _ & _ & _ & Ha & _).
  - reflexivity.
  - repeat (apply Forall_cons_2; [cbn; lia|]). apply Forall_nil_2.
  - lia.
  - vm_compute. discriminate.
  - exists m'. split; [exact E|]. exact (Ha 1%nat (str "-v") eq_refl eq_refl).
Defined.
