(* ===== verification/GdbPacket.v ===== *)
(** * The debugger's serial protocol

    The framing layer of src/uhyve-gdb.c: hexadecimal encoding ([hex],
    [mem2hex], [hex2mem]), [recv_char] / [recv_packet] and
    [send_packet_no_ack] / [send_packet] / [send_response].  The connection is
    the bytes the debugger has sent and will send, and the bytes sent to it;
    the end of the input is a closed connection. *)

From S2P Require Import Prelude GuestMem.

Definition BUFMAX : nat := 4096.
Definition GDB_ERROR_MSG : list byte := str "E01".

(** ** Characters *)

Definition DOLLAR : Z := 36.
Definition HASH : Z := 35.
Definition PLUS : Z := 43.
Definition MINUS : Z := 45.
Definition COLON : Z := 58.

Definition code (s : string) : list Z := byte.unsigned <$> str s.

(** The character codes are those of the literals of the source. *)
Lemma protocol_chars : code "$#+-:" = [DOLLAR; HASH; PLUS; MINUS; COLON].
Proof. reflexivity. Qed.

Definition hex (c : Z) : Z :=
  if (97 <=? c) && (c <=? 102) then c - 97 + 10
  else if (48 <=? c) && (c <=? 57) then c - 48
  else if (65 <=? c) && (c <=? 70) then c - 65 + 10
  else -1.

Definition hexchars : list byte := str "0123456789abcdef".
Definition hexchar (n : Z) : byte := default NUL (hexchars !! Z.to_nat n).

(** Two digits of a byte; the buffer [mem2hex] fills without its final NUL. *)
Definition hex_byte (b : Z) : list byte := [hexchar (b / 16); hexchar (b mod 16)].

Fixpoint mem2hex (mem : list byte) : list byte :=
  match mem with
  | [] => []
  | b :: mem => hex_byte (byte.unsigned b) ++ mem2hex mem
  end.

(** [hex(c) << 4] stored in an unsigned char. *)
Definition hex_pair (hi lo : byte) : byte :=
  byte.of_Z (u8 (u8 (hex (byte.unsigned hi) * 16) + hex (byte.unsigned lo))).

Fixpoint hex_decode (buf : list byte) (count : nat) {struct count} : outcome (list byte) :=
  match count, buf with
  | O, _ => OK []
  | S count, hi :: lo :: buf => bs ← hex_decode buf count; OK (hex_pair hi lo :: bs)
  | S _, _ => Undefined
  end.

(** The C string at the start of a buffer. *)
Fixpoint c_str (buf : list byte) : list byte :=
  match buf with
  | [] => []
  | b :: buf => if decide (b = NUL) then [] else b :: c_str buf
  end.

Definition hex2mem (buf : list byte) (count : Z) : outcome (list byte) :=
  assert_ (u64 (2 * count) <=? Z.of_nat (length (c_str buf)));;
  hex_decode (c_str buf) (Z.to_nat count).

(** ** The connection *)

Record conn := mkconn { input : list byte; sent : list byte; in_buffer : list byte }.

Definition conn_open (input : list byte) : conn := mkconn input [] (replicate BUFMAX NUL).

Definition send_char (c : conn) (b : byte) : conn := mkconn (input c) (sent c ++ [b]) (in_buffer c).
Definition send_chars (c : conn) (bs : list byte) : conn :=
  mkconn (input c) (sent c ++ bs) (in_buffer c).

(** The received character, [None] for the -1 of a closed connection. *)
Definition recv_char (c : conn) : outcome (option byte * conn) :=
  match input c with
  | [] => OK (None, c)
  | b :: rest =>
      assert_ (byte.unsigned b <? 128);;
      OK (Some b, mkconn rest (sent c) (in_buffer c))
  end.

(** [do ch = recv_char(); while (ch != '$')] on the input; [None]: closed. *)
Fixpoint skip_to_start (inp : list byte) : outcome (option (list byte)) :=
  match inp with
  | [] => OK None
  | b :: inp =>
      assert_ (byte.unsigned b <? 128);;
      if byte.unsigned b =? DOLLAR then OK (Some inp) else skip_to_start inp
  end.

(** The state of the data loop: the packet buffer, [count], [checksum]. *)
Record packet_buf := mkpacket { pbuf : list byte; pcount : nat; pchecksum : Z }.

(** The data loop, up to ['#'] ([true]) or a full buffer ([false]); ['$']
    starts again.  [None]: closed, with the buffer as it was left. *)
Fixpoint read_data (inp : list byte) (p : packet_buf)
  : outcome (option (bool * list byte) * packet_buf) :=
  if (BUFMAX - 1 <=? pcount p)%nat then OK (Some (false, inp), p)
  else
    match inp with
    | [] => OK (None, p)
    | b :: inp =>
        assert_ (byte.unsigned b <? 128);;
        if byte.unsigned b =? DOLLAR then read_data inp (mkpacket (pbuf p) 0 0)
        else if byte.unsigned b =? HASH then OK (Some (true, inp), p)
        else read_data inp (mkpacket (<[pcount p := b]> (pbuf p)) (S (pcount p))
                              (u8 (pchecksum p + byte.unsigned b)))
    end.

(** One turn of the outer loop of [recv_packet].  The result: [None] for NULL,
    otherwise the packet as a C string. *)
Definition recv_packet_body (c : conn) : outcome (conn + option (list byte) * conn) :=
  start ← skip_to_start (input c);
  match start with
  | None => OK (inr (None, mkconn [] (sent c) (in_buffer c)))
  | Some inp =>
      '(r, p) ← read_data inp (mkpacket (in_buffer c) 0 0);
      match r with
      | None => OK (inr (None, mkconn [] (sent c) (pbuf p)))
      | Some (hash, inp) =>
          let buffer := <[pcount p := NUL]> (pbuf p) in
          let c := mkconn inp (sent c) buffer in
          if hash : bool then
            '(hi, c) ← recv_char c;
            match hi with
            | None => OK (inr (None, c))
            | Some hi =>
                '(lo, c) ← recv_char c;
                match lo with
                | None => OK (inr (None, c))
                | Some lo =>
                    if negb (pchecksum p =? byte.unsigned (hex_pair hi lo)) then
                      OK (inl (send_char c (byte.of_Z MINUS)))
                    else
                      let c := send_char c (byte.of_Z PLUS) in
                      if bool_decide (buffer !! 2%nat = Some (byte.of_Z COLON)) then
                        OK (inr (Some (c_str (drop 3 buffer)), send_chars c (take 2 buffer)))
                      else OK (inr (Some (c_str buffer), c))
                end
            end
          else OK (inl c)
      end
  end.

(** Every turn consumes input. *)
Definition recv_packet (c : conn) : outcome (option (list byte) * conn) :=
  while (S (length (input c))) recv_packet_body c.

(** *** Sending *)

Definition checksum (data : list byte) : Z :=
  foldl (fun s b => u8 (s + byte.unsigned b)) 0 data.

(** What is on the wire for a packet. *)
Definition frame (data : list byte) : list byte :=
  byte.of_Z DOLLAR :: data ++ byte.of_Z HASH :: hex_byte (checksum data).

Definition send_packet_no_ack (c : conn) (buffer : list byte) : conn :=
  send_chars c (frame (c_str buffer)).

Definition send_packet_body (buffer : list byte) (c : conn) : outcome (conn + conn) :=
  let c := send_packet_no_ack c buffer in
  '(r, c) ← recv_char c;
  match r with
  | None => OK (inr c)
  | Some b => if byte.unsigned b =? PLUS then OK (inr c) else OK (inl c)
  end.
Definition send_packet (c : conn) (buffer : list byte) : outcome conn :=
  while (S (length (input c))) (send_packet_body buffer) c.

Definition send_error_msg (c : conn) : outcome conn := send_packet c GDB_ERROR_MSG.
Definition send_not_supported_msg (c : conn) : outcome conn := send_packet c [].
Definition send_okay_msg (c : conn) : outcome conn := send_packet c (str "OK").

(** [snprintf("%c%02x", code, sigval)] *)
Definition send_response (c : conn) (code : byte) (sigval : Z) (wait_for_ack : bool)
  : outcome conn :=
  let obuf := code :: hex_byte sigval in
  if wait_for_ack then send_packet c obuf else OK (send_packet_no_ack c obuf).

(** ** Hexadecimal *)

Lemma hex_pair_byte b : hex_pair (hexchar (byte.unsigned b / 16)) (hexchar (byte.unsigned b mod 16)) = b.
Proof. destruct b; vm_compute; reflexivity. Qed.

Lemma hexchar_clean b :
  let n := byte.unsigned b in
  hexchar (n / 16) <> NUL /\ hexchar (n mod 16) <> NUL.
Proof. destruct b; vm_compute; split; discriminate. Qed.

Lemma mem2hex_nul bs : NUL ∉ mem2hex bs.
Proof.
  induction bs as [|b bs IH]; [set_solver|]. cbn [mem2hex hex_byte app].
  pose proof (hexchar_clean b) as [H1 H2]. rewrite !not_elem_of_cons. auto.
Qed.

Lemma length_mem2hex bs : length (mem2hex bs) = (2 * length bs)%nat.
Proof. induction bs as [|b bs IH]; [done|]. cbn [mem2hex hex_byte app length]. lia. Qed.

Lemma c_str_app s r : NUL ∉ s -> c_str (s ++ NUL :: r) = s.
Proof.
  induction s as [|b s IH]; intros H; [done|]. apply not_elem_of_cons in H as [Hb H].
  cbn [app c_str]. rewrite decide_False by done. by rewrite IH.
Qed.

Lemma c_str_clean s : NUL ∉ s -> c_str s = s.
Proof.
  induction s as [|b s IH]; intros H; [done|]. apply not_elem_of_cons in H as [Hb H].
  cbn [c_str]. rewrite decide_False by done. by rewrite IH.
Qed.

Lemma hex_decode_mem2hex bs r : hex_decode (mem2hex bs ++ r) (length bs) = OK bs.
Proof.
  induction bs as [|b bs IH]; [done|]. cbn [mem2hex hex_byte app length hex_decode].
  by rewrite IH, bind_OK, hex_pair_byte.
Qed.

(** Hexadecimal text read back gives the bytes it was made from. *)
Lemma hex2mem_mem2hex bs r :
  Z.of_nat (length bs) < 2 ^ 63 ->
  hex2mem (mem2hex bs ++ NUL :: r) (Z.of_nat (length bs)) = OK bs.
Proof.
  intros Hl. unfold hex2mem. rewrite c_str_app by apply mem2hex_nul. rewrite length_mem2hex.
  rewrite u64_small by (unfold is_u64; lia). rewrite (proj2 (Z.leb_le _ _)) by lia.
  cbn [assert_]. rewrite bind_OK, Nat2Z.id, <- (app_nil_r (mem2hex bs)). apply hex_decode_mem2hex.
Qed.

(** ** Framing *)

(** Packet data that needs no escape: ASCII without NUL, ['$'] and ['#']. *)
Definition clean_byte (b : byte) : Prop :=
  byte.unsigned b < 128 /\ byte.unsigned b <> DOLLAR /\ byte.unsigned b <> HASH /\ b <> NUL.
Definition clean (data : list byte) : Prop := Forall clean_byte data.

Lemma clean_nul data : clean data -> NUL ∉ data.
Proof. intros H Hin. unfold clean in H. rewrite Forall_forall in H. by apply H in Hin as (_ & _ & _ & ?). Qed.

Lemma read_data_clean data : forall rest p,
  clean data -> (pcount p + length data < BUFMAX - 1)%nat -> length (pbuf p) = BUFMAX ->
  exists buf,
    read_data (data ++ rest) p =
      read_data rest (mkpacket buf (pcount p + length data)
        (foldl (fun s b => u8 (s + byte.unsigned b)) (pchecksum p) data)) /\
    length buf = BUFMAX /\
    take (pcount p + length data) buf = take (pcount p) (pbuf p) ++ data /\
    drop (pcount p + length data) buf = drop (pcount p + length data) (pbuf p).
Proof.
  induction data as [|b data IH]; intros rest p Hc Hn Hl; cbn [app length foldl] in *.
  - exists (pbuf p). destruct p. cbn. rewrite Nat.add_0_r, app_nil_r. done.
  - apply Forall_cons in Hc as [(H1 & H2 & H3 & H4) Hc]. cbn [read_data].
    rewrite (proj2 (Nat.leb_gt _ _)) by lia. rewrite (proj2 (Z.ltb_lt _ _)) by done.
    cbn [assert_]. rewrite bind_OK, !(proj2 (Z.eqb_neq _ _)) by done.
    destruct (IH rest (mkpacket (<[pcount p := b]> (pbuf p)) (S (pcount p))
      (u8 (pchecksum p + byte.unsigned b)))) as (buf & -> & Hlb & Ht & Hd);
      [done|cbn [pcount]; lia|cbn; by rewrite length_insert|]. cbn [pbuf pcount pchecksum] in *.
    exists buf. replace (pcount p + S (length data))%nat with (S (pcount p) + length data)%nat by lia.
    split; [done|]. split; [done|]. split.
    + rewrite Ht. rewrite (take_S_r _ _ b) by (apply list_lookup_insert_eq; lia).
      rewrite take_insert_ge by lia. by rewrite <- app_assoc.
    + rewrite Hd. by rewrite drop_insert_lt by lia.
Qed.

Lemma skip_noise noise inp :
  Forall (fun b => byte.unsigned b < 128 /\ byte.unsigned b <> DOLLAR) noise ->
  skip_to_start (noise ++ byte.of_Z DOLLAR :: inp) = OK (Some inp).
Proof.
  induction noise as [|b noise IH]; intros H; [done|]. apply Forall_cons in H as [[H1 H2] H].
  cbn [app skip_to_start]. rewrite (proj2 (Z.ltb_lt _ _)), (proj2 (Z.eqb_neq _ _)) by done.
  by apply IH.
Qed.

Lemma recv_char_ascii b rest out buf :
  byte.unsigned b < 128 -> recv_char (mkconn (b :: rest) out buf) = OK (Some b, mkconn rest out buf).
Proof. intros H. unfold recv_char. cbn [input]. by rewrite (proj2 (Z.ltb_lt _ _)). Qed.

(** A packet on the wire with whatever check digits, behind some noise. *)
Record attempt := mkattempt { noise : list byte; adata : list byte; hi : byte; lo : byte }.

Definition wire (a : attempt) : list byte :=
  noise a ++ byte.of_Z DOLLAR :: adata a ++ [byte.of_Z HASH; hi a; lo a].

Record attempt_ok (a : attempt) : Prop := {
  ok_noise : Forall (fun b => byte.unsigned b < 128 /\ byte.unsigned b <> DOLLAR) (noise a);
  ok_data : clean (adata a);
  ok_length : (length (adata a) < BUFMAX - 1)%nat;
  ok_digits : byte.unsigned (hi a) < 128 /\ byte.unsigned (lo a) < 128
}.

Definition intact (a : attempt) : bool :=
  checksum (adata a) =? byte.unsigned (hex_pair (hi a) (lo a)).

(** The buffer after an attempt. *)
Definition buffer_after (buf : list byte) (a : attempt) : list byte :=
  adata a ++ NUL :: drop (S (length (adata a))) buf.

Lemma recv_attempt a rest out buf :
  attempt_ok a -> length buf = BUFMAX ->
  recv_packet_body (mkconn (wire a ++ rest) out buf) =
  OK (if intact a then
        if bool_decide (buffer_after buf a !! 2%nat = Some (byte.of_Z COLON))
        then inr (Some (c_str (drop 3 (buffer_after buf a))),
                  mkconn rest ((out ++ [byte.of_Z PLUS]) ++ take 2 (buffer_after buf a))
                    (buffer_after buf a))
        else inr (Some (adata a), mkconn rest (out ++ [byte.of_Z PLUS]) (buffer_after buf a))
      else inl (mkconn rest (out ++ [byte.of_Z MINUS]) (buffer_after buf a))).
Proof.
  intros [Hn Hc Hlen [Hh Hlo]] Hb. unfold recv_packet_body, wire. cbn [input].
  rewrite <- app_assoc. cbn [app]. rewrite skip_noise, bind_OK by done. rewrite <- app_assoc. cbn [in_buffer].
  destruct (read_data_clean (adata a) ([byte.of_Z HASH; hi a; lo a] ++ rest)
    (mkpacket buf 0 0) Hc ltac:(cbn [pcount]; lia) Hb) as (buf' & -> & Hl' & Ht & Hd).
  cbn [pcount pbuf pchecksum plus take] in *. cbn [app read_data pcount].
  rewrite (proj2 (Nat.leb_gt _ _)) by lia.
  change (byte.unsigned (byte.of_Z HASH)) with HASH.
  change (HASH <? 128) with true. change (HASH =? DOLLAR) with false.
  rewrite Z.eqb_refl. cbn [assert_]. rewrite !bind_OK. cbn [sent pbuf pcount pchecksum].
  assert (<[length (adata a) := NUL]> buf' = buffer_after buf a) as ->.
  { unfold buffer_after. rewrite insert_take_drop, Ht by lia.
    replace (S (length (adata a))) with (length (adata a) + 1)%nat by lia.
    by rewrite <- !drop_drop, Hd. }
  rewrite recv_char_ascii, bind_OK by done. rewrite recv_char_ascii, bind_OK by done.
  fold (checksum (adata a)). unfold intact.
  destruct (checksum (adata a) =? byte.unsigned (hex_pair (hi a) (lo a))); [|done]. cbn [negb].
  destruct (bool_decide _); [done|]. unfold buffer_after at 1.
  by rewrite c_str_app by by apply clean_nul.
Qed.

Lemma buffer_after_length buf a :
  length buf = BUFMAX -> (length (adata a) < BUFMAX - 1)%nat -> length (buffer_after buf a) = BUFMAX.
Proof. intros. unfold buffer_after. rewrite length_app. cbn [length]. rewrite length_drop. lia. Qed.

(** The third byte decides whether a packet has a sequence number; a short
    packet leaves the one of its predecessor. *)
Definition no_sequence (data : list byte) : Prop := data !! 2%nat <> Some (byte.of_Z COLON).

Lemma buffer_after_no_sequence buf a :
  no_sequence (adata a) -> no_sequence buf -> no_sequence (buffer_after buf a).
Proof.
  unfold no_sequence, buffer_after. intros Ha Hb.
  destruct (adata a) as [|x [|y [|z l]]]; cbn in *; try done.
  - by destruct buf as [|b0 [|b1 [|b2 buf]]].
  - by destruct buf as [|b0 [|b1 [|b2 buf]]].
Qed.

Lemma recv_attempts bads a rest : forall out buf fuel,
  Forall attempt_ok bads -> Forall (fun b => intact b = false) bads ->
  Forall (fun b => no_sequence (adata b)) bads ->
  attempt_ok a -> intact a = true -> no_sequence (adata a) -> no_sequence buf ->
  length buf = BUFMAX -> (length bads < fuel)%nat ->
  exists buf', length buf' = BUFMAX /\ no_sequence buf' /\
    while fuel recv_packet_body (mkconn (concat (wire <$> bads) ++ wire a ++ rest) out buf) =
    OK (Some (adata a),
        mkconn rest (out ++ replicate (length bads) (byte.of_Z MINUS) ++ [byte.of_Z PLUS]) buf').
Proof.
  induction bads as [|b bads IH]; intros out buf fuel Hok Hbad Hseq Ha Hi H2 Hs Hb Hf;
    (destruct fuel as [|fuel]; [cbn in Hf; lia|]); rewrite while_S; cbn [fmap list_fmap concat app].
  - rewrite recv_attempt, Hi by done.
    pose proof (buffer_after_no_sequence buf a H2 Hs) as Hc. unfold no_sequence in Hc.
    rewrite bool_decide_eq_false_2 by done. rewrite bind_OK.
    exists (buffer_after buf a). split; [|done]. apply buffer_after_length; [done|apply Ha].
  - apply Forall_cons in Hok as [Hokb Hok]. apply Forall_cons in Hbad as [Hbb Hbad].
    apply Forall_cons in Hseq as [Hsb Hseq].
    rewrite <- app_assoc, recv_attempt, Hbb, bind_OK by done.
    destruct (IH (out ++ [byte.of_Z MINUS]) (buffer_after buf b) fuel) as (buf' & Hl' & Hs' & ->);
      try done; [by apply buffer_after_no_sequence|apply buffer_after_length; [done|apply Hokb]
        |cbn in Hf; lia|].
    exists buf'. split; [done|]. split; [done|]. rewrite <- app_assoc. done.
Qed.

(** C32. The framing layer recovers the debugger's packet from a noisy line:
    bytes outside packets are skipped, each corrupted copy is answered with
    ['-'], the first intact copy with ['+'] and returned, and the rest of the
    input is left for the next packet. *)
Theorem recv_packet_retransmission bads a rest out buf :
  Forall attempt_ok bads -> Forall (fun b => intact b = false) bads ->
  Forall (fun b => no_sequence (adata b)) bads ->
  attempt_ok a -> intact a = true -> no_sequence (adata a) -> no_sequence buf ->
  length buf = BUFMAX ->
  exists buf', length buf' = BUFMAX /\ no_sequence buf' /\
    recv_packet (mkconn (concat (wire <$> bads) ++ wire a ++ rest) out buf) =
    OK (Some (adata a),
        mkconn rest (out ++ replicate (length bads) (byte.of_Z MINUS) ++ [byte.of_Z PLUS]) buf').
Proof.
  intros. unfold recv_packet. apply recv_attempts; try done. cbn [input].
  rewrite length_app. enough (length bads <= length (concat (wire <$> bads)))%nat by lia.
  clear. induction bads as [|b bads IH]; [done|]. cbn [fmap list_fmap concat length].
  rewrite length_app. unfold wire at 1. rewrite length_app. cbn [length]. lia.
Qed.

Lemma checksum_range data : 0 <= checksum data < 256.
Proof.
  unfold checksum.
  enough (forall s, 0 <= s < 256 ->
    0 <= foldl (fun s b => u8 (s + byte.unsigned b)) s data < 256) as H by (apply H; lia).
  induction data as [|b data IH]; intros s Hs; [done|]. cbn [foldl]. apply IH, u8_range.
Qed.

Lemma hex_byte_digits n :
  0 <= n < 256 ->
  byte.unsigned (hexchar (n / 16)) < 128 /\ byte.unsigned (hexchar (n mod 16)) < 128 /\
  byte.unsigned (hex_pair (hexchar (n / 16)) (hexchar (n mod 16))) = n.
Proof.
  intros Hn. rewrite <- (byte_unsigned_of_small n) by done. rewrite hex_pair_byte.
  split; [|split]; [| |done]; generalize (byte.of_Z n); intros b; destruct b; vm_compute; reflexivity.
Qed.

Lemma recv_frame data rest out buf :
  clean data -> (length data < BUFMAX - 1)%nat -> no_sequence data -> no_sequence buf ->
  length buf = BUFMAX ->
  exists buf', length buf' = BUFMAX /\ no_sequence buf' /\
    recv_packet (mkconn (frame data ++ rest) out buf) =
    OK (Some data, mkconn rest (out ++ [byte.of_Z PLUS]) buf').
Proof.
  intros Hc Hl H2 Hs Hb.
  pose proof (checksum_range data) as Hr. destruct (hex_byte_digits (checksum data) Hr) as (H1 & H3 & H4).
  set (a := mkattempt [] data (hexchar (checksum data / 16)) (hexchar (checksum data mod 16))).
  assert (attempt_ok a) as Hok.
  { split; cbn [noise adata hi lo a]; [by apply Forall_nil_2|done|lia|done]. }
  assert (intact a = true) as Hin.
  { unfold intact. cbn [adata hi lo a]. rewrite H4. apply Z.eqb_refl. }
  apply (recv_attempts [] a); try done. cbn [length]. lia.
Qed.

(** What [send_packet] puts on the wire is accepted by the receiving side of
    the same protocol, whatever the data. *)
Theorem frame_received data rest out buf :
  clean data -> (length data < BUFMAX - 1)%nat -> no_sequence data -> no_sequence buf ->
  length buf = BUFMAX ->
  exists buf', recv_packet (mkconn (frame data ++ rest) out buf) =
    OK (Some data, mkconn rest (out ++ [byte.of_Z PLUS]) buf').
Proof.
  intros Hc Hl H2 Hs Hb. destruct (recv_frame data rest out buf Hc Hl H2 Hs Hb)
    as (buf' & _ & _ & E). eauto.
Qed.

(** *** Acknowledgements *)

Lemma send_packet_body_ack buffer b rest out buf :
  byte.unsigned b < 128 ->
  send_packet_body buffer (mkconn (b :: rest) out buf) =
  OK (if byte.unsigned b =? PLUS then inr (mkconn rest (out ++ frame (c_str buffer)) buf)
      else inl (mkconn rest (out ++ frame (c_str buffer)) buf)).
Proof.
  intros H. unfold send_packet_body, send_packet_no_ack, send_chars. cbn [input sent in_buffer].
  rewrite recv_char_ascii, bind_OK by done. cbv beta iota. by destruct (_ =? _).
Qed.

(** [send_packet] repeats the frame until the debugger acknowledges it:
    after [n] characters other than ['+'] the frame has been sent [n + 1]
    times. *)
Theorem send_packet_acknowledged buffer naks rest out buf :
  Forall (fun b => byte.unsigned b < 128 /\ byte.unsigned b <> PLUS) naks ->
  send_packet (mkconn (naks ++ byte.of_Z PLUS :: rest) out buf) buffer =
  OK (mkconn rest (out ++ concat (replicate (S (length naks)) (frame (c_str buffer)))) buf).
Proof.
  intros Hn. unfold send_packet. cbn [input].
  assert (forall fuel out, (length naks < fuel)%nat ->
    while fuel (send_packet_body buffer) (mkconn (naks ++ byte.of_Z PLUS :: rest) out buf) =
    OK (mkconn rest (out ++ concat (replicate (S (length naks)) (frame (c_str buffer)))) buf)) as H;
    [|apply H; rewrite length_app; cbn [length]; lia].
  clear out. induction naks as [|b naks IH]; intros fuel out Hf;
    (destruct fuel as [|fuel]; [cbn in Hf; lia|]); rewrite while_S; cbn [app length replicate concat].
  - rewrite send_packet_body_ack by done. change (byte.unsigned (byte.of_Z PLUS) =? PLUS) with true.
   
    rewrite bind_OK. by rewrite app_nil_r.
  - apply Forall_cons in Hn as [[H1 H2] Hn]. rewrite send_packet_body_ack by done.
    rewrite (proj2 (Z.eqb_neq _ _)), bind_OK by done.
    cbn [length] in Hf. specialize (IH Hn fuel (out ++ frame (c_str buffer)) ltac:(lia)).
    cbn [replicate concat] in IH. rewrite <- app_assoc in IH. exact IH.
Qed.

(** *** Witnesses *)

Definition good : attempt := mkattempt (str "+") (str "m1000,4") (hexchar 8) (hexchar 14).
Definition bad : attempt := mkattempt (str "x#") (str "m1000,5") (hexchar 8) (hexchar 14).

Lemma good_ok : attempt_ok good /\ intact good = true.
Proof.
  split; [|reflexivity]. split; cbn [noise adata hi lo good].
  - repeat (apply Forall_cons_2; [vm_compute; split; congruence|]). apply Forall_nil_2.
  - repeat (apply Forall_cons_2; [vm_compute; repeat split; congruence|]). apply Forall_nil_2.
  - vm_compute. lia.
  - vm_compute. split; reflexivity.
Qed.

Lemma bad_ok : attempt_ok bad /\ intact bad = false.
Proof.
  split; [|reflexivity]. split; cbn [noise adata hi lo bad].
  - repeat (apply Forall_cons_2; [vm_compute; split; congruence|]). apply Forall_nil_2.
  - repeat (apply Forall_cons_2; [vm_compute; repeat split; congruence|]). apply Forall_nil_2.
  - vm_compute. lia.
  - vm_compute. split; reflexivity.
Qed.

Lemma recv_packet_retransmission_witness :
  exists buf', recv_packet (mkconn (concat (wire <$> [bad; bad]) ++ wire good ++ []) []
                              (replicate BUFMAX NUL)) =
    OK (Some (str "m1000,4"), mkconn [] (str "--+") buf').
Proof.
  destruct (recv_packet_retransmission [bad; bad] good [] [] (replicate BUFMAX NUL))
    as (buf' & _ & _ & E).
  - repeat (apply Forall_cons_2; [apply bad_ok|]). apply Forall_nil_2.
  - repeat (apply Forall_cons_2; [apply bad_ok|]). apply Forall_nil_2.
  - repeat (apply Forall_cons_2; [vm_compute; discriminate|]). apply Forall_nil_2.
  - apply good_ok.
  - apply good_ok.
  - vm_compute. discriminate.
  - vm_compute. discriminate.
  - apply length_replicate.
  - exists buf'. exact E.
Defined.

Lemma frame_received_witness :
  exists buf', recv_packet (mkconn (frame (str "OK") ++ []) [] (replicate BUFMAX NUL)) =
    OK (Some (str "OK"), mkconn [] (str "+") buf').
Proof.
  destruct (frame_received (str "OK") [] [] (replicate BUFMAX NUL)) as (buf' & E).
  - repeat (apply Forall_cons_2; [vm_compute; repeat split; congruence|]). apply Forall_nil_2.
  - apply Nat.ltb_lt; reflexivity.
  - vm_compute. discriminate.
  - vm_compute. discriminate.
  - apply length_replicate.
  - exists buf'. exact E.
Defined.

Lemma send_packet_acknowledged_witness :
  send_packet (mkconn (str "-" ++ byte.of_Z PLUS :: []) [] []) (str "OK") =
  OK (mkconn [] (str "$OK#9a$OK#9a") []).
Proof.
  rewrite (send_packet_acknowledged (str "OK") (str "-") [] [] []).
  - reflexivity.
  - apply Forall_cons_2; [|apply Forall_nil_2]. vm_compute. split; congruence.
Defined.

(** A packet shorter than two characters leaves byte 2 of the static buffer
    from the packet before it: behind ["qC:1"] the command ["g"] is taken for
    one with a sequence number and lost. *)
Lemma stale_sequence_character :
  exists c1 c2,
    recv_packet (conn_open (str "$qC:1#1f$g#67")) = OK (Some (str "1"), c1) /\
    recv_packet c1 = OK (Some (str "1"), c2) /\ input c2 = [].
Proof. eexists _, _. split; [vm_compute; reflexivity|]. split; vm_compute; reflexivity. Qed.
