(* ===== verification/GdbBreak.v ===== *)
(** * Breakpoints of the debugger stub

    The breakpoint lists of src/uhyve-gdb.c ([bp_list_find], [bp_list_insert],
    [bp_list_remove], [uhyve_gdb_add_breakpoint],
    [uhyve_gdb_remove_breakpoint]), the int3 patching of guest memory and the
    debug registers of [uhyve_gdb_update_guest_debug], on x86_64. *)

From S2P Require Import Prelude GuestMem.

Open Scope uhyve_scope.

(** gdb_breakpoint_type; [GDB_BREAKPOINT_MAX] and above fail an assertion. *)
Definition GDB_BREAKPOINT_SW : Z := 0.
Definition GDB_BREAKPOINT_HW : Z := 1.
Definition GDB_WATCHPOINT_WRITE : Z := 2.
Definition GDB_WATCHPOINT_READ : Z := 3.
Definition GDB_WATCHPOINT_ACCESS : Z := 4.
Definition GDB_BREAKPOINT_MAX : Z := 5.

Definition MAX_HW_BREAKPOINTS : Z := 4.
Definition int3 : Z := 0xcc.

Record breakpoint := mkbp {
  type : Z; addr : Z; len : Z; refcount : Z; saved_insn : Z
}.

(** What [KVM_SET_GUEST_DEBUG] was last called with. *)
Record guest_debug := mkdebug { control : Z; debugreg : gmap nat Z }.

Definition KVM_GUESTDBG_ENABLE : Z := 1.
Definition KVM_GUESTDBG_SINGLESTEP : Z := 2.
Definition KVM_GUESTDBG_USE_SW_BP : Z := 0x10000.
Definition KVM_GUESTDBG_USE_HW_BP : Z := 0x20000.

(** The stub's static variables, guest memory, and the vCPU's debug state.  A
    list head is the newest element, as SLIST_INSERT_HEAD makes it. *)
Record stub := mkstub {
  gm : gmem;
  sw_breakpoints : list breakpoint;
  hw_breakpoints : list breakpoint;
  nr_hw_breakpoints : Z;
  stepping : bool;
  debug : guest_debug
}.

(** ** The debug registers *)

(** The designated initialisers: indices 0 and the gaps are zero, an index
    past the end is undefined. *)
Definition type_code (type : Z) : outcome Z :=
  if (0 <=? type) && (type <=? 4)
  then OK (if type =? 2 then 1 else if type =? 3 then 2 else if type =? 4 then 3 else 0)
  else Undefined.
Definition len_code (len : Z) : outcome Z :=
  if (0 <=? len) && (len <=? 8)
  then OK (if len =? 2 then 1 else if len =? 4 then 3 else if len =? 8 then 2 else 0)
  else Undefined.

Definition dr7_entry (dr7 n t l : Z) : Z :=
  dr7 .| (2 << (n * 2)) .| (t << (16 + n * 4)) .| (l << (18 + n * 4)).

Fixpoint set_debugregs (bps : list breakpoint) (n : nat) (dr : gmap nat Z)
  : outcome (gmap nat Z) :=
  match bps with
  | [] => OK dr
  | bp :: bps =>
      assert_ (negb (type bp =? GDB_BREAKPOINT_SW));;
      if (8 <=? n)%nat then Undefined
      else
        let dr := <[n := addr bp]> dr in
        t ← type_code (type bp);
        l ← len_code (len bp);
        let dr := <[7%nat := dr7_entry (default 0 (dr !! 7%nat)) (Z.of_nat n) t l]> dr in
        set_debugregs bps (S n) dr
  end.

Definition uhyve_gdb_update_guest_debug (s : stub) : outcome stub :=
  let control := if stepping s then KVM_GUESTDBG_ENABLE .| KVM_GUESTDBG_SINGLESTEP else 0 in
  let control :=
    if bool_decide (sw_breakpoints s = []) then control
    else control .| KVM_GUESTDBG_ENABLE .| KVM_GUESTDBG_USE_SW_BP in
  dbg ←
    (match hw_breakpoints s with
     | [] => OK (mkdebug control ∅)
     | bps =>
         let control := control .| KVM_GUESTDBG_ENABLE .| KVM_GUESTDBG_USE_HW_BP in
         let dr7 := (1 << 9) .| (1 << 10) in
         dr ← set_debugregs bps 0 {[7%nat := dr7]};
         OK (mkdebug control dr)
     end);
  OK (mkstub (gm s) (sw_breakpoints s) (hw_breakpoints s) (nr_hw_breakpoints s) (stepping s) dbg).

(** ** The lists *)

Definition matches (addr len : Z) (bp : breakpoint) : bool :=
  (GdbBreak.addr bp =? addr) && (GdbBreak.len bp =? len).

(** The list a type lives in; [assert(0)] for any other type. *)
Definition bp_list (s : stub) (type : Z) : outcome (list breakpoint) :=
  if type =? GDB_BREAKPOINT_SW then OK (sw_breakpoints s)
  else if (type =? GDB_BREAKPOINT_HW) || (type =? GDB_WATCHPOINT_WRITE)
          || (type =? GDB_WATCHPOINT_READ) || (type =? GDB_WATCHPOINT_ACCESS)
  then OK (hw_breakpoints s)
  else Exited SIGABRT_STATUS.

Definition bp_list_find (s : stub) (type addr len : Z) : outcome (option breakpoint) :=
  l ← bp_list s type; OK (List.find (matches addr len) l).

(** Changes to the element [bp_list_find] points at. *)
Fixpoint update_first (f : breakpoint -> breakpoint) (addr len : Z) (l : list breakpoint)
  : list breakpoint :=
  match l with
  | [] => []
  | bp :: l => if matches addr len bp then f bp :: l else bp :: update_first f addr len l
  end.
Fixpoint remove_first (addr len : Z) (l : list breakpoint) : list breakpoint :=
  match l with
  | [] => []
  | bp :: l => if matches addr len bp then l else bp :: remove_first addr len l
  end.

Definition with_sw (s : stub) (l : list breakpoint) : stub :=
  mkstub (gm s) l (hw_breakpoints s) (nr_hw_breakpoints s) (stepping s) (debug s).
Definition with_hw (s : stub) (l : list breakpoint) (nr : Z) : stub :=
  mkstub (gm s) (sw_breakpoints s) l nr (stepping s) (debug s).
Definition with_gm (s : stub) (m : gmem) : stub :=
  mkstub m (sw_breakpoints s) (hw_breakpoints s) (nr_hw_breakpoints s) (stepping s) (debug s).

Definition with_refcount (f : Z -> Z) (bp : breakpoint) : breakpoint :=
  mkbp (type bp) (addr bp) (len bp) (f (refcount bp)) (saved_insn bp).

Definition with_list (s : stub) (type : Z) (l : list breakpoint) : stub :=
  if type =? GDB_BREAKPOINT_SW then with_sw s l else with_hw s l (nr_hw_breakpoints s).

(** [false]: the NULL result. *)
Definition bp_list_insert (s : stub) (type addr len : Z) : outcome (bool * stub) :=
  bp ← bp_list_find s type addr len;
  match bp with
  | Some _ =>
      l ← bp_list s type;
      OK (true, with_list s type (update_first (with_refcount (fun r => u32 (r + 1))) addr len l))
  | None =>
      let bp := mkbp type addr len 1 0 in
      if type =? GDB_BREAKPOINT_SW then OK (true, with_sw s (bp :: sw_breakpoints s))
      else if nr_hw_breakpoints s =? MAX_HW_BREAKPOINTS then OK (false, s)
      else OK (true, with_hw s (bp :: hw_breakpoints s) (u32 (nr_hw_breakpoints s + 1)))
  end.

(** [false]: the result -1. *)
Definition bp_list_remove (s : stub) (type addr len : Z) : outcome (bool * stub) :=
  bp ← bp_list_find s type addr len;
  match bp with
  | None => OK (false, s)
  | Some bp =>
      l ← bp_list s type;
      let refcount := u32 (refcount bp - 1) in
      if 0 <? refcount then
        OK (true, with_list s type (update_first (with_refcount (fun _ => refcount)) addr len l))
      else if type =? GDB_BREAKPOINT_SW then OK (true, with_sw s (remove_first addr len l))
      else OK (true, with_hw s (remove_first addr len l) (u32 (nr_hw_breakpoints s - 1)))
  end.

(** ** Patching the guest *)

Definition kvm_arch_insert_sw_breakpoint (s : stub) (addr len : Z) : outcome stub :=
  insn ← load8 (gm s) addr;
  m ← store8 (gm s) addr int3;
  OK (with_gm (with_sw s (update_first
        (fun bp => mkbp (type bp) (GdbBreak.addr bp) (GdbBreak.len bp) (refcount bp) insn)
        addr len (sw_breakpoints s))) m).

Definition kvm_arch_remove_sw_breakpoint (s : stub) (bp : breakpoint) : outcome stub :=
  insn ← load8 (gm s) (addr bp);
  assert_ (insn =? int3);;
  m ← store8 (gm s) (addr bp) (saved_insn bp);
  OK (with_gm s m).

(** [false]: the result -1. *)
Definition uhyve_gdb_add_breakpoint (s : stub) (type addr len : Z) : outcome (bool * stub) :=
  assert_ (type <? GDB_BREAKPOINT_MAX);;
  bp ← bp_list_find s type addr len;
  match bp with
  | Some _ => OK (true, s)
  | None =>
      '(ok, s) ← bp_list_insert s type addr len;
      if negb ok then OK (false, s)
      else
        s ← (if type =? GDB_BREAKPOINT_SW then kvm_arch_insert_sw_breakpoint s addr len
             else OK s);
        s ← uhyve_gdb_update_guest_debug s;
        OK (true, s)
  end.

Definition uhyve_gdb_remove_breakpoint (s : stub) (type addr len : Z) : outcome (bool * stub) :=
  assert_ (type <? GDB_BREAKPOINT_MAX);;
  s ←
    (if type =? GDB_BREAKPOINT_SW then
       bp ← bp_list_find s type addr len;
       match bp with
       | Some bp => kvm_arch_remove_sw_breakpoint s bp
       | None => OK s
       end
     else OK s);
  '(ok, s) ← bp_list_remove s type addr len;
  if negb ok then OK (false, s)
  else s ← uhyve_gdb_update_guest_debug s; OK (true, s).

Definition with_stepping (s : stub) (b : bool) : stub :=
  mkstub (gm s) (sw_breakpoints s) (hw_breakpoints s) (nr_hw_breakpoints s) b (debug s).
Definition uhyve_gdb_enable_ss (s : stub) : outcome stub :=
  uhyve_gdb_update_guest_debug (with_stepping s true).
Definition uhyve_gdb_disable_ss (s : stub) : outcome stub :=
  uhyve_gdb_update_guest_debug (with_stepping s false).

(** ** What the debug registers say *)

(** The fields of DR7 for breakpoint [n]: global enable, read/write, length. *)
Definition dr7_fields (dr7 : Z) (n : nat) : bool * (bool * bool) * (bool * bool) :=
  let k := 4 * Z.of_nat n in
  (Z.testbit dr7 (2 * Z.of_nat n + 1),
   (Z.testbit dr7 (17 + k), Z.testbit dr7 (16 + k)),
   (Z.testbit dr7 (19 + k), Z.testbit dr7 (18 + k))).

(** Two-bit codes, as the processor manual tabulates them. *)
Definition rw_bits (type : Z) : bool * bool :=
  if type =? GDB_WATCHPOINT_WRITE then (false, true)
  else if type =? GDB_WATCHPOINT_READ then (true, false)
  else if type =? GDB_WATCHPOINT_ACCESS then (true, true)
  else (false, false).
Definition len_bits (len : Z) : bool * bool :=
  if len =? 2 then (false, true) else if len =? 8 then (true, false)
  else if len =? 4 then (true, true) else (false, false).

Definition two_bits (c : Z) : bool * bool := (Z.testbit c 1, Z.testbit c 0).

Lemma small_bit t j : 0 <= t < 4 -> j < 0 \/ 2 <= j -> Z.testbit t j = false.
Proof.
  intros Ht [Hj|Hj]; [by apply Z.testbit_neg_r|].
  apply (testbit_above_pow2 t 2); [change (2 ^ 2) with 4; lia|lia].
Qed.

Lemma dr7_entry_bit d n t l i :
  0 <= n -> 0 <= i ->
  Z.testbit (dr7_entry d n t l) i =
  Z.testbit d i || (i =? 2 * n + 1) || Z.testbit t (i - (16 + n * 4)) ||
  Z.testbit l (i - (18 + n * 4)).
Proof.
  intros Hn Hi. unfold dr7_entry. rewrite !Z.lor_spec, !Z.shiftl_spec by done. do 3 f_equal.
  change 2 with (2 ^ 1) at 1. rewrite Z.pow2_bits_eqb by lia. zbool; done || lia.
Qed.

Lemma dr7_entry_other d n m t l :
  (n < 4)%nat -> (m < 4)%nat -> n <> m -> 0 <= t < 4 -> 0 <= l < 4 ->
  dr7_fields (dr7_entry d (Z.of_nat n) t l) m = dr7_fields d m.
Proof.
  intros Hn Hm Hne Ht Hl. unfold dr7_fields. rewrite !dr7_entry_bit by lia.
  rewrite !(small_bit t), !(small_bit l), !orb_false_r by (done || lia).
  rewrite !(proj2 (Z.eqb_neq _ _)), !orb_false_r by lia. done.
Qed.

Lemma dr7_entry_same d n t l :
  (n < 4)%nat -> 0 <= t < 4 -> 0 <= l < 4 ->
  dr7_fields d n = (false, (false, false), (false, false)) ->
  dr7_fields (dr7_entry d (Z.of_nat n) t l) n = (true, two_bits t, two_bits l).
Proof.
  intros Hn Ht Hl Hd. unfold dr7_fields, two_bits in *. injection Hd as H1 H2 H3 H4 H5.
  rewrite !dr7_entry_bit by lia. rewrite H1, H2, H3, H4, H5, Z.eqb_refl.
  rewrite !(proj2 (Z.eqb_neq _ (2 * Z.of_nat n + 1))) by lia. cbn [orb].
  rewrite (small_bit t (19 + _ - _)), (small_bit t (18 + _ - _)), (small_bit l (17 + _ - _)),
    (small_bit l (16 + _ - _)) by (done || lia).
  rewrite !orb_false_l, !orb_false_r. repeat f_equal; lia.
Qed.

(** A hardware breakpoint the debugger may ask for. *)
Definition hw_ok (bp : breakpoint) : Prop :=
  1 <= type bp <= 4 /\ (len bp = 1 \/ len bp = 2 \/ len bp = 4 \/ len bp = 8).

Lemma hw_codes bp :
  hw_ok bp ->
  exists t l, type_code (type bp) = OK t /\ len_code (len bp) = OK l /\ 0 <= t < 4 /\ 0 <= l < 4 /\
    two_bits t = rw_bits (type bp) /\ two_bits l = len_bits (len bp).
Proof.
  intros [Ht Hl]. assert (type bp = 1 \/ type bp = 2 \/ type bp = 3 \/ type bp = 4) as Ht' by lia.
  destruct Ht' as [-> | [-> | [-> | ->]]], Hl as [-> | [-> | [-> | ->]]];
    eexists _, _; repeat split; vm_compute; congruence.
Qed.

Lemma set_debugregs_spec bps : forall n dr d,
  Forall hw_ok bps -> (n + length bps <= 4)%nat -> dr !! 7%nat = Some d ->
  (forall m, (n <= m < 4)%nat -> dr7_fields d m = (false, (false, false), (false, false))) ->
  exists dr' d', set_debugregs bps n dr = OK dr' /\ dr' !! 7%nat = Some d' /\
    (forall m, (m < n)%nat -> dr' !! m = dr !! m /\ dr7_fields d' m = dr7_fields d m) /\
    (forall m, (n + length bps <= m < 4)%nat -> dr7_fields d' m = (false, (false, false), (false, false))) /\
    forall i bp, bps !! i = Some bp ->
      dr' !! (n + i)%nat = Some (addr bp) /\
      dr7_fields d' (n + i) = (true, rw_bits (type bp), len_bits (len bp)).
Proof.
  induction bps as [|bp bps IH]; intros n dr d Hok Hn Hd Hz; cbn [set_debugregs length] in *.
  - exists dr, d. split; [done|]. split; [done|]. split; [done|]. split; [|done].
    intros m Hm. apply Hz. lia.
  - apply Forall_cons in Hok as [Hb Hok].
    destruct (hw_codes bp Hb) as (t & l & Et & El & Ht & Hl & Hrw & Hlb).
    destruct Hb as [Hty _]. unfold GDB_BREAKPOINT_SW. rewrite (proj2 (Z.eqb_neq _ _)) by lia.
    cbn [negb assert_]. rewrite bind_OK, (proj2 (Nat.leb_gt _ _)) by lia.
    rewrite Et, bind_OK, El, bind_OK, lookup_insert_ne, Hd by lia. cbn [default id].
    set (d1 := dr7_entry d (Z.of_nat n) t l).
    destruct (IH (S n) (<[7%nat := d1]> (<[n := addr bp]> dr)) d1) as
      (dr' & d' & E & Hd' & Hlow & Hhigh & Hbps); [done|lia|by rewrite lookup_insert_eq| |].
    { intros m Hm. unfold d1. rewrite dr7_entry_other by lia. apply Hz. lia. }
    exists dr', d'. split; [done|]. split; [done|]. split; [|split].
    + intros m Hm. destruct (Hlow m ltac:(lia)) as [-> ->]. rewrite !lookup_insert_ne by lia.
      split; [done|]. unfold d1. by rewrite dr7_entry_other by lia.
    + intros m Hm. apply Hhigh. lia.
    + intros [|i] bp' Hi; cbn in Hi.
      * injection Hi as <-. rewrite Nat.add_0_r. destruct (Hlow n ltac:(lia)) as [-> ->].
        rewrite lookup_insert_ne, lookup_insert_eq by lia. split; [done|].
        unfold d1. rewrite dr7_entry_same by (try apply Hz; lia). by rewrite Hrw, Hlb.
      * replace (n + S i)%nat with (S n + i)%nat by lia. by apply Hbps.
Qed.

(** Every hardware breakpoint in the list is armed: its address is in its own
    debug register and DR7 enables it globally with the access kind and the
    length the debugger asked for; the registers behind the last one are off. *)
Theorem hw_breakpoints_armed s :
  hw_breakpoints s <> [] -> Forall hw_ok (hw_breakpoints s) ->
  (length (hw_breakpoints s) <= 4)%nat ->
  exists s' dr7, uhyve_gdb_update_guest_debug s = OK s' /\
    debugreg (debug s') !! 7%nat = Some dr7 /\
    has (control (debug s')) KVM_GUESTDBG_USE_HW_BP = true /\
    (forall n bp, hw_breakpoints s !! n = Some bp ->
       debugreg (debug s') !! n = Some (addr bp) /\
       dr7_fields dr7 n = (true, rw_bits (type bp), len_bits (len bp))) /\
    (forall n, (length (hw_breakpoints s) <= n < 4)%nat -> (dr7_fields dr7 n).1.1 = false).
Proof.
  intros Hne Hok Hl. unfold uhyve_gdb_update_guest_debug.
  destruct (hw_breakpoints s) as [|bp0 bps] eqn:E; [done|].
  destruct (set_debugregs_spec (bp0 :: bps) 0 {[7%nat := (1 << 9) .| (1 << 10)]}
    ((1 << 9) .| (1 << 10))) as (dr & d & -> & Hd & _ & Hhigh & Hbps);
    [done|lia|done| |].
  { intros m Hm. do 4 (destruct m as [|m]; [reflexivity|]). lia. }
  rewrite !bind_OK. eexists _, d. split; [done|]. cbn [debug debugreg control].
  split; [done|]. split; [|split].
  - unfold has. apply negb_true_iff, Z.eqb_neq. intros H.
    apply (f_equal (fun z => Z.testbit z 17)) in H. rewrite Z.land_spec, Z.lor_spec in H.
    by rewrite orb_true_r in H.
  - apply Hbps.
  - intros n Hn. rewrite Hhigh; [done|]. cbn [length] in *. lia.
Qed.

(** ** Breakpoints do not change the program *)

(** A software breakpoint in place: the guest's byte is int3, the byte it
    replaced is saved. *)
Definition sw_in_place (orig m : gmem) (bp : breakpoint) : Prop :=
  type bp = GDB_BREAKPOINT_SW /\ refcount bp = 1 /\ 0 <= addr bp < msize m /\
  peek m (addr bp) = byte.of_Z int3 /\ saved_insn bp = byte.unsigned (peek orig (addr bp)).

(** The stub's state against the guest memory without breakpoints.  [lenof] is
    the length the debugger uses at an address. *)
Record stub_inv (lenof : Z -> Z) (orig : gmem) (s : stub) : Prop := {
  inv_size : msize (gm s) = msize orig;
  inv_sw : Forall (sw_in_place orig (gm s)) (sw_breakpoints s);
  inv_len : Forall (fun bp => len bp = lenof (addr bp)) (sw_breakpoints s);
  inv_nodup : NoDup (addr <$> sw_breakpoints s);
  inv_rest : forall x, x ∉ addr <$> sw_breakpoints s -> peek (gm s) x = peek orig x;
  inv_hw : Forall (fun bp => hw_ok bp /\ refcount bp = 1) (hw_breakpoints s);
  inv_nr : nr_hw_breakpoints s = Z.of_nat (length (hw_breakpoints s));
  inv_max : (length (hw_breakpoints s) <= 4)%nat
}.

Section Transparency.
Context (lenof : Z -> Z) (orig : gmem).
Abbreviation inv := (stub_inv lenof orig).

(** [KVM_SET_GUEST_DEBUG] only changes the vCPU. *)
Lemma update_guest_debug_ok s :
  Forall (fun bp => hw_ok bp /\ refcount bp = 1) (hw_breakpoints s) ->
  (length (hw_breakpoints s) <= 4)%nat ->
  exists dbg, uhyve_gdb_update_guest_debug s =
    OK (mkstub (gm s) (sw_breakpoints s) (hw_breakpoints s) (nr_hw_breakpoints s) (stepping s) dbg).
Proof.
  intros Hok Hl. unfold uhyve_gdb_update_guest_debug.
  destruct (hw_breakpoints s) as [|bp0 bps] eqn:E; [by eexists|].
  assert (Forall hw_ok (bp0 :: bps)) as Hok' by (eapply Forall_impl; [exact Hok|]; by intros ? [? ?]).
  destruct (set_debugregs_spec (bp0 :: bps) 0 {[7%nat := (1 << 9) .| (1 << 10)]}
    ((1 << 9) .| (1 << 10))) as (dr & d & -> & _);
    [done|lia|done| |rewrite bind_OK; by eexists].
  intros m Hm. do 4 (destruct m as [|m]; [reflexivity|]). lia.
Qed.

Lemma inv_update s s' : inv s -> uhyve_gdb_update_guest_debug s = OK s' ->
  inv s' /\ sw_breakpoints s' = sw_breakpoints s /\ gm s' = gm s /\
  hw_breakpoints s' = hw_breakpoints s.
Proof.
  intros Hi E. destruct (update_guest_debug_ok s (inv_hw _ _ _ Hi) (inv_max _ _ _ Hi)) as [dbg E'].
  rewrite E in E'. injection E' as ->. by destruct Hi.
Qed.

Lemma inv_update_total s : inv s -> exists s', uhyve_gdb_update_guest_debug s = OK s'.
Proof.
  intros Hi. destruct (update_guest_debug_ok s (inv_hw _ _ _ Hi) (inv_max _ _ _ Hi)) as [dbg E].
  eauto.
Qed.

Lemma find_matches a l bps bp :
  List.find (matches a l) bps = Some bp -> bp ∈ bps /\ addr bp = a /\ len bp = l.
Proof.
  intros [Hin Hm]%List.find_some. unfold matches in Hm.
  apply andb_true_iff in Hm as [H1%Z.eqb_eq H2%Z.eqb_eq]. by rewrite list_elem_of_In.
Qed.

Lemma find_none a l bps bp :
  List.find (matches a l) bps = None -> bp ∈ bps -> addr bp = a -> len bp = l -> False.
Proof.
  intros Hf Hin Ha Hl. apply list_elem_of_In, (List.find_none _ _ Hf bp) in Hin.
  unfold matches in Hin. by rewrite Ha, Hl, !Z.eqb_refl in Hin.
Qed.

Lemma remove_first_split a l bps bp :
  List.find (matches a l) bps = Some bp ->
  exists bps1 bps2, bps = bps1 ++ bp :: bps2 /\ remove_first a l bps = bps1 ++ bps2.
Proof.
  induction bps as [|b bps IH]; cbn; [done|]. destruct (matches a l b) eqn:E.
  - intros [= ->]. exists [], bps. done.
  - intros H. destruct (IH H) as (l1 & l2 & -> & ->). exists (b :: l1), l2. done.
Qed.

(** *** Adding *)

Lemma store8_int3 m a : 0 <= a < msize m -> store8 m a int3 = OK (poken m a [byte.of_Z int3]).
Proof. intros H. by rewrite store_le_ok by (cbn; lia). Qed.

(** Breakpoints stay in place when another address is patched. *)
Lemma sw_in_place_poke m a b bps :
  (forall bp, bp ∈ bps -> addr bp <> a) -> Forall (sw_in_place orig m) bps ->
  Forall (sw_in_place orig (poken m a [b])) bps.
Proof.
  rewrite !Forall_forall. intros Hne H bp Hin. destruct (H bp Hin) as (? & ? & ? & ? & ?).
  unfold sw_in_place. rewrite peek_poken1, decide_False by by apply Hne. done.
Qed.

Lemma add_sw s a :
  inv s -> 0 <= a < msize orig -> a ∉ addr <$> sw_breakpoints s ->
  exists s', uhyve_gdb_add_breakpoint s GDB_BREAKPOINT_SW a (lenof a) = OK (true, s') /\
    inv s' /\ addr <$> sw_breakpoints s' = a :: (addr <$> sw_breakpoints s).
Proof.
  intros Hi Ha Hfresh. pose proof Hi as [Hsz Hsw Hlen Hnd Hrest Hhw Hnr Hmax].
  assert (List.find (matches a (lenof a)) (sw_breakpoints s) = None) as Hf.
  { destruct (List.find _ _) as [bp|] eqn:E; [|done]. apply find_matches in E as (Hin & <- & _).
    destruct Hfresh. apply list_elem_of_fmap. eauto. }
  unfold uhyve_gdb_add_breakpoint, bp_list_insert, bp_list_find, bp_list.
  change (GDB_BREAKPOINT_SW <? GDB_BREAKPOINT_MAX) with true. cbn [assert_].
  rewrite Z.eqb_refl, !bind_OK, Hf. rewrite !bind_OK. cbn [negb].
  unfold kvm_arch_insert_sw_breakpoint. cbn [with_sw gm sw_breakpoints].
  rewrite load8_peek, bind_OK, store8_int3, bind_OK by lia.
  cbn [update_first]. unfold matches. cbn [addr len]. rewrite !Z.eqb_refl. cbn [andb].
  rewrite bind_OK. set (s1 := with_gm _ _).
  assert (inv s1) as Hi1.
  { unfold s1. split; cbn [with_gm with_sw gm sw_breakpoints hw_breakpoints nr_hw_breakpoints
      type addr len refcount]; try done.
    - apply Forall_cons. split.
      + unfold sw_in_place. cbn [type addr refcount saved_insn]. rewrite peek_poken1, decide_True by done.
        rewrite <- (Hrest a) by done. by repeat split; cbn; lia.
      + apply sw_in_place_poke; [|done]. intros bp Hin Hba. apply Hfresh, list_elem_of_fmap. eauto.
    - by apply Forall_cons.
    - cbn. by apply NoDup_cons.
    - intros x Hx. cbn in Hx. apply not_elem_of_cons in Hx as [Hxa Hx].
      rewrite peek_poken1, decide_False by done. by apply Hrest. }
  destruct (inv_update_total s1 Hi1) as [s2 E2]. rewrite E2, bind_OK.
  destruct (inv_update s1 s2 Hi1 E2) as (Hi2 & Hsw2 & _). exists s2.
  split; [done|]. split; [done|]. by rewrite Hsw2.
Qed.

(** An address that has a breakpoint keeps it. *)
Lemma add_sw_again s a :
  inv s -> a ∈ addr <$> sw_breakpoints s ->
  uhyve_gdb_add_breakpoint s GDB_BREAKPOINT_SW a (lenof a) = OK (true, s).
Proof.
  intros Hi Ha. pose proof Hi as [Hsz Hsw Hlen Hnd Hrest Hhw Hnr Hmax].
  apply list_elem_of_fmap in Ha as (bp & -> & Hin). rewrite Forall_forall in Hlen.
  unfold uhyve_gdb_add_breakpoint, bp_list_find, bp_list.
  change (GDB_BREAKPOINT_SW <? GDB_BREAKPOINT_MAX) with true. cbn [assert_].
  rewrite Z.eqb_refl, !bind_OK. destruct (List.find _ _) eqn:E; [done|].
  exfalso. by eapply find_none; [exact E|exact Hin| |apply Hlen].
Qed.

Lemma hw_list s t : 1 <= t <= 4 -> bp_list s t = OK (hw_breakpoints s).
Proof.
  intros Ht. unfold bp_list, GDB_BREAKPOINT_SW, GDB_BREAKPOINT_HW, GDB_WATCHPOINT_WRITE,
    GDB_WATCHPOINT_READ, GDB_WATCHPOINT_ACCESS. zbool; cbn; done || lia.
Qed.

Lemma add_hw s t a l :
  inv s -> hw_ok (mkbp t a l 1 0) ->
  exists b s', uhyve_gdb_add_breakpoint s t a l = OK (b, s') /\ inv s' /\
    sw_breakpoints s' = sw_breakpoints s /\
    (b = true -> exists bp, bp ∈ hw_breakpoints s' /\ addr bp = a /\ len bp = l).
Proof.
  intros Hi Hb. pose proof Hi as [Hsz Hsw Hlen Hnd Hrest Hhw Hnr Hmax].
  pose proof Hb as [Ht _]. cbn [type] in Ht.
  unfold uhyve_gdb_add_breakpoint, bp_list_insert, bp_list_find. rewrite hw_list by done.
  unfold GDB_BREAKPOINT_MAX, GDB_BREAKPOINT_SW. rewrite (proj2 (Z.ltb_lt _ _)) by lia.
  cbn [assert_]. rewrite !bind_OK. destruct (List.find _ _) as [bp|] eqn:E.
  - exists true, s. split; [done|]. split; [done|]. split; [done|]. intros _.
    apply find_matches in E. eauto.
  - rewrite (proj2 (Z.eqb_neq _ 0)) by lia. unfold MAX_HW_BREAKPOINTS.
    destruct (Z.eqb_spec (nr_hw_breakpoints s) 4).
    + rewrite bind_OK. cbn [negb]. exists false, s. done.
    + rewrite bind_OK. cbn [negb]. rewrite bind_OK. set (s1 := with_hw s _ _).
      assert (inv s1) as Hi1.
      { unfold s1. split; cbn [with_hw gm sw_breakpoints hw_breakpoints nr_hw_breakpoints]; try done.
        - by apply Forall_cons.
        - rewrite Hnr, u32_small by (unfold is_u32; lia). cbn [length]. lia.
        - cbn [length]. lia. }
      destruct (inv_update_total s1 Hi1) as [s2 E2]. rewrite E2, bind_OK.
      destruct (inv_update s1 s2 Hi1 E2) as (Hi2 & Hsw2 & _ & Hhw2). exists true, s2.
      split; [done|]. split; [done|]. split; [done|]. intros _. rewrite Hhw2.
      eexists. split; [by left|done].
Qed.

(** *** Removing *)

Lemma remove_sw s a :
  inv s ->
  exists s', uhyve_gdb_remove_breakpoint s GDB_BREAKPOINT_SW a (lenof a) =
      OK (bool_decide (a ∈ addr <$> sw_breakpoints s), s') /\ inv s' /\
    forall x, x ∈ addr <$> sw_breakpoints s' <-> x ∈ addr <$> sw_breakpoints s /\ x <> a.
Proof.
  intros Hi. pose proof Hi as [Hsz Hsw Hlen Hnd Hrest Hhw Hnr Hmax].
  unfold uhyve_gdb_remove_breakpoint, bp_list_remove, bp_list_find, bp_list.
  change (GDB_BREAKPOINT_SW <? GDB_BREAKPOINT_MAX) with true. cbn [assert_].
  rewrite Z.eqb_refl, !bind_OK. destruct (List.find _ (sw_breakpoints s)) as [bp|] eqn:E.
  - pose proof (remove_first_split _ _ _ _ E) as (l1 & l2 & Hl & Hrm).
    pose proof E as (Hin & Hba & Hbl)%find_matches.
    assert (sw_in_place orig (gm s) bp) as (Hty & Hrc & Hrg & Hpk & Hsv)
      by (rewrite Forall_forall in Hsw; by apply Hsw).
    rewrite bool_decide_eq_true_2 by (apply list_elem_of_fmap; eauto).
    unfold kvm_arch_remove_sw_breakpoint. rewrite load8_peek, bind_OK, Hpk by done.
    change (byte.unsigned (byte.of_Z int3) =? int3) with true. cbn [assert_].
    rewrite bind_OK, store_le_ok by (cbn; lia).
    assert (le_split 1 (saved_insn bp) = [peek orig a]) as ->.
    { rewrite Hsv, Hba. apply le_split_byte. }
    rewrite !bind_OK. cbn [with_gm sw_breakpoints]. rewrite E, Hrc.
    change (0 <? u32 (1 - 1)) with false. cbv iota. rewrite !bind_OK. cbn [negb].
    set (s1 := with_sw _ _).
    rewrite Hl, fmap_app in Hnd. cbn [fmap list_fmap] in Hnd.
    assert (forall x, x ∈ addr <$> l1 ++ l2 <-> x ∈ addr <$> sw_breakpoints s /\ x <> a) as Hset.
    { intros x. rewrite Hl, !fmap_app. cbn [fmap list_fmap]. rewrite !elem_of_app, elem_of_cons, Hba.
      apply NoDup_app in Hnd as (_ & Hd & [Hn2 _]%NoDup_cons). rewrite Hba in Hd, Hn2.
      assert (a ∉ addr <$> l1) by (intros H1; apply (Hd a H1); by left).
      split; [intros [H1|H1]; (split; [tauto|]); intros ->; done|].
      intros [[?|[->|?]] Hne]; tauto. }
    assert (inv s1) as Hi1.
    { unfold s1. split; cbn [with_sw with_gm gm sw_breakpoints hw_breakpoints nr_hw_breakpoints]; try done.
      - rewrite Hrm. rewrite Hl in Hsw. apply Forall_app in Hsw as [Hs1 [_ Hs2]%Forall_cons].
        rewrite Hba. apply sw_in_place_poke; [|by apply Forall_app].
        intros b Hb Hba'. destruct (proj1 (Hset (addr b))) as [_ Hne]; [|done].
        apply list_elem_of_fmap. eauto.
      - rewrite Hrm. rewrite Hl in Hlen. apply Forall_app in Hlen as [Hs1 [_ Hs2]%Forall_cons].
        by apply Forall_app.
      - rewrite Hrm, fmap_app. apply NoDup_app in Hnd as (Hn1 & Hd & [_ Hn2]%NoDup_cons).
        apply NoDup_app. split; [done|]. split; [|done]. intros x Hx Hx2. apply (Hd x Hx). by right.
      - intros x Hx. rewrite Hrm in Hx. rewrite peek_poken1, Hba. case_decide as Hxa; [by subst|].
        apply Hrest. intros Hin'. apply Hx, Hset. done. }
    destruct (inv_update_total s1 Hi1) as [s2 E2]. rewrite E2, bind_OK.
    destruct (inv_update s1 s2 Hi1 E2) as (Hi2 & Hsw2 & _). exists s2.
    split; [done|]. split; [done|]. rewrite Hsw2. cbn [s1 with_sw sw_breakpoints].
    by rewrite Hrm.
  - assert (a ∉ addr <$> sw_breakpoints s) as Hna.
    { intros (bp & -> & Hin)%list_elem_of_fmap. rewrite Forall_forall in Hlen.
      by eapply find_none; [exact E|exact Hin| |apply Hlen]. }
    rewrite !bind_OK, E, !bind_OK. cbn [negb]. exists s.
    rewrite bool_decide_eq_false_2 by done. split; [done|]. split; [done|].
    intros x. split; [|tauto]. intros Hx. split; [done|]. by intros ->.
Qed.

Lemma remove_hw s t a l :
  inv s -> 1 <= t <= 4 ->
  exists b s', uhyve_gdb_remove_breakpoint s t a l = OK (b, s') /\ inv s' /\
    sw_breakpoints s' = sw_breakpoints s.
Proof.
  intros Hi Ht. pose proof Hi as [Hsz Hsw Hlen Hnd Hrest Hhw Hnr Hmax].
  unfold uhyve_gdb_remove_breakpoint.
  unfold GDB_BREAKPOINT_MAX, GDB_BREAKPOINT_SW. rewrite (proj2 (Z.ltb_lt _ _)) by lia.
  rewrite (proj2 (Z.eqb_neq _ 0)) by lia. cbn [assert_]. rewrite !bind_OK.
  unfold bp_list_remove, bp_list_find. rewrite hw_list, !bind_OK by done.
  unfold GDB_BREAKPOINT_SW. rewrite (proj2 (Z.eqb_neq _ 0)) by lia.
  destruct (List.find _ _) as [bp|] eqn:E; [|by exists false, s].
  pose proof (remove_first_split _ _ _ _ E) as (l1 & l2 & Hl & Hrm).
  assert (refcount bp = 1) as -> by
    (apply find_matches in E as (Hin & _); rewrite Forall_forall in Hhw; by apply Hhw).
  rewrite ?hw_list by done. change (0 <? u32 (1 - 1)) with false. cbv iota.
  rewrite !bind_OK. cbn [negb].
  set (s1 := with_hw s _ _).
  assert (inv s1) as Hi1.
  { unfold s1. rewrite Hrm. rewrite Hl, length_app in Hnr, Hmax. cbn [length] in *.
    split; cbn [with_hw gm sw_breakpoints hw_breakpoints nr_hw_breakpoints]; try done.
    - rewrite Hl in Hhw. apply Forall_app in Hhw as [? [_ ?]%Forall_cons]. by apply Forall_app.
    - rewrite Hnr, u32_small by (unfold is_u32; lia). rewrite length_app. lia.
    - rewrite length_app. lia. }
  destruct (inv_update_total s1 Hi1) as [s2 E2]. rewrite E2, bind_OK.
  destruct (inv_update s1 s2 Hi1 E2) as (Hi2 & Hsw2 & _). by exists true, s2.
Qed.
End Transparency.

(** *** Sessions *)

(** What the debugger asks for with ['Z'] and ['z'] packets. *)
Inductive bp_request := Insert (type addr len : Z) | Remove (type addr len : Z).

Definition bp_serve (s : stub) (r : bp_request) : outcome stub :=
  match r with
  | Insert t a l => snd <$> uhyve_gdb_add_breakpoint s t a l
  | Remove t a l => snd <$> uhyve_gdb_remove_breakpoint s t a l
  end.
Fixpoint bp_session (s : stub) (rs : list bp_request) : outcome stub :=
  match rs with
  | [] => OK s
  | r :: rs => s ← bp_serve s r; bp_session s rs
  end.

(** Requests a debugger makes: known types; software breakpoints inside guest
    memory, always with the same length at the same address; debug-register
    lengths for the others. *)
Definition request_ok (lenof : Z -> Z) (size : Z) (r : bp_request) : Prop :=
  let '(t, a, l) := match r with Insert t a l => (t, a, l) | Remove t a l => (t, a, l) end in
  t = GDB_BREAKPOINT_SW /\ 0 <= a < size /\ l = lenof a \/ hw_ok (mkbp t a l 1 0).

(** The abstract view: the set of addresses with a software breakpoint. *)
Definition spec_request (r : bp_request) (active : gset Z) : gset Z :=
  match r with
  | Insert t a _ => if t =? GDB_BREAKPOINT_SW then {[a]} ∪ active else active
  | Remove t a _ => if t =? GDB_BREAKPOINT_SW then active ∖ {[a]} else active
  end.

(** The stub implements the set: same breakpoints, and guest memory is the
    original with int3 at exactly those addresses. *)
Definition represents (lenof : Z -> Z) (orig : gmem) (active : gset Z) (s : stub) : Prop :=
  stub_inv lenof orig s /\ forall x, x ∈ addr <$> sw_breakpoints s <-> x ∈ active.

Lemma bp_serve_refines lenof orig active s r :
  represents lenof orig active s -> request_ok lenof (msize orig) r ->
  exists s', bp_serve s r = OK s' /\ represents lenof orig (spec_request r active) s'.
Proof.
  intros [Hi Hset] Hr. destruct r as [t a l|t a l]; cbn [bp_serve spec_request];
    destruct Hr as [(-> & Ha & ->)|Hhw].
  - rewrite Z.eqb_refl. destruct (decide (a ∈ addr <$> sw_breakpoints s)) as [Hin|Hni].
    + rewrite (add_sw_again lenof orig) by done. exists s. split; [done|]. split; [done|].
      intros x. rewrite Hset in Hin |- *. rewrite elem_of_union, elem_of_singleton.
      split; [tauto|]. by intros [->|].
    + destruct (add_sw lenof orig s a Hi Ha Hni) as (s' & -> & Hi' & Hl). exists s'.
      split; [done|]. split; [done|]. intros x.
      by rewrite Hl, elem_of_cons, Hset, elem_of_union, elem_of_singleton.
  - pose proof Hhw as [Ht _]. cbn [type] in Ht. unfold GDB_BREAKPOINT_SW.
    rewrite (proj2 (Z.eqb_neq _ _)) by lia.
    destruct (add_hw lenof orig s t a l Hi Hhw) as (b & s' & -> & Hi' & Hsw & _). exists s'.
    split; [done|]. split; [done|]. by rewrite Hsw.
  - rewrite Z.eqb_refl. destruct (remove_sw lenof orig s a Hi) as (s' & -> & Hi' & Hs'). exists s'.
    split; [done|]. split; [done|]. intros x.
    by rewrite Hs', Hset, elem_of_difference, elem_of_singleton.
  - pose proof Hhw as [Ht _]. cbn [type] in Ht. unfold GDB_BREAKPOINT_SW.
    rewrite (proj2 (Z.eqb_neq _ _)) by lia.
    destruct (remove_hw lenof orig s t a l Hi Ht) as (b & s' & -> & Hi' & Hsw). exists s'.
    split; [done|]. split; [done|]. by rewrite Hsw.
Qed.

Lemma no_breakpoints_inv lenof s :
  sw_breakpoints s = [] -> hw_breakpoints s = [] -> nr_hw_breakpoints s = 0 ->
  represents lenof (gm s) ∅ s.
Proof.
  intros Hs Hh Hn. split; [|intros x; rewrite Hs; set_solver].
  split; rewrite ?Hs, ?Hh, ?Hn; cbn; try done; try lia. apply NoDup_nil_2.
Qed.

(** C20. A whole session of breakpoint requests refines the set of breakpoint
    addresses: every request is served without a failed assertion or a stray
    access, guest memory differs from the original exactly by int3 at the
    active addresses (so it is the original again once they are removed), and
    the hardware breakpoints always fit the four debug registers. *)
Theorem breakpoints_transparent lenof s0 rs :
  sw_breakpoints s0 = [] -> hw_breakpoints s0 = [] -> nr_hw_breakpoints s0 = 0 ->
  Forall (request_ok lenof (msize (gm s0))) rs ->
  exists s, bp_session s0 rs = OK s /\
    let active := foldl (fun active r => spec_request r active) ∅ rs in
    (forall x, peek (gm s) x = if decide (x ∈ active) then byte.of_Z int3 else peek (gm s0) x) /\
    (active = ∅ -> gm s ≡ gm s0) /\
    nr_hw_breakpoints s = Z.of_nat (length (hw_breakpoints s)) /\ nr_hw_breakpoints s <= 4.
Proof.
  intros Hs Hh Hn Hrs. pose proof (no_breakpoints_inv lenof s0 Hs Hh Hn) as Hrep.
  assert (exists s, bp_session s0 rs = OK s /\ represents lenof (gm s0)
            (foldl (fun active r => spec_request r active) ∅ rs) s) as (s & E & Hi & Hset).
  { clear Hs Hh Hn. revert Hrep Hrs. generalize (gm s0) at 1 3 as orig. intros orig.
    generalize (∅ : gset Z). revert s0. induction rs as [|r rs IH]; intros s0 active Hrep Hrs.
    - by exists s0.
    - apply Forall_cons in Hrs as [Hr Hrs].
      destruct (bp_serve_refines lenof orig active s0 r) as (s1 & E1 & Hrep1); [done| |].
      + destruct Hrep as [Hi _]. by rewrite <- (inv_size _ _ _ Hi).
      + cbn [bp_session foldl]. rewrite E1, bind_OK. apply IH; [done|].
        assert (msize (gm s1) = msize (gm s0)) as ->; [|done].
        destruct Hrep as [Hi _], Hrep1 as [Hi1 _].
        by rewrite (inv_size _ _ _ Hi), (inv_size _ _ _ Hi1). }
  exists s. split; [done|]. cbv zeta. set (active := foldl _ ∅ rs) in *. clearbody active.
  assert (forall x, peek (gm s) x = if decide (x ∈ active) then byte.of_Z int3 else peek (gm s0) x)
    as Hpk.
  { intros x. destruct (decide (x ∈ active)) as [Hx|Hx].
    - apply Hset, list_elem_of_fmap in Hx as (bp & -> & Hin).
      pose proof (inv_sw _ _ _ Hi) as Hsw. rewrite Forall_forall in Hsw. by apply Hsw.
    - apply (inv_rest _ _ _ Hi). by rewrite Hset. }
  split; [done|]. split; [|split].
  - intros ->. split; [apply (inv_size _ _ _ Hi)|]. intros x. rewrite Hpk.
    by rewrite decide_False by set_solver.
  - apply (inv_nr _ _ _ Hi).
  - rewrite (inv_nr _ _ _ Hi). pose proof (inv_max _ _ _ Hi). lia.
Qed.

(** *** Witnesses *)

Definition example_stub : stub :=
  mkstub (poken (fresh_mem 0x1000) 0x100 (str "U")) [] [] 0 false (mkdebug 0 ∅).

Lemma breakpoints_transparent_witness :
  exists s, bp_session example_stub
      [Insert 0 0x100 1; Insert 1 0x200 1; Insert 0 0x100 1; Remove 0 0x100 1] = OK s /\
    gm s ≡ gm example_stub.
Proof.
  destruct (breakpoints_transparent (fun _ => 1) example_stub
    [Insert 0 0x100 1; Insert 1 0x200 1; Insert 0 0x100 1; Remove 0 0x100 1])
    as (s & E & _ & H & _).
  - reflexivity.
  - reflexivity.
  - reflexivity.
  - apply Forall_cons_2; [left; split_and!; vm_compute; congruence|].
    apply Forall_cons_2; [right; split; cbn; lia|].
    do 2 (apply Forall_cons_2; [left; split_and!; vm_compute; congruence|]). apply Forall_nil_2.
  - exists s. split; [exact E|]. apply H. reflexivity.
Defined.

Lemma hw_breakpoints_armed_witness :
  exists s', uhyve_gdb_update_guest_debug
      (with_hw example_stub [mkbp 2 0x3000 4 1 0; mkbp 1 0x2000 1 1 0] 2) = OK s' /\
    debugreg (debug s') !! 0%nat = Some 0x3000.
Proof.
  destruct (hw_breakpoints_armed (with_hw example_stub [mkbp 2 0x3000 4 1 0; mkbp 1 0x2000 1 1 0] 2))
    as (s' & dr7 & E & _ & _ & H & _).
  - discriminate.
  - repeat (apply Forall_cons_2; [split; cbn; lia|]). apply Forall_nil_2.
  - cbn. lia.
  - exists s'. split; [exact E|]. exact (proj1 (H 0%nat _ eq_refl)).
Defined.

(** Two lengths at one address: the second breakpoint saves the int3 of the
    first, and removing both ends in a failed assertion. *)
Lemma two_lengths_at_one_address :
  bp_session example_stub [Insert 0 0x100 1; Insert 0 0x100 2; Remove 0 0x100 1; Remove 0 0x100 2]
  = Exited SIGABRT_STATUS.
Proof. vm_compute. reflexivity. Qed.

(** The hardware list is searched without the type: a watchpoint at the address
    and length of an execution breakpoint is reported as set, but not armed. *)
Lemma watchpoint_taken_for_breakpoint :
  exists s, uhyve_gdb_add_breakpoint example_stub GDB_BREAKPOINT_HW 0x200 1 = OK (true, s) /\
    uhyve_gdb_add_breakpoint s GDB_WATCHPOINT_WRITE 0x200 1 = OK (true, s).
Proof.
  exists (match uhyve_gdb_add_breakpoint example_stub GDB_BREAKPOINT_HW 0x200 1 with
          | OK (_, s) => s | _ => example_stub end).
  split; vm_compute; reflexivity.
Qed.
