(* ===== verification/Gdb.v ===== *)
(** * The debugger stub's commands

    [gdb_handle_exception] of src/uhyve-gdb.c: the stop reply, then a loop that
    receives a packet, carries out its command and answers, until a command
    resumes the guest.  The register packets of [uhyve_gdb_read_registers] and
    [uhyve_gdb_write_registers] (struct uhyve_gdb_regs of
    src/uhyve-gdb-x86_64.h) and the [sscanf] formats of the commands are
    modelled here; framing is in GdbPacket.v, breakpoints in GdbBreak.v. *)

From S2P Require Import Prelude GuestMem GdbPacket GdbBreak.

(** ** Numbers in packets *)

(** [%lx]: white space, a sign, a 0x prefix, then at least one digit; a value
    that does not fit is ULONG_MAX. *)
Definition is_space (b : byte) : bool :=
  let c := byte.unsigned b in (c =? 32) || ((9 <=? c) && (c <=? 13)).

Fixpoint skip_space (s : list byte) : list byte :=
  match s with
  | b :: s' => if is_space b then skip_space s' else s
  | [] => []
  end.

Fixpoint scan_digits (s : list byte) (acc : Z) : Z * list byte :=
  match s with
  | b :: s' => if 0 <=? hex (byte.unsigned b)
               then scan_digits s' (acc * 16 + hex (byte.unsigned b)) else (acc, s)
  | [] => (acc, [])
  end.

Definition is_digit (b : byte) : bool := 0 <=? hex (byte.unsigned b).

Definition skip_0x (s : list byte) : list byte :=
  match s with
  | z :: x :: s' =>
      if (byte.unsigned z =? 48) && ((byte.unsigned x =? 120) || (byte.unsigned x =? 88))
      then s' else s
  | _ => s
  end.

Definition scan_hex (s : list byte) : option (Z * list byte) :=
  let s := skip_space s in
  let '(neg, s) :=
    match s with
    | b :: s' => if byte.unsigned b =? 45 then (true, s')
                 else if byte.unsigned b =? 43 then (false, s') else (false, s)
    | [] => (false, s)
    end in
  let s := skip_0x s in
  match s with
  | b :: _ =>
      if is_digit b then
        let '(v, rest) := scan_digits s 0 in
        let v := if 2 ^ 64 <=? v then 2 ^ 64 - 1 else if neg : bool then u64 (- v) else v in
        Some (v, rest)
      else None
  | [] => None
  end.

(** A literal character of a format. *)
Definition scan_char (c : Z) (s : list byte) : option (list byte) :=
  match s with b :: s' => if byte.unsigned b =? c then Some s' else None | [] => None end.

(** [%s]: white space, then at least one character that is not white space. *)
Fixpoint scan_word (s : list byte) : list byte :=
  match s with b :: s' => if is_space b then [] else b :: scan_word s' | [] => [] end.
Definition scan_string (s : list byte) : option (list byte) :=
  match scan_word (skip_space s) with [] => None | w => Some w end.

Definition COMMA : Z := 44.

(** The formats, behind the command character. *)
Definition scan_addr_len (s : list byte) : option (Z * Z * list byte) :=
  '(addr, s) ← scan_hex s;
  s ← scan_char COMMA s;
  '(len, s) ← scan_hex s;
  Some (addr, len, s).
Definition scan_addr_len_data (s : list byte) : option (Z * Z * list byte) :=
  '(addr, len, s) ← scan_addr_len s;
  s ← scan_char COLON s;
  w ← scan_string s;
  Some (addr, len, w).
(** [%x,%lx,%zx]; the type is a 32-bit number. *)
Definition scan_breakpoint (s : list byte) : option (Z * Z * Z) :=
  '(type, s) ← scan_hex s;
  s ← scan_char COMMA s;
  '(addr, len, _) ← scan_addr_len s;
  Some (u32 type, addr, len).

(** ** Registers *)

(** The registers KVM_GET_REGS and KVM_GET_SREGS return that the stub uses. *)
Record vregs := mkregs {
  rax : Z; rbx : Z; rcx : Z; rdx : Z; rsi : Z; rdi : Z; rbp : Z; rsp : Z;
  r8 : Z; r9 : Z; r10 : Z; r11 : Z; r12 : Z; r13 : Z; r14 : Z; r15 : Z;
  rip : Z; rflags : Z;
  cs : Z; ss : Z; ds : Z; es : Z; fs : Z; gs : Z        (* selectors *)
}.

Definition sizeof_gdb_regs : Z := 248.

(** Stores in the order of the assignments: offset, width, value. *)
Definition store_fields (l : list (Z * nat * Z)) (m : gmem) : outcome gmem :=
  foldl (fun m '(off, n, v) => m ← m; store_le n m off v) (OK m) l.

Definition gdb_fields (v : vregs) : list (Z * nat * Z) :=
  [(0, 8%nat, rax v); (8, 8%nat, rbx v); (16, 8%nat, rcx v); (24, 8%nat, rdx v);
   (32, 8%nat, rsi v); (40, 8%nat, rdi v); (48, 8%nat, rbp v); (56, 8%nat, rsp v);
   (64, 8%nat, r8 v); (72, 8%nat, r9 v); (80, 8%nat, r10 v); (88, 8%nat, r11 v);
   (128, 8%nat, rip v); (136, 4%nat, rflags v);
   (140, 4%nat, cs v); (144, 4%nat, ss v); (148, 4%nat, ds v); (152, 4%nat, es v);
   (156, 4%nat, fs v); (160, 4%nat, gs v)].

(** [None] for -1; the new length. *)
Definition uhyve_gdb_read_registers (v : vregs) (registers : gmem) (len : Z)
  : outcome (option (gmem * Z)) :=
  if len <? sizeof_gdb_regs then OK None
  else m ← store_fields (gdb_fields v) registers; OK (Some (m, sizeof_gdb_regs)).

Definition uhyve_gdb_write_registers (v : vregs) (registers : gmem) (len : Z)
  : outcome (option vregs) :=
  if len <? sizeof_gdb_regs then OK None
  else
    let ld n off := load_le n registers off in
    rax ← ld 8%nat 0; rbx ← ld 8%nat 8; rcx ← ld 8%nat 16; rdx ← ld 8%nat 24;
    rsi ← ld 8%nat 32; rdi ← ld 8%nat 40; rbp ← ld 8%nat 48; rsp ← ld 8%nat 56;
    r8 ← ld 8%nat 64; r9 ← ld 8%nat 72; r10 ← ld 8%nat 80; r11 ← ld 8%nat 88;
    rip ← ld 8%nat 128; rflags ← ld 4%nat 136;
    cs ← ld 4%nat 140; ss ← ld 4%nat 144; ds ← ld 4%nat 148; es ← ld 4%nat 152;
    fs ← ld 4%nat 156; gs ← ld 4%nat 160;
    OK (Some (mkregs rax rbx rcx rdx rsi rdi rbp rsp r8 r9 r10 r11
                (r12 v) (r13 v) (r14 v) (r15 v) rip rflags
                (u16 cs) (u16 ss) (u16 ds) (u16 es) (u16 fs) (u16 gs))).

(** ** The commands *)

(** The stub's state beside the connection. *)
Record target := mktarget {
  tstub : stub;
  tregs : vregs;
  registers : gmem;                    (* the static buffer of 4096 bytes *)
  thread_counter : Z
}.

Definition with_stub (t : target) (s : stub) : target :=
  mktarget s (tregs t) (registers t) (thread_counter t).

(** What a command does: the packet it sends, whether it resumes the guest. *)
Record result := mkresult { reply : option (list byte); resume : bool; after : target }.

Definition answer (r : list byte) (t : target) : outcome result := OK (mkresult (Some r) false t).
Definition error_msg (t : target) : outcome result := answer GDB_ERROR_MSG t.
Definition not_supported (t : target) : outcome result := answer [] t.
Definition okay (t : target) : outcome result := answer (str "OK") t.

Section Commands.
Context (ncores : Z) (kvm_translate : Z -> Z).

(** Lower-case hexadecimal without leading zeros ([%lx]). *)
Fixpoint to_hex (fuel : nat) (z : Z) : list byte :=
  match fuel with
  | O => []
  | S fuel => (if z <? 16 then [] else to_hex fuel (z / 16)) ++ [hexchar (z mod 16)]
  end.

Definition gdb_handle_query (packet : list byte) (t : target) : outcome result :=
  if 1 <? ncores then
    if decide (packet = str "qfThreadInfo") then
      let n := u64 (thread_counter t + 1) in
      answer (str "m" ++ to_hex 16 n) (mktarget (tstub t) (tregs t) (registers t) n)
    else if decide (packet = str "qsThreadInfo") then
      if thread_counter t <? ncores then
        let n := u64 (thread_counter t + 1) in
        answer (str "m" ++ to_hex 16 n) (mktarget (tstub t) (tregs t) (registers t) n)
      else answer (str "l") (mktarget (tstub t) (tregs t) (registers t) 0)
    else OK (mkresult None false t)
  else not_supported t.

Definition resume_guest (r : outcome stub) (t : target) : outcome result :=
  s ← r; OK (mkresult None true (with_stub t s)).

(** [obuf] holds [BUFMAX] characters with the terminator. *)
Definition memory_reply (m : gmem) (phys len : Z) : outcome (list byte) :=
  if Z.of_nat BUFMAX <? 2 * len + 1 then Undefined
  else bs ← load m phys (Z.to_nat len); OK (mem2hex bs).

Definition gdb_command (sigval : Z) (packet : list byte) (t : target) : outcome result :=
  let command := match packet with b :: _ => byte.unsigned b | [] => 0 end in
  let args := drop 1 packet in
  let m := gm (tstub t) in
  if command =? 115 (* s *) then
    match scan_hex args with
    | Some _ => not_supported t
    | None => resume_guest (uhyve_gdb_enable_ss (tstub t)) t
    end
  else if command =? 99 (* c *) then
    match scan_hex args with
    | Some _ => not_supported t
    | None => resume_guest (uhyve_gdb_disable_ss (tstub t)) t
    end
  else if command =? 109 (* m *) then
    match scan_addr_len args with
    | None => error_msg t
    | Some (addr, len, _) =>
        r ← memory_reply m (kvm_translate addr) len; answer r t
    end
  else if command =? 77 (* M *) then
    match scan_addr_len_data args with
    | None => error_msg t
    | Some (addr, len, data) =>
        bs ← hex2mem (data ++ [NUL]) len;
        m ← store m (kvm_translate addr) bs;
        okay (with_stub t (with_gm (tstub t) m))
    end
  else if command =? 103 (* g *) then
    r ← uhyve_gdb_read_registers (tregs t) (registers t) (Z.of_nat BUFMAX);
    match r with
    | None => error_msg t
    | Some (regs, len) =>
        r ← memory_reply regs 0 len;
        answer r (mktarget (tstub t) (tregs t) regs (thread_counter t))
    end
  else if command =? 71 (* G *) then
    r ← uhyve_gdb_read_registers (tregs t) (registers t) (Z.of_nat BUFMAX);
    match r with
    | None => error_msg t
    | Some (regs, len) =>
        bs ← hex2mem (args ++ [NUL]) len;
        regs ← store regs 0 bs;
        v ← uhyve_gdb_write_registers (tregs t) regs len;
        match v with
        | None => error_msg (mktarget (tstub t) (tregs t) regs (thread_counter t))
        | Some v => okay (mktarget (tstub t) v regs (thread_counter t))
        end
    end
  else if command =? 63 (* ? *) then answer (str "S" ++ hex_byte sigval) t
  else if (command =? 90) (* Z *) || (command =? 122) (* z *) then
    match scan_breakpoint args with
    | None => error_msg t
    | Some (type, addr, len) =>
        '(ok, s) ←
          (if command =? 90
           then uhyve_gdb_add_breakpoint (tstub t) type (kvm_translate addr) len
           else uhyve_gdb_remove_breakpoint (tstub t) type (kvm_translate addr) len);
        if ok : bool then okay (with_stub t s) else error_msg (with_stub t s)
    end
  else if command =? 107 (* k *) then okay t
  else if command =? 113 (* q *) then gdb_handle_query packet t
  else if command =? 68 (* D *) then OK (mkresult (Some (str "OK")) true t)
  else not_supported t.

(** One turn of [for (;;)]. *)
Definition gdb_turn (sigval : Z) : conn * target -> outcome (conn * target + conn * target) :=
  fun '(c, t) =>
    '(packet, c) ← recv_packet c;
    match packet with
    | None => Exited 1
    | Some packet =>
        r ← gdb_command sigval packet t;
        c ← match reply r with Some obuf => send_packet c obuf | None => OK c end;
        OK (if resume r then inr (c, after r) else inl (c, after r))
    end.

Definition gdb_handle_exception (fuel : nat) (sigval : Z) (c : conn) (t : target)
  : outcome (conn * target) :=
  c ← send_response c (byte.of_Z 83) sigval true;
  while fuel (gdb_turn sigval) (c, t).
End Commands.

(** ** Numbers read back *)

Lemma hexchar_digit n :
  0 <= n < 16 ->
  hex (byte.unsigned (hexchar n)) = n /\ is_space (hexchar n) = false /\
  byte.unsigned (hexchar n) <> 43 /\ byte.unsigned (hexchar n) <> 45 /\
  byte.unsigned (hexchar n) <> 88 /\ byte.unsigned (hexchar n) <> 120 /\
  clean_byte (hexchar n) /\ hexchar n <> byte.of_Z COLON.
Proof.
  intros Hn. rewrite <- (Z2Nat.id n) by lia. generalize (Z.to_nat n), (proj2 (Nat2Z.inj_lt (Z.to_nat n) 16) ltac:(lia)).
  intros k Hk. do 16 (destruct k as [|k]; [vm_compute; repeat split; congruence|]). lia.
Qed.

Lemma to_hex_S fuel z :
  to_hex (S fuel) z = (if z <? 16 then [] else to_hex fuel (z / 16)) ++ [hexchar (z mod 16)].
Proof. reflexivity. Qed.

Lemma scan_digits_to_hex fuel : forall z acc rest,
  0 <= z < 16 ^ Z.of_nat fuel ->
  exists k, scan_digits (to_hex fuel z ++ rest) acc = scan_digits rest (acc * 16 ^ k + z) /\ 0 <= k.
Proof.
  induction fuel as [|fuel IH]; intros z acc rest Hz.
  - exists 0. cbn in Hz. cbn [to_hex app]. split; [f_equal; lia|done].
  - pose proof (Z.mod_pos_bound z 16 ltac:(lia)) as Hm.
    destruct (hexchar_digit (z mod 16) Hm) as (Hx & _).
    assert (forall acc, scan_digits ([hexchar (z mod 16)] ++ rest) acc =
              scan_digits rest (acc * 16 + z mod 16)) as Hlast.
    { intros a. cbn [app scan_digits]. rewrite Hx, (proj2 (Z.leb_le _ _)) by lia. done. }
    rewrite to_hex_S, <- app_assoc. destruct (Z.ltb_spec z 16).
    + exists 1. cbn [app] in *. rewrite Hlast. split; [|lia]. rewrite Z.mod_small by lia. f_equal; lia.
    + destruct (IH (z / 16) acc ([hexchar (z mod 16)] ++ rest)) as (k & -> & Hk).
      { replace (16 ^ Z.of_nat (S fuel)) with (16 * 16 ^ Z.of_nat fuel) in Hz
          by (rewrite <- Z.pow_succ_r by lia; f_equal; lia).
        split; [apply Z.div_pos; lia|apply Z.div_lt_upper_bound; lia]. }
      exists (k + 1). rewrite Hlast. split; [|lia]. f_equal. rewrite Z.pow_add_r by lia.
      pose proof (Z.div_mod z 16 ltac:(lia)). nia.
Qed.

Lemma to_hex_head fuel : forall z, (0 < fuel)%nat -> 0 <= z ->
  exists d l, to_hex fuel z = hexchar d :: l /\ 0 <= d < 16 /\ (z <> 0 -> z < 16 ^ Z.of_nat fuel -> d <> 0) /\
    (z = 0 -> l = []).
Proof.
  induction fuel as [|fuel IH]; intros z Hf Hz; [lia|]. rewrite to_hex_S.
  pose proof (Z.mod_pos_bound z 16 ltac:(lia)). destruct (Z.ltb_spec z 16).
  - exists (z mod 16), []. split; [done|]. rewrite Z.mod_small by lia. split; [lia|]. split; [lia|done].
  - destruct fuel as [|fuel].
    + exists (z mod 16), []. split; [done|]. split; [lia|]. split; [cbn; lia|done].
    + destruct (IH (z / 16) ltac:(lia) ltac:(apply Z.div_pos; lia)) as (d & l & -> & Hd & Hn & _).
      exists d, (l ++ [hexchar (z mod 16)]). split; [done|]. split; [done|]. split; [|lia].
      intros _ Hlt. apply Hn.
      * assert (1 <= z / 16) by (apply Z.div_le_lower_bound; lia). lia.
      * apply Z.div_lt_upper_bound; [lia|]. replace (Z.of_nat (S (S fuel))) with
          (Z.of_nat (S fuel) + 1) in Hlt by lia. rewrite Z.pow_add_r in Hlt by lia. lia.
Qed.

(** A number in a packet ends at a character that is neither a digit nor x. *)
Definition ends_number (s : list byte) : Prop :=
  match s with
  | [] => True
  | b :: _ => is_digit b = false /\ byte.unsigned b <> 88 /\ byte.unsigned b <> 120
  end.

Lemma scan_hex_to_hex z rest :
  is_u64 z -> ends_number rest -> scan_hex (to_hex 16 z ++ rest) = Some (z, rest).
Proof.
  intros Hz Hr. change (2 ^ 64) with (16 ^ Z.of_nat 16) in *. unfold is_u64 in Hz.
  destruct (to_hex_head 16 z ltac:(lia) (proj1 Hz)) as (d & l & E & Hd & Hnz & Hzero).
  destruct (scan_digits_to_hex 16 z 0 rest Hz) as (k & Hs & _).
  destruct (hexchar_digit d Hd) as (Hhex & Hsp & H43 & H45 & H88 & H120 & _).
  rewrite E in *. cbn [app] in *. unfold scan_hex. cbn [skip_space]. rewrite Hsp.
  rewrite (proj2 (Z.eqb_neq _ 45)), (proj2 (Z.eqb_neq _ 43)) by done.
  assert (skip_0x (hexchar d :: l ++ rest) = hexchar d :: l ++ rest) as ->.
  { unfold skip_0x. destruct (l ++ rest) as [|x t] eqn:El; [done|].
    destruct (Z.eqb_spec (byte.unsigned (hexchar d)) 48) as [Hd0|]; [|done].
    assert (d = 0) as -> by (rewrite Hd0 in Hhex; cbn in Hhex; lia).
    destruct (decide (z = 0)) as [->|Hne]; [|exfalso; apply (Hnz Hne); [apply Hz|done]].
    rewrite Hzero in El by done. cbn in El. subst rest. destruct Hr as (_ & ? & ?).
    by rewrite !(proj2 (Z.eqb_neq _ _)) by done. }
  unfold is_digit. rewrite Hhex, (proj2 (Z.leb_le _ _)) by lia.
  rewrite Hs. assert (scan_digits rest (0 * 16 ^ k + z) = (z, rest)) as ->.
  { rewrite Z.mul_0_l, Z.add_0_l. destruct rest as [|b rest]; [done|]. cbn [scan_digits].
    destruct Hr as (Hb & _). unfold is_digit in Hb. by rewrite Hb. }
  by rewrite (proj2 (Z.leb_gt _ _)) by lia.
Qed.

(** The text of the debugger's memory commands. *)
Definition addr_len (addr len : Z) : list byte := to_hex 16 addr ++ str "," ++ to_hex 16 len.
Definition read_command (addr len : Z) : list byte := str "m" ++ addr_len addr len.
Definition write_command (addr : Z) (bs : list byte) : list byte :=
  str "M" ++ addr_len addr (Z.of_nat (length bs)) ++ str ":" ++ mem2hex bs.

Lemma scan_addr_len_text addr len rest :
  is_u64 addr -> is_u64 len -> ends_number rest ->
  scan_addr_len (addr_len addr len ++ rest) = Some (addr, len, rest).
Proof.
  intros Ha Hl Hr. unfold scan_addr_len, addr_len. rewrite <- !app_assoc.
  rewrite scan_hex_to_hex by (done || by vm_compute). cbn [mbind option_bind].
  assert (scan_char COMMA (str "," ++ to_hex 16 len ++ rest) = Some (to_hex 16 len ++ rest)) as ->
    by reflexivity.
  cbn [mbind option_bind]. by rewrite scan_hex_to_hex.
Qed.

Lemma mem2hex_words bs : Forall (fun b => is_space b = false) (mem2hex bs).
Proof.
  induction bs as [|b bs IH]; [apply Forall_nil_2|]. cbn [mem2hex hex_byte app].
  pose proof (byte_unsigned_range b).
  destruct (hexchar_digit (byte.unsigned b / 16)) as (_ & H1 & _);
    [split; [apply Z.div_pos; lia|apply Z.div_lt_upper_bound; lia]|].
  destruct (hexchar_digit (byte.unsigned b mod 16)) as (_ & H2 & _);
    [apply Z.mod_pos_bound; lia|].
  by apply Forall_cons_2, Forall_cons_2.
Qed.

Lemma scan_word_all s : Forall (fun b => is_space b = false) s -> scan_word s = s.
Proof.
  induction 1 as [|b s Hb _ IH]; [done|]. cbn [scan_word]. by rewrite Hb, IH.
Qed.

Lemma scan_string_mem2hex bs : bs <> [] -> scan_string (mem2hex bs) = Some (mem2hex bs).
Proof.
  intros Hne. unfold scan_string. pose proof (mem2hex_words bs) as Hw.
  assert (skip_space (mem2hex bs) = mem2hex bs) as ->.
  { destruct bs; [done|]. cbn [mem2hex hex_byte app] in *. apply Forall_cons in Hw as [Hb _].
    cbn [skip_space]. by rewrite Hb. }
  rewrite scan_word_all by done. by destruct bs.
Qed.

Section CommandTheorems.
Context (ncores : Z) (kvm_translate : Z -> Z) (sigval : Z).
Abbreviation command := (gdb_command ncores kvm_translate sigval).

Lemma memory_reply_ok m phys n :
  (2 * n + 1 <= BUFMAX)%nat -> 0 <= phys -> phys + Z.of_nat n <= msize m ->
  memory_reply m phys (Z.of_nat n) = OK (mem2hex (peekn m phys n)).
Proof.
  intros Hn H0 H1. unfold memory_reply. rewrite (proj2 (Z.ltb_ge _ _)) by lia.
  by rewrite Nat2Z.id, load_ok, bind_OK.
Qed.

Lemma command_m s t :
  command (str "m" ++ s) t =
  match scan_addr_len s with
  | None => error_msg t
  | Some (addr, len, _) =>
      r ← memory_reply (gm (tstub t)) (kvm_translate addr) len; answer r t
  end.
Proof. reflexivity. Qed.

Lemma command_M s t :
  command (str "M" ++ s) t =
  match scan_addr_len_data s with
  | None => error_msg t
  | Some (addr, len, data) =>
      bs ← hex2mem (data ++ [NUL]) len;
      m ← store (gm (tstub t)) (kvm_translate addr) bs;
      okay (with_stub t (with_gm (tstub t) m))
  end.
Proof. reflexivity. Qed.

Lemma read_command_serves t addr n :
  is_u64 addr -> (2 * n + 1 <= BUFMAX)%nat ->
  0 <= kvm_translate addr -> kvm_translate addr + Z.of_nat n <= msize (gm (tstub t)) ->
  command (read_command addr (Z.of_nat n)) t =
  answer (mem2hex (peekn (gm (tstub t)) (kvm_translate addr) n)) t.
Proof.
  intros Ha Hn H0 H1. unfold read_command. rewrite command_m.
  rewrite <- (app_nil_r (addr_len _ _)), scan_addr_len_text;
    [|done|unfold is_u64, BUFMAX in *; lia|done].
  by rewrite memory_reply_ok, bind_OK.
Qed.

Lemma write_command_serves t addr bs :
  is_u64 addr -> bs <> [] -> Z.of_nat (length bs) < 2 ^ 62 ->
  0 <= kvm_translate addr ->
  kvm_translate addr + Z.of_nat (length bs) <= msize (gm (tstub t)) ->
  command (write_command addr bs) t =
  okay (with_stub t (with_gm (tstub t) (poken (gm (tstub t)) (kvm_translate addr) bs))).
Proof.
  intros Ha Hne Hn H0 H1. unfold write_command. rewrite command_M.
  unfold scan_addr_len_data. rewrite scan_addr_len_text;
    [|done|unfold is_u64; lia|by vm_compute]. cbn [mbind option_bind].
  assert (scan_char COLON (str ":" ++ mem2hex bs) = Some (mem2hex bs)) as -> by reflexivity.
  cbn [mbind option_bind]. rewrite scan_string_mem2hex by done. cbn [mbind option_bind].
  rewrite hex2mem_mem2hex by lia.
  by rewrite bind_OK, store_ok, bind_OK.
Qed.
End CommandTheorems.

(** C33. The debugger's memory commands reach the guest byte the address
    translates to: ['M'] stores exactly the bytes of the packet and nothing
    else, and ['m'] answers with the bytes that are there; together they read
    back what was written. *)
Theorem memory_commands ncores kvm_translate sigval t addr bs :
  is_u64 addr -> bs <> [] -> (2 * length bs + 1 <= BUFMAX)%nat ->
  0 <= kvm_translate addr ->
  kvm_translate addr + Z.of_nat (length bs) <= msize (gm (tstub t)) ->
  let t' := with_stub t (with_gm (tstub t) (poken (gm (tstub t)) (kvm_translate addr) bs)) in
  gdb_command ncores kvm_translate sigval (write_command addr bs) t =
    OK (mkresult (Some (str "OK")) false t') /\
  gdb_command ncores kvm_translate sigval (read_command addr (Z.of_nat (length bs))) t' =
    OK (mkresult (Some (mem2hex bs)) false t') /\
  forall x, x < kvm_translate addr \/ kvm_translate addr + Z.of_nat (length bs) <= x ->
    peek (gm (tstub t')) x = peek (gm (tstub t)) x.
Proof.
  intros Ha Hne Hl H0 H1 t'. split; [|split].
  - rewrite write_command_serves; try done. unfold BUFMAX in Hl. lia.
  - rewrite read_command_serves; try done. cbn [t' with_stub tstub with_gm gm].
    by rewrite peekn_poken_same.
  - intros x Hx. by apply peek_poken_out.
Qed.

(** ** The register packets *)

(** Fields in ascending order, none beyond [limit]. *)
Fixpoint fields_from (off : Z) (l : list (Z * nat * Z)) (limit : Z) : Prop :=
  match l with
  | [] => off <= limit
  | (o, n, _) :: l => off <= o /\ fields_from (o + Z.of_nat n) l limit
  end.

Lemma fields_from_le l : forall off limit, fields_from off l limit -> off <= limit.
Proof.
  induction l as [|[[o n] v] l IH]; intros off limit H; cbn in H; [done|].
  destruct H as [? H]. apply IH in H. lia.
Qed.

Lemma store_fields_spec l : forall off m,
  0 <= off -> fields_from off l (msize m) ->
  exists m', store_fields l m = OK m' /\ msize m' = msize m /\
    (forall x, x < off -> peek m' x = peek m x) /\
    (forall o n v, (o, n, v) ∈ l -> load_le n m' o = OK (v mod 2 ^ (Z.of_nat n * 8))).
Proof.
  induction l as [|[[o n] v] l IH]; intros off m H0 H; cbn [fields_from] in H.
  - exists m. split; [done|]. split; [done|]. split; [done|]. intros o n v Hin. set_solver.
  - destruct H as [H1 H2]. pose proof (fields_from_le _ _ _ H2) as H3.
    unfold store_fields. cbn [foldl]. rewrite bind_OK, store_le_ok by lia.
    set (m1 := poken m o (le_split n v)).
    destruct (IH (o + Z.of_nat n) m1) as (m' & E & Hs & Hlow & Hf); [lia|done|].
    exists m'. split; [done|]. split; [done|]. split.
    + intros x Hx. rewrite Hlow by lia. unfold m1. apply peek_poken_out. lia.
    + intros o' n' v' [[= -> -> ->]|Hin]%elem_of_cons; [|by apply Hf].
      rewrite (load_le_ext n m' m1); [|done|intros x Hx; apply Hlow; lia].
      unfold m1. by rewrite load_le_poken_same by lia.
Qed.

(** Registers as KVM returns them. *)
Definition regs_ok (v : vregs) : Prop :=
  Forall is_u64 [rax v; rbx v; rcx v; rdx v; rsi v; rdi v; rbp v; rsp v;
                 r8 v; r9 v; r10 v; r11 v; rip v] /\
  is_u32 (rflags v) /\
  Forall (fun s => 0 <= s < 2 ^ 16) [cs v; ss v; ds v; es v; fs v; gs v].

(** [w] with the registers of [v] the stub's packets carry. *)
Definition transfer (v w : vregs) : vregs :=
  mkregs (rax v) (rbx v) (rcx v) (rdx v) (rsi v) (rdi v) (rbp v) (rsp v)
    (r8 v) (r9 v) (r10 v) (r11 v) (r12 w) (r13 w) (r14 w) (r15 w) (rip v) (rflags v)
    (cs v) (ss v) (ds v) (es v) (fs v) (gs v).

Lemma read_registers_ok v regs :
  msize regs = Z.of_nat BUFMAX ->
  exists m', uhyve_gdb_read_registers v regs (Z.of_nat BUFMAX) = OK (Some (m', sizeof_gdb_regs)) /\
    msize m' = msize regs /\
    (forall o n x, (o, n, x) ∈ gdb_fields v -> load_le n m' o = OK (x mod 2 ^ (Z.of_nat n * 8))).
Proof.
  intros Hm. unfold uhyve_gdb_read_registers.
  change (Z.of_nat BUFMAX <? sizeof_gdb_regs) with false. cbv iota.
  destruct (store_fields_spec (gdb_fields v) 0 regs) as (m' & -> & Hs & _ & Hf); [lia| |].
  - unfold gdb_fields, BUFMAX in *. cbn [fields_from]. lia.
  - rewrite bind_OK. eauto.
Qed.

(** Loads of the fields of [v] give the registers of [v]. *)
Lemma write_registers_ok v w regs :
  regs_ok v ->
  (forall o n x, (o, n, x) ∈ gdb_fields v -> load_le n regs o = OK (x mod 2 ^ (Z.of_nat n * 8))) ->
  uhyve_gdb_write_registers w regs sizeof_gdb_regs = OK (Some (transfer v w)).
Proof.
  intros (H64 & H32 & H16) Hf. unfold uhyve_gdb_write_registers.
  change (sizeof_gdb_regs <? sizeof_gdb_regs) with false. cbv iota zeta.
  assert (forall o n x, (o, n, x) ∈ gdb_fields v -> 0 <= x < 2 ^ (Z.of_nat n * 8) ->
    load_le n regs o = OK x) as Hl.
  { intros o n x Hin Hx. rewrite (Hf o n x Hin). f_equal. by apply Z.mod_small. }
  unfold gdb_fields in Hl. repeat (apply Forall_cons in H64 as [? H64]).
  repeat (apply Forall_cons in H16 as [? H16]).
  repeat match goal with
  | |- context [load_le ?n regs ?o] =>
      let E := fresh in
      eassert (load_le n regs o = OK _) as E by
        (eapply Hl; [solve [repeat constructor]|unfold is_u64, is_u32 in *; cbn; lia]);
      rewrite E, bind_OK; clear E
  end.
  unfold transfer, u16. by rewrite !Z.mod_small by lia.
Qed.

(** A copied range reads like its source. *)
Lemma load_le_copied n m m' o k :
  0 <= o -> o + Z.of_nat n <= Z.of_nat k -> Z.of_nat k <= msize m -> Z.of_nat k <= msize m' ->
  load_le n (poken m 0 (peekn m' 0 k)) o = load_le n m' o.
Proof.
  intros H0 H1 H2 H3. rewrite !load_le_ok by (cbn [msize poken]; lia). do 2 f_equal.
  apply peekn_ext. intros x Hx. rewrite peek_poken, length_peekn.
  rewrite (proj2 (Z.leb_le _ _)), (proj2 (Z.ltb_lt _ _)) by lia. cbn [andb].
  rewrite lookup_peekn by lia. cbn [default id]. f_equal. lia.
Qed.

(** The registers the debugger reads with ['g'] and writes back with ['G'],
    to this or another vCPU, arrive unchanged, except r12 to r15, which neither
    packet carries: those keep the values of the vCPU written to. *)
Theorem register_packets ncores kvm_translate sigval t :
  regs_ok (tregs t) -> msize (registers t) = Z.of_nat BUFMAX ->
  exists bs t1, length bs = 248%nat /\ tregs t1 = tregs t /\
    gdb_command ncores kvm_translate sigval (str "g") t = OK (mkresult (Some (mem2hex bs)) false t1) /\
    forall t2, msize (registers t2) = Z.of_nat BUFMAX ->
      exists t3,
        gdb_command ncores kvm_translate sigval (str "G" ++ mem2hex bs) t2 =
          OK (mkresult (Some (str "OK")) false t3) /\
        tregs t3 = transfer (tregs t) (tregs t2).
Proof.
  intros Hok Hm. destruct (read_registers_ok (tregs t) (registers t) Hm) as (m' & E & Hs & Hf).
  exists (peekn m' 0 248), (mktarget (tstub t) (tregs t) m' (thread_counter t)).
  split; [apply length_peekn|]. split; [done|]. split.
  - unfold gdb_command. cbn [str String.list_byte_of_string].
    change (byte.unsigned "g"%byte) with 103. cbn [Z.eqb Pos.eqb]. rewrite E, bind_OK.
    change sizeof_gdb_regs with (Z.of_nat 248). rewrite memory_reply_ok;
      [done|unfold BUFMAX; lia|done|rewrite Hs, Hm; unfold BUFMAX; lia].
  - intros t2 Hm2. destruct (read_registers_ok (tregs t2) (registers t2) Hm2) as (m2 & E2 & Hs2 & _).
    exists (mktarget (tstub t2) (transfer (tregs t) (tregs t2)) (poken m2 0 (peekn m' 0 248))
              (thread_counter t2)). split; [|done].
    assert (forall s, gdb_command ncores kvm_translate sigval (str "G" ++ s) t2 =
      (r ← uhyve_gdb_read_registers (tregs t2) (registers t2) (Z.of_nat BUFMAX);
       match r with
       | None => error_msg t2
       | Some (regs, len) =>
           bs ← hex2mem (s ++ [NUL]) len;
           regs ← store regs 0 bs;
           v ← uhyve_gdb_write_registers (tregs t2) regs len;
           match v with
           | None => error_msg (mktarget (tstub t2) (tregs t2) regs (thread_counter t2))
           | Some v => okay (mktarget (tstub t2) v regs (thread_counter t2))
           end
       end)) as -> by reflexivity.
    rewrite E2, bind_OK. cbv beta iota.
    assert (hex2mem (mem2hex (peekn m' 0 248) ++ [NUL]) sizeof_gdb_regs = OK (peekn m' 0 248)) as ->.
    { change sizeof_gdb_regs with (Z.of_nat 248). rewrite <- (length_peekn m' 0 248) at 2. apply hex2mem_mem2hex. by rewrite length_peekn. }
    rewrite bind_OK.
    rewrite store_ok by (rewrite ?length_peekn, ?Hs2, ?Hm2; unfold BUFMAX; lia). rewrite bind_OK.
    rewrite (write_registers_ok (tregs t)); [done|done|].
    intros o n x Hin. rewrite <- (Hf o n x Hin).
    apply load_le_copied; [| |rewrite Hs2, Hm2; unfold BUFMAX; lia|rewrite Hs, Hm; unfold BUFMAX; lia];
      unfold gdb_fields in Hin; rewrite !elem_of_cons in Hin;
      repeat (destruct Hin as [Hin|Hin]; [injection Hin as -> -> _; lia|]); by apply elem_of_nil in Hin.
Qed.

(** ** A session *)

Section Session.
Context (ncores : Z) (kvm_translate : Z -> Z) (sigval : Z).

(** A packet the framing layer returns as it was sent. *)
Definition packet_ok (p : list byte) : Prop :=
  clean p /\ (length p < BUFMAX - 1)%nat /\ no_sequence p.

(** The commands alone: what is answered, and the state they leave. *)
Inductive serves : target -> list (list byte) -> list (option (list byte)) -> target -> Prop :=
| serves_nil t : serves t [] [] t
| serves_cons t p ps r rs t1 t2 :
    packet_ok p -> gdb_command ncores kvm_translate sigval p t = OK (mkresult r false t1) ->
    serves t1 ps rs t2 -> serves t (p :: ps) (r :: rs) t2.

(** The two directions of the line for an exchange. *)
Definition acked (r : option (list byte)) : list byte :=
  match r with Some _ => [byte.of_Z PLUS] | None => [] end.
Definition answered (r : option (list byte)) : list byte :=
  match r with Some obuf => frame (c_str obuf) | None => [] end.

Definition to_stub (ps : list (list byte)) (rs : list (option (list byte))) : list byte :=
  concat (zip_with (fun p r => frame p ++ acked r) ps rs).
Definition from_stub (rs : list (option (list byte))) : list byte :=
  concat ((fun r => byte.of_Z PLUS :: answered r) <$> rs).

Lemma send_reply r rest out buf :
  match r with
  | Some obuf => send_packet (mkconn (acked r ++ rest) out buf) obuf
  | None => OK (mkconn (acked r ++ rest) out buf)
  end = OK (mkconn rest (out ++ answered r) buf).
Proof.
  destruct r as [obuf|]; cbn [acked answered app]; [|by rewrite app_nil_r].
  unfold send_packet. rewrite while_S, send_packet_body_ack by done.
  change (byte.unsigned (byte.of_Z PLUS) =? PLUS) with true. cbv iota. by rewrite bind_OK.
Qed.

Lemma gdb_turn_serves p t r b t1 rest out buf :
  packet_ok p -> no_sequence buf -> length buf = BUFMAX ->
  gdb_command ncores kvm_translate sigval p t = OK (mkresult r b t1) ->
  exists buf', no_sequence buf' /\ length buf' = BUFMAX /\
    gdb_turn ncores kvm_translate sigval (mkconn (frame p ++ acked r ++ rest) out buf, t) =
    OK (if b then inr (mkconn rest (out ++ byte.of_Z PLUS :: answered r) buf', t1)
        else inl (mkconn rest (out ++ byte.of_Z PLUS :: answered r) buf', t1)).
Proof.
  intros (Hc & Hl & Hs) Hb Hlb Hcmd. unfold gdb_turn.
  destruct (recv_frame p (acked r ++ rest) out buf Hc Hl Hs Hb Hlb) as (buf' & Hlb' & Hb' & ->).
  rewrite bind_OK. cbv beta iota. rewrite Hcmd, bind_OK. cbn [reply resume after].
  rewrite send_reply, bind_OK. exists buf'. rewrite <- app_assoc. split; [done|]. split; [done|].
  by destruct b.
Qed.

Lemma gdb_loop_serves ps rs : forall t t1 p t2 b rest out buf fuel,
  serves t ps rs t1 -> packet_ok p ->
  gdb_command ncores kvm_translate sigval p t1 = OK (mkresult b true t2) ->
  no_sequence buf -> length buf = BUFMAX -> (length ps < fuel)%nat ->
  exists buf', no_sequence buf' /\ length buf' = BUFMAX /\
    while fuel (gdb_turn ncores kvm_translate sigval)
      (mkconn (to_stub ps rs ++ frame p ++ acked b ++ rest) out buf, t) =
    OK (mkconn rest (out ++ from_stub rs ++ byte.of_Z PLUS :: answered b) buf', t2).
Proof.
  revert rs. induction ps as [|q ps IH]; intros rs t t1 p t2 b rest out buf fuel Hs Hp Hcmd Hb Hlb Hf;
    (destruct fuel as [|fuel]; [cbn in Hf; lia|]); rewrite while_S; inversion Hs; subst.
  - destruct (gdb_turn_serves p t1 b true t2 rest out buf Hp Hb Hlb Hcmd) as (buf' & H1 & H2 & E).
    cbn [to_stub zip_with concat app from_stub fmap list_fmap]. rewrite E, bind_OK. by exists buf'.
  - match goal with H : packet_ok q, H2 : gdb_command _ _ _ q t = OK (mkresult ?r false ?u) |- _ =>
      destruct (gdb_turn_serves q t r false u (to_stub ps rs0 ++ frame p ++ acked b ++ rest) out buf
        H Hb Hlb H2) as (buf1 & Hb1 & Hlb1 & E) end.
    cbn [to_stub zip_with concat from_stub fmap list_fmap]. fold (to_stub ps rs0) (from_stub rs0).
    rewrite <- !app_assoc, E, bind_OK.
    edestruct (IH rs0) with (fuel := fuel) as (buf' & Hb2 & Hlb2 & E');
      [eassumption|exact Hp|exact Hcmd|exact Hb1|exact Hlb1|cbn in Hf; lia|].
    exists buf'. rewrite E'. split; [done|]. split; [done|]. by rewrite <- !app_assoc.
Qed.
End Session.

(** An exception over a line without corruption does exactly what the commands
    do one by one: after the stop reply every packet is acknowledged and
    answered in order, the first resuming command ends the exception, the
    target is the one the commands computed, and the rest of the input waits
    for the next exception. *)
Lemma exception_serves ncores kvm_translate sigval t ps rs t1 p b t2 rest out buf fuel :
  serves ncores kvm_translate sigval t ps rs t1 -> packet_ok p ->
  gdb_command ncores kvm_translate sigval p t1 = OK (mkresult b true t2) ->
  no_sequence buf -> length buf = BUFMAX -> 0 <= sigval < 256 -> (length ps < fuel)%nat ->
  exists buf', no_sequence buf' /\ length buf' = BUFMAX /\
    gdb_handle_exception ncores kvm_translate fuel sigval
      (mkconn (byte.of_Z PLUS :: to_stub ps rs ++ frame p ++ acked b ++ rest) out buf) t =
    OK (mkconn rest (out ++ frame (str "S" ++ hex_byte sigval) ++ from_stub rs
                     ++ byte.of_Z PLUS :: answered b) buf', t2).
Proof.
  intros Hs Hp Hcmd Hb Hlb Hsig Hf. unfold gdb_handle_exception, send_response, send_packet.
  rewrite while_S, send_packet_body_ack by done.
  change (byte.unsigned (byte.of_Z PLUS) =? PLUS) with true. cbv iota. rewrite !bind_OK.
  destruct (gdb_loop_serves ncores kvm_translate sigval ps rs t t1 p t2 b rest
    (out ++ frame (c_str (byte.of_Z 83 :: hex_byte sigval))) buf fuel Hs Hp Hcmd Hb Hlb Hf)
    as (buf' & H1 & H2 & E). exists buf'. split; [done|]. split; [done|]. rewrite E, <- app_assoc.
  assert (c_str (byte.of_Z 83 :: hex_byte sigval) = str "S" ++ hex_byte sigval) as ->; [|done].
  apply c_str_clean. pose proof (mem2hex_nul [byte.of_Z sigval]) as Hn. cbn [mem2hex] in Hn.
  rewrite byte_unsigned_of_small, app_nil_r in Hn by done. by apply not_elem_of_cons.
Qed.

(** ** Witnesses and corner cases *)

Definition example_regs : vregs :=
  mkregs 1 2 3 4 5 6 7 8 9 10 11 12 13 14 15 16 0x1000 2 8 16 16 16 16 16.
Definition example_target : target :=
  mktarget example_stub example_regs (fresh_mem 4096) 0.

Lemma memory_commands_witness :
  exists t', gdb_command 1 (fun a => a) 5 (write_command 0x200 (str "hi")) example_target =
    OK (mkresult (Some (str "OK")) false t') /\
    gdb_command 1 (fun a => a) 5 (read_command 0x200 2) t' =
    OK (mkresult (Some (str "6869")) false t').
Proof.
  destruct (memory_commands 1 (fun a => a) 5 example_target 0x200 (str "hi")) as (E1 & E2 & _).
  - unfold is_u64. lia.
  - discriminate.
  - unfold BUFMAX. cbn. lia.
  - lia.
  - vm_compute. discriminate.
  - eexists. split; [exact E1|exact E2].
Defined.

Lemma register_packets_witness :
  exists bs t1 t3, length bs = 248%nat /\
    gdb_command 1 (fun a => a) 5 (str "g") example_target = OK (mkresult (Some (mem2hex bs)) false t1) /\
    gdb_command 1 (fun a => a) 5 (str "G" ++ mem2hex bs)
      (mktarget example_stub (mkregs 0 0 0 0 0 0 0 0 0 0 0 0 0 0 0 0 0 0 0 0 0 0 0 0)
         (fresh_mem 4096) 0) = OK (mkresult (Some (str "OK")) false t3) /\
    rax (tregs t3) = 1 /\ r12 (tregs t3) = 0.
Proof.
  destruct (register_packets 1 (fun a => a) 5 example_target) as (bs & t1 & Hl & _ & Eg & H).
  - split_and!; [|unfold is_u32; cbn; lia|];
      repeat (apply Forall_cons_2; [unfold is_u64; cbn; lia|]); apply Forall_nil_2.
  - reflexivity.
  - destruct (H (mktarget example_stub (mkregs 0 0 0 0 0 0 0 0 0 0 0 0 0 0 0 0 0 0 0 0 0 0 0 0)
         (fresh_mem 4096) 0)) as (t3 & EG & Ht); [reflexivity|].
    exists bs, t1, t3. split; [exact Hl|]. split; [exact Eg|]. split; [exact EG|].
    rewrite Ht. split; reflexivity.
Defined.

Lemma clean_forallb (p : list byte) :
  forallb (fun b => (byte.unsigned b <? 128) && negb (byte.unsigned b =? DOLLAR)
                    && negb (byte.unsigned b =? HASH) && negb (byte.unsigned b =? 0)) p = true ->
  clean p.
Proof.
  intros H. unfold clean. rewrite forallb_forall in H. rewrite Forall_forall. intros b Hb.
  apply list_elem_of_In, H in Hb. rewrite !andb_true_iff, !negb_true_iff in Hb.
  destruct Hb as [[[H1%Z.ltb_lt H2%Z.eqb_neq] H3%Z.eqb_neq] H4%Z.eqb_neq].
  split_and!; try done. by intros ->.
Qed.

(** A read of 2048 bytes or more overruns the reply buffer. *)
Lemma long_read_overruns ncores tr sigval t :
  gdb_command ncores tr sigval (str "m0,800") t = Undefined.
Proof. reflexivity. Qed.

(** With several cores every query but the two about threads stays without an
    answer, which the debugger waits for. *)
Lemma query_unanswered t :
  gdb_command 2 (fun a => a) 5 (str "qSupported") t = OK (mkresult None false t).
Proof. reflexivity. Qed.

(** A hardware breakpoint is armed at the translated, physical address. *)
Lemma breakpoint_at_physical_address :
  exists t', gdb_command 1 (fun a => a - 0x1000) 5 (str "Z1,2000,1") example_target =
    OK (mkresult (Some (str "OK")) false t') /\
    debugreg (debug (tstub t')) !! 0%nat = Some 0x1000.
Proof.
  exists (match gdb_command 1 (fun a => a - 0x1000) 5 (str "Z1,2000,1") example_target with
          | OK r => after r | _ => example_target end).
  split; vm_compute; reflexivity.
Qed.
