(* ===== verification/Proxy.v ===== *)
(** * The system call server

    [handle_syscalls] of src/main.c: the loop that reads system call requests
    of a HermitCore kernel from a socket, carries them out and answers.  The
    socket and the files below are parameters: a [Socket] may deliver and
    accept any number of bytes per call. *)

From S2P Require Import Prelude GuestMem Paging MemRegions Hypercall.

(** ** The socket *)

(** [read] and [write] on the socket: the return value ([-1] for an error), the
    bytes read. *)
Record Socket (S : Type) := {
  sock_read : S -> Z -> Z * list byte * S;
  sock_write : S -> list byte -> Z * S
}.
Arguments sock_read {S}.
Arguments sock_write {S}.

Definition le_bytes (n : nat) (v : Z) : list byte := le_split n v.
Definition of_bytes (bs : list byte) : Z := le_combine bs.

(** The C string at the start of a buffer; without a NUL it is read past. *)
Fixpoint string_of (buf : list byte) : outcome (list byte) :=
  match buf with
  | [] => Undefined
  | b :: buf => if decide (b = NUL) then OK [] else s ← string_of buf; OK (b :: s)
  end.

Definition HERMIT_exit : Z := 0.
Definition HERMIT_write : Z := 1.
Definition HERMIT_open : Z := 2.
Definition HERMIT_close : Z := 3.
Definition HERMIT_read : Z := 4.
Definition HERMIT_lseek : Z := 5.

Section Proxy.
Context {S W : Type} (sock : Socket S) (host : HostOS W).
Context (malloc : Z -> bool) (fuel : nat).

(** A step of the server either goes on or jumps to [out]. *)
Definition step (A : Type) := outcome (option A * S).

(** [while (j < n) { sret = read(s, p + j, n - j); if (sret < 0) goto out; j += sret; }] *)
Definition read_full (n : Z) (s : S) : step (list byte) :=
  while fuel (fun '(got, s) =>
    let j := Z.of_nat (length got) in
    if j <? n then
      let '(sret, data, s) := sock_read sock s (n - j) in
      if sret <? 0 then OK (inr (None, s)) else OK (inl (got ++ data, s))
    else OK (inr (Some got, s))) ([], s).

Definition write_full (data : list byte) (s : S) : step unit :=
  while fuel (fun '(j, s) =>
    if j <? Z.of_nat (length data) then
      let '(sret, s) := sock_write sock s (drop (Z.to_nat j) data) in
      if sret <? 0 then OK (inr (None, s)) else OK (inl (j + sret, s))
    else OK (inr (Some tt, s))) (0, s).

(** The same loop on a host file ([fd <= 2]). *)
Definition write_out (fd : Z) (data : list byte) (w : W) : outcome (option unit * W) :=
  while fuel (fun '(j, w) =>
    if j <? Z.of_nat (length data) then
      let '(sret, w) := os_write host w fd (drop (Z.to_nat j) data) in
      if sret <? 0 then OK (inr (None, w)) else OK (inl (j + sret, w))
    else OK (inr (Some tt, w))) (0, w).

(** What one request leads to: the next request, or the return value. *)
Definition turn := outcome (S * W + Z * S * W).

Definition out (s : S) (w : W) : turn := OK (inr (1, s, w)).
Definition next (s : S) (w : W) : turn := OK (inl (s, w)).

(** Sequencing of steps that may jump to [out]. *)
Definition then_ {A} (r : step A) (w : W) (k : A -> S -> turn) : turn :=
  '(a, s) ← r; match a with Some a => k a s | None => out s w end.

Definition handle_exit (s : S) (w : W) : turn :=
  then_ (read_full 4 s) w (fun arg s => Exited (s32 (of_bytes arg))).

Definition handle_write (s : S) (w : W) : turn :=
  then_ (read_full 4 s) w (fun fd s =>
  then_ (read_full 8 s) w (fun len s =>
    let fd := s32 (of_bytes fd) in
    let len := of_bytes len in
    if negb (malloc len) then OK (inr (1, s, w))
    else then_ (read_full len s) w (fun buff s =>
      if 2 <? fd then
        let '(sret, w) := os_write host w fd buff in
        then_ (write_full (le_bytes 8 sret) s) w (fun _ s => next s w)
      else
        '(r, w) ← write_out fd buff w;
        match r with Some _ => next s w | None => out s w end))).

Definition handle_open (s : S) (w : W) : turn :=
  then_ (read_full 8 s) w (fun len s =>
    let len := of_bytes len in
    if negb (malloc len) then out s w
    else
      then_ (read_full len s) w (fun fname s =>
      then_ (read_full 4 s) w (fun flags s =>
      then_ (read_full 4 s) w (fun mode s =>
        path ← string_of fname;
        let '(ret, w) := os_open host w path (s32 (of_bytes flags)) (s32 (of_bytes mode)) in
        then_ (write_full (le_bytes 4 ret) s) w (fun _ s => next s w))))).

Definition handle_close (s : S) (w : W) : turn :=
  then_ (read_full 4 s) w (fun fd s =>
    let fd := s32 (of_bytes fd) in
    let '(ret, w) := if 2 <? fd then os_close host w fd else (0, w) in
    then_ (write_full (le_bytes 4 ret) s) w (fun _ s => next s w)).

Definition handle_read (s : S) (w : W) : turn :=
  then_ (read_full 4 s) w (fun fd s =>
  then_ (read_full 8 s) w (fun len s =>
    let fd := s32 (of_bytes fd) in
    let len := of_bytes len in
    if negb (malloc len) then out s w
    else
      let '(sj, buff, w) := os_read host w fd len in
      then_ (write_full (le_bytes 8 sj) s) w (fun _ s =>
        if 0 <? sj then
          then_ (write_full (take (Z.to_nat sj) buff) s) w (fun _ s => next s w)
        else next s w))).

Definition handle_lseek (s : S) (w : W) : turn :=
  then_ (read_full 4 s) w (fun fd s =>
  then_ (read_full 8 s) w (fun offset s =>
  then_ (read_full 4 s) w (fun whence s =>
    let '(ret, w) := os_lseek host w (s32 (of_bytes fd)) (s64 (of_bytes offset))
                       (s32 (of_bytes whence)) in
    then_ (write_full (le_bytes 8 ret) s) w (fun _ s => next s w)))).

Definition handle_syscall : S * W -> turn := fun '(s, w) =>
  then_ (read_full 4 s) w (fun sysnr s =>
    let sysnr := s32 (of_bytes sysnr) in
    if sysnr =? HERMIT_exit then handle_exit s w
    else if sysnr =? HERMIT_write then handle_write s w
    else if sysnr =? HERMIT_open then handle_open s w
    else if sysnr =? HERMIT_close then handle_close s w
    else if sysnr =? HERMIT_read then handle_read s w
    else if sysnr =? HERMIT_lseek then handle_lseek s w
    else Exited 1).

Definition handle_syscalls (s : S) (w : W) : outcome (Z * S * W) :=
  while fuel handle_syscall (s, w).
End Proxy.

(** ** The protocol *)

Inductive request :=
| ReqWrite (fd : Z) (data : list byte)
| ReqOpen (path : list byte) (flags mode : Z)
| ReqClose (fd : Z)
| ReqRead (fd len : Z)
| ReqLseek (fd offset whence : Z).

(** A request as the kernel sends it. *)
Definition encode (r : request) : list byte :=
  match r with
  | ReqWrite fd data => le_bytes 4 HERMIT_write ++ le_bytes 4 fd ++
      le_bytes 8 (Z.of_nat (length data)) ++ data
  | ReqOpen path flags mode => le_bytes 4 HERMIT_open ++
      le_bytes 8 (Z.of_nat (length path) + 1) ++ (path ++ [NUL]) ++ le_bytes 4 flags ++ le_bytes 4 mode
  | ReqClose fd => le_bytes 4 HERMIT_close ++ le_bytes 4 fd
  | ReqRead fd len => le_bytes 4 HERMIT_read ++ le_bytes 4 fd ++ le_bytes 8 len
  | ReqLseek fd offset whence => le_bytes 4 HERMIT_lseek ++ le_bytes 4 fd ++
      le_bytes 8 offset ++ le_bytes 4 whence
  end.

(** What serving a request means: the reply and the effect on the host.  Output
    to the standard streams has no reply. *)
Definition serve {W} (host : HostOS W) (sink : W -> Z -> list byte -> W) (w : W) (r : request)
  : list byte * W :=
  match r with
  | ReqWrite fd data =>
      if 2 <? fd then let '(n, w) := os_write host w fd data in (le_bytes 8 n, w)
      else ([], sink w fd data)
  | ReqOpen path flags mode => let '(fd, w) := os_open host w path flags mode in (le_bytes 4 fd, w)
  | ReqClose fd => let '(n, w) := if 2 <? fd then os_close host w fd else (0, w) in (le_bytes 4 n, w)
  | ReqRead fd len =>
      let '(n, data, w) := os_read host w fd len in
      (le_bytes 8 n ++ (if 0 <? n then take (Z.to_nat n) data else []), w)
  | ReqLseek fd offset whence =>
      let '(n, w) := os_lseek host w fd offset whence in (le_bytes 8 n, w)
  end.

Fixpoint serve_all {W} (host : HostOS W) sink (w : W) (rs : list request) : list byte * W :=
  match rs with
  | [] => ([], w)
  | r :: rs =>
      let '(reply, w) := serve host sink w r in
      let '(replies, w) := serve_all host sink w rs in (reply ++ replies, w)
  end.

Definition request_ok (r : request) : Prop :=
  let int z := - 2 ^ 31 <= z < 2 ^ 31 in
  match r with
  | ReqWrite fd data => int fd /\ Z.of_nat (length data) < 2 ^ 64
  | ReqOpen path flags mode => (NUL ∉ path) /\ int flags /\ int mode /\ Z.of_nat (length path) + 1 < 2 ^ 64
  | ReqClose fd => int fd
  | ReqRead fd len => int fd /\ 0 <= len < 2 ^ 64
  | ReqLseek fd offset whence => int fd /\ int whence /\ - 2 ^ 63 <= offset < 2 ^ 63
  end.

(** ** Correctness of the server *)

(** A connection that delivers [pending] in pieces of any size, accepts what
    the server sends in pieces of any size, and fails once it is used up. *)
Record connection {S} (sock : Socket S) (R : S -> list byte -> list byte -> Prop) := {
  read_delivers : forall s pending sent n, R s pending sent -> 0 < n -> pending <> [] ->
    exists data rest s', sock_read sock s n = (Z.of_nat (length data), data, s') /\
      data <> [] /\ Z.of_nat (length data) <= n /\ pending = data ++ rest /\ R s' rest sent;
  read_ends : forall s sent n, R s [] sent -> 0 < n ->
    exists k data s', sock_read sock s n = (k, data, s') /\ k < 0 /\ R s' [] sent;
  write_sends : forall s pending sent data, R s pending sent -> data <> [] ->
    exists k s', sock_write sock s data = (Z.of_nat k, s') /\
      (0 < k <= length data)%nat /\ R s' pending (sent ++ take k data)
}.

(** Host files: the standard streams take at least one byte per call, and a
    read returns the number of bytes it stored, or an error. *)
Record serving {W} (host : HostOS W) (sink : W -> Z -> list byte -> W) := {
  streams_accept : accepting host sink;
  streams_progress : forall w fd data, data <> [] -> 0 < (os_write host w fd data).1;
  reads_bounded : forall w fd n, 0 <= n ->
    (os_read host w fd n).1.1 <= n /\
    (0 < (os_read host w fd n).1.1 ->
     (os_read host w fd n).1.1 = Z.of_nat (length (os_read host w fd n).1.2))
}.

(** The longest transfer of a request. *)
Definition request_size (r : request) : nat :=
  match r with ReqRead _ len => 8 + Z.to_nat len | _ => length (encode r) end.

Definition allocated (malloc : Z -> bool) (r : request) : Prop :=
  match r with
  | ReqWrite _ data => malloc (Z.of_nat (length data)) = true
  | ReqOpen path _ _ => malloc (Z.of_nat (length path) + 1) = true
  | ReqRead _ len => malloc len = true
  | _ => True
  end.

Lemma of_bytes_le n v : of_bytes (le_bytes n v) = v mod 2 ^ (Z.of_nat n * 8).
Proof. apply le_combine_split. Qed.

Lemma s32_le_bytes v : - 2 ^ 31 <= v < 2 ^ 31 -> s32 (of_bytes (le_bytes 4 v)) = v.
Proof. intros. rewrite of_bytes_le. unfold s32. rewrite signed_mod by lia. by apply signed_small. Qed.

Lemma s64_le_bytes v : - 2 ^ 63 <= v < 2 ^ 63 -> s64 (of_bytes (le_bytes 8 v)) = v.
Proof. intros. rewrite of_bytes_le. unfold s64. rewrite signed_mod by lia. by apply signed_small. Qed.

Lemma u64_le_bytes v : 0 <= v < 2 ^ 64 -> of_bytes (le_bytes 8 v) = v.
Proof. intros. rewrite of_bytes_le. by apply Z.mod_small. Qed.

Lemma length_le_bytes n v : length (le_bytes n v) = n.
Proof. apply length_le_split. Qed.

Lemma string_of_path path : NUL ∉ path -> string_of (path ++ [NUL]) = OK path.
Proof.
  induction path as [|b path IH]; intros Hn; cbn [string_of app].
  - by rewrite decide_True.
  - rewrite decide_False by set_solver. rewrite IH by set_solver. done.
Qed.

Section Session.
Context {S W : Type} (sock : Socket S) (R : S -> list byte -> list byte -> Prop).
Context (Hsock : connection sock R).
Context (host : HostOS W) (sink : W -> Z -> list byte -> W) (Hhost : serving host sink).
Context (malloc : Z -> bool) (fuel : nat).

Lemma read_full_ok s d rest sent :
  R s (d ++ rest) sent -> (length d < fuel)%nat ->
  exists s', read_full sock fuel (Z.of_nat (length d)) s = OK (Some d, s') /\ R s' rest sent.
Proof.
  intros HR Hf. unfold read_full.
  destruct (while_total
    (fun '(got, s) =>
      let j := Z.of_nat (length got) in
      if j <? Z.of_nat (length d) then
        let '(sret, data, s) := sock_read sock s (Z.of_nat (length d) - j) in
        if sret <? 0 then OK (inr (None, s)) else OK (inl (got ++ data, s))
      else OK (inr (Some got, s)))
    (fun '(got, s) => exists d2, d = got ++ d2 /\ R s (d2 ++ rest) sent)
    (fun r => r.1 = Some d /\ R r.2 rest sent)
    (fun '(got, _) => length d - length got)%nat) with (fuel := fuel) (s := (@nil byte, s))
    as ([r s'] & E & H1 & H2).
  - intros [got s1] (d2 & Hd & HR1). cbn zeta.
    assert (length d = length got + length d2)%nat as -> by (by rewrite Hd, length_app).
    destruct (Z.ltb_spec (Z.of_nat (length got)) (Z.of_nat (length got + length d2))).
    + destruct (read_delivers sock R Hsock s1 (d2 ++ rest) sent
        (Z.of_nat (length got + length d2) - Z.of_nat (length got)) HR1)
        as (data & rest' & s2 & -> & Hne & Hle & Hp & HR2); [lia|destruct d2; [cbn in *; lia|done]|].
      destruct (Z.ltb_spec (Z.of_nat (length data)) 0); [lia|].
      assert (0 < length data)%nat by (destruct data; [done|cbn; lia]).
      eexists. split; [reflexivity|]. cbn beta iota. rewrite length_app. split; [|lia].
      assert (d2 = data ++ drop (length data) d2) as E2.
      { rewrite <- (take_drop (length data) d2) at 1. f_equal.
        apply (f_equal (take (length data))) in Hp. rewrite take_app_le in Hp by lia.
        by rewrite take_app_length in Hp. }
      exists (drop (length data) d2). split.
      * rewrite <- app_assoc. by rewrite <- E2.
      * rewrite E2, <- app_assoc in Hp. apply app_inv_head in Hp. by rewrite Hp.
    + assert (d2 = []) as -> by (destruct d2; [done|cbn in *; lia]).
      eexists. split; [reflexivity|]. cbn. rewrite app_nil_r in Hd. by rewrite Hd.
  - exists d. done.
  - cbn. lia.
  - exists s'. cbn in *. subst r. done.
Qed.

Lemma read_full_fails s n sent :
  R s [] sent -> 0 < n -> (0 < fuel)%nat ->
  exists s', read_full sock fuel n s = OK (None, s') /\ R s' [] sent.
Proof.
  intros HR Hn Hf. unfold read_full. destruct fuel as [|f]; [lia|]. rewrite while_S.
  cbn [length]. destruct (Z.ltb_spec (Z.of_nat 0) n); [|lia].
  destruct (read_ends sock R Hsock s sent (n - Z.of_nat 0) HR) as (k & data & s' & -> & Hk & HR'); [lia|].
  destruct (Z.ltb_spec k 0); [|lia]. exists s'. done.
Qed.

Lemma write_full_ok s data pending sent :
  R s pending sent -> (length data < fuel)%nat ->
  exists s', write_full sock fuel data s = OK (Some tt, s') /\ R s' pending (sent ++ data).
Proof.
  intros HR Hf. unfold write_full.
  destruct (while_total
    (fun '(j, s) =>
      if j <? Z.of_nat (length data) then
        let '(sret, s) := sock_write sock s (drop (Z.to_nat j) data) in
        if sret <? 0 then OK (inr (None, s)) else OK (inl (j + sret, s))
      else OK (inr (Some tt, s)))
    (fun '(j, s) => 0 <= j <= Z.of_nat (length data) /\ R s pending (sent ++ take (Z.to_nat j) data))
    (fun r => r.1 = Some tt /\ R r.2 pending (sent ++ data))
    (fun '(j, _) => length data - Z.to_nat j)%nat) with (fuel := fuel) (s := (0, s))
    as ([r s'] & E & H1 & H2).
  - intros [j s1] [Hj HR1]. destruct (Z.ltb_spec j (Z.of_nat (length data))).
    + assert (length (drop (Z.to_nat j) data) = length data - Z.to_nat j)%nat as Hl
        by apply length_drop.
      destruct (write_sends sock R Hsock s1 pending _ (drop (Z.to_nat j) data) HR1)
        as (k & s2 & -> & Hk & HR2); [intros E; rewrite E in Hl; cbn in Hl; lia|].
      destruct (Z.ltb_spec (Z.of_nat k) 0); [lia|].
      eexists. split; [reflexivity|]. split; [split; [lia|]|lia].
      rewrite <- app_assoc, take_take_drop in HR2.
      by replace (Z.to_nat (j + Z.of_nat k)) with (Z.to_nat j + k)%nat by lia.
    + eexists. split; [reflexivity|]. cbn. split; [done|]. by rewrite take_ge in HR1 by lia.
  - split; [lia|]. cbn. by rewrite app_nil_r.
  - cbn. lia.
  - exists s'. cbn in *. subst r. done.
Qed.

Lemma write_out_ok fd data w :
  (length data < fuel)%nat -> write_out host fuel fd data w = OK (Some tt, sink w fd data).
Proof.
  intros Hf. unfold write_out.
  destruct (while_total
    (fun '(j, w) =>
      if j <? Z.of_nat (length data) then
        let '(sret, w) := os_write host w fd (drop (Z.to_nat j) data) in
        if sret <? 0 then OK (inr (None, w)) else OK (inl (j + sret, w))
      else OK (inr (Some tt, w)))
    (fun '(j, w') => 0 <= j <= Z.of_nat (length data) /\ w' = sink w fd (take (Z.to_nat j) data))
    (fun r => r = (Some tt, sink w fd data))
    (fun '(j, _) => length data - Z.to_nat j)%nat) with (fuel := fuel) (s := (0, w))
    as (r & E & H1).
  - intros [j w1] [Hj ->]. destruct (Z.ltb_spec j (Z.of_nat (length data))).
    + assert (length (drop (Z.to_nat j) data) = length data - Z.to_nat j)%nat as Hl
        by apply length_drop.
      set (w1 := sink w fd (take (Z.to_nat j) data)).
      destruct (write_accepts host sink (streams_accept host sink Hhost) w1 fd (drop (Z.to_nat j) data))
        as (k & Hk & Hle).
      pose proof (streams_progress host sink Hhost w1 fd (drop (Z.to_nat j) data)) as Hp.
      rewrite Hk in Hp |- *. cbn [fst] in Hp.
      specialize (Hp ltac:(intros E; rewrite E in Hl; cbn in Hl; lia)).
      destruct (Z.ltb_spec (Z.of_nat k) 0); [lia|].
      eexists. split; [reflexivity|]. split; [split; [lia|]|lia].
      unfold w1. rewrite (sink_app host sink (streams_accept host sink Hhost)).
      rewrite take_take_drop. by replace (Z.to_nat (j + Z.of_nat k)) with (Z.to_nat j + k)%nat by lia.
    + eexists. split; [reflexivity|]. by rewrite take_ge by lia.
  - split; [lia|]. cbn. by rewrite (sink_nil host sink (streams_accept host sink Hhost)).
  - cbn. lia.
  - by rewrite E, H1.
Qed.
(** Requests and replies are sequences of such transfers. *)
Lemma read_then s d n rest sent w (k : list byte -> S -> turn (S := S) (W := W)) :
  R s (d ++ rest) sent -> n = Z.of_nat (length d) -> (length d < fuel)%nat ->
  exists s', then_ (read_full sock fuel n s) w k = k d s' /\ R s' rest sent.
Proof.
  intros HR -> Hf. destruct (read_full_ok s d rest sent HR Hf) as (s' & E & HR').
  exists s'. unfold then_. by rewrite E.
Qed.

Lemma write_next s data pending sent (w : W) :
  R s pending sent -> (length data < fuel)%nat ->
  exists s', then_ (write_full sock fuel data s) w (fun _ s => next s w) = OK (inl (s', w)) /\
    R s' pending (sent ++ data).
Proof.
  intros HR Hf. destruct (write_full_ok s data pending sent HR Hf) as (s' & E & HR').
  exists s'. unfold then_. by rewrite E.
Qed.
(** Reads the next field of a request. *)
Ltac field HR :=
  lazymatch goal with
  | |- context [then_ (read_full _ _ ?n ?s) ?w ?k] =>
      lazymatch type of HR with
      | R _ (?d ++ ?rest) ?sent =>
          let s1 := fresh "s" in let E := fresh "E" in let HR1 := fresh "HR" in
          destruct (read_then s d n rest sent w k HR) as (s1 & E & HR1);
          [rewrite ?length_le_bytes, ?length_app; cbn [length]; lia
          |rewrite ?length_le_bytes, ?length_app; cbn [length]; lia
          |rewrite E; clear E HR; rename HR1 into HR]
      end
  end.

Ltac op_is c :=
  match goal with |- context [?x =? c] => destruct (Z.eqb_spec x c); [|lia] end.

Lemma handle_syscall_ok r rest sent s w :
  R s (encode r ++ rest) sent -> request_ok r -> allocated malloc r ->
  (request_size r < fuel)%nat ->
  exists s', handle_syscall sock host malloc fuel (s, w) = OK (inl (s', (serve host sink w r).2)) /\
    R s' rest (sent ++ (serve host sink w r).1).
Proof.
  intros HR Hok Hm Hf. unfold handle_syscall. cbn beta.
  destruct r as [fd data|path flags mode|fd|fd len|fd offset whence];
    cbn [encode request_size request_ok allocated serve] in *;
    rewrite ?length_app, ?length_le_bytes in Hf; cbn [length] in Hf;
    rewrite <- ?app_assoc in HR; field HR;
    rewrite s32_le_bytes by (cbv; split; congruence);
    cbn -[then_ read_full write_full le_bytes].
  - unfold handle_write. destruct Hok as [Hfd Hl]. field HR. field HR.
    rewrite s32_le_bytes, u64_le_bytes, Hm by (done || lia). cbn [negb]. field HR.
    destruct (Z.ltb_spec 2 fd).
    + destruct (os_write host w fd data) as [n w'].
      apply write_next; [done|cbn [fst]; rewrite length_le_bytes; lia].
    + rewrite write_out_ok by lia. rewrite bind_OK. cbn [fst snd].
      exists s3. by rewrite app_nil_r.
  - unfold handle_open. destruct Hok as (Hp & Hfl & Hmo & Hl). field HR.
    rewrite u64_le_bytes, Hm by lia. cbn [negb]. rewrite app_assoc in HR. field HR. field HR. field HR.
    rewrite string_of_path, bind_OK, !s32_le_bytes by done.
    destruct (os_open host w path flags mode) as [n w'].
    apply write_next; [done|cbn [fst]; rewrite length_le_bytes; lia].
  - unfold handle_close. field HR. rewrite s32_le_bytes by done.
    destruct (if 2 <? fd then os_close host w fd else (0, w)) as [n w'].
    apply write_next; [done|cbn [fst]; rewrite length_le_bytes; lia].
  - unfold handle_read. destruct Hok as [Hfd Hl]. field HR. field HR.
    rewrite s32_le_bytes, u64_le_bytes, Hm by (done || lia). cbn [negb].
    pose proof (reads_bounded host sink Hhost w fd len ltac:(lia)) as [Hb Hn].
    destruct (os_read host w fd len) as [[n data] w']. cbn [fst snd] in *.
    destruct (write_full_ok s2 (le_bytes 8 n) rest sent HR) as (s3 & E & HR');
      [rewrite length_le_bytes; lia|]. unfold then_ at 1. rewrite E, bind_OK. clear E HR.
    destruct (Z.ltb_spec 0 n).
    + rewrite app_assoc. apply write_next; [done|]. rewrite length_take. lia.
    + exists s3. by rewrite app_nil_r.
  - unfold handle_lseek. destruct Hok as (Hfd & Hw & Ho). field HR. field HR. field HR.
    rewrite !s32_le_bytes, s64_le_bytes by done.
    destruct (os_lseek host w fd offset whence) as [n w'].
    apply write_next; [done|cbn [fst]; rewrite length_le_bytes; lia].
Qed.

Definition session_ok (rs : list request) : Prop :=
  Forall (fun r => request_ok r /\ allocated malloc r /\ (request_size r < fuel)%nat) rs.

Lemma serve_requests rs : forall n rest sent s w,
  R s (concat (encode <$> rs) ++ rest) sent -> session_ok rs -> (length rs <= n)%nat ->
  exists s', while n (handle_syscall sock host malloc fuel) (s, w) =
    while (n - length rs) (handle_syscall sock host malloc fuel) (s', (serve_all host sink w rs).2) /\
    R s' rest (sent ++ (serve_all host sink w rs).1).
Proof.
  induction rs as [|r rs IH]; intros n rest sent s w HR Hok Hn.
  - exists s. cbn [length]. rewrite Nat.sub_0_r. cbn. by rewrite app_nil_r.
  - apply Forall_cons in Hok as [(Hr & Hm & Hf) Hok]. cbn [length] in *.
    destruct n as [|n]; [lia|]. cbn [fmap list_fmap concat] in HR. rewrite <- app_assoc in HR.
    destruct (handle_syscall_ok r _ sent s w HR Hr Hm Hf) as (s1 & E & HR1).
    rewrite while_S, E, bind_OK. cbn [serve_all].
    destruct (serve host sink w r) as [reply w1]. cbn [fst snd] in *.
    destruct (IH n rest _ s1 w1 HR1 Hok ltac:(lia)) as (s2 & E2 & HR2).
    destruct (serve_all host sink w1 rs) as [replies w2]. cbn [fst snd] in *.
    exists s2. rewrite app_assoc. done.
Qed.

(** C28. The system call server carries out a session.  However the connection
    cuts the byte stream, a sequence of well-formed requests is decoded, carried
    out on the host in order and answered in order, with exactly the replies of
    the protocol; when the connection then fails the server returns 1 with
    nothing left over, and when an exit request follows the process ends with
    the status the kernel asked for. *)
Theorem proxy_session rs sent s w :
  session_ok rs -> (length rs < fuel)%nat -> (4 < fuel)%nat ->
  (R s (concat (encode <$> rs)) sent ->
   exists s', handle_syscalls sock host malloc fuel s w = OK (1, s', (serve_all host sink w rs).2) /\
     R s' [] (sent ++ (serve_all host sink w rs).1)) /\
  (forall code rest, - 2 ^ 31 <= code < 2 ^ 31 ->
   R s (concat (encode <$> rs) ++ le_bytes 4 HERMIT_exit ++ le_bytes 4 code ++ rest) sent ->
   handle_syscalls sock host malloc fuel s w = Exited code).
Proof.
  intros Hok Hn Hf. unfold handle_syscalls. split.
  - intros HR. rewrite <- (app_nil_r (concat _)) in HR.
    destruct (serve_requests rs fuel [] sent s w HR Hok ltac:(lia)) as (s1 & -> & HR1).
    destruct (fuel - length rs)%nat as [|n] eqn:En; [lia|]. rewrite while_S.
    destruct (read_full_fails s1 4 _ HR1 ltac:(lia) ltac:(lia)) as (s2 & E & HR2).
    unfold handle_syscall, then_. rewrite E, !bind_OK. by exists s2.
  - intros code rest Hc HR.
    destruct (serve_requests rs fuel _ sent s w HR Hok ltac:(lia)) as (s1 & -> & HR1).
    destruct (fuel - length rs)%nat as [|n] eqn:En; [lia|]. rewrite while_S.
    unfold handle_syscall. field HR1. rewrite s32_le_bytes by (cbv; split; congruence).
    cbn -[then_ read_full le_bytes]. unfold handle_exit. field HR1. by rewrite s32_le_bytes.
Qed.
End Session.

(** A socket whose peer has closed the connection delivers 0 bytes, which the
    loops take for progress: the server never returns. *)
Lemma proxy_spins_at_eof {S W} (sock : Socket S) (host : HostOS W) malloc fuel s w :
  (forall n, sock_read sock s n = (0, [], s)) ->
  handle_syscalls sock host malloc fuel s w = OutOfFuel.
Proof.
  intros Heof. unfold handle_syscalls. destruct fuel as [|fuel]; [done|]. rewrite while_S.
  assert (read_full sock (Datatypes.S fuel) 4 s = OutOfFuel) as E.
  { unfold read_full. apply (while_diverges _ (fun '(got, s') => got = [] /\ s' = s)); [|done].
    intros [got s'] [-> ->]. cbn. rewrite Heof.
    by exists ([], s). }
  unfold handle_syscall, then_. by rewrite E.
Qed.

(** *** A concrete session *)

(** A socket that moves at most three bytes per call and fails at the end. *)
Definition slow_socket : Socket (list byte * list byte) := {|
  sock_read '(pending, sent) n :=
    match pending with
    | [] => (-1, [], (pending, sent))
    | _ => let k := Nat.min 3 (Z.to_nat n) in
           (Z.of_nat (length (take k pending)), take k pending, (drop k pending, sent))
    end;
  sock_write '(pending, sent) data :=
    (Z.of_nat (Nat.min 3 (length data)), (pending, sent ++ take 3 data))
|}.

Lemma slow_connection : connection slow_socket (fun s pending sent => s = (pending, sent)).
Proof.
  split.
  - intros s pending sent n -> Hn Hp. destruct pending as [|b pending]; [done|].
    eexists _, _, _. split; [reflexivity|].
    split; [|split; [|split; [|reflexivity]]].
    + destruct (Z.to_nat n) as [|k] eqn:E; [lia|]. destruct k; done.
    + rewrite length_take. lia.
    + by rewrite take_drop.
  - intros s sent n -> Hn. eexists _, _, _. split; [reflexivity|]. split; [lia|done].
  - intros s pending sent data -> Hd. eexists _, _. split; [reflexivity|].
    destruct data as [|x data]; [done|]. cbn [length]. split; [lia|]. f_equal. f_equal.
    rewrite <- (take_ge (x :: data) (length (x :: data))) at 1 by done.
    rewrite take_take. cbn [length]. done.
Qed.

Lemma file_host_serving : serving file_host (fun w _ data => w ++ data).
Proof.
  split.
  - exact file_host_accepting.
  - intros w fd data Hd. cbn. destruct data; [done|cbn; lia].
  - intros w fd n Hn. cbn. rewrite length_take. lia.
Qed.

Definition example_requests : list request :=
  [ReqOpen (str "/tmp/x") 66 420; ReqWrite 3 (str "hello"); ReqLseek 3 0 0; ReqRead 3 4; ReqClose 3].

Lemma example_path_ok : NUL ∉ str "/tmp/x".
Proof. apply (bool_decide_unpack _). vm_compute. exact I. Qed.

Lemma proxy_session_witness :
  exists s', handle_syscalls slow_socket file_host (fun _ => true) 40
    (concat (encode <$> example_requests), []) [] = OK (1, s', str "o") /\
    s' = ([], le_bytes 4 3 ++ le_bytes 8 5 ++ le_bytes 8 0 ++ le_bytes 8 4 ++ str "hell" ++ le_bytes 4 0).
Proof.
  destruct (proxy_session slow_socket _ slow_connection file_host _ file_host_serving (fun _ => true) 40
    example_requests [] (concat (encode <$> example_requests), []) []) as [H _].
  - repeat apply Forall_cons_2; [..|apply Forall_nil_2]; (split; [|split; [reflexivity|vm_compute; lia]]);
      cbn; repeat split; try lia. exact example_path_ok.
  - cbn. lia.
  - lia.
  - destruct (H eq_refl) as (s' & E & Hs). exists s'. split; [exact E|exact Hs].
Defined.
