(* ===== verification/NetQueue.v ===== *)
(** * The network queues

    The two rings of packets that uhyve's network threads share with the guest
    (struct shared_queue of src/uhyve-net.h) and the threads themselves,
    [recieve_packets] and [transfer_packets] of src/uhyve.c.  The threads are
    modelled access by access, so that the guest may run between any two of
    them. *)

From S2P Require Import Prelude.

(** ** The shared queue (uhyve-net.h) *)

Definition SHAREDQUEUE_START : Z := 0x80000.
Definition UHYVE_NET_MTU : Z := 1500.
Definition UHYVE_QUEUE_SIZE : Z := 8.

(** The logical not of [0x3f] is 0, its complement is [-64]. *)
Definition SHAREDQUEUE_FLOOR (x : Z) : Z := Z.land x 0.
(** [x] is a size_t. *)
Definition SHAREDQUEUE_CEIL (x : Z) : Z := Z.land (u64 (x + 0x3f)) (Z.lnot 0x3f).

(** A 16-bit length and [MTU + 34] bytes; the counters are 64-byte aligned. *)
Definition sizeof_queue_inner : Z := 2 + (UHYVE_NET_MTU + 34).
Definition offset_read : Z := 0.
Definition offset_written : Z := 64.
Definition offset_inner : Z := offset_written + 8 + (64 - 8).
Definition sizeof_shared_queue : Z := offset_inner + UHYVE_QUEUE_SIZE * sizeof_queue_inner.

(** Where the two queues are in guest memory. *)
Definition rx_queue_addr : Z := SHAREDQUEUE_START.
Definition tx_queue_addr : Z := SHAREDQUEUE_START + SHAREDQUEUE_CEIL sizeof_shared_queue.

Record queue_inner := mkinner { len : Z; data : list byte }.
Record shared_queue := mkqueue { read : Z; written : Z; inner : list queue_inner }.

(** [atomic_uint64_inc] of one of the counters. *)
Definition inc_read (q : shared_queue) : shared_queue := mkqueue (u64 (read q + 1)) (written q) (inner q).
Definition inc_written (q : shared_queue) : shared_queue := mkqueue (read q) (u64 (written q + 1)) (inner q).

Definition slot (q : shared_queue) (idx : Z) : option queue_inner := inner q !! Z.to_nat idx.

(** Bytes stored at the start of a slot's array, and its length. *)
Definition set_data (q : shared_queue) (idx : Z) (bs : list byte) : shared_queue :=
  mkqueue (read q) (written q)
    (alter (fun sl => mkinner (len sl) (bs ++ drop (length bs) (data sl))) (Z.to_nat idx) (inner q)).
Definition set_len (q : shared_queue) (idx n : Z) : shared_queue :=
  mkqueue (read q) (written q) (alter (fun sl => mkinner (u16 n) (data sl)) (Z.to_nat idx) (inner q)).

(** ** The receiving thread *)

(** Where [recieve_packets] is: about to read one of the counters, about to
    read a packet, to store its length, to publish it, to signal the guest. *)
Inductive rx_pc :=
| RxReadCounter
| RxWrittenCounter (read_counter : Z)
| RxRead (written_counter : Z)
| RxLen (idx ret : Z)
| RxInc
| RxEvent.

Record rx_state := mkrx {
  rx_queue : shared_queue;
  rx_at : rx_pc;
  event_count : Z;                 (* the eventfd that raises UHYVE_IRQ_NET *)
  received : list (list byte);     (* history: packets read from the interface *)
  consumed : list (list byte)      (* history: packets the guest has taken *)
}.

(** One access of the thread; [ret] and [bs] are what [read(netfd, ...)] gives
    when it is called. *)
Definition recieve_packets (ret : Z) (bs : list byte) (s : rx_state) : rx_state :=
  let q := rx_queue s in
  let go q pc := mkrx q pc (event_count s) (received s) (consumed s) in
  match rx_at s with
  | RxReadCounter => go q (RxWrittenCounter (read q))
  | RxWrittenCounter read_counter =>
      let distance := u64 (written q - read_counter) in
      if distance <? UHYVE_QUEUE_SIZE then go q (RxRead (written q)) else go q RxReadCounter
  | RxRead written_counter =>
      let idx := written_counter mod UHYVE_QUEUE_SIZE in
      if 0 <? ret then
        mkrx (set_data q idx bs) (RxLen idx ret) (event_count s) (received s ++ [bs]) (consumed s)
      else go q RxReadCounter
  | RxLen idx ret => go (set_len q idx ret) RxInc
  | RxInc => go (inc_written q) RxEvent
  | RxEvent => mkrx q RxReadCounter (event_count s + 1) (received s) (consumed s)
  end.

(** The guest takes the oldest packet. *)
Definition guest_receive (s : rx_state) : option rx_state :=
  let q := rx_queue s in
  if read q =? written q then None
  else
    sl ← slot q (read q mod UHYVE_QUEUE_SIZE);
    Some (mkrx (inc_read q) (rx_at s) (event_count s) (received s)
            (consumed s ++ [take (Z.to_nat (len sl)) (data sl)])).

Inductive rx_step : rx_state -> rx_state -> Prop :=
| rx_thread s ret bs :
    ret <= UHYVE_NET_MTU -> (0 < ret -> ret = Z.of_nat (length bs)) ->
    rx_step s (recieve_packets ret bs s)
| rx_guest s s' : guest_receive s = Some s' -> rx_step s s'.

(** ** The transmitting thread *)

Inductive tx_pc :=
| TxWait
| TxReadCounter
| TxWrittenCounter (read_counter : Z)
| TxLen (idx : Z)
| TxSend (idx i len : Z)
| TxInc.

Record tx_state := mktx {
  tx_queue : shared_queue;
  tx_at : tx_pc;
  tx_sem : Z;
  wire : list byte;                (* bytes written to the interface *)
  pushed : list (list byte);       (* history: packets the guest has queued *)
  posted : Z                       (* history: how often it has written UHYVE_PORT_NETWRITE *)
}.

(** One access of the thread; [ret] is what [write(netfd, ...)] returns when it
    is called.  [sem_wait] blocks on 0. *)
Definition transfer_packets (ret : Z) (s : tx_state) : option tx_state :=
  let q := tx_queue s in
  let go q pc := Some (mktx q pc (tx_sem s) (wire s) (pushed s) (posted s)) in
  match tx_at s with
  | TxWait =>
      if 0 <? tx_sem s
      then Some (mktx q TxReadCounter (tx_sem s - 1) (wire s) (pushed s) (posted s))
      else None
  | TxReadCounter => go q (TxWrittenCounter (read q))
  | TxWrittenCounter read_counter =>
      let distance := u64 (written q - read_counter) in
      if 0 <? distance then go q (TxLen (read_counter mod UHYVE_QUEUE_SIZE)) else go q TxWait
  | TxLen idx =>
      sl ← slot q idx;
      if UHYVE_NET_MTU <=? len sl then go q TxInc else go q (TxSend idx 0 (len sl))
  | TxSend idx i n =>
      if i <? n then
        sl ← slot q idx;
        if 0 <? ret then
          Some (mktx q (TxSend idx (i + ret) n) (tx_sem s)
                  (wire s ++ take (Z.to_nat ret) (drop (Z.to_nat i) (data sl))) (pushed s) (posted s))
        else go q (TxSend idx i n)
      else go q TxInc
  | TxInc => go (inc_read q) TxWait
  end.

(** A signal handler that interrupts [sem_wait] makes it return without taking
    the semaphore; its result is not looked at. *)
Definition interrupted_wait (s : tx_state) : option tx_state :=
  match tx_at s with
  | TxWait => Some (mktx (tx_queue s) TxReadCounter (tx_sem s) (wire s) (pushed s) (posted s))
  | _ => None
  end.

(** The guest queues a packet when a slot is free, and then posts. *)
Definition guest_send (p : list byte) (s : tx_state) : option tx_state :=
  let q := tx_queue s in
  if (u64 (written q - read q) <? UHYVE_QUEUE_SIZE) && (Z.of_nat (length p) <=? UHYVE_NET_MTU + 34) then
    let idx := written q mod UHYVE_QUEUE_SIZE in
    Some (mktx (inc_written (set_len (set_data q idx p) idx (Z.of_nat (length p))))
            (tx_at s) (tx_sem s) (wire s) (pushed s ++ [p]) (posted s))
  else None.

Definition guest_post (s : tx_state) : option tx_state :=
  if posted s <? Z.of_nat (length (pushed s))
  then Some (mktx (tx_queue s) (tx_at s) (tx_sem s + 1) (wire s) (pushed s) (posted s + 1))
  else None.

Inductive tx_step : tx_state -> tx_state -> Prop :=
| tx_thread s s' ret :
    (forall idx i n, tx_at s = TxSend idx i n -> ret <= n - i) ->
    transfer_packets ret s = Some s' -> tx_step s s'
| tx_interrupted s s' : interrupted_wait s = Some s' -> tx_step s s'
| tx_guest_send s s' p : guest_send p s = Some s' -> tx_step s s'
| tx_guest_post s s' : guest_post s = Some s' -> tx_step s s'.

(** Both queues start zeroed; [check_network] initialises the semaphore to 1. *)
Definition empty_queue : shared_queue :=
  mkqueue 0 0 (replicate 8 (mkinner 0 (replicate 1534 NUL))).
Definition rx_start : rx_state := mkrx empty_queue RxReadCounter 0 [] [].
Definition tx_start : tx_state := mktx empty_queue TxWait 1 [] [] 0.

(** ** What a queue holds *)

(** After [r] packets have been taken out, the queue [q] holds [ps]. *)
Record holds (q : shared_queue) (r : Z) (ps : list (list byte)) : Prop := {
  holds_read : read q = u64 r;
  holds_written : written q = u64 (r + Z.of_nat (length ps));
  holds_slots : length (inner q) = Z.to_nat UHYVE_QUEUE_SIZE;
  holds_bound : Z.of_nat (length ps) <= UHYVE_QUEUE_SIZE;
  holds_start : 0 <= r;
  holds_packets : forall i p, ps !! i = Some p ->
    exists sl, slot q ((r + Z.of_nat i) mod UHYVE_QUEUE_SIZE) = Some sl /\
      len sl = Z.of_nat (length p) /\ take (length p) (data sl) = p
}.

Lemma u64_slot x : u64 x mod UHYVE_QUEUE_SIZE = x mod UHYVE_QUEUE_SIZE.
Proof.
  unfold u64, UHYVE_QUEUE_SIZE. symmetry.
  rewrite (Z.div_mod x (2 ^ 64)) at 1 by lia.
  replace (2 ^ 64 * (x / 2 ^ 64) + x mod 2 ^ 64)
    with (x mod 2 ^ 64 + (2 ^ 61 * (x / 2 ^ 64)) * 8) by lia.
  apply Z.mod_add. lia.
Qed.

Lemma u64_sub a b : 0 <= a - b < 2 ^ 64 -> u64 (u64 a - u64 b) = a - b.
Proof. intros. unfold u64. rewrite <- Zminus_mod. by apply Z.mod_small. Qed.

Lemma u64_succ a : u64 (u64 a + 1) = u64 (a + 1).
Proof. unfold u64. by rewrite Zplus_mod_idemp_l. Qed.

Lemma slot_distinct r i j :
  0 <= i < UHYVE_QUEUE_SIZE -> 0 <= j < UHYVE_QUEUE_SIZE ->
  (r + i) mod UHYVE_QUEUE_SIZE = (r + j) mod UHYVE_QUEUE_SIZE -> i = j.
Proof. unfold UHYVE_QUEUE_SIZE. intros. Z.div_mod_to_equations. lia. Qed.

Lemma slot_range x : 0 <= x mod UHYVE_QUEUE_SIZE < UHYVE_QUEUE_SIZE.
Proof. by apply Z.mod_pos_bound. Qed.

Lemma slot_alter q f j k :
  0 <= j -> 0 <= k -> j <> k ->
  slot (mkqueue (read q) (written q) (alter f (Z.to_nat j) (inner q))) k = slot q k.
Proof. intros. unfold slot. cbn. apply list_lookup_alter_ne. lia. Qed.

Section Holds.
Context (q : shared_queue) (r : Z) (ps : list (list byte)) (Hq : holds q r ps).

Abbreviation count := (Z.of_nat (length ps)).

Lemma holds_distance : u64 (written q - read q) = count.
Proof.
  rewrite (holds_read _ _ _ Hq), (holds_written _ _ _ Hq).
  pose proof (holds_bound _ _ _ Hq). rewrite u64_sub; unfold UHYVE_QUEUE_SIZE in *; lia.
Qed.

(** A counter read earlier is behind, but by less than the size of the ring. *)
Lemma holds_stale_distance r0 :
  r0 <= r -> r + count - r0 <= UHYVE_QUEUE_SIZE -> u64 (written q - u64 r0) = r + count - r0.
Proof.
  intros. rewrite (holds_written _ _ _ Hq). apply u64_sub. unfold UHYVE_QUEUE_SIZE in *. lia.
Qed.

(** The slot behind the last packet. *)
Definition free_slot : Z := (r + count) mod UHYVE_QUEUE_SIZE.

Lemma written_slot : written q mod UHYVE_QUEUE_SIZE = free_slot.
Proof. rewrite (holds_written _ _ _ Hq). apply u64_slot. Qed.

Lemma free_slot_unused i : (i < length ps)%nat -> count < UHYVE_QUEUE_SIZE ->
  (r + Z.of_nat i) mod UHYVE_QUEUE_SIZE <> free_slot.
Proof. intros Hi Hc E. apply slot_distinct in E; lia. Qed.

(** Writing to it leaves the packets alone. *)
Lemma holds_alter_free f :
  count < UHYVE_QUEUE_SIZE ->
  holds (mkqueue (read q) (written q) (alter f (Z.to_nat free_slot) (inner q))) r ps.
Proof.
  intros Hc. destruct Hq as [Hr Hw Hs Hb Hp Hi]. split; cbn; try done; [by rewrite length_alter|].
  intros i p Hl. destruct (Hi i p Hl) as (sl & Hsl & H). exists sl. split; [|done].
  rewrite slot_alter; [done|apply slot_range|apply slot_range|].
  intros E. apply lookup_lt_Some in Hl. by apply (free_slot_unused i).
Qed.

Lemma free_slot_exists : exists sl, slot q free_slot = Some sl.
Proof.
  apply lookup_lt_is_Some_2. rewrite (holds_slots _ _ _ Hq).
  pose proof (slot_range (r + count)). unfold free_slot. lia.
Qed.

(** Publishing the packet in the free slot. *)
Lemma holds_push p sl :
  count < UHYVE_QUEUE_SIZE -> slot q free_slot = Some sl ->
  len sl = Z.of_nat (length p) -> take (length p) (data sl) = p ->
  holds (inc_written q) r (ps ++ [p]).
Proof.
  intros Hc Hsl Hl Ht. destruct Hq as [Hr Hw Hs Hb Hp Hi].
  split; cbn [read written inner inc_written]; rewrite ?length_app; cbn [length]; try done; try lia.
  - rewrite Hw, u64_succ. f_equal. lia.
  - intros i x Hx. apply lookup_app_Some in Hx as [Hx|[Hge Hx]]; [by apply Hi|].
    destruct (i - length ps)%nat as [|k] eqn:E; [|done]. cbn in Hx. injection Hx as <-.
    exists sl. replace i with (length ps) by lia. done.
Qed.
End Holds.

(** Taking the oldest packet. *)
Lemma holds_pop q r p ps : holds q r (p :: ps) -> holds (inc_read q) (r + 1) ps.
Proof.
  intros [Hr Hw Hs Hb Hp Hi]. cbn [length] in *.
  split; cbn [read written inner inc_read]; try done; try lia.
  - by rewrite Hr, u64_succ.
  - rewrite Hw. f_equal. lia.
  - intros i x Hx. destruct (Hi (S i) x Hx) as (sl & Hsl & H). exists sl. split; [|done].
    by replace (r + 1 + Z.of_nat i) with (r + Z.of_nat (S i)) by lia.
Qed.

Lemma holds_head q r p ps : holds q r (p :: ps) ->
  exists sl, slot q (read q mod UHYVE_QUEUE_SIZE) = Some sl /\
    len sl = Z.of_nat (length p) /\ take (length p) (data sl) = p.
Proof.
  intros Hq. destruct (holds_packets _ _ _ Hq 0%nat p eq_refl) as (sl & Hsl & H).
  exists sl. rewrite (holds_read _ _ _ Hq), u64_slot. by rewrite Z.add_0_r in Hsl.
Qed.

Lemma holds_empty : holds empty_queue 0 [].
Proof. split; done. Qed.

(** ** The receiving queue is a bounded FIFO *)

(** The specification: packets that the interface delivered are queued, up to
    eight of them, and taken in order. *)
Inductive fifo_step : list (list byte) * list (list byte) -> list (list byte) * list (list byte) -> Prop :=
| fifo_push q got p : (length q < 8)%nat -> fifo_step (q, got) (q ++ [p], got)
| fifo_pop q got p : fifo_step (p :: q, got) (q, got ++ [p]).

(** What the thread knows at each point. *)
Definition rx_local (s : rx_state) (r : Z) (ps : list (list byte)) : Prop :=
  let q := rx_queue s in
  let count := Z.of_nat (length ps) in
  match rx_at s with
  | RxReadCounter | RxEvent => received s = consumed s ++ ps
  | RxWrittenCounter rc => received s = consumed s ++ ps /\
      exists r0, rc = u64 r0 /\ r0 <= r /\ r + count - r0 <= UHYVE_QUEUE_SIZE
  | RxRead wc => received s = consumed s ++ ps /\ wc = written q /\ count < UHYVE_QUEUE_SIZE
  | RxLen idx ret => exists p sl, received s = consumed s ++ ps ++ [p] /\
      idx = free_slot r ps /\ count < UHYVE_QUEUE_SIZE /\ slot q idx = Some sl /\
      ret = Z.of_nat (length p) /\ 0 < ret <= UHYVE_NET_MTU /\ take (length p) (data sl) = p
  | RxInc => exists p sl, received s = consumed s ++ ps ++ [p] /\
      count < UHYVE_QUEUE_SIZE /\ slot q (free_slot r ps) = Some sl /\
      len sl = Z.of_nat (length p) /\ take (length p) (data sl) = p
  end.

Definition rx_inv (s : rx_state) (ps : list (list byte)) : Prop :=
  exists r, holds (rx_queue s) r ps /\ rx_local s r ps /\
    Forall (fun p => 0 < Z.of_nat (length p) <= UHYVE_NET_MTU) (received s).

Lemma slot_set_data q idx bs sl :
  slot q idx = Some sl ->
  slot (set_data q idx bs) idx = Some (mkinner (len sl) (bs ++ drop (length bs) (data sl))).
Proof. intros E. unfold slot, set_data in *. cbn. by rewrite list_lookup_alter_eq, E. Qed.

Lemma slot_set_len q idx n sl :
  slot q idx = Some sl -> slot (set_len q idx n) idx = Some (mkinner (u16 n) (data sl)).
Proof. intros E. unfold slot, set_len in *. cbn. by rewrite list_lookup_alter_eq, E. Qed.

Lemma u16_packet n : 0 <= n <= UHYVE_NET_MTU + 34 -> u16 n = n.
Proof. unfold UHYVE_NET_MTU, u16. intros. apply Z.mod_small. lia. Qed.

Lemma rx_thread_simulates s ps ret bs :
  rx_inv s ps -> ret <= UHYVE_NET_MTU -> (0 < ret -> ret = Z.of_nat (length bs)) ->
  exists ps', rx_inv (recieve_packets ret bs s) ps' /\
    (ps' = ps \/ exists p, ps' = ps ++ [p] /\ (length ps < 8)%nat) /\
    consumed (recieve_packets ret bs s) = consumed s.
Proof.
  intros (r & Hq & Hl & Hf) Hret Hbs. unfold rx_local in Hl. unfold recieve_packets.
  destruct s as [q pc ev rcv con]; cbn [rx_queue rx_at received consumed event_count] in *.
  destruct pc as [|rc|wc|idx n| |].
  - exists ps. split; [|by auto]. exists r. repeat split; try done; try apply Hq.
    exists r. split; [apply Hq|]. pose proof (holds_bound _ _ _ Hq). lia.
  - destruct Hl as (Hl & r0 & -> & Hr0 & Hb). rewrite (holds_stale_distance _ _ _ Hq) by done.
    exists ps. destruct (Z.ltb_spec (r + Z.of_nat (length ps) - r0) UHYVE_QUEUE_SIZE);
      (split; [|by auto]); exists r; repeat split; try done; try apply Hq; cbn; lia.
  - destruct Hl as (Hl & -> & Hc). rewrite (written_slot _ _ _ Hq). exists ps.
    destruct (Z.ltb_spec 0 ret) as [Hpos|]; (split; [|by auto]); exists r; [|by repeat split; try apply Hq].
    specialize (Hbs Hpos). destruct (free_slot_exists _ _ _ Hq) as [sl Hsl]. split; [|split].
    + by apply holds_alter_free.
    + exists bs, (mkinner (len sl) (bs ++ drop (length bs) (data sl))). cbn.
      split; [by rewrite Hl, app_assoc|]. split; [done|]. split; [done|].
      split; [by apply slot_set_data|]. split; [done|]. split; [done|]. by rewrite take_app_length.
    + apply Forall_app. split; [done|]. apply Forall_singleton. lia.
  - destruct Hl as (p & sl & Hl & -> & Hc & Hsl & -> & Hn & Ht). exists ps.
    split; [|by auto]. exists r. split; [|split; [|done]]; [by apply holds_alter_free|].
    exists p, (mkinner (u16 (Z.of_nat (length p))) (data sl)).
    split; [done|]. split; [done|]. split; [by apply slot_set_len|].
    split; [apply u16_packet; lia|done].
  - destruct Hl as (p & sl & Hl & Hc & Hsl & Hn & Ht). exists (ps ++ [p]).
    split; [|split; [right; exists p|done]].
    + exists r. split; [by apply (holds_push _ _ _ Hq p sl)|]. done.
    + split; [done|]. unfold UHYVE_QUEUE_SIZE in Hc. lia.
  - exists ps. split; [|by auto]. exists r. done.
Qed.

Lemma rx_guest_simulates s s' ps :
  rx_inv s ps -> guest_receive s = Some s' ->
  exists p ps', ps = p :: ps' /\ rx_inv s' ps' /\ consumed s' = consumed s ++ [p].
Proof.
  intros (r & Hq & Hl & Hf) Hg. unfold guest_receive in Hg.
  destruct (Z.eqb_spec (read (rx_queue s)) (written (rx_queue s))) as [|Hne]; [done|].
  destruct ps as [|p ps].
  { destruct Hne. rewrite (holds_read _ _ _ Hq), (holds_written _ _ _ Hq). cbn. by rewrite Z.add_0_r. }
  destruct (holds_head _ _ _ _ Hq) as (sl & Hsl & Hn & Ht).
  rewrite Hsl in Hg. cbn in Hg. injection Hg as <-. rewrite Hn, Nat2Z.id, Ht.
  exists p, ps. split; [done|]. split; [|done]. exists (r + 1). split; [by apply holds_pop in Hq|].
  split; [|done]. unfold rx_local in *. destruct s as [q pc ev rcv con].
  cbn [rx_queue rx_at received consumed event_count length] in *.
  assert (free_slot (r + 1) ps = free_slot r (p :: ps)) as Hfs.
  { unfold free_slot. cbn [length]. f_equal. lia. }
  pose proof (app_assoc con [p]) as Ha. cbn [app] in Ha.
  destruct pc as [|rc|wc|idx n| |]; rewrite <- ?Ha.
  - done.
  - destruct Hl as (Hl & r0 & E & ? & ?). split; [done|]. exists r0. split; [done|lia].
  - destruct Hl as (? & ? & ?). split; [done|]. split; [done|lia].
  - destruct Hl as (x & sl' & Hl & -> & ? & ? & ? & ? & ?). exists x, sl'. rewrite <- ?Ha, Hfs.
    repeat split; done || lia.
  - destruct Hl as (x & sl' & Hl & ? & ? & ? & ?). exists x, sl'. rewrite <- ?Ha, Hfs.
    repeat split; done || lia.
  - done.
Qed.

Lemma rx_start_inv : rx_inv rx_start [].
Proof. exists 0. split; [apply holds_empty|]. split; [done|]. apply Forall_nil_2. Qed.

Lemma rx_step_simulates s s' ps :
  rx_inv s ps -> rx_step s s' ->
  exists ps', rx_inv s' ps' /\ rtc fifo_step (ps, consumed s) (ps', consumed s').
Proof.
  intros Hi H. destruct H as [s ret bs Hret Hbs|s s' Hg].
  - destruct (rx_thread_simulates _ _ ret bs Hi Hret Hbs) as (ps' & Hi' & Hp & ->).
    exists ps'. split; [done|]. destruct Hp as [->|(p & -> & ?)]; [done|]. by apply rtc_once, fifo_push.
  - destruct (rx_guest_simulates _ _ _ Hi Hg) as (p & ps' & -> & Hi' & ->).
    exists ps'. split; [done|]. apply rtc_once, fifo_pop.
Qed.

(** A packet stored in the free slot and published. *)
Lemma store_packet q r ps p :
  holds q r ps -> Z.of_nat (length ps) < UHYVE_QUEUE_SIZE -> Z.of_nat (length p) <= UHYVE_NET_MTU + 34 ->
  holds (inc_written (set_len (set_data q (free_slot r ps) p) (free_slot r ps) (Z.of_nat (length p))))
    r (ps ++ [p]).
Proof.
  intros Hq Hc Hp. destruct (free_slot_exists _ _ _ Hq) as [sl Hsl].
  apply (holds_push _ _ _ (holds_alter_free _ _ _ (holds_alter_free _ _ _ Hq _ Hc) _ Hc) p
    (mkinner (u16 (Z.of_nat (length p))) (p ++ drop (length p) (data sl)))).
  - done.
  - pose proof (slot_set_len _ _ (Z.of_nat (length p)) _ (slot_set_data _ _ p _ Hsl)) as E. exact E.
  - apply u16_packet. lia.
  - cbn [data]. by rewrite take_app_length.
Qed.

Lemma rx_publish s ps p :
  rx_inv s ps -> rx_at s = RxReadCounter -> (length ps < 8)%nat ->
  0 < Z.of_nat (length p) <= UHYVE_NET_MTU ->
  let s' := Nat.iter 6 (recieve_packets (Z.of_nat (length p)) p) s in
  rx_inv s' (ps ++ [p]) /\ event_count s' = event_count s + 1 /\ rx_at s' = RxReadCounter.
Proof.
  intros (r & Hq & Hl & Hf) Hpc Hlt Hp. destruct s as [q pc ev rcv con].
  cbn [rx_at] in Hpc. subst pc. unfold rx_local in Hl. cbn [rx_queue rx_at received consumed] in *.
  set (n := Z.of_nat (length p)) in *. set (f := recieve_packets n p).
  change (Nat.iter 6 f ?s) with (f (f (f (f (f (f s)))))).
  set (q1 := set_data q (free_slot r ps) p).
  assert (f (mkrx q RxReadCounter ev rcv con) = mkrx q (RxWrittenCounter (read q)) ev rcv con) as -> by done.
  assert (f (mkrx q (RxWrittenCounter (read q)) ev rcv con) = mkrx q (RxRead (written q)) ev rcv con) as ->.
  { unfold f, recieve_packets. cbn [rx_queue rx_at]. rewrite (holds_distance _ _ _ Hq).
    destruct (Z.ltb_spec (Z.of_nat (length ps)) UHYVE_QUEUE_SIZE); [done|unfold UHYVE_QUEUE_SIZE in *; lia]. }
  assert (f (mkrx q (RxRead (written q)) ev rcv con) =
    mkrx q1 (RxLen (free_slot r ps) n) ev (rcv ++ [p]) con) as ->.
  { unfold f, recieve_packets. cbn [rx_queue rx_at]. rewrite (written_slot _ _ _ Hq).
    destruct (Z.ltb_spec 0 n); [done|lia]. }
  cbn -[rx_inv]. split; [|done]. exists r. split; [|split].
  - apply store_packet; [done|unfold UHYVE_QUEUE_SIZE; lia|unfold UHYVE_NET_MTU in *; lia].
  - unfold rx_local. cbn. by rewrite Hl, app_assoc.
  - apply Forall_app. split; [done|]. by apply Forall_singleton.
Qed.

Lemma rx_reachable s :
  rtc rx_step rx_start s ->
  exists ps, rx_inv s ps /\ rtc fifo_step ([], []) (ps, consumed s).
Proof.
  revert s. apply rtc_ind_r.
  - exists []. split; [apply rx_start_inv|done].
  - intros s s' _ Hstep (ps & Hi & Hr).
    destruct (rx_step_simulates _ _ _ Hi Hstep) as (ps' & Hi' & Hr').
    exists ps'. split; [done|]. by etrans.
Qed.

(** C18. The receiving queue is a bounded FIFO.  However the receiving thread and
    the guest interleave, and across wrap-around of the counters, the packets
    the guest has taken are an initial part of those the interface delivered,
    in order and unaltered; at most the eight packets of the ring and one that
    is being published separate them; every run is a run of the abstract
    queue; and a packet that arrives while a slot is free is published and
    signalled by six accesses of the thread, whatever is in the slot. *)
Theorem rx_refines_fifo s :
  rtc rx_step rx_start s ->
  exists ps, rtc fifo_step ([], []) (ps, consumed s) /\ (length ps <= 8)%nat /\
    (exists fl, received s = consumed s ++ ps ++ fl /\ (length fl <= 1)%nat) /\
    Forall (fun p => Z.of_nat (length p) <= UHYVE_NET_MTU) ps /\
    (forall s', guest_receive s = Some s' ->
      exists p, head ps = Some p /\ consumed s' = consumed s ++ [p]) /\
    (forall p, rx_at s = RxReadCounter -> (length ps < 8)%nat ->
      0 < Z.of_nat (length p) <= UHYVE_NET_MTU ->
      let s' := Nat.iter 6 (recieve_packets (Z.of_nat (length p)) p) s in
      rx_inv s' (ps ++ [p]) /\ event_count s' = event_count s + 1 /\ rx_at s' = RxReadCounter).
Proof.
  intros Hs. destruct (rx_reachable s Hs) as (ps & Hi & Hr). exists ps. split; [done|].
  pose proof Hi as (r & Hq & Hl & Hf). pose proof (holds_bound _ _ _ Hq) as Hb.
  split; [unfold UHYVE_QUEUE_SIZE in Hb; lia|].
  assert (exists fl, received s = consumed s ++ ps ++ fl /\ (length fl <= 1)%nat) as (fl & Hfl & Hlen).
  { unfold rx_local in Hl. destruct (rx_at s);
      [exists []|exists []|exists []| | |exists []]; rewrite ?app_nil_r; try (split; [first [done|by destruct Hl as [Hl _]]|cbn; lia]).
    - destruct Hl as (p & _ & -> & _). exists [p]. split; [done|cbn; lia].
    - destruct Hl as (p & _ & -> & _). exists [p]. split; [done|cbn; lia]. }
  split; [by exists fl|]. split.
  { rewrite Hfl in Hf. apply Forall_app in Hf as [_ Hf]. apply Forall_app in Hf as [Hf _].
    eapply Forall_impl; [exact Hf|]. cbn. lia. }
  split.
  { intros s' Hg. destruct (rx_guest_simulates _ _ _ Hi Hg) as (p & ps' & -> & _ & Hc). by exists p. }
  intros p Hpc Hlt Hp. by apply rx_publish.
Qed.

(** *** A concrete run *)

Definition two_packets : rx_state :=
  Nat.iter 6 (recieve_packets 3 (str "two")) (Nat.iter 6 (recieve_packets 5 (str "first")) rx_start).

Lemma rx_run ret bs n : forall s,
  ret <= UHYVE_NET_MTU -> (0 < ret -> ret = Z.of_nat (length bs)) ->
  rtc rx_step s (Nat.iter n (recieve_packets ret bs) s).
Proof.
  induction n as [|n IH]; intros s Hr Hb; [done|]. cbn.
  etrans; [by apply IH|]. apply rtc_once. by apply rx_thread.
Qed.

Lemma rx_refines_fifo_witness :
  exists ps, (length ps <= 8)%nat /\
    (exists fl, received two_packets = consumed two_packets ++ ps ++ fl /\ (length fl <= 1)%nat).
Proof.
  destruct (rx_refines_fifo two_packets) as (ps & _ & Hl & Hfl & _).
  - unfold two_packets. etrans; apply rx_run; vm_compute; congruence.
  - exists ps. split; [exact Hl|exact Hfl].
Defined.

(** ** The transmitting queue *)

(** Packets that fit are sent, the others dropped. *)
Definition fits (p : list byte) : bool := Z.of_nat (length p) <? UHYVE_NET_MTU.
Definition sent_bytes (ps : list (list byte)) : list byte := concat (filter (fun p => fits p) ps).

(** What has been sent of the oldest packet. *)
Definition tx_local (s : tx_state) (todo : list (list byte)) (part : list byte) : Prop :=
  let idx := read (tx_queue s) mod UHYVE_QUEUE_SIZE in
  match tx_at s with
  | TxWait | TxReadCounter => part = []
  | TxWrittenCounter rc => part = [] /\ rc = read (tx_queue s)
  | TxLen i => part = [] /\ i = idx /\ todo <> []
  | TxSend j i n => exists p ps, todo = p :: ps /\ j = idx /\ n = Z.of_nat (length p) /\
      fits p /\ 0 <= i <= n /\ part = take (Z.to_nat i) p
  | TxInc => exists p ps, todo = p :: ps /\ part = if fits p then p else []
  end.

Definition tx_busy (s : tx_state) : Z := match tx_at s with TxWait => 0 | _ => 1 end.

Record tx_inv (s : tx_state) (r : Z) (done todo : list (list byte)) (part : list byte) : Prop := {
  tx_pushed : pushed s = done ++ todo;
  tx_holds : holds (tx_queue s) r todo;
  tx_wire : wire s = sent_bytes done ++ part;
  tx_count : Z.of_nat (length todo) <= Z.of_nat (length (pushed s)) - posted s + tx_sem s + tx_busy s;
  tx_posted : posted s <= Z.of_nat (length (pushed s)) /\ 0 <= tx_sem s;
  tx_loc : tx_local s todo part
}.

Lemma sent_bytes_snoc ps p : sent_bytes (ps ++ [p]) = sent_bytes ps ++ if fits p then p else [].
Proof.
  unfold sent_bytes. rewrite filter_app, concat_app. f_equal. rewrite filter_cons.
  destruct (decide (fits p)) as [Hf|Hf]; cbn; destruct (fits p); try done; by rewrite ?app_nil_r.
Qed.

Lemma take_chunk (d p : list byte) i k :
  take (length p) d = p -> (i + k <= length p)%nat ->
  take i p ++ take k (drop i d) = take (i + k) p.
Proof.
  intros Ht Hk. rewrite <- (take_take_drop p), !take_drop_commute. do 2 f_equal.
  rewrite <- Ht at 1. rewrite take_take. f_equal. lia.
Qed.

Lemma tx_thread_inv s s' r done todo part ret :
  tx_inv s r done todo part ->
  (forall idx i n, tx_at s = TxSend idx i n -> ret <= n - i) ->
  transfer_packets ret s = Some s' ->
  exists r' done' todo' part', tx_inv s' r' done' todo' part'.
Proof.
  intros [Hp Hq Hw Hn Hs Hl] Hret Hstep. unfold transfer_packets in Hstep.
  destruct s as [q pc sem wi pu po]. unfold tx_local, tx_busy in *.
  cbn [tx_queue tx_at NetQueue.tx_sem wire pushed posted] in *.
  destruct pc as [| |rc|idx|idx i n|].
  - destruct (Z.ltb_spec 0 sem); simplify_eq. exists r, done, todo, []. by split; cbn; try lia.
  - simplify_eq. exists r, done, todo, []. by split; cbn; try lia.
  - destruct Hl as [-> ->]. rewrite (holds_distance _ _ _ Hq) in Hstep.
    exists r, done, todo, [].
    destruct (Z.ltb_spec 0 (Z.of_nat (length todo))); simplify_eq; split; cbn; try done; try lia.
    split; [done|]. split; [done|]. by intros ->.
  - destruct Hl as (-> & -> & Hne). destruct todo as [|p todo]; [done|].
    destruct (holds_head _ _ _ _ Hq) as (sl & Hsl & Hle & Ht). rewrite Hsl in Hstep. cbn in Hstep.
    rewrite Hle in Hstep. exists r, done, (p :: todo), [].
    destruct (Z.leb_spec UHYVE_NET_MTU (Z.of_nat (length p))); simplify_eq; split; cbn; try lia; try done.
    + exists p, todo. split; [done|]. unfold fits. by destruct (Z.ltb_spec (Z.of_nat (length p)) UHYVE_NET_MTU); [lia|].
    + exists p, todo. repeat split; try done; try lia. unfold fits.
      by destruct (Z.ltb_spec (Z.of_nat (length p)) UHYVE_NET_MTU); [|lia].
  - destruct Hl as (p & ps & -> & -> & -> & Hfit & Hi & ->).
    destruct (holds_head _ _ _ _ Hq) as (sl & Hsl & Hle & Ht).
    destruct (Z.ltb_spec i (Z.of_nat (length p))).
    + rewrite Hsl in Hstep. cbn in Hstep. specialize (Hret _ _ _ eq_refl).
      destruct (Z.ltb_spec 0 ret); simplify_eq.
      * exists r, done, (p :: ps), (take (Z.to_nat (i + ret)) p). split; cbn; try done; try lia.
        -- rewrite <- app_assoc. f_equal. rewrite Z2Nat.inj_add by lia. apply take_chunk; [done|lia].
        -- exists p, ps. split; [done|]. split; [done|]. split; [done|]. split; [done|]. split; [lia|done].
      * exists r, done, (p :: ps), (take (Z.to_nat i) p). split; cbn; try done; try lia.
        exists p, ps. repeat (split; [done|]). done.
    + simplify_eq. exists r, done, (p :: ps), (take (Z.to_nat i) p). split; cbn; try done; try lia.
      exists p, ps. split; [done|]. destruct (fits p); [|done]. by rewrite take_ge by lia.
  - destruct Hl as (p & ps & -> & ->). simplify_eq.
    exists (r + 1), (done ++ [p]), ps, []. split; cbn; try done; try (cbn in *; lia).
    + by rewrite <- app_assoc.
    + by apply holds_pop in Hq.
    + by rewrite sent_bytes_snoc, app_nil_r.
Qed.

Lemma tx_send_inv s s' r done todo part p :
  tx_inv s r done todo part -> guest_send p s = Some s' ->
  tx_inv s' r done (todo ++ [p]) part.
Proof.
  intros [Hp Hq Hw Hn Hs Hl] Hstep. unfold guest_send in Hstep.
  destruct s as [q pc sem wi pu po]. unfold tx_local, tx_busy in *.
  cbn [tx_queue tx_at NetQueue.tx_sem wire pushed posted] in *.
  rewrite (holds_distance _ _ _ Hq), (written_slot _ _ _ Hq) in Hstep.
  destruct (Z.ltb_spec (Z.of_nat (length todo)) UHYVE_QUEUE_SIZE); [|discriminate].
  destruct (Z.leb_spec (Z.of_nat (length p)) (UHYVE_NET_MTU + 34)); [|discriminate].
  injection Hstep as <-. split; cbn [tx_queue tx_at NetQueue.tx_sem wire pushed posted].
  - by rewrite Hp, app_assoc.
  - by apply store_packet.
  - done.
  - rewrite !length_app. cbn [length tx_busy tx_at]. unfold tx_busy; cbn [tx_at]. lia.
  - rewrite length_app. lia.
  - unfold tx_local. cbn. destruct pc; try done.
    + destruct Hl as (-> & -> & _). split; [done|]. split; [done|]. by destruct todo.
    + destruct Hl as (x & xs & -> & H1). by exists x, (xs ++ [p]).
    + destruct Hl as (x & xs & -> & H1). by exists x, (xs ++ [p]).
Qed.

Lemma tx_step_inv s s' r done todo part :
  tx_inv s r done todo part -> tx_step s s' ->
  exists r' done' todo' part', tx_inv s' r' done' todo' part'.
Proof.
  intros Hi H. destruct H as [s s' ret Hret Hstep|s s' Hstep|s s' p Hstep|s s' Hstep].
  - by eapply tx_thread_inv.
  - exists r, done, todo, part. unfold interrupted_wait in Hstep. destruct (tx_at s) eqn:Eat; try discriminate.
    injection Hstep as <-. destruct Hi as [Hp Hq Hw Hn Hs Hl]. unfold tx_busy, tx_local in *. rewrite Eat in *.
    split; cbn [tx_queue tx_at NetQueue.tx_sem wire pushed posted]; try done; unfold tx_busy; cbn [tx_at]; lia.
  - exists r, done, (todo ++ [p]), part. by eapply tx_send_inv.
  - exists r, done, todo, part. unfold guest_post in Hstep.
    destruct (Z.ltb_spec (posted s) (Z.of_nat (length (pushed s)))); [|discriminate].
    injection Hstep as <-. destruct Hi as [Hp Hq Hw Hn Hs Hl].
    unfold tx_busy in *. split; cbn [tx_queue tx_at NetQueue.tx_sem wire pushed posted]; try done;
      unfold tx_busy; cbn [tx_at]; try lia.
Qed.

Lemma tx_reachable s :
  rtc tx_step tx_start s -> exists r done todo part, tx_inv s r done todo part.
Proof.
  revert s. apply rtc_ind_r.
  - exists 0, [], [], []. by split.
  - intros s s' _ Hstep (r & done & todo & part & Hi). by eapply tx_step_inv.
Qed.

Lemma tx_blocked s r todo part ret :
  holds (tx_queue s) r todo -> tx_local s todo part ->
  0 <= tx_sem s ->
  transfer_packets ret s = None <-> tx_at s = TxWait /\ tx_sem s = 0.
Proof.
  intros Hq Hl Hsem. unfold transfer_packets, tx_local in *.
  destruct (tx_at s) as [| |rc|idx|idx i n|] eqn:Eat.
  - destruct (Z.ltb_spec 0 (tx_sem s)); (split; [|intros [_ ?]]); try done; try lia.
    intros _. split; [done|lia].
  - split; [done|by intros []].
  - destruct (Z.ltb_spec 0 (u64 (written (tx_queue s) - rc))); (split; [done|by intros []]).
  - destruct Hl as (_ & -> & Hne). destruct todo as [|p todo]; [done|].
    destruct (holds_head _ _ _ _ Hq) as (sl & -> & _). cbn.
    destruct (UHYVE_NET_MTU <=? len sl); (split; [done|by intros []]).
  - destruct Hl as (p & ps & -> & -> & _). destruct (holds_head _ _ _ _ Hq) as (sl & -> & _). cbn.
    destruct (i <? n), (0 <? ret); (split; [done|by intros []]).
  - split; [done|by intros []].
Qed.

(** C27. The transmitting queue loses nothing and sends nothing twice.  However
    the transmitting thread and the guest interleave, the bytes written to the
    interface are those of the packets the guest queued, in order, without the
    packets of 1500 bytes or more, up to a packet that is being written; the
    thread blocks only on its semaphore, whose wait signals may interrupt; and
    when it blocks there although the
    guest has signalled every packet, everything has been sent. *)
Theorem tx_sends_in_order s :
  rtc tx_step tx_start s ->
  exists done todo part, pushed s = done ++ todo /\ wire s = sent_bytes done ++ part /\
    (length todo <= 8)%nat /\
    (part = [] \/ exists p ps k, todo = p :: ps /\ fits p = true /\ part = take k p) /\
    (forall ret, transfer_packets ret s = None <-> tx_at s = TxWait /\ tx_sem s = 0) /\
    (tx_at s = TxWait -> tx_sem s = 0 -> posted s = Z.of_nat (length (pushed s)) ->
     wire s = sent_bytes (pushed s)).
Proof.
  intros Hs. destruct (tx_reachable s Hs) as (r & done & todo & part & [Hp Hq Hw Hn Hsem Hl]).
  exists done, todo, part. split; [done|]. split; [done|].
  split; [pose proof (holds_bound _ _ _ Hq); unfold UHYVE_QUEUE_SIZE in *; lia|].
  split; [|split].
  - unfold tx_local in Hl. destruct (tx_at s); try (left; first [done|by destruct Hl as [Hl _]]).
    + destruct Hl as (p & ps & -> & _ & _ & Hf & _ & ->). right. exists p, ps, (Z.to_nat i).
      by destruct (fits p).
    + destruct Hl as (p & ps & -> & ->). destruct (fits p) eqn:E; [|by left].
      right. exists p, ps, (length p). by rewrite firstn_all.
  - intros ret. apply (tx_blocked s r todo part); [done|done|lia].
  - intros Hat H0 Hpost. unfold tx_busy, tx_local in *. rewrite Hat in *.
    destruct todo; [|cbn [length] in *; lia]. by rewrite Hw, Hp, Hl, !app_nil_r.
Qed.

(** *** A concrete run *)

(** The thread runs with these results of [write]. *)
Fixpoint run (rets : list Z) (s : tx_state) : option tx_state :=
  match rets with
  | [] => Some s
  | ret :: rets =>
      if match tx_at s with TxSend _ i n => ret <=? n - i | _ => true end
      then s ← transfer_packets ret s; run rets s
      else None
  end.

Lemma run_steps rets : forall s s', run rets s = Some s' -> rtc tx_step s s'.
Proof.
  induction rets as [|ret rets IH]; intros s s' E; cbn in E; [by simplify_eq|].
  destruct (match tx_at s with TxSend _ i n => ret <=? n - i | _ => true end) eqn:Ec; [|done].
  destruct (transfer_packets ret s) as [s1|] eqn:E1; [|done]. cbn in E.
  eapply rtc_l; [|by apply IH]. apply (tx_thread s s1 ret); [|done].
  intros idx i n Hat. rewrite Hat in Ec. by apply Z.leb_le.
Qed.

(** One packet queued and signalled, sent in two pieces, the thread waiting. *)
Definition one_queued : tx_state := default tx_start (guest_send (str "hello") tx_start).
Definition one_posted : tx_state := default tx_start (guest_post one_queued).
Definition one_sent : tx_state := default tx_start (run [0; 0; 0; 0; 3; 2; 0; 0; 0; 0; 0] one_posted).

Lemma one_sent_reachable : rtc tx_step tx_start one_sent.
Proof.
  eapply rtc_l; [apply (tx_guest_send tx_start one_queued (str "hello")); by vm_compute|].
  eapply rtc_l; [apply (tx_guest_post one_queued one_posted); by vm_compute|].
  apply (run_steps [0; 0; 0; 0; 3; 2; 0; 0; 0; 0; 0]). by vm_compute.
Qed.

Lemma tx_sends_in_order_witness :
  wire one_sent = sent_bytes (pushed one_sent) /\ sent_bytes (pushed one_sent) = str "hello".
Proof.
  destruct (tx_sends_in_order one_sent one_sent_reachable) as (done & todo & part & _ & _ & _ & _ & _ & H).
  split; [apply H|]; vm_compute; reflexivity.
Defined.

(** ** Layout *)

(** Where the queues are: [SHAREDQUEUE_CEIL] rounds up to the next multiple
    of the 64-byte cache line, so the two queues follow each other without
    overlapping, the counters of each are on cache lines of their own, apart
    from the packets, and both queues end below the first megabyte. *)
Theorem shared_queue_layout x :
  0 <= x < 2 ^ 64 - 0x40 ->
  (x <= SHAREDQUEUE_CEIL x < x + 64 /\ SHAREDQUEUE_CEIL x mod 64 = 0) /\
  SHAREDQUEUE_FLOOR x = 0 /\
  rx_queue_addr + sizeof_shared_queue <= tx_queue_addr /\
  tx_queue_addr + sizeof_shared_queue <= 0x100000 /\
  tx_queue_addr mod 64 = 0 /\ offset_read / 64 <> offset_written / 64 /\
  offset_written / 64 < offset_inner / 64 /\ sizeof_shared_queue = 12416.
Proof.
  intros Hx. split; [|split; [apply Z.land_0_r|by vm_compute]].
  unfold SHAREDQUEUE_CEIL. rewrite u64_small by (unfold is_u64; lia). rewrite <- Z.ldiff_land.
  change 0x3f with (Z.ones 6). rewrite Z.ldiff_ones_r, Z.shiftl_mul_pow2, Z.shiftr_div_pow2 by lia.
  change (2 ^ 6) with 64. change (Z.ones 6) with 63. split; [Z.div_mod_to_equations; lia|].
  apply Z.mod_mul. lia.
Qed.

Lemma shared_queue_layout_witness : SHAREDQUEUE_CEIL sizeof_shared_queue mod 64 = 0.
Proof. apply (shared_queue_layout sizeof_shared_queue). vm_compute. intuition congruence. Defined.
