(* ===== verification/CLib.v ===== *)
(** * Numbers and formatted text of the C library

    What the sources use of the standard library's conversions: [isspace],
    [isxdigit], [strtoull], [strtol], [atoi], [fgets], [strstr] and the
    directives [%u], [%d] and [%zx] of [fscanf] and [fprintf], in the C locale.
    A C string is the list of its bytes without the terminating NUL. *)

From S2P Require Import Prelude.

Definition NL : byte := Byte.x0a.
Definition char (c : byte) : Z := byte.unsigned c.

(** [' '], [\t], [\n], [\v], [\f], [\r] *)
Definition isspace (c : byte) : bool := (char c =? 32) || ((9 <=? char c) && (char c <=? 13)).
Definition isdigit (c : byte) : bool := (48 <=? char c) && (char c <=? 57).

(** The value of a digit or letter. *)
Definition digit_val (c : byte) : option Z :=
  let z := char c in
  if (48 <=? z) && (z <=? 57) then Some (z - 48)
  else if (97 <=? z) && (z <=? 122) then Some (z - 97 + 10)
  else if (65 <=? z) && (z <=? 90) then Some (z - 65 + 10)
  else None.

Definition is_digit_of (base : Z) (c : byte) : bool :=
  match digit_val c with Some d => d <? base | None => false end.
Definition isxdigit (c : byte) : bool := is_digit_of 16 c.

Fixpoint skip_spaces (s : list byte) : list byte :=
  match s with
  | c :: s' => if isspace c then skip_spaces s' else s
  | [] => []
  end.

(** The longest run of digits, its value added to [acc], and what follows. *)
Fixpoint scan_digits (base : Z) (s : list byte) (acc : Z) : Z * list byte :=
  match s with
  | c :: s' =>
      match digit_val c with
      | Some d => if d <? base then scan_digits base s' (acc * base + d) else (acc, s)
      | None => (acc, s)
      end
  | [] => (acc, [])
  end.

Definition starts_with_digit (base : Z) (s : list byte) : bool :=
  match s with c :: _ => is_digit_of base c | [] => false end.

(** The sign. *)
Definition scan_sign (s : list byte) : bool * list byte :=
  match s with
  | c :: s' => if char c =? 45 then (true, s') else if char c =? 43 then (false, s') else (false, s)
  | [] => (false, [])
  end.

(** The prefix of base 0 and base 16: [0x] counts when a hexadecimal digit
    follows, a leading [0] selects base 8. *)
Definition scan_prefix (base : Z) (s : list byte) : Z * list byte :=
  match s with
  | c0 :: c1 :: s' =>
      if (char c0 =? 48) && ((char c1 =? 120) || (char c1 =? 88)) && starts_with_digit 16 s'
         && ((base =? 0) || (base =? 16))
      then (16, s')
      else (if base =? 0 then if char c0 =? 48 then 8 else 10 else base, s)
  | [c0] => (if base =? 0 then if char c0 =? 48 then 8 else 10 else base, s)
  | [] => (if base =? 0 then 10 else base, s)
  end.

(** The number at the start of a string: sign, absolute value, what follows. *)
Definition scan_number (base : Z) (s : list byte) : option (bool * Z * list byte) :=
  let '(neg, s) := scan_sign (skip_spaces s) in
  let '(base, s) := scan_prefix base s in
  if starts_with_digit base s then
    let '(v, rest) := scan_digits base s 0 in Some (neg, v, rest)
  else None.

Definition ULLONG_MAX : Z := 2 ^ 64 - 1.
Definition LONG_MAX : Z := 2 ^ 63 - 1.

Definition to_ull (neg : bool) (v : Z) : Z :=
  if ULLONG_MAX <? v then ULLONG_MAX else if neg then u64 (- v) else v.
Definition to_long (neg : bool) (v : Z) : Z :=
  if neg then (if LONG_MAX + 1 <? v then - LONG_MAX - 1 else - v)
  else (if LONG_MAX <? v then LONG_MAX else v).

(** [strtoull(s, &end, base)]: the value and [end]. *)
Definition strtoull (s : list byte) (base : Z) : Z * list byte :=
  match scan_number base s with
  | Some (neg, v, rest) => (to_ull neg v, rest)
  | None => (0, s)
  end.
Definition strtol (s : list byte) (base : Z) : Z * list byte :=
  match scan_number base s with
  | Some (neg, v, rest) => (to_long neg v, rest)
  | None => (0, s)
  end.

(** [(int) strtol(s, NULL, 10)] *)
Definition atoi (s : list byte) : Z := s32 (strtol s 10).1.

(** ** Formatted text *)

Fixpoint to_digits (fuel : nat) (base z : Z) : list byte :=
  let digit d := byte.of_Z (if d <? 10 then 48 + d else 87 + d) in
  match fuel with
  | O => []
  | S fuel => if z <? base then [digit z] else to_digits fuel base (z / base) ++ [digit (z mod base)]
  end.

(** [%u] and [%zx] of [fprintf]; 64 digits are enough for 64 bits. *)
Definition print_u (z : Z) : list byte := to_digits 64 10 z.
Definition print_zx (z : Z) : list byte := to_digits 64 16 z.

Inductive conversion := ConvU | ConvD | ConvZX.
Inductive directive := FSpace | FLit (c : byte) | FConv (c : conversion).

(** A format: white space, conversions, everything else literal. *)
Fixpoint parse_format (fmt : list byte) : list directive :=
  match fmt with
  | [] => []
  | c :: fmt' =>
      if isspace c then FSpace :: parse_format fmt'
      else if char c =? 37 then
        match fmt' with
        | d :: fmt'' =>
            if char d =? 117 then FConv ConvU :: parse_format fmt''
            else if char d =? 100 then FConv ConvD :: parse_format fmt''
            else match fmt'' with
                 | e :: fmt3 =>
                     if (char d =? 122) && (char e =? 120) then FConv ConvZX :: parse_format fmt3
                     else FLit c :: parse_format fmt'
                 | [] => FLit c :: parse_format fmt'
                 end
        | [] => [FLit c]
        end
      else FLit c :: parse_format fmt'
  end.

(** A conversion skips white space; it fails, consuming nothing more, when no
    number follows. *)
Definition convert (c : conversion) (s : list byte) : option (Z * list byte) :=
  let base := match c with ConvZX => 16 | _ => 10 end in
  match scan_number base s with
  | Some (neg, v, rest) =>
      Some (match c with
            | ConvU => u32 (to_ull neg v)
            | ConvD => s32 (to_long neg v)
            | ConvZX => to_ull neg v
            end, rest)
  | None => None
  end.

(** The values converted before the first failure, and the unread input. *)
Fixpoint scan_directives (ds : list directive) (s : list byte) : list Z * list byte :=
  match ds with
  | [] => ([], s)
  | FSpace :: ds => scan_directives ds (skip_spaces s)
  | FLit c :: ds =>
      match s with
      | b :: s' => if decide (b = c) then scan_directives ds s' else ([], s)
      | [] => ([], s)
      end
  | FConv c :: ds =>
      match convert c s with
      | Some (v, s') => let '(vs, rest) := scan_directives ds s' in (v :: vs, rest)
      | None => ([], skip_spaces s)
      end
  end.

Definition fscanf (fmt s : list byte) : list Z * list byte := scan_directives (parse_format fmt) s.

(** ** Lines and substrings *)

(** [fgets(line, n + 1, f)]: at most [n] bytes, up to and with a newline. *)
Fixpoint fgets_line (n : nat) (s : list byte) : list byte * list byte :=
  match n, s with
  | S n, c :: s =>
      if decide (c = NL) then ([c], s)
      else let '(l, rest) := fgets_line n s in (c :: l, rest)
  | _, _ => ([], s)
  end.
Definition fgets (n : nat) (s : list byte) : option (list byte * list byte) :=
  match s with [] => None | _ => Some (fgets_line n s) end.

Fixpoint is_prefix (p s : list byte) : bool :=
  match p, s with
  | [], _ => true
  | a :: p, b :: s => if decide (a = b) then is_prefix p s else false
  | _, [] => false
  end.

(** [strstr(s, p)]: the rest of [s] from the first occurrence of [p]. *)
Fixpoint strstr (s p : list byte) : option (list byte) :=
  if is_prefix p s then Some s
  else match s with [] => None | _ :: s => strstr s p end.

(** ** Scanning what was printed *)

Definition digit_char (d : Z) : byte := byte.of_Z (if d <? 10 then 48 + d else 87 + d).

Lemma digit_char_val d : 0 <= d < 16 -> digit_val (digit_char d) = Some d.
Proof.
  intros Hd. unfold digit_val, digit_char, char.
  destruct (Z.ltb_spec d 10); rewrite byte_unsigned_of_small by lia;
    zbool; cbn; try lia; f_equal; lia.
Qed.

Lemma digit_char_char d : 0 <= d < 16 -> char (digit_char d) = if d <? 10 then 48 + d else 87 + d.
Proof. intros Hd. unfold digit_char, char. destruct (Z.ltb_spec d 10); by rewrite byte_unsigned_of_small by lia. Qed.

Section Digits.
Context (base : Z) (Hbase : 2 <= base <= 16).

Lemma to_digits_S n z : to_digits (S n) base z =
  if z <? base then [digit_char z] else to_digits n base (z / base) ++ [digit_char (z mod base)].
Proof. done. Qed.

Lemma digit_step d : 0 <= d < base -> is_digit_of base (digit_char d) = true.
Proof.
  intros Hd. unfold is_digit_of. rewrite digit_char_val by lia. apply Z.ltb_lt. lia.
Qed.

Lemma scan_digit d s acc : 0 <= d < base ->
  scan_digits base (digit_char d :: s) acc = scan_digits base s (acc * base + d).
Proof.
  intros Hd. cbn [scan_digits]. rewrite digit_char_val by lia. by destruct (Z.ltb_spec d base); [|lia].
Qed.

Lemma div_fuel n z : 0 <= z < base ^ Z.of_nat (S n) -> 0 <= z / base < base ^ Z.of_nat n.
Proof.
  intros Hz. rewrite Nat2Z.inj_succ, Z.pow_succ_r in Hz by lia.
  split; [apply Z.div_pos; lia|]. apply Z.div_lt_upper_bound; lia.
Qed.

Lemma scan_to_digits n : forall z s,
  0 <= z < base ^ Z.of_nat n -> (0 < n)%nat ->
  scan_digits base (to_digits n base z ++ s) 0 = scan_digits base s z.
Proof.
  induction n as [|n IH]; intros z s Hz Hn; [lia|]. rewrite to_digits_S.
  destruct (Z.ltb_spec z base).
  - cbn [app]. rewrite scan_digit by lia. f_equal; lia.
  - pose proof (div_fuel n z Hz) as Hd. rewrite <- app_assoc.
    assert (1 <= z / base) by (apply Z.div_le_lower_bound; lia).
    destruct n as [|n]; [cbn in Hd; lia|].
    rewrite IH by lia. cbn [app]. rewrite scan_digit by (apply Z.mod_pos_bound; lia).
    f_equal. pose proof (Z.div_mod z base). lia.
Qed.

(** Nothing follows that would be read as part of the number. *)
Lemma scan_printed n z rest :
  0 <= z < base ^ Z.of_nat n -> (0 < n)%nat -> starts_with_digit base rest = false ->
  scan_digits base (to_digits n base z ++ rest) 0 = (z, rest).
Proof.
  intros Hz Hn Hr. rewrite scan_to_digits by done.
  destruct rest as [|c rest]; [done|]. cbn in *. unfold is_digit_of in Hr.
  destruct (digit_val c) as [d|]; [|done]. by rewrite Hr.
Qed.

(** The first digit, which is 0 only for 0. *)
Lemma to_digits_head n : forall z,
  0 <= z < base ^ Z.of_nat n -> (0 < n)%nat ->
  exists d ds, to_digits n base z = digit_char d :: ds /\ 0 <= d < base /\ (0 < z -> 0 < d) /\
    Forall (fun c => is_digit_of base c = true) ds.
Proof.
  induction n as [|n IH]; intros z Hz Hn; [lia|]. rewrite to_digits_S.
  destruct (Z.ltb_spec z base); [exists z, []; split; [done|]; split; [lia|]; split; [done|apply Forall_nil_2]|].
  pose proof (div_fuel n z Hz) as Hd.
  assert (1 <= z / base) by (apply Z.div_le_lower_bound; lia).
  destruct n as [|n]; [cbn in Hd; lia|].
  destruct (IH (z / base) ltac:(lia) ltac:(lia)) as (d & ds & -> & Hd1 & Hd2 & Hds).
  exists d, (ds ++ [digit_char (z mod base)]). split; [done|]. split; [done|]. split; [intros _; lia|].
  apply Forall_app. split; [done|]. apply Forall_singleton. apply digit_step, Z.mod_pos_bound. lia.
Qed.
End Digits.

(** A digit is neither white space nor a sign. *)
Lemma digit_plain d s : 0 <= d < 16 ->
  scan_sign (skip_spaces (digit_char d :: s)) = (false, digit_char d :: s).
Proof.
  intros Hd. cbn [skip_spaces]. unfold isspace. rewrite digit_char_char by done.
  destruct (Z.ltb_spec d 10); zbool; try lia; cbn; rewrite digit_char_char by done;
    destruct (Z.ltb_spec d 10); zbool; lia || done.
Qed.

Definition not_x (s : list byte) : Prop :=
  match s with c :: _ => char c <> 120 /\ char c <> 88 | [] => True end.

Lemma digit_not_x c : is_digit_of 16 c = true -> char c <> 120 /\ char c <> 88.
Proof.
  unfold is_digit_of, digit_val. intros H. zbool; cbn in H; zbool; try discriminate; lia.
Qed.

Lemma is_digit_of_mono b b' c : b <= b' -> is_digit_of b c = true -> is_digit_of b' c = true.
Proof. unfold is_digit_of. destruct (digit_val c); [|done]. intros ? ?%Z.ltb_lt. apply Z.ltb_lt. lia. Qed.

(** No prefix is read off a printed number. *)
Lemma scan_prefix_printed base n z rest b :
  2 <= b <= 16 -> 0 <= z < b ^ Z.of_nat n -> (0 < n)%nat -> not_x rest ->
  scan_prefix base (to_digits n b z ++ rest) =
    (if base =? 0 then if 0 <? z then 10 else 8 else base, to_digits n b z ++ rest).
Proof.
  intros Hb Hz Hn Hx. destruct (to_digits_head b Hb n z Hz Hn) as (d & ds & E & Hd & Hpos & Hds).
  assert ((char (digit_char d) =? 48) = negb (0 <? z)) as E0.
  { rewrite digit_char_char by lia. destruct (Z.ltb_spec 0 z) as [Hz0|Hz0]; cbn.
    - specialize (Hpos Hz0). destruct (Z.ltb_spec d 10); zbool; lia || done.
    - assert (z = 0) as -> by lia. destruct n as [|n]; [lia|]. rewrite to_digits_S in E.
      destruct (Z.ltb_spec 0 b); [|lia]. injection E as E _.
      apply (f_equal char) in E. rewrite !digit_char_char in E by lia. cbn in E. by rewrite <- E. }
  rewrite E. cbn [app]. unfold scan_prefix. rewrite E0.
  destruct (ds ++ rest) as [|c1 s1] eqn:Es; [by destruct (base =? 0), (0 <? z)|].
  assert (char c1 <> 120 /\ char c1 <> 88) as [H1 H2].
  { destruct ds as [|c ds]; cbn in Es.
    - by rewrite Es in Hx.
    - injection Es as <- _. apply Forall_cons in Hds as [Hc _]. apply digit_not_x.
      by apply (is_digit_of_mono b); [lia|]. }
  destruct (Z.eqb_spec (char c1) 120), (Z.eqb_spec (char c1) 88); try done.
  cbn. rewrite andb_false_r. cbn. by destruct (base =? 0), (0 <? z).
Qed.

(** A printed number is read back, whatever follows it. *)
Lemma scan_number_printed b base n z rest :
  2 <= b <= 16 -> 0 <= z < b ^ Z.of_nat n -> (0 < n)%nat ->
  base = b \/ (base = 0 /\ b = 10) -> starts_with_digit b rest = false -> not_x rest ->
  scan_number base (to_digits n b z ++ rest) = Some (false, z, rest).
Proof.
  intros Hb Hz Hn Hbase Hr Hx. unfold scan_number.
  destruct (to_digits_head b Hb n z Hz Hn) as (d & ds & E & Hd & Hpos & Hds).
  assert (scan_sign (skip_spaces (to_digits n b z ++ rest)) = (false, to_digits n b z ++ rest)) as ->.
  { rewrite E. apply digit_plain. lia. }
  rewrite scan_prefix_printed by done.
  assert (forall b', d < b' -> starts_with_digit b' (to_digits n b z ++ rest) = true) as Hst.
  { intros b' Hd'. rewrite E. cbn [app starts_with_digit]. unfold is_digit_of. rewrite digit_char_val by lia. apply Z.ltb_lt. lia. }
  destruct Hbase as [->|[-> ->]].
  - destruct (Z.eqb_spec b 0); [lia|]. rewrite Hst by lia. by rewrite scan_printed.
  - cbn [Z.eqb]. destruct (Z.ltb_spec 0 z).
    + rewrite Hst by lia. by rewrite scan_printed.
    + assert (z = 0) as -> by lia.
      assert (to_digits n 10 0 = [digit_char 0]) as E0 by (destruct n; [lia|done]).
      rewrite E0. clear E Hst. cbn [app].
      cbn [starts_with_digit]. rewrite (digit_step 8) by lia. rewrite scan_digit by lia.
      destruct rest as [|c rest]; [done|]. cbn in *. unfold is_digit_of in Hr.
      destruct (digit_val c) as [v|]; [|done]. destruct (Z.ltb_spec v 10); [done|].
      by destruct (Z.ltb_spec v 8); [lia|].
Qed.

(** Hexadecimal with the prefix [0x], in base 0 or 16. *)
Lemma scan_number_0x base n z rest :
  0 <= z < 16 ^ Z.of_nat n -> (0 < n)%nat -> base = 0 \/ base = 16 ->
  starts_with_digit 16 rest = false ->
  scan_number base (str "0x" ++ to_digits n 16 z ++ rest) = Some (false, z, rest).
Proof.
  intros Hz Hn Hbase Hr. unfold scan_number.
  destruct (to_digits_head 16 ltac:(lia) n z Hz Hn) as (d & ds & E & Hd & _ & _).
  assert (starts_with_digit 16 (to_digits n 16 z ++ rest) = true) as Hst.
  { rewrite E. cbn [app starts_with_digit]. apply digit_step; lia. }
  change (str "0x") with [Byte.x30; Byte.x78]. cbn [app].
  replace (scan_sign (skip_spaces (Byte.x30 :: Byte.x78 :: to_digits n 16 z ++ rest)))
    with (false, Byte.x30 :: Byte.x78 :: to_digits n 16 z ++ rest) by reflexivity.
  replace (scan_prefix base (Byte.x30 :: Byte.x78 :: to_digits n 16 z ++ rest))
    with (16, to_digits n 16 z ++ rest).
  - rewrite Hst. by rewrite scan_printed.
  - cbn -[starts_with_digit]. rewrite Hst. by destruct Hbase as [->| ->].
Qed.

Lemma to_ull_small v : is_u64 v -> to_ull false v = v.
Proof. unfold is_u64, to_ull, ULLONG_MAX. intros. destruct (Z.ltb_spec (2 ^ 64 - 1) v); lia. Qed.

(** [%u] and [%zx] read back what was printed. *)
Lemma convert_u z rest : is_u32 z -> starts_with_digit 10 rest = false -> not_x rest ->
  convert ConvU (print_u z ++ rest) = Some (z, rest).
Proof.
  unfold is_u32. intros Hz Hr Hx. unfold convert, print_u.
  rewrite (scan_number_printed 10 10) by (done || lia || (change (10 ^ Z.of_nat 64) with (10 ^ 64); lia) || auto).
  rewrite to_ull_small by (unfold is_u64; lia). by rewrite u32_small.
Qed.

Lemma convert_zx z rest : is_u64 z -> starts_with_digit 16 rest = false -> not_x rest ->
  convert ConvZX (print_zx z ++ rest) = Some (z, rest).
Proof.
  unfold is_u64. intros Hz Hr Hx. unfold convert, print_zx.
  rewrite (scan_number_printed 16 16) by (done || lia || (change (16 ^ Z.of_nat 64) with (16 ^ 64); lia) || auto).
  by rewrite to_ull_small.
Qed.
