(* ===== verification/Config.v ===== *)
(** * Configuration

    How uhyve finds out what to run: the environment variables read by
    [env_init] and [main] (src/main.c), [memparse] and the choice between
    migration, checkpoint and normal start in [uhyve_init] (src/uhyve.c), and the
    file checkpoint/chk_config.txt, written by [timer_handler]
    (src/uhyve-x86_64.c) and read by [uhyve_init]. *)

From S2P Require Import Prelude CLib.

(** An environment: [getenv]. *)
Definition environment := string -> option (list byte).

(** ** Memory sizes *)

(** The suffix letter selects how many of the falling-through cases
    [size <<= 10] are executed. *)
Definition suffix_shifts (c : byte) : nat :=
  let z := char c in
  let letter l := (z =? l) || (z =? l + 32) in
  if letter 69 then 6 (* E *) else if letter 80 then 5 (* P *) else if letter 84 then 4 (* T *)
  else if letter 71 then 3 (* G *) else if letter 77 then 2 (* M *) else if letter 75 then 1 (* K *) else 0.

Definition memparse (ptr : list byte) : Z :=
  let '(size, endptr) := strtoull ptr 0 in
  match endptr with
  | [] => size
  | c :: _ => Nat.iter (suffix_shifts c) (fun size => u64 (Z.shiftl size 10)) size
  end.

(** ** What uhyve runs *)

Record config := mkconfig {
  ncores : Z;
  guest_size : Z;
  no_checkpoint : Z;
  elf_entry : Z;
  full_checkpoint : bool
}.

Definition default_config : config := mkconfig 1 0x20000000 0 0 false.

(** How the guest's memory is filled. *)
Inductive startup := FromMigration | FromCheckpoint | FromKernel.

Definition set_ncores (c : config) n := mkconfig n (guest_size c) (no_checkpoint c) (elf_entry c) (full_checkpoint c).
Definition set_guest_size (c : config) n := mkconfig (ncores c) n (no_checkpoint c) (elf_entry c) (full_checkpoint c).
Definition set_no_checkpoint (c : config) n := mkconfig (ncores c) (guest_size c) n (elf_entry c) (full_checkpoint c).
Definition set_elf_entry (c : config) n := mkconfig (ncores c) (guest_size c) (no_checkpoint c) n (full_checkpoint c).
Definition set_full (c : config) b := mkconfig (ncores c) (guest_size c) (no_checkpoint c) (elf_entry c) b.

(** A call of [fscanf] with one conversion stores its value, if it gets one. *)
Definition scan1 (set : config -> Z -> config) (fmt : list byte) (st : config * list byte)
  : config * list byte :=
  let '(c, f) := st in
  match fscanf fmt f with
  | (v :: _, f) => (set c v, f)
  | ([], f) => (c, f)
  end.

Definition fmt_ncores : list byte := str "number of cores: %u" ++ [NL].
Definition fmt_size : list byte := str "memory size: 0x%zx" ++ [NL].
Definition fmt_number : list byte := str "checkpoint number: %u" ++ [NL].
Definition fmt_entry : list byte := str "entry point: 0x%zx".
Definition fmt_full : list byte := str "full checkpoint: %d".

(** [uhyve_init] on checkpoint/chk_config.txt; [tmp] is 0 unless it is read. *)
Definition read_chk_config (c : config) (f : list byte) : config :=
  let '(c, f) := scan1 set_ncores fmt_ncores (c, f) in
  let '(c, f) := scan1 set_guest_size fmt_size (c, f) in
  let '(c, f) := scan1 set_no_checkpoint fmt_number (c, f) in
  let '(c, f) := scan1 set_elf_entry fmt_entry (c, f) in
  let tmp := match fscanf fmt_full f with (v :: _, _) => v | ([], _) => 0 end in
  set_full c (negb (tmp =? 0)).

(** [timer_handler] on the same file. *)
Definition write_chk_config (c : config) : list byte :=
  str "number of cores: " ++ print_u (ncores c) ++ [NL] ++
  str "memory size: 0x" ++ print_zx (guest_size c) ++ [NL] ++
  str "checkpoint number: " ++ print_u (no_checkpoint c) ++ [NL] ++
  str "entry point: 0x" ++ print_zx (elf_entry c) ++ [NL] ++
  str "full checkpoint: " ++ (if full_checkpoint c then str "1" else str "0").

(** What a migration source sends first. *)
Record migration_metadata := mkmetadata {
  m_ncores : Z;
  m_guest_size : Z;
  m_no_checkpoint : Z;
  m_elf_entry : Z;
  m_full_checkpoint : bool
}.

(** The three startups of [uhyve_init]: an incoming migration (whose metadata
    [wait_for_incomming_migration] delivers), an existing checkpoint, a normal
    run. *)
Definition uhyve_init_config (getenv : environment) (metadata : migration_metadata)
    (chk_config : option (list byte)) (c : config) : startup * config :=
  match getenv "HERMIT_MIGRATION_SERVER" with
  | Some _ =>
      (FromMigration,
       mkconfig (m_ncores metadata) (m_guest_size metadata) (no_checkpoint c)
         (m_elf_entry metadata) (m_full_checkpoint metadata))
  | None =>
      match chk_config with
      | Some f => (FromCheckpoint, read_chk_config c f)
      | None =>
          let c := match getenv "HERMIT_MEM" with
                   | Some m => set_guest_size c (memparse m) | None => c end in
          let c := match getenv "HERMIT_CPUS" with
                   | Some n => set_ncores c (u32 (atoi n)) | None => c end in
          let c := match getenv "HERMIT_FULLCHECKPOINT" with
                   | Some s => if decide (s = str "0") then c else set_full c true
                   | None => c end in
          (FromKernel, c)
      end
  end.

(** ** The program's own settings *)

Definition HERMIT_PORT : Z := 0x494E.
Definition UINT16_MAX : Z := 65535.

(** [env_init] after the signal handlers are installed. *)
Definition env_port (getenv : environment) (port : Z) : Z :=
  match getenv "HERMIT_PORT" with
  | Some s =>
      let port := u32 (atoi s) in
      if (port =? 0) || (UINT16_MAX <=? port) then HERMIT_PORT else port
  | None => port
  end.

(** [main]: anything but ["0"] is verbose. *)
Definition main_verbose (getenv : environment) : bool :=
  match getenv "HERMIT_VERBOSE" with
  | Some v => if decide (v = str "0") then false else true
  | None => false
  end.

(** [uhyve_loop]: the seconds between checkpoints (none unless positive) and
    whether gdb is enabled. *)
Definition checkpoint_interval (getenv : environment) : Z :=
  match getenv "HERMIT_CHECKPOINT" with Some s => atoi s | None => 0 end.
Definition gdb_enabled (getenv : environment) : bool :=
  match getenv "HERMIT_DEBUG" with Some s => negb (atoi s =? 0) | None => false end.

(** ** Correctness *)

Lemma iter_shift10 k : forall n,
  Nat.iter k (fun size => u64 (Z.shiftl size 10)) (u64 n) = u64 (n * 1024 ^ Z.of_nat k).
Proof.
  induction k as [|k IH]; intros n; [by rewrite Z.mul_1_r|].
  rewrite Nat2Z.inj_succ, Z.pow_succ_r by lia. cbn [Nat.iter nat_rect].
  change (nat_rect _ (u64 n) _ k) with (Nat.iter k (fun size => u64 (Z.shiftl size 10)) (u64 n)).
  rewrite IH, Z.shiftl_mul_pow2 by lia. unfold u64. rewrite Z.mul_mod_idemp_l by lia. f_equal. lia.
Qed.

(** The suffixes, in either case. *)
Definition memory_suffix : list (byte * nat) :=
  [(Byte.x6b, 1%nat); (Byte.x4b, 1%nat); (Byte.x6d, 2%nat); (Byte.x4d, 2%nat);
   (Byte.x67, 3%nat); (Byte.x47, 3%nat); (Byte.x74, 4%nat); (Byte.x54, 4%nat);
   (Byte.x70, 5%nat); (Byte.x50, 5%nat); (Byte.x65, 6%nat); (Byte.x45, 6%nat)].

(** C30. [memparse] reads memory sizes.  A number printed in decimal, or in
    hexadecimal after [0x], is read as itself when it ends the string, and
    followed by one of k, M, G, T, P, E (in either case) as the number times the
    power of 1024, reduced to 64 bits; what follows the suffix is ignored.  In
    hexadecimal [E] is a digit and no suffix. *)
Theorem memparse_spec n c k rest :
  is_u64 n -> (c, k) ∈ memory_suffix ->
  memparse (print_u n) = n /\
  memparse (str "0x" ++ print_zx n) = n /\
  memparse (print_u n ++ c :: rest) = u64 (n * 1024 ^ Z.of_nat k) /\
  ((k < 6)%nat -> memparse (str "0x" ++ print_zx n ++ c :: rest) = u64 (n * 1024 ^ Z.of_nat k)).
Proof.
  intros Hn Hc.
  assert (starts_with_digit 10 (c :: rest) = false /\ not_x (c :: rest) /\ suffix_shifts c = k /\
    ((k < 6)%nat -> starts_with_digit 16 (c :: rest) = false)) as (H10 & Hx & Hk & H16).
  { unfold memory_suffix in Hc. repeat (apply elem_of_cons in Hc as [Hc|Hc];
      [injection Hc as -> ->; repeat split; try done; cbn; lia|]). by apply elem_of_nil in Hc. }
  unfold is_u64 in Hn.
  assert (0 <= n < 10 ^ Z.of_nat 64) by (change (10 ^ Z.of_nat 64) with (10 ^ 64); lia).
  assert (0 <= n < 16 ^ Z.of_nat 64) by (change (16 ^ Z.of_nat 64) with (16 ^ 64); lia).
  assert (forall r, starts_with_digit 10 r = false -> not_x r ->
    strtoull (print_u n ++ r) 0 = (n, r)) as Hdec.
  { intros r Hr Hxr. unfold strtoull, print_u.
    rewrite (scan_number_printed 10 0) by (done || lia || auto). by rewrite to_ull_small. }
  assert (forall r, starts_with_digit 16 r = false ->
    strtoull (str "0x" ++ print_zx n ++ r) 0 = (n, r)) as Hhex.
  { intros r Hr. unfold strtoull, print_zx. rewrite scan_number_0x by (done || lia || auto).
    by rewrite to_ull_small. }
  unfold memparse. split; [|split; [|split]].
  - rewrite <- (app_nil_r (print_u n)). by rewrite Hdec.
  - rewrite <- (app_nil_r (print_zx n)). by rewrite Hhex.
  - rewrite Hdec, Hk by done. rewrite <- (u64_small n) at 1 by done. apply iter_shift10.
  - intros Hlt. rewrite Hhex, Hk by auto. rewrite <- (u64_small n) at 1 by done. apply iter_shift10.
Qed.

Lemma memparse_spec_witness : memparse (str "512M") = 0x20000000.
Proof.
  destruct (memparse_spec 512 Byte.x4d 2 []) as (_ & _ & H & _).
  - unfold is_u64. lia.
  - apply (bool_decide_unpack _). vm_compute. exact I.
  - exact H.
Defined.

(** *** The checkpoint's configuration file *)

Definition config_ok (c : config) : Prop :=
  is_u32 (ncores c) /\ is_u64 (guest_size c) /\ is_u32 (no_checkpoint c) /\ is_u64 (elf_entry c).

Lemma lit_step c ds s : scan_directives (FLit c :: ds) (c :: s) = scan_directives ds s.
Proof. cbn. by rewrite decide_True. Qed.

Lemma print_u_plain z rest : is_u32 z -> skip_spaces (print_u z ++ rest) = print_u z ++ rest.
Proof.
  unfold is_u32, print_u. intros Hz.
  destruct (to_digits_head 10 ltac:(lia) 64 z) as (d & ds & -> & Hd & _);
    [change (10 ^ Z.of_nat 64) with (10 ^ 64); lia|lia|].
  pose proof (digit_plain d (ds ++ rest) ltac:(lia)) as H.
  cbn [app skip_spaces] in *. unfold isspace in *. rewrite digit_char_char in * by lia.
  destruct (Z.ltb_spec d 10); zbool; lia || done.
Qed.

Lemma space_step b c ds s : isspace b = true -> isspace c = false ->
  scan_directives (FSpace :: ds) (b :: c :: s) = scan_directives ds (c :: s).
Proof. intros Hb Hc. cbn. by rewrite Hb, Hc. Qed.

Lemma space_number_u b z ds rest : isspace b = true -> is_u32 z ->
  scan_directives (FSpace :: ds) (b :: print_u z ++ rest) = scan_directives ds (print_u z ++ rest).
Proof. intros Hb Hz. cbn [scan_directives skip_spaces]. by rewrite Hb, print_u_plain. Qed.

Ltac scan_label :=
  unfold fscanf;
  match goal with |- context [parse_format ?f] =>
    let r := eval vm_compute in (parse_format f) in change (parse_format f) with r end;
  repeat match goal with |- context [str ?t] =>
    let r := eval vm_compute in (str t) in change (str t) with r end;
  cbn [app]; repeat first [rewrite lit_step | rewrite space_step by done].

Lemma scan_ncores z rest : is_u32 z -> skip_spaces rest = rest ->
  fscanf fmt_ncores (str "number of cores: " ++ print_u z ++ [NL] ++ rest) = ([z], rest).
Proof.
  intros Hz Hc. scan_label. rewrite space_number_u by done. cbn [scan_directives].
  rewrite convert_u by done. change (skip_spaces (NL :: rest)) with (skip_spaces rest). by rewrite Hc.
Qed.

Lemma scan_number z rest : is_u32 z -> skip_spaces rest = rest ->
  fscanf fmt_number (str "checkpoint number: " ++ print_u z ++ [NL] ++ rest) = ([z], rest).
Proof.
  intros Hz Hc. scan_label. rewrite space_number_u by done. cbn [scan_directives].
  rewrite convert_u by done. change (skip_spaces (NL :: rest)) with (skip_spaces rest). by rewrite Hc.
Qed.

Lemma scan_size z rest : is_u64 z -> skip_spaces rest = rest ->
  fscanf fmt_size (str "memory size: 0x" ++ print_zx z ++ [NL] ++ rest) = ([z], rest).
Proof.
  intros Hz Hc. scan_label. cbn [scan_directives].
  rewrite convert_zx by done. change (skip_spaces (NL :: rest)) with (skip_spaces rest). by rewrite Hc.
Qed.

Lemma scan_entry z rest : is_u64 z ->
  fscanf fmt_entry (str "entry point: 0x" ++ print_zx z ++ [NL] ++ rest) = ([z], NL :: rest).
Proof.
  intros Hz. scan_label. cbn [scan_directives]. by rewrite convert_zx.
Qed.

Lemma read_write_chk_config c0 c :
  config_ok c -> read_chk_config c0 (write_chk_config c) = set_full c false.
Proof.
  intros (Hn & Hs & Hc & He). unfold read_chk_config, write_chk_config, scan1.
  rewrite scan_ncores by done. cbn beta iota.
  rewrite scan_size by done. cbn beta iota.
  rewrite scan_number by done. cbn beta iota.
  rewrite scan_entry by done. cbn beta iota.
  by destruct c as [? ? ? ? []].
Qed.

(** C29. The configuration of a checkpoint is restored, but for one field.
    Reading the file that [timer_handler] wrote gives back the number of cores,
    the memory size, the checkpoint number and the entry point, whatever the
    reader's variables held; but the newline written after the entry point is
    not read, the label of the last line does not match it, and
    [full_checkpoint] is false after every restart. *)
Theorem chk_config_restored c0 c :
  config_ok c -> read_chk_config c0 (write_chk_config c) = set_full c false.
Proof. apply read_write_chk_config. Qed.

Definition full_config : config := mkconfig 4 0x20000000 3 0x800000 true.

Lemma chk_config_restored_witness :
  read_chk_config default_config (write_chk_config full_config) = set_full full_config false /\
  full_checkpoint full_config = true.
Proof.
  split; [|reflexivity]. apply (chk_config_restored default_config full_config).
  unfold config_ok, is_u32, is_u64. cbn. lia.
Defined.
