(* ===== verification/Utils.v ===== *)
(** * Helpers of src/utils.c

    [get_cpufreq] with [get_frequency_from_brand], which finds the frequency of
    the processor for the boot information, and [pread_in_full], which the
    kernel loader reads the image with. *)

From S2P Require Import Prelude CLib.

(** ** The frequency in the brand string *)

(** Leaves 0x80000002 to 0x80000004 of [cpuid] (the registers a, b, c, d of a
    leaf) are the 48 bytes of the brand string; the array is one byte longer. *)
Definition leaf_bytes (leaf : Z * Z * Z * Z) : list byte :=
  let '(a, b, c, d) := leaf in le_split 4 a ++ le_split 4 b ++ le_split 4 c ++ le_split 4 d.

Definition brand_string (cpuid : Z -> Z * Z * Z * Z) : list byte :=
  leaf_bytes (cpuid 0x80000002) ++ leaf_bytes (cpuid 0x80000003) ++
  leaf_bytes (cpuid 0x80000004) ++ [NUL].

Definition char_at (s : list byte) (i : Z) : outcome byte :=
  if i <? 0 then Undefined
  else match s !! Z.to_nat i with Some c => OK c | None => Undefined end.

(** [(uint32_t)(c - '0')] of a signed [char]. *)
Definition digit_u32 (c : byte) : Z := u32 (signed 8 (char c) - 48).

Definition is_char (c : byte) (z : Z) : bool := char c =? z.

(** The frequency in MHz that ends before [index]: x.xx or xxxx. *)
Definition frequency_before (cpu_brand : list byte) (index multiplier : Z) : outcome Z :=
  c3 ← char_at cpu_brand (index - 3);
  c4 ← char_at cpu_brand (index - 4);
  c2 ← char_at cpu_brand (index - 2);
  c1 ← char_at cpu_brand (index - 1);
  if is_char c3 46 then
    OK (u32 (u32 (u32 (digit_u32 c4 * multiplier) + digit_u32 c2 * (multiplier / 10))
             + digit_u32 c1 * (multiplier / 100)))
  else
    OK (u32 (u32 (digit_u32 c4 * 1000 + digit_u32 c3 * 100 + digit_u32 c2 * 10 + digit_u32 c1)
             * multiplier)).

(** One iteration of the search: [Hz] after M, G or T. *)
Definition brand_body (cpu_brand : list byte) (index : Z) : outcome (Z + Z) :=
  if index <? Z.of_nat (length cpu_brand) - 2 then
    h ← char_at cpu_brand (index + 1);
    z ← char_at cpu_brand (index + 2);
    m ← char_at cpu_brand index;
    let multiplier :=
      if is_char h 72 && is_char z 122 then
        if is_char m 77 then 1 else if is_char m 71 then 1000
        else if is_char m 84 then 1000000 else 0
      else 0 in
    if 0 <? multiplier
    then freq ← frequency_before cpu_brand index multiplier; OK (inr freq)
    else OK (inl (index + 1))
  else OK (inr 0).

(** The loop runs at most 48 times. *)
Definition BRAND_FUEL : nat := 64.

Definition get_frequency_from_brand (cpuid : Z -> Z * Z * Z * Z) : outcome Z :=
  let '(extended, _, _, _) := cpuid 0x80000000 in
  if extended <? 0x80000004 then OK 0
  else while BRAND_FUEL (brand_body (brand_string cpuid)) 0.

(** ** The other sources of the frequency *)

Fixpoint skip_to_digit (s : list byte) : list byte :=
  match s with
  | c :: s' => if isdigit c then s else skip_to_digit s'
  | [] => []
  end.

(** /proc/cpuinfo, line by line (128-byte buffer): the first line with
    [cpu MHz]. *)
Fixpoint scan_cpuinfo (fuel : nat) (f : list byte) : outcome Z :=
  match fuel with
  | O => OutOfFuel
  | S fuel =>
      match fgets 127 f with
      | None => OK 0
      | Some (line, f) =>
          match strstr line (str "cpu MHz") with
          | Some m => OK (u32 (atoi (skip_to_digit m)))
          | None => scan_cpuinfo fuel f
          end
      end
  end.

(** [max_freq] and [cpuinfo] are the contents of the two files, if they can be
    opened. *)
Definition get_cpufreq (cpuid : Z -> Z * Z * Z * Z) (max_freq cpuinfo : option (list byte))
  : outcome Z :=
  freq ← get_frequency_from_brand cpuid;
  if 0 <? freq then OK freq
  else match max_freq with
  | Some f =>
      match fgets 127 f with
      | Some (line, _) => OK (u32 (atoi line) / 1000)
      | None => OK 0
      end
  | None =>
      match cpuinfo with
      | Some f => scan_cpuinfo (S (length f)) f
      | None => OK 0
      end
  end.

(** ** Reading a file in full *)

Definition SSIZE_MAX : Z := 2 ^ 63 - 1.

(** What one [pread] does. *)
Inductive read_result := Bytes (bs : list byte) | Interrupted | ReadError.

Section Pread.
Context {F : Type} (pread : F -> Z -> Z -> read_result * F) (fuel : nat).

(** [pread f count offset] reads at most [count] bytes at [offset]; the state
    [f] stands for what decides how many.  The loop stores what it reads one
    after the other; the result is those bytes and the return value. *)
Definition pread_in_full (f : F) (count offset : Z) : outcome (Z * list byte * F) :=
  if SSIZE_MAX <? count then OK (-1, [], f)
  else while fuel (fun '(buf, count, offset, f) =>
    if 0 <? count then
      match pread f count offset with
      | (Bytes [], f) => OK (inr (Z.of_nat (length buf), buf, f))
      | (Bytes bs, f) =>
          let nr := Z.of_nat (length bs) in
          OK (inl (buf ++ bs, count - nr, offset + nr, f))
      | (Interrupted, f) => OK (inl (buf, count, offset, f))
      | (ReadError, f) => OK (inr (-1, buf, f))
      end
    else OK (inr (Z.of_nat (length buf), buf, f))) ([], count, offset, f).
End Pread.

(** ** Correctness *)

Lemma char_at_lookup s k c i : s !! k = Some c -> i = Z.of_nat k -> char_at s i = OK c.
Proof. intros E ->. unfold char_at. destruct (Z.ltb_spec (Z.of_nat k) 0); [lia|]. by rewrite Nat2Z.id, E. Qed.

Lemma length_brand cpuid : length (brand_string cpuid) = 49%nat.
Proof.
  unfold brand_string, leaf_bytes.
  destruct (cpuid 0x80000002) as [[[? ?] ?] ?], (cpuid 0x80000003) as [[[? ?] ?] ?],
    (cpuid 0x80000004) as [[[? ?] ?] ?]. by rewrite !length_app, !length_le_split.
Qed.

Definition digit_byte (d : Z) : byte := byte.of_Z (48 + d).

Lemma digit_byte_u32 d : 0 <= d < 10 -> digit_u32 (digit_byte d) = d.
Proof.
  intros Hd. unfold digit_u32, digit_byte, char. rewrite byte_unsigned_of_small by lia.
  rewrite signed_small by lia. unfold u32. rewrite Z.mod_small; lia.
Qed.

(** Positions before the first [Hz] are passed over. *)
Lemma brand_skips s i n :
  (forall j, i <= Z.of_nat j < i + Z.of_nat n -> s !! (j + 1)%nat = Some Byte.x48 ->
     s !! (j + 2)%nat <> Some Byte.x7a) ->
  0 <= i -> i + Z.of_nat n + 2 <= Z.of_nat (length s) ->
  forall fuel, while (n + fuel) (brand_body s) i = while fuel (brand_body s) (i + Z.of_nat n).
Proof.
  revert i. induction n as [|n IH]; intros i Hno Hi Hlen fuel; [f_equal; lia|].
  change (S n + fuel)%nat with (S (n + fuel))%nat. rewrite while_S.
  assert (brand_body s i = OK (inl (i + 1))) as ->.
  { unfold brand_body. destruct (Z.ltb_spec i (Z.of_nat (length s) - 2)); [|lia].
    destruct (lookup_lt_is_Some_2 s (Z.to_nat i)) as [m Hm]; [lia|].
    destruct (lookup_lt_is_Some_2 s (Z.to_nat i + 1)) as [h Hh]; [lia|].
    destruct (lookup_lt_is_Some_2 s (Z.to_nat i + 2)) as [z Hz]; [lia|].
    rewrite (char_at_lookup _ _ _ (i + 1) Hh), (char_at_lookup _ _ _ (i + 2) Hz),
      (char_at_lookup _ _ _ i Hm), !bind_OK by lia.
    unfold is_char. destruct (Z.eqb_spec (char h) 72) as [Eh|], (Z.eqb_spec (char z) 122) as [Ez|]; try done.
    destruct (Hno (Z.to_nat i) ltac:(lia)).
    - rewrite Hh. f_equal. unfold char in *. by rewrite <- (byte_of_unsigned h), Eh.
    - rewrite Hz. f_equal. unfold char in *. by rewrite <- (byte_of_unsigned z), Ez. }
  rewrite bind_OK, IH; [f_equal; lia| |lia|lia].
  intros j Hj. apply Hno. lia.
Qed.

(** Six characters in front of [Hz] and what they make the loop do. *)
Lemma brand_found cpuid pre x1 x2 x3 x4 unit post mult :
  brand_string cpuid = pre ++ [x1; x2; x3; x4; unit; Byte.x48; Byte.x7a] ++ post ->
  (cpuid 0x80000000).1.1.1 >= 0x80000004 ->
  (unit, mult) ∈ [(Byte.x47, 1000); (Byte.x54, 1000000); (Byte.x4d, 1)] ->
  (forall i, (i < length pre + 4)%nat -> brand_string cpuid !! (i + 1)%nat = Some Byte.x48 ->
     brand_string cpuid !! (i + 2)%nat <> Some Byte.x7a) ->
  get_frequency_from_brand cpuid =
    OK (if is_char x2 46
        then u32 (u32 (u32 (digit_u32 x1 * mult) + digit_u32 x3 * (mult / 10)) + digit_u32 x4 * (mult / 100))
        else u32 (u32 (digit_u32 x1 * 1000 + digit_u32 x2 * 100 + digit_u32 x3 * 10 + digit_u32 x4) * mult)).
Proof.
  intros Hs Hext Hu Hno. unfold get_frequency_from_brand.
  pose proof (length_brand cpuid) as Hlen.
  assert (forall k x, [x1; x2; x3; x4; unit; Byte.x48; Byte.x7a] !! k = Some x ->
    forall i, i = Z.of_nat (length pre) + Z.of_nat k -> char_at (brand_string cpuid) i = OK x) as Hat.
  { intros k x Hk i ->. apply (char_at_lookup _ (length pre + k)); [|lia].
    rewrite Hs, lookup_app_r, Nat.add_sub_swap, Nat.sub_diag by lia.
    by apply lookup_app_l_Some. }
  assert (length pre <= 42)%nat as Hpre.
  { rewrite Hs, !length_app in Hlen. cbn in Hlen. lia. }
  destruct (cpuid 0x80000000) as [[[ext ?] ?] ?]. cbn [fst] in Hext.
  destruct (Z.ltb_spec ext 0x80000004); [lia|].
  replace BRAND_FUEL with (length pre + 4 + S (59 - length pre))%nat by (unfold BRAND_FUEL; lia).
  rewrite brand_skips; [|intros j Hj; apply Hno; lia|lia|lia].
  rewrite while_S. unfold brand_body.
  rewrite Hlen. set (i0 := 0 + Z.of_nat (length pre + 4)).
  destruct (Z.ltb_spec i0 (Z.of_nat 49 - 2)); [|lia].
  rewrite (Hat 5%nat Byte.x48 eq_refl (i0 + 1)), (Hat 6%nat Byte.x7a eq_refl (i0 + 2)),
    (Hat 4%nat unit eq_refl i0), !bind_OK by lia.
  change (is_char Byte.x48 72 && is_char Byte.x7a 122) with true.
  cbn match.
  assert ((if is_char unit 77 then 1 else if is_char unit 71 then 1000
    else if is_char unit 84 then 1000000 else 0) = mult /\ 0 < mult) as [-> Hm].
  { repeat (apply elem_of_cons in Hu as [Hu|Hu]; [by injection Hu as -> ->|]). by apply elem_of_nil in Hu. }
  destruct (Z.ltb_spec 0 mult); [|lia]. unfold frequency_before.
  rewrite (Hat 1%nat x2 eq_refl (i0 - 3)), (Hat 0%nat x1 eq_refl (i0 - 4)),
    (Hat 2%nat x3 eq_refl (i0 - 2)), (Hat 3%nat x4 eq_refl (i0 - 1)) by lia.
  rewrite !bind_OK. by destruct (is_char x2 46).
Qed.

(** The brand string gives the frequency.  If the first [Hz] of the
    processor's brand string follows a number d.dd and the letter M, G or T, the
    result is that number of MHz, GHz or THz in MHz, without overflow; after a
    four-digit number it is that number, reduced to 32 bits. *)
Theorem get_frequency_from_brand_spec cpuid pre a b c d post unit mult :
  (cpuid 0x80000000).1.1.1 >= 0x80000004 ->
  0 <= a < 10 -> 0 <= b < 10 -> 0 <= c < 10 -> 0 <= d < 10 ->
  (unit, mult) ∈ [(Byte.x47, 1000); (Byte.x54, 1000000); (Byte.x4d, 1)] ->
  (forall i, (i < length pre + 4)%nat -> brand_string cpuid !! (i + 1)%nat = Some Byte.x48 ->
     brand_string cpuid !! (i + 2)%nat <> Some Byte.x7a) ->
  (brand_string cpuid =
     pre ++ [digit_byte a; Byte.x2e; digit_byte c; digit_byte d; unit; Byte.x48; Byte.x7a] ++ post ->
   get_frequency_from_brand cpuid = OK (a * mult + c * (mult / 10) + d * (mult / 100))) /\
  (brand_string cpuid =
     pre ++ [digit_byte a; digit_byte b; digit_byte c; digit_byte d; unit; Byte.x48; Byte.x7a] ++ post ->
   get_frequency_from_brand cpuid = OK (u32 ((a * 1000 + b * 100 + c * 10 + d) * mult))).
Proof.
  intros Hext Ha Hb Hc Hd Hu Hno.
  assert (0 < mult <= 1000000 /\ 0 <= mult / 10 <= 100000 /\ 0 <= mult / 100 <= 10000) as (Hm & H10 & H100).
  { repeat (apply elem_of_cons in Hu as [Hu|Hu]; [injection Hu as -> ->; vm_compute; intuition congruence|]). by apply elem_of_nil in Hu. }
  split; intros Hs; rewrite (brand_found _ _ _ _ _ _ _ _ _ Hs Hext Hu Hno), !digit_byte_u32 by done.
  - change (is_char Byte.x2e 46) with true. cbn match.
    rewrite (u32_small (a * mult)) by (unfold is_u32; nia).
    rewrite (u32_small (a * mult + _)) by (unfold is_u32; nia).
    by rewrite u32_small by (unfold is_u32; nia).
  - assert (is_char (digit_byte b) 46 = false) as ->.
    { unfold is_char, char, digit_byte. rewrite byte_unsigned_of_small by lia. zbool; lia || done. }
    do 2 f_equal. by rewrite u32_small by (unfold is_u32; lia).
Qed.

(** An example: the brand string of a 3.40 GHz processor. *)
Definition brand_words (s : list byte) (leaf : Z) : Z * Z * Z * Z :=
  let w k := le_combine (take 4 (drop (4 * k) s)) in
  if leaf =? 0x80000000 then (0x80000008, 0, 0, 0)
  else let k := (4 * Z.to_nat (leaf - 0x80000002))%nat in (w k, w (k + 1)%nat, w (k + 2)%nat, w (k + 3)%nat).
Definition example_brand : list byte := str "Intel(R) Core(TM) i7-3770 CPU @ 3.40GHz" ++ replicate 9 NUL.

Lemma get_frequency_from_brand_spec_witness :
  get_frequency_from_brand (brand_words example_brand) = OK 3400.
Proof.
  destruct (get_frequency_from_brand_spec (brand_words example_brand)
    (str "Intel(R) Core(TM) i7-3770 CPU @ ") 3 0 4 0 (replicate 10 NUL) Byte.x47 1000) as [H _];
    try lia.
  - vm_compute. congruence.
  - apply (bool_decide_unpack _). vm_compute. exact I.
  - intros i Hi. cbn in Hi. do 36 (destruct i as [|i]; [vm_compute; congruence|]). lia.
  - rewrite H by (vm_compute; reflexivity). vm_compute. reflexivity.
Defined.

(** Without four characters in front of it the frequency is read from in front
    of the array. *)
Lemma short_brand_undefined :
  get_frequency_from_brand (brand_words (str "9GHz" ++ replicate 44 NUL)) = Undefined.
Proof. vm_compute. reflexivity. Qed.

(** *** Reading in full *)

(** A regular file with this content: every [pread] delivers some of the bytes
    at the offset, at the end of the file none, and is interrupted at most
    [interrupts f] more times. *)
Record regular_file {F} (pread : F -> Z -> Z -> read_result * F) (content : list byte)
    (interrupts : F -> nat) : Prop := {
  pread_spec : forall f count offset, 0 < count -> 0 <= offset ->
    (exists k f', pread f count offset = (Bytes (take k (drop (Z.to_nat offset) content)), f') /\
       Z.of_nat k <= count /\ (interrupts f' <= interrupts f)%nat /\
       (Z.to_nat offset < length content -> 0 < k)%nat) \/
    (exists f', pread f count offset = (Interrupted, f') /\ (interrupts f' < interrupts f)%nat)
}.

Lemma take_length_take (k : nat) (l : list byte) : take (length (take k l)) l = take k l.
Proof.
  rewrite length_take. destruct (Nat.min_spec k (length l)) as [[? ->]|[? ->]]; [done|].
  by rewrite firstn_all, take_ge.
Qed.

Lemma pread_in_full_ok {F} (pread : F -> Z -> Z -> read_result * F) content interrupts f count offset fuel :
  regular_file pread content interrupts ->
  0 <= count <= SSIZE_MAX -> 0 <= offset ->
  (Z.to_nat count + interrupts f + 1 < fuel)%nat ->
  let bytes := take (Z.to_nat count) (drop (Z.to_nat offset) content) in
  exists f', pread_in_full pread fuel f count offset = OK (Z.of_nat (length bytes), bytes, f') /\
    (interrupts f' <= interrupts f)%nat.
Proof.
  intros Hfile Hc Ho Hfuel bytes. unfold pread_in_full.
  destruct (Z.ltb_spec SSIZE_MAX count); [lia|].
  match goal with |- context [while _ ?b _] => set (body := b) end.
  destruct (while_total body
    (fun '(buf, n, off, g) => 0 <= n /\ Z.of_nat (length buf) + n = count /\ off = offset + Z.of_nat (length buf) /\
       buf = take (length buf) (drop (Z.to_nat offset) content) /\
       (interrupts g <= interrupts f)%nat)
    (fun r => r.1 = (Z.of_nat (length bytes), bytes) /\ (interrupts r.2 <= interrupts f)%nat)
    (fun '(_, n, _, f) => Z.to_nat n + interrupts f)%nat) with (fuel := fuel) (s := (@nil byte, count, offset, f))
    as ([r f'] & E & Hr & Hi').
  - intros [[[buf n] off] g] (Hn & Hl & -> & Hbuf & Hg). unfold body.
    destruct (Z.ltb_spec 0 n).
    + destruct (pread_spec _ _ _ Hfile g n (offset + Z.of_nat (length buf)) ltac:(lia) ltac:(lia))
        as [(k & g' & -> & Hk & Hi & Hpos)|(g' & -> & Hi)].
      * assert (drop (Z.to_nat (offset + Z.of_nat (length buf))) content =
          drop (length buf) (drop (Z.to_nat offset) content)) as Hd.
        { rewrite drop_drop. f_equal. lia. }
        rewrite Hd. set (rest := drop (Z.to_nat offset) content) in *.
        destruct (take k (drop (length buf) rest)) as [|x xs] eqn:Et.
        -- eexists. split; [reflexivity|]. cbn.
           assert (length content <= Z.to_nat (offset + Z.of_nat (length buf)))%nat as Hend.
           { destruct (decide (Z.to_nat (offset + Z.of_nat (length buf)) < length content)%nat) as [Hlt|]; [|lia].
             specialize (Hpos Hlt). apply (f_equal length) in Et.
             rewrite length_take, length_drop in Et. unfold rest in Et. rewrite length_drop in Et. cbn in Et. lia. }
           assert (length rest <= length buf)%nat by (unfold rest; rewrite length_drop; lia).
           assert (buf = rest) as Er by (rewrite Hbuf at 1; by apply take_ge).
           assert (bytes = buf) as ->; [|split; [done|lia]]. rewrite Er. apply take_ge. rewrite <- Er. lia.
        -- assert (0 < length (x :: xs))%nat as Hx by (cbn; lia). rewrite <- Et in *. clear Et.
           assert (length (take k (drop (length buf) rest)) <= k)%nat by (rewrite length_take; lia).
           eexists. split; [reflexivity|]. split; [|lia].
           rewrite length_app. split; [lia|]. split; [lia|]. split; [lia|].
           rewrite Hbuf at 1. split; [|lia]. by rewrite <- take_take_drop, take_length_take.
      * eexists. split; [reflexivity|]. split; [|lia]. split; [done|]. split; [done|]. split; [done|]. split; [done|lia].
    + eexists. split; [reflexivity|]. cbn. assert (bytes = buf) as ->; [|done].
      unfold bytes. rewrite Hbuf at 1. f_equal. lia.
  - split; [lia|]. split; [cbn; lia|]. split; [cbn; lia|]. split; [done|lia].
  - lia.
  - exists f'. rewrite E. cbn in Hr. by rewrite Hr.
Qed.

(** C31. [pread_in_full] reads in full.  However the file system cuts the reads
    and however often they are interrupted, it terminates and returns the
    bytes from [offset] on, [count] of them or all up to the end of the file,
    with their number. *)
Theorem pread_in_full_spec {F} (pread : F -> Z -> Z -> read_result * F) content interrupts f count offset fuel :
  regular_file pread content interrupts ->
  0 <= count <= SSIZE_MAX -> 0 <= offset ->
  (Z.to_nat count + interrupts f + 1 < fuel)%nat ->
  let bytes := take (Z.to_nat count) (drop (Z.to_nat offset) content) in
  exists f', pread_in_full pread fuel f count offset = OK (Z.of_nat (length bytes), bytes, f') /\
    (interrupts f' <= interrupts f)%nat.
Proof. apply pread_in_full_ok. Qed.

(** A file read at most two bytes at a time, whose first read is interrupted. *)
Definition slow_pread (content : list byte) (first : bool) (count offset : Z) : read_result * bool :=
  if first then (Interrupted, false)
  else (Bytes (take (Nat.min 2 (Z.to_nat count)) (drop (Z.to_nat offset) content)), false).

Lemma slow_pread_regular content :
  regular_file (slow_pread content) content (fun first => if first then 1 else 0)%nat.
Proof.
  split. intros [] count offset Hc Ho; [right; exists false; split; [done|lia]|].
  left. exists (Nat.min 2 (Z.to_nat count)), false. split; [done|]. lia.
Qed.

Lemma pread_in_full_spec_witness :
  exists f', pread_in_full (slow_pread (str "hermit")) 9 true 5 2 = OK (4, str "rmit", f') /\ f' = f'.
Proof.
  destruct (pread_in_full_spec (slow_pread (str "hermit")) (str "hermit") _ true 5 2 9
    (slow_pread_regular _)) as (f' & E & _).
  - unfold SSIZE_MAX. lia.
  - lia.
  - vm_compute. lia.
  - exists f'. split; [exact E|reflexivity].
Defined.
