(* ===== verification/NetConfig.v ===== *)
(** * The network interface

    src/uhyve-net.c: attaching a TAP interface and choosing the guest's MAC
    address, which [hypercall_netinfo] hands to the guest.  The kernel's TAP
    driver and /dev/urandom are parameters. *)

From S2P Require Import Prelude CLib Config.

Open Scope uhyve_scope.

(** ** MAC addresses *)

Definition dehex (c : byte) : Z :=
  let z := char c in
  if (48 <=? z) && (z <=? 57) then z - 48
  else if (97 <=? z) && (z <=? 102) then 10 + (z - 97)
  else if (65 <=? z) && (z <=? 70) then 10 + (z - 65)
  else 0.

(** The loop that checks the address: [i] counts digits, [s] colons. *)
Fixpoint check_mac (v_macptr : list byte) (i s : Z) : Z * Z :=
  match v_macptr with
  | [] => (i, s)
  | c :: v_macptr =>
      if isxdigit c then check_mac v_macptr (i + 1) s
      else if char c =? 58 then
        if negb (i / 2 - 1 =? s) then (i, s + 1) else check_mac v_macptr i (s + 1)
      else check_mac v_macptr i (-1)
  end.

(** Six groups of two characters, each followed by one that is skipped. *)
Fixpoint parse_mac (n : nat) (hermit_mac : list byte) : outcome (list byte) :=
  match n with
  | O => OK []
  | S n =>
      match hermit_mac with
      | a :: b :: rest =>
          mac ← parse_mac n (drop 1 rest);
          OK (byte.of_Z (u8 (dehex a << 4) .| dehex b) :: mac)
      | _ => Undefined
      end
  end.

Definition valid_mac (macptr : list byte) : bool :=
  let '(i, s) := check_mac macptr 0 0 in (i =? 12) && (s =? 5).

(** A random address: not a group address, locally administered. *)
Definition local_mac (random : list byte) : list byte :=
  match random with
  | b :: rest => byte.of_Z ((char b .& 0xfe) .| 0x02) :: rest
  | [] => []
  end.

(** [urandom]: what [read] gets from /dev/urandom, [None] if it cannot be
    opened.  The 20-byte buffer keeps 19 characters of the variable. *)
Definition uhyve_set_mac (getenv : environment) (urandom : option (list byte)) : outcome (list byte) :=
  let random :=
    match urandom with
    | None => Exited 1
    | Some bs => _ ← assert_ (Nat.eqb (length bs) 6); OK (local_mac bs)
    end in
  match getenv "HERMIT_NETIF_MAC" with
  | Some str => if valid_mac str then parse_mac 6 (take 19 str) else random
  | None => random
  end.

(** ** The TAP device *)

Definition IFNAMSIZ : nat := 16.

(** The name in a fixed array of [IFNAMSIZ] bytes, as [strncmp] reads it. *)
Fixpoint array_name (a : list byte) : list byte :=
  match a with b :: a => if decide (b = NUL) then [] else b :: array_name a | [] => [] end.

Section Tap.
(** [fcntl(fd, F_SETFL, O_NONBLOCK)]; [open] of /dev/net/tun; [ioctl(fd,
    TUNSETIFF)] with the name asked for, giving the result and the name the
    driver filled in; whether a write of no bytes fails with [EIO]. *)
Context (fcntl_nonblock : Z -> Z) (open_tun : Z).
Context (tunsetiff : Z -> list byte -> Z * list byte) (write_eio : Z -> bool).

(** The file descriptor, or -1. *)
Definition attach_linux_tap (dev : list byte) : Z :=
  let tap :=
    let fd := open_tun in
    if (IFNAMSIZ <? length dev)%nat then -1
    else
      let '(ret, ifr_name) := tunsetiff fd (take IFNAMSIZ (dev ++ replicate IFNAMSIZ NUL)) in
      if ret <? 0 then -1
      else if negb (bool_decide (array_name (take IFNAMSIZ ifr_name) = dev)) then -1
      else if write_eio fd then -1
      else fd in
  match dev with
  | c :: rest =>
      if char c =? 64 (* @ *) then
        let fd := atoi rest in
        if fcntl_nonblock fd =? -1 then -1 else fd
      else tap
  | [] => tap
  end.

(** [uhyve_net_init]: the descriptor and the address, or the end of uhyve. *)
Definition uhyve_net_init (getenv : environment) (urandom : option (list byte))
    (netif : option (list byte)) : outcome (Z * list byte) :=
  match netif with
  | None => Exited 1
  | Some netif =>
      let netfd := attach_linux_tap netif in
      if netfd <? 0 then Exited 1
      else mac ← uhyve_set_mac getenv urandom; OK (netfd, mac)
  end.
End Tap.

(** ** Correctness *)

(** The usual notation, in lower or upper case. *)
Definition hex_char (upper : bool) (d : Z) : byte :=
  byte.of_Z (if d <? 10 then 48 + d else if upper then 55 + d else 87 + d).

Definition hex_pair (upper : bool) (b : byte) : list byte :=
  [hex_char upper (char b / 16); hex_char upper (char b mod 16)].

Fixpoint mac_string (upper : bool) (mac : list byte) : list byte :=
  match mac with
  | [] => []
  | [b] => hex_pair upper b
  | b :: mac => hex_pair upper b ++ Byte.x3a :: mac_string upper mac
  end.

Lemma hex_char_dehex upper d : 0 <= d < 16 ->
  dehex (hex_char upper d) = d /\ isxdigit (hex_char upper d) = true.
Proof.
  intros Hd. assert (d ∈ Z.of_nat <$> seq 0 16) as Hin.
  { apply list_elem_of_fmap. exists (Z.to_nat d). split; [lia|]. apply elem_of_seq. lia. }
  destruct upper; cbn in Hin; repeat (apply elem_of_cons in Hin as [->|Hin]; [by vm_compute|]);
    by apply elem_of_nil in Hin.
Qed.

Lemma char_div_16 b : 0 <= char b / 16 < 16.
Proof. pose proof (byte_unsigned_range b). unfold char. split; [apply Z.div_pos; lia|apply Z.div_lt_upper_bound; lia]. Qed.

Lemma char_mod_16 b : 0 <= char b mod 16 < 16.
Proof. by apply Z.mod_pos_bound. Qed.

Lemma check_hex_pair upper b v i s :
  check_mac (hex_pair upper b ++ v) i s = check_mac v (i + 2) s.
Proof.
  cbn [hex_pair app check_mac].
  rewrite (proj2 (hex_char_dehex upper _ (char_div_16 b))), (proj2 (hex_char_dehex upper _ (char_mod_16 b))).
  f_equal. lia.
Qed.

Lemma check_colon v i s : i / 2 - 1 = s -> check_mac (Byte.x3a :: v) i s = check_mac v i (s + 1).
Proof. intros <-. cbn [check_mac]. change (isxdigit Byte.x3a) with false. cbn -[Z.div]. by rewrite Z.eqb_refl. Qed.

Lemma parse_hex_pair upper n b rest mac :
  parse_mac n (drop 1 rest) = OK mac -> parse_mac (S n) (hex_pair upper b ++ rest) = OK (b :: mac).
Proof.
  intros E. cbn [hex_pair app parse_mac]. rewrite E, bind_OK.
  rewrite (proj1 (hex_char_dehex upper _ (char_div_16 b))), (proj1 (hex_char_dehex upper _ (char_mod_16 b))).
  do 2 f_equal. by destruct b.
Qed.

(** The guest's MAC address.  An address of six pairs of hexadecimal digits
    separated by colons, in either case, is taken as it is; without the variable,
    or with one that does not pass the check, the address is the random one,
    except that it is an individual and locally administered address. *)
Theorem uhyve_set_mac_spec getenv urandom upper b0 b1 b2 b3 b4 b5 r0 rs :
  urandom = Some (r0 :: rs) -> length rs = 5%nat ->
  (getenv "HERMIT_NETIF_MAC"%string = Some (mac_string upper [b0; b1; b2; b3; b4; b5]) ->
   uhyve_set_mac getenv urandom = OK [b0; b1; b2; b3; b4; b5]) /\
  (match getenv "HERMIT_NETIF_MAC"%string with Some s => valid_mac s = false | None => True end ->
   exists b, uhyve_set_mac getenv urandom = OK (b :: rs) /\
     Z.testbit (char b) 0 = false /\ Z.testbit (char b) 1 = true /\
     forall i, 1 < i -> Z.testbit (char b) i = Z.testbit (char r0) i).
Proof.
  intros -> Hrs. unfold uhyve_set_mac. split.
  - intros ->. cbn [mac_string]. unfold valid_mac.
    rewrite !check_hex_pair. rewrite check_colon by done. rewrite !check_hex_pair.
    rewrite check_colon by done. rewrite !check_hex_pair. rewrite check_colon by done.
    rewrite !check_hex_pair. rewrite check_colon by done. rewrite !check_hex_pair.
    rewrite check_colon by done. rewrite <- (app_nil_r (hex_pair upper b5)), check_hex_pair.
    cbn [check_mac]. cbn match.
    rewrite take_ge by (cbn; lia).
    repeat (apply parse_hex_pair; cbn [drop]). done.
  - intros Hv.
    assert (exists b, local_mac (r0 :: rs) = b :: rs /\ Z.testbit (char b) 0 = false /\
      Z.testbit (char b) 1 = true /\ forall i, 1 < i -> Z.testbit (char b) i = Z.testbit (char r0) i)
      as (b & Hb & Hbits).
    { cbn [local_mac]. eexists. split; [reflexivity|].
      assert (forall i, 0 <= i -> Z.testbit (char (byte.of_Z ((char r0 .& 0xfe) .| 0x02))) i =
        (Z.testbit (char r0) i && Z.testbit 0xfe i) || Z.testbit 0x02 i) as Ht.
      { intros i Hi. unfold char. rewrite byte_unsigned_of_small.
        - by rewrite Z.lor_spec, Z.land_spec.
        - by destruct r0. }
      split; [by rewrite Ht, andb_false_r|]. split; [by rewrite Ht, orb_true_r|].
      intros i Hi. rewrite Ht by lia. destruct (decide (i < 8)).
      - assert (i = 2 \/ i = 3 \/ i = 4 \/ i = 5 \/ i = 6 \/ i = 7) as H by lia.
        repeat destruct H as [->|H]; try (by rewrite andb_true_r, orb_false_r).
        subst. by rewrite andb_true_r, orb_false_r.
      - pose proof (byte_unsigned_range r0). unfold char.
        rewrite (testbit_above_pow2 (byte.unsigned r0) 8) by lia. cbn.
        by rewrite (testbit_above_pow2 2 8) by lia. }
    exists b. split; [|done].
    destruct (getenv "HERMIT_NETIF_MAC"%string) as [s|]; [rewrite Hv|]; cbn [length];
      rewrite Hrs; cbn [Nat.eqb assert_]; by rewrite bind_OK, Hb.
Qed.

Lemma uhyve_set_mac_spec_witness :
  uhyve_set_mac (fun _ => Some (str "52:54:00:AB:cd:0f")) (Some (replicate 6 NUL)) =
    OK [Byte.x52; Byte.x54; Byte.x00; Byte.xab; Byte.xcd; Byte.x0f] /\
  uhyve_set_mac (fun _ => None) (Some (replicate 6 Byte.xff)) = OK (Byte.xfe :: replicate 5 Byte.xff) /\
  uhyve_set_mac (fun _ => Some (mac_string true [Byte.x52; Byte.x54; Byte.x00; Byte.xab; Byte.xcd; Byte.x0f]))
    (Some (NUL :: replicate 5 NUL)) = OK [Byte.x52; Byte.x54; Byte.x00; Byte.xab; Byte.xcd; Byte.x0f].
Proof.
  split; [vm_compute; reflexivity|]. split; [vm_compute; reflexivity|].
  eapply (uhyve_set_mac_spec _ _ true _ _ _ _ _ _ NUL (replicate 5 NUL)); reflexivity.
Defined.

(** The check counts digits and colons only: an address with a stray character
    in front and one with uneven groups pass it and are misread. *)
Lemma malformed_mac_accepted :
  valid_mac (str "z:11:22:33:44:55:66") = true /\
  valid_mac (str "111:1:22:33:44:55") = true /\
  parse_mac 6 (take 19 (str "z:11:22:33:44:55:66")) =
    OK [Byte.x00; Byte.x10; Byte.x20; Byte.x30; Byte.x40; Byte.x50].
Proof. vm_compute. done. Qed.
