(* ===== verification/Elf.v ===== *)
(** * Loading a kernel

    [load_kernel] of src/uhyve-x86_64.c: the check of the ELF header, the copy
    of the segments into guest memory and the boot information
    ([kernel_header_t] of src/uhyve-x86_64.h) that the guest finds at
    [BOOT_INFO_ADDR].  The file is read with [pread_in_full] (Utils.v). *)

From S2P Require Import Prelude GuestMem CLib Config Utils.

Definition GUEST_OFFSET : Z := 0.
Definition BOOT_INFO_ADDR : Z := 0x9000.
Definition KERNEL_STACK_SIZE : Z := 32768.
Definition UHYVE_UART_PORT : Z := 0x800.
Definition HERMIT_ELFOSABI : Z := 0xFF.
Definition ET_EXEC : Z := 2.
Definition EM_X86_64 : Z := 62.
Definition ELFCLASS64 : Z := 2.
Definition PT_LOAD : Z := 1.
Definition PT_TLS : Z := 7.

(** ** The file format (elf.h) *)

Definition field (n : nat) (bs : list byte) (off : nat) : Z := le_combine (take n (drop off bs)).

Record Elf64_Ehdr := mkehdr {
  e_ident : list byte;
  e_type : Z; e_machine : Z; e_entry : Z; e_phoff : Z; e_phentsize : Z; e_phnum : Z
}.

Definition sizeof_ehdr : Z := 64.
Definition decode_ehdr (bs : list byte) : Elf64_Ehdr :=
  mkehdr (take 16 bs) (field 2 bs 16) (field 2 bs 18) (field 8 bs 24) (field 8 bs 32)
    (field 2 bs 54) (field 2 bs 56).

Record Elf64_Phdr := mkphdr {
  p_type : Z; p_offset : Z; p_paddr : Z; p_filesz : Z; p_memsz : Z
}.

Definition sizeof_phdr : Z := 56.
Definition decode_phdr (bs : list byte) : Elf64_Phdr :=
  mkphdr (field 4 bs 0) (field 8 bs 8) (field 8 bs 24) (field 8 bs 32) (field 8 bs 40).

(** [phdr[i]]; what the file did not fill of the buffer is indeterminate. *)
Definition phdr_at (buf : list byte) (i : Z) : outcome Elf64_Phdr :=
  if sizeof_phdr * (i + 1) <=? Z.of_nat (length buf)
  then OK (decode_phdr (take 56 (drop (Z.to_nat (sizeof_phdr * i)) buf)))
  else Undefined.

(** A HermitCore executable for this processor. *)
Definition is_hermit (hdr : Elf64_Ehdr) : bool :=
  let id i := match e_ident hdr !! i with Some b => char b | None => -1 end in
  (id 0%nat =? 0x7f) && (id 1%nat =? 69) && (id 2%nat =? 76) && (id 3%nat =? 70) &&
  (id 4%nat =? ELFCLASS64) && (id 7%nat =? HERMIT_ELFOSABI) &&
  (e_type hdr =? ET_EXEC) && (e_machine hdr =? EM_X86_64).

(** ** The boot information (kernel_header_t) *)

Definition k_magic_number : Z := 0.
Definition k_version : Z := 4.
Definition k_base : Z := 8.
Definition k_limit : Z := 16.
Definition k_image_size : Z := 24.
Definition k_tls_start : Z := 32.
Definition k_tls_filesz : Z := 40.
Definition k_tls_memsz : Z := 48.
Definition k_current_stack_address : Z := 56.
Definition k_host_logical_addr : Z := 72.
Definition k_boot_gtod : Z := 80.
Definition k_cpu_freq : Z := 112.
Definition k_possible_cpus : Z := 124.
Definition k_current_boot_id : Z := 128.
Definition k_uartport : Z := 132.
Definition k_single_kernel : Z := 134.
Definition k_uhyve : Z := 135.
Definition k_hcip : Z := 136.
Definition k_hcgateway : Z := 140.
Definition k_hcmask : Z := 144.
Definition sizeof_kernel_header : nat := 152.

(** Assignments to fields, in order. *)
Fixpoint set_fields (m : gmem) (kheader : Z) (fields : list (Z * list byte)) : outcome gmem :=
  match fields with
  | [] => OK m
  | (off, bs) :: fields => m ← store m (kheader + off) bs; set_fields m kheader fields
  end.

Definition le16 (v : Z) : list byte := le_split 2 v.
Definition le32 (v : Z) : list byte := le_split 4 v.
Definition le64 (v : Z) : list byte := le_split 8 v.

(** ** The loader *)

(** What the process sets up around the loader. *)
Record setup := mksetup {
  s_getenv : environment;
  s_verbose : bool;
  s_guest_size : Z;
  s_guest_mem : Z;                 (* the host address of the guest's memory *)
  s_cpufreq : outcome Z;           (* get_cpufreq() *)
  s_time : Z                       (* tv_sec of the real-time clock *)
}.

Section Loader.
Context {F : Type} (pread : F -> Z -> Z -> read_result * F) (fuel : nat) (env : setup).

(** Guest memory, the pointers [kheader] and [klog] (offsets into it, [None]
    for NULL), [elf_entry] and the file. *)
Record loader := mkloader {
  l_mem : gmem;
  l_kheader : option Z;
  l_klog : option Z;
  l_entry : Z;
  l_file : F
}.

(** The return value and the state, for every path through [out]. *)
Definition finished := outcome (Z * loader).

(** An address of the environment: four numbers, of which only the low bytes
    are kept; [ip] is not initialised. *)
Definition env_ip (name : string) (default : list (list byte)) : outcome (list (list byte)) :=
  match s_getenv env name with
  | Some s =>
      match fscanf (str "%u.%u.%u.%u") s with
      | ([a; b; c; d], _) => OK ((fun z => [byte.of_Z (u8 z)]) <$> [a; b; c; d])
      | _ => Undefined
      end
  | None => OK default
  end.

Definition ip_fields (off : Z) (ip : list (list byte)) : list (Z * list byte) :=
  imap (fun i b => (off + Z.of_nat i, b)) ip.

(** What the first segment triggers. *)
Definition init_kernel (m : gmem) (kheader paddr : Z) : outcome gmem :=
  freq ← s_cpufreq env;
  hcip ← env_ip "HERMIT_IP" (replicate 4 [Byte.xff]);
  hcgateway ← env_ip "HERMIT_GATEWAY" [];
  hcmask ← env_ip "HERMIT_MASK" [];
  set_fields m kheader (
    [(k_current_stack_address, le64 (u64 (paddr - KERNEL_STACK_SIZE)));
     (k_base, le64 paddr);
     (k_limit, le64 (s_guest_size env));
     (k_cpu_freq, le32 freq);
     (k_possible_cpus, le32 1);
     (k_current_boot_id, le32 0);
     (k_uhyve, [Byte.x01]);
     (k_uartport, le16 (if s_verbose env then UHYVE_UART_PORT else 0))] ++
    ip_fields k_hcip hcip ++ ip_fields k_hcgateway hcgateway ++ ip_fields k_hcmask hcmask ++
    [(k_host_logical_addr, le64 (s_guest_mem env));
     (k_boot_gtod, le64 (u64 (s_time env * 1000000)))]).

(** One segment that is loaded: the state, [pstart] and the return value of the
    read, negative for [goto out]. *)
Definition load_segment (kheader : Z) (ph : Elf64_Phdr) (st : gmem * option Z * Z * F)
    : outcome (Z * (gmem * option Z * Z * F)) :=
  let '(m, klog, pstart, f) := st in
  let paddr := p_paddr ph in
  m ← (if p_type ph =? PT_TLS then
         set_fields m kheader [(k_tls_start, le64 paddr); (k_tls_filesz, le64 (p_filesz ph));
                               (k_tls_memsz, le64 (p_memsz ph))]
       else OK m);
  '(ret, bytes, f) ← pread_in_full pread fuel f (p_filesz ph) (p_offset ph);
  m ← store m (paddr - GUEST_OFFSET) bytes;
  if s32 ret <? 0 then OK (s32 ret, (m, klog, pstart, f))
  else
    let klog := match klog with Some a => Some a | None => Some (paddr + 0x5000 - GUEST_OFFSET) end in
    '(m, pstart) ← (if pstart =? 0 then m ← init_kernel m kheader paddr; OK (m, paddr)
                    else OK (m, pstart));
    m ← set_fields m kheader [(k_image_size, le64 (u64 (paddr + p_memsz ph - pstart)))];
    OK (0, (m, klog, pstart, f)).

Fixpoint load_segments (phdr : list byte) (kheader : Z) (n : nat) (ph_i : Z)
    (st : gmem * option Z * Z * F) : outcome (Z * (gmem * option Z * Z * F)) :=
  match n with
  | O => OK (0, st)
  | S n =>
      ph ← phdr_at phdr ph_i;
      if negb (p_type ph =? PT_TLS) && negb (p_type ph =? PT_LOAD)
      then load_segments phdr kheader n (ph_i + 1) st
      else
        '(ret, st) ← load_segment kheader ph st;
        if ret <? 0 then OK (ret, st) else load_segments phdr kheader n (ph_i + 1) st
  end.

(** [open] failed when [fd] is -1. *)
Definition load_kernel (fd : Z) (malloc : Z -> bool) (l : loader) : finished :=
  let out ret f m kheader klog entry : finished := OK (ret, mkloader m kheader klog entry f) in
  let m := l_mem l in
  let kheader := l_kheader l in
  let klog := l_klog l in
  if fd =? -1 then out (-1) (l_file l) m kheader klog (l_entry l)
  else
    '(ret, bytes, f) ← pread_in_full pread fuel (l_file l) sizeof_ehdr 0;
    if s32 ret <? 0 then out (s32 ret) f m kheader klog (l_entry l)
    else if Z.of_nat (length bytes) <? sizeof_ehdr then Undefined
    else
      let hdr := decode_ehdr bytes in
      if negb (is_hermit hdr) then out (-1) f m kheader klog (l_entry l)
      else
        let entry := e_entry hdr in
        let buflen := e_phentsize hdr * e_phnum hdr in
        if 2 ^ 31 <=? buflen then Undefined
        else if negb (malloc buflen) then out (-1) f m kheader klog entry
        else
          '(ret, phdr, f) ← pread_in_full pread fuel f buflen (e_phoff hdr);
          if s32 ret <? 0 then out (s32 ret) f m kheader klog entry
          else
            '(m, kh) ←
              (match kheader with
               | Some kh => OK (m, kh)
               | None =>
                   let kh := BOOT_INFO_ADDR - GUEST_OFFSET in
                   m ← memset0 m kh sizeof_kernel_header;
                   m ← set_fields m kh [(k_magic_number, le32 0xC0DECAFE); (k_version, le32 1);
                                        (k_single_kernel, [Byte.x01])];
                   OK (m, kh)
               end);
            '(ret, st) ← load_segments phdr kh (Z.to_nat (e_phnum hdr)) 0 (m, klog, 0, f);
            let '(m, klog, _, f) := st in
            out ret f m (Some kh) klog entry.
End Loader.
Arguments mkloader {F}.
Arguments l_mem {F}.
Arguments l_kheader {F}.
Arguments l_klog {F}.
Arguments l_entry {F}.
Arguments l_file {F}.

(** ** Assignments to the boot information *)

Definition in_header (fields : list (Z * list byte)) : Prop :=
  Forall (fun '(off, bs) => 8 <= off /\ off + Z.of_nat (length bs) <= Z.of_nat sizeof_kernel_header) fields.

(** No field covers the [n] bytes at [off]. *)
Definition apart (off : Z) (n : Z) (fields : list (Z * list byte)) : Prop :=
  Forall (fun '(o, bs) => off + n <= o \/ o + Z.of_nat (length bs) <= off) fields.

Lemma set_fields_app fs1 fs2 : forall m k,
  set_fields m k (fs1 ++ fs2) = (m ← set_fields m k fs1; set_fields m k fs2).
Proof.
  induction fs1 as [|[off bs] fs1 IH]; intros m k; [done|]. cbn [app set_fields].
  destruct (store m (k + off) bs); cbn; [apply IH|done..].
Qed.

Lemma set_fields_within lo hi fields : forall m k,
  Forall (fun '(off, bs) => lo <= off /\ off + Z.of_nat (length bs) <= hi) fields ->
  0 <= k + lo -> k + hi <= msize m ->
  exists m', set_fields m k fields = OK m' /\ msize m' = msize m /\
    forall x, x < k + lo \/ k + hi <= x -> peek m' x = peek m x.
Proof.
  induction fields as [|[off bs] fields IH]; intros m k Hf Hk Hm; [by exists m|].
  apply Forall_cons in Hf as [[H1 H2] Hf]. cbn [set_fields].
  rewrite store_ok by lia. rewrite bind_OK.
  destruct (IH (poken m (k + off) bs) k Hf Hk Hm) as (m' & -> & Hs & Hp).
  exists m'. split; [done|]. split; [done|]. intros x Hx. rewrite Hp by done.
  apply peek_poken_out. lia.
Qed.

Lemma set_fields_ok fields m k :
  in_header fields -> 0 <= k -> k + Z.of_nat sizeof_kernel_header <= msize m ->
  exists m', set_fields m k fields = OK m' /\ msize m' = msize m /\
    forall x, x < k + 8 \/ k + Z.of_nat sizeof_kernel_header <= x -> peek m' x = peek m x.
Proof. intros Hf Hk Hm. apply (set_fields_within 8 _ fields m k Hf); lia. Qed.

Lemma set_fields_apart n fields : forall m k m' off,
  set_fields m k fields = OK m' -> apart off (Z.of_nat n) fields ->
  load_le n m' (k + off) = load_le n m (k + off).
Proof.
  induction fields as [|[o bs] fields IH]; intros m k m' off E Ha; cbn in E; [by injection E as <-|].
  apply Forall_cons in Ha as [Ho Ha]. apply bind_OK_inv in E as (m1 & Hs & E).
  rewrite (IH _ _ _ _ E Ha). apply store_inv in Hs as (_ & _ & ->).
  apply load_le_poken_other. lia.
Qed.

(** The last assignment of a field is what is read. *)
Lemma set_fields_load_le n fs1 off v fs2 m k m' :
  set_fields m k (fs1 ++ (off, le_split n v) :: fs2) = OK m' -> apart off (Z.of_nat n) fs2 ->
  load_le n m' (k + off) = OK (v mod 2 ^ (Z.of_nat n * 8)).
Proof.
  rewrite set_fields_app. intros E Ha. apply bind_OK_inv in E as (m1 & _ & E). cbn [set_fields] in E.
  apply bind_OK_inv in E as (m2 & Hs & E).
  rewrite (set_fields_apart n _ _ _ _ _ E Ha).
  apply store_inv in Hs as (H1 & H2 & ->). rewrite length_le_split in H2.
  by rewrite load_le_poken_same by done.
Qed.

Lemma set_fields_load fs1 off v fs2 m k m' :
  set_fields m k (fs1 ++ (off, le64 v) :: fs2) = OK m' -> apart off 8 fs2 -> is_u64 v ->
  load64 m' (k + off) = OK v.
Proof.
  intros E Ha Hv. rewrite (set_fields_load_le 8 _ _ _ _ _ _ _ E Ha). f_equal. by apply u64_small.
Qed.

Lemma ip_fields_bounds off (ip : list (list byte)) (P : Z * list byte -> Prop) :
  Forall (fun b => length b = 1%nat) ip -> (length ip <= 4)%nat ->
  (forall i b, 0 <= i < 4 -> length b = 1%nat -> P (off + i, b)) -> Forall P (ip_fields off ip).
Proof.
  intros H1 H4 HP. apply Forall_lookup. intros i x Hx. unfold ip_fields in Hx.
  rewrite list_lookup_imap in Hx. destruct (ip !! i) as [b|] eqn:Eb; [|done]. cbn in Hx. injection Hx as <-.
  pose proof (lookup_lt_Some _ _ _ Eb). apply HP; [lia|]. by apply (Forall_lookup_1 _ _ _ _ H1 Eb).
Qed.

Section Boot.
Context {F : Type} (pread : F -> Z -> Z -> read_result * F) (fuel : nat) (env : setup).
Context (content : list byte) (interrupts : F -> nat) (Hfile : regular_file pread content interrupts).

(** The environment is well formed: the frequency is known and the addresses,
    where given, have four numbers. *)
Record environment_ok (freq : Z) : Prop := {
  env_freq : s_cpufreq env = OK freq;
  env_size : is_u64 (s_guest_size env);
  env_ips : exists ip gw mask, env_ip env "HERMIT_IP" (replicate 4 [Byte.xff]) = OK ip /\
    env_ip env "HERMIT_GATEWAY" [] = OK gw /\ env_ip env "HERMIT_MASK" [] = OK mask
}.

Lemma env_ip_length name default ip :
  env_ip env name default = OK ip -> (length default <= 4)%nat ->
  Forall (fun b => length b = 1%nat) default ->
  (length ip <= 4)%nat /\ Forall (fun b => length b = 1%nat) ip.
Proof.
  unfold env_ip. destruct (s_getenv env name) as [s|]; [|by intros [= <-]].
  destruct (fscanf _ s) as [[|a [|b [|c [|d [|]]]]] ?]; try discriminate.
  intros [= <-] _ _. split; [done|]. by repeat constructor.
Qed.

Lemma init_kernel_ok freq m k paddr :
  environment_ok freq -> is_u64 paddr -> 0 <= k -> k + Z.of_nat sizeof_kernel_header <= msize m ->
  exists m', init_kernel env m k paddr = OK m' /\ msize m' = msize m /\
    load64 m' (k + k_base) = OK paddr /\ load64 m' (k + k_limit) = OK (s_guest_size env) /\
    forall x, x < k + 8 \/ k + Z.of_nat sizeof_kernel_header <= x -> peek m' x = peek m x.
Proof.
  intros [Hf Hs (ip & gw & mask & E1 & E2 & E3)] Hp Hk Hm. unfold init_kernel.
  rewrite Hf, E1, E2, E3, !bind_OK.
  apply env_ip_length in E1 as [L1 F1]; [|cbn; lia|by repeat constructor].
  apply env_ip_length in E2 as [L2 F2]; [|cbn; lia|apply Forall_nil_2].
  apply env_ip_length in E3 as [L3 F3]; [|cbn; lia|apply Forall_nil_2].
  set (fields := _ ++ _).
  assert (in_header fields) as Hin.
  { unfold in_header, fields. rewrite !Forall_app. split; [|split; [|split; [|split]]].
    1,5: repeat constructor; rewrite ?length_le_split; vm_compute; congruence.
    all: apply ip_fields_bounds; [done|done|]; intros i b Hi ->;
      unfold k_hcip, k_hcgateway, k_hcmask, sizeof_kernel_header; lia. }
  destruct (set_fields_ok fields m k Hin Hk Hm) as (m' & E & Hsz & Hpk).
  exists m'. split; [done|]. split; [done|].
  assert (forall off, off = k_base \/ off = k_limit ->
    apart off 8 (ip_fields k_hcip ip ++ ip_fields k_hcgateway gw ++ ip_fields k_hcmask mask ++
      [(k_host_logical_addr, le64 (s_guest_mem env)); (k_boot_gtod, le64 (u64 (s_time env * 1000000)))])) as Hap.
  { intros off Ho. unfold apart. rewrite !Forall_app. split_and!.
    4: repeat (apply Forall_cons; split; [left; destruct Ho as [->| ->]; vm_compute; congruence|]);
      apply Forall_nil_2.
    all: apply ip_fields_bounds; [done|done|]; intros i b Hi _; left; destruct Ho as [->| ->];
      unfold k_base, k_limit, k_hcip, k_hcgateway, k_hcmask; lia. }
  split; [|split; [|done]].
  - apply (set_fields_load [(k_current_stack_address, le64 (u64 (paddr - KERNEL_STACK_SIZE)))] k_base
      paddr _ _ _ _ E); [|done].
    repeat (apply Forall_cons; split; [left; vm_compute; congruence|]). apply Hap. auto.
  - apply (set_fields_load [(k_current_stack_address, le64 (u64 (paddr - KERNEL_STACK_SIZE))); (k_base, le64 paddr)]
      k_limit _ _ _ _ _ E); [|done].
    repeat (apply Forall_cons; split; [left; vm_compute; congruence|]). apply Hap. auto.
Qed.
(** *** One segment *)

Definition is_loaded (ph : Elf64_Phdr) : bool := (p_type ph =? PT_TLS) || (p_type ph =? PT_LOAD).

Definition header_end : Z := BOOT_INFO_ADDR + Z.of_nat sizeof_kernel_header.

(** A segment that lies in the file and, behind the boot information, in guest
    memory of [size] bytes. *)
Definition loadable (size : Z) (ph : Elf64_Phdr) : Prop :=
  is_loaded ph = true ->
  0 <= p_filesz ph < 2 ^ 31 /\ 0 <= p_offset ph /\
  p_offset ph + p_filesz ph <= Z.of_nat (length content) /\
  header_end <= p_paddr ph < 2 ^ 64 /\ p_paddr ph + p_filesz ph <= size.

Definition seg_covers (ph : Elf64_Phdr) (x : Z) : bool :=
  (p_paddr ph <=? x) && (x <? p_paddr ph + p_filesz ph).
Definition seg_byte (ph : Elf64_Phdr) (x : Z) : byte :=
  default NUL (content !! Z.to_nat (p_offset ph + (x - p_paddr ph))).

(** What the segments make of a byte of memory: the last one that covers it
    wins. *)
Definition image_byte (phs : list Elf64_Phdr) (x : Z) (old : byte) : byte :=
  foldl (fun b ph => if is_loaded ph && seg_covers ph x then seg_byte ph x else b) old phs.

(** The start and the end of what was loaded. *)
Definition image_start (phs : list Elf64_Phdr) (pstart : Z) : Z :=
  foldl (fun a ph => if is_loaded ph && (a =? 0) then p_paddr ph else a) pstart phs.
Definition image_end (phs : list Elf64_Phdr) (e : Z) : Z :=
  foldl (fun e ph => if is_loaded ph then p_paddr ph + p_memsz ph else e) e phs.

Definition header_ok (m : gmem) (pstart last : Z) : Prop :=
  pstart <> 0 ->
  load64 m (BOOT_INFO_ADDR + k_base) = OK pstart /\
  load64 m (BOOT_INFO_ADDR + k_limit) = OK (s_guest_size env) /\
  load64 m (BOOT_INFO_ADDR + k_image_size) = OK (u64 (last - pstart)).

Definition outside_header (x : Z) : Prop := x < BOOT_INFO_ADDR + 8 \/ header_end <= x.

Lemma segment_bytes ph x :
  0 <= p_offset ph -> 0 <= p_filesz ph -> p_offset ph + p_filesz ph <= Z.of_nat (length content) ->
  let bytes := take (Z.to_nat (p_filesz ph)) (drop (Z.to_nat (p_offset ph)) content) in
  length bytes = Z.to_nat (p_filesz ph) /\
  forall m, peek (poken m (p_paddr ph) bytes) x = if seg_covers ph x then seg_byte ph x else peek m x.
Proof.
  intros Ho Hf Hlen bytes.
  assert (length bytes = Z.to_nat (p_filesz ph)) as Hb.
  { unfold bytes. rewrite length_take, length_drop. lia. }
  split; [done|]. intros m. rewrite peek_poken, Hb. unfold seg_covers, seg_byte.
  rewrite Z2Nat.id by done. destruct (Z.leb_spec (p_paddr ph) x); cbn [andb]; [|done].
  destruct (Z.ltb_spec x (p_paddr ph + p_filesz ph)); [|done].
  unfold bytes. rewrite lookup_take_lt by lia. rewrite lookup_drop. do 2 f_equal. lia.
Qed.

Lemma tls_fields_ok m ph :
  header_end <= msize m -> exists m',
  (if p_type ph =? PT_TLS then
     set_fields m BOOT_INFO_ADDR [(k_tls_start, le64 (p_paddr ph)); (k_tls_filesz, le64 (p_filesz ph));
                                  (k_tls_memsz, le64 (p_memsz ph))]
   else OK m) = OK m' /\ msize m' = msize m /\
  (forall x, outside_header x -> peek m' x = peek m x) /\
  forall off, off = k_base \/ off = k_limit -> load64 m' (BOOT_INFO_ADDR + off) = load64 m (BOOT_INFO_ADDR + off).
Proof.
  intros Hm. destruct (p_type ph =? PT_TLS); [|by exists m].
  set (fields := [_; _; _]). destruct (set_fields_ok fields m BOOT_INFO_ADDR) as (m' & E & Hs & Hp);
    [|vm_compute; congruence|done|].
  { repeat constructor; rewrite ?length_le_split; vm_compute; congruence. }
  exists m'. split; [done|]. split; [done|]. split; [intros x Hx; apply Hp; apply Hx|].
  intros off Hoff. apply (set_fields_apart 8 _ _ _ _ _ E). 
  repeat (apply Forall_cons; split; [left; destruct Hoff as [->| ->]; vm_compute; congruence|]).
  apply Forall_nil_2.
Qed.

Lemma load_segment_ok freq m klog pstart last f ph :
  environment_ok freq -> is_loaded ph = true -> loadable (msize m) ph -> header_end <= msize m ->
  header_ok m pstart last -> (Z.to_nat (p_filesz ph) + interrupts f + 1 < fuel)%nat ->
  exists m' klog' f',
    let pstart' := if pstart =? 0 then p_paddr ph else pstart in
    load_segment pread fuel env BOOT_INFO_ADDR ph (m, klog, pstart, f) =
      OK (0, (m', klog', pstart', f')) /\
    msize m' = msize m /\ (interrupts f' <= interrupts f)%nat /\
    header_ok m' pstart' (p_paddr ph + p_memsz ph) /\
    forall x, outside_header x ->
      peek m' x = if seg_covers ph x then seg_byte ph x else peek m x.
Proof.
  intros Henv Hl Hph Hm Hh Hfuel. destruct (Hph Hl) as (Hf & Ho & Hlen & Hp & Hsz).
  unfold load_segment. destruct (tls_fields_ok m ph Hm) as (m1 & -> & Hs1 & Hp1 & Hb1). rewrite bind_OK.
  destruct (pread_in_full_ok pread content interrupts f (p_filesz ph) (p_offset ph) fuel Hfile
    ltac:(unfold SSIZE_MAX; lia) Ho Hfuel) as (f' & -> & Hi). rewrite bind_OK. cbn match.
  destruct (segment_bytes ph 0 Ho ltac:(lia) Hlen) as [Hb _].
  assert (forall x m, peek (poken m (p_paddr ph)
    (take (Z.to_nat (p_filesz ph)) (drop (Z.to_nat (p_offset ph)) content))) x =
    if seg_covers ph x then seg_byte ph x else peek m x) as Hpk
    by (intros x; apply segment_bytes; lia).
  assert (header_end = 0x9098) as Hend by reflexivity.
  unfold GUEST_OFFSET. rewrite !Z.sub_0_r.
  set (bytes := take _ _) in *. rewrite store_ok by lia. rewrite bind_OK, Hb, Z2Nat.id by lia.
  set (m2 := poken m1 (p_paddr ph) bytes).
  assert (s32 (p_filesz ph) = p_filesz ph) as -> by (apply signed_small; lia).
  destruct (Z.ltb_spec (p_filesz ph) 0); [lia|].
  set (pstart' := if pstart =? 0 then p_paddr ph else pstart).
  assert (exists m3, (if pstart =? 0 then m ← init_kernel env m2 BOOT_INFO_ADDR (p_paddr ph); OK (m, p_paddr ph)
      else OK (m2, pstart)) = OK (m3, pstart') /\ msize m3 = msize m /\
      (forall x, outside_header x -> peek m3 x = peek m2 x) /\
      load64 m3 (BOOT_INFO_ADDR + k_base) = OK pstart' /\
      load64 m3 (BOOT_INFO_ADDR + k_limit) = OK (s_guest_size env)) as (m3 & -> & Hs3 & Hp3 & Hb3 & Hl3).
  { unfold pstart'. destruct (Z.eqb_spec pstart 0).
    - destruct (init_kernel_ok freq m2 BOOT_INFO_ADDR (p_paddr ph) Henv) as (m3 & -> & H1 & H2 & H3 & H4);
        [unfold is_u64; lia|vm_compute; congruence
        |cbn [msize m2 poken]; rewrite Hs1; exact Hm|].
      exists m3. cbn. split; [done|]. split; [by rewrite H1|]. done.
    - destruct (Hh ltac:(done)) as (B & L & _). exists m2. split; [done|]. split; [done|]. split; [done|].
      unfold m2. split; rewrite load_le_poken_other, Hb1 by
        (auto || (left; unfold BOOT_INFO_ADDR, k_base, k_limit; lia)); done. }
  rewrite bind_OK. cbn match.
  destruct (set_fields_ok [(k_image_size, le64 (u64 (p_paddr ph + p_memsz ph - pstart')))] m3 BOOT_INFO_ADDR)
    as (m4 & E4 & Hs4 & Hp4);
    [repeat constructor; vm_compute; congruence|vm_compute; congruence|rewrite Hs3; exact Hm|].
  rewrite E4, bind_OK. eexists m4, _, f'. split; [reflexivity|]. split; [congruence|]. split; [done|].
  split; [|intros x Hx; rewrite Hp4, Hp3 by done; unfold m2; rewrite Hpk; by rewrite Hp1 by done].
  intros _. split; [|split].
  - rewrite (set_fields_apart 8 _ _ _ _ _ E4); [done|].
    apply Forall_singleton. left. vm_compute. congruence.
  - rewrite (set_fields_apart 8 _ _ _ _ _ E4); [done|].
    apply Forall_singleton. left. vm_compute. congruence.
  - apply (set_fields_load [] k_image_size _ [] _ _ _ E4); [apply Forall_nil_2|apply u64_range].
Qed.
(** *** All segments *)

Lemma image_byte_cons ph phs x b :
  image_byte (ph :: phs) x b = image_byte phs x (if is_loaded ph && seg_covers ph x then seg_byte ph x else b).
Proof. done. Qed.

Lemma load_segments_ok freq buf rest : forall ph_i m klog pstart last f,
  environment_ok freq -> header_end <= msize m ->
  (forall j ph, rest !! j = Some ph -> phdr_at buf (ph_i + Z.of_nat j) = OK ph) ->
  Forall (loadable (msize m)) rest ->
  Forall (fun ph => Z.to_nat (p_filesz ph) + interrupts f + 1 < fuel)%nat rest ->
  header_ok m pstart last ->
  exists m' klog' f',
    load_segments pread fuel env buf BOOT_INFO_ADDR (length rest) ph_i (m, klog, pstart, f) =
      OK (0, (m', klog', image_start rest pstart, f')) /\
    msize m' = msize m /\ header_ok m' (image_start rest pstart) (image_end rest last) /\
    forall x, outside_header x -> peek m' x = image_byte rest x (peek m x).
Proof.
  induction rest as [|ph rest IH]; intros ph_i m klog pstart last f Henv Hm Hbuf Hld Hfuel Hh.
  { by exists m, klog, f. }
  cbn [length load_segments]. pose proof (Hbuf 0%nat ph eq_refl) as H0.
  rewrite Z.add_0_r in H0. rewrite H0, bind_OK.
  apply Forall_cons in Hld as [Hph Hld]. apply Forall_cons in Hfuel as [Hfu Hfuel].
  assert (forall j p, rest !! j = Some p -> phdr_at buf (ph_i + 1 + Z.of_nat j) = OK p) as Hbuf'.
  { intros j p Hj. rewrite <- (Hbuf (S j) p Hj). f_equal. lia. }
  cbn [image_start image_end foldl]. rewrite <- negb_orb.
  change ((p_type ph =? PT_TLS) || (p_type ph =? PT_LOAD)) with (is_loaded ph).
  destruct (is_loaded ph) eqn:El; cbn [negb].
  - destruct (load_segment_ok freq m klog pstart last f ph Henv El Hph Hm Hh Hfu)
      as (m1 & klog1 & f1 & E & Hs & Hi & Hh1 & Hp1).
    rewrite E, bind_OK. cbn match.
    destruct (IH (ph_i + 1) m1 klog1 (if pstart =? 0 then p_paddr ph else pstart)
      (p_paddr ph + p_memsz ph) f1 Henv) as (m' & klog' & f' & E' & Hs' & Hh' & Hp').
    + by rewrite Hs.
    + exact Hbuf'.
    + by rewrite Hs.
    + eapply Forall_impl; [exact Hfuel|]. cbn. lia.
    + exact Hh1.
    + exists m', klog', f'. split; [exact E'|]. split; [congruence|]. split; [exact Hh'|].
      intros x Hx. rewrite Hp', Hp1 by done. by rewrite image_byte_cons, El.
  - destruct (IH (ph_i + 1) m klog pstart last f Henv Hm Hbuf' Hld Hfuel Hh)
      as (m' & klog' & f' & E' & Hs' & Hh' & Hp').
    exists m', klog', f'. split; [exact E'|]. split; [done|]. split; [exact Hh'|].
    intros x Hx. rewrite Hp' by done. by rewrite image_byte_cons, El.
Qed.

(** A file with this header and these program headers. *)
Record program_headers (hdr : Elf64_Ehdr) (phs : list Elf64_Phdr) : Prop := {
  boot_header : decode_ehdr (take 64 content) = hdr /\ 64 <= Z.of_nat (length content);
  boot_table : e_phnum hdr = Z.of_nat (length phs) /\ e_phentsize hdr = sizeof_phdr /\
    sizeof_phdr * Z.of_nat (length phs) < 2 ^ 31 /\ 0 <= e_phoff hdr /\
    e_phoff hdr + sizeof_phdr * Z.of_nat (length phs) <= Z.of_nat (length content);
  boot_phdrs : forall i ph, phs !! i = Some ph ->
    decode_phdr (take 56 (drop (Z.to_nat (e_phoff hdr) + 56 * i) content)) = ph
}.

(** A HermitCore kernel with these program headers for a guest with [size]
    bytes. *)
Record bootable (hdr : Elf64_Ehdr) (phs : list Elf64_Phdr) (size : Z) : Prop := {
  boot_file : program_headers hdr phs;
  boot_hermit : is_hermit hdr = true;
  boot_loadable : Forall (loadable size) phs;
  boot_size : header_end <= size
}.

(** The two reads in front of the segments. *)
Lemma read_ehdr hdr phs f :
  program_headers hdr phs -> (64 + interrupts f + 1 < fuel)%nat ->
  exists f1, pread_in_full pread fuel f sizeof_ehdr 0 = OK (64, take 64 content, f1) /\
    (interrupts f1 <= interrupts f)%nat /\ length (take 64 content) = 64%nat.
Proof.
  intros Hb Hf. destruct (boot_header _ _ Hb) as [_ Hlen].
  assert (length (take 64 content) = 64%nat) as Hl by (rewrite length_take; lia).
  destruct (pread_in_full_ok pread content interrupts f sizeof_ehdr 0 fuel Hfile
    ltac:(unfold sizeof_ehdr, SSIZE_MAX; lia) ltac:(lia) Hf) as (f1 & E & Hi).
  change (take (Z.to_nat sizeof_ehdr) (drop (Z.to_nat 0) content)) with (take 64 content) in E.
  rewrite Hl in E. by exists f1.
Qed.

Definition phdr_table (hdr : Elf64_Ehdr) (phs : list Elf64_Phdr) : list byte :=
  take (Z.to_nat (sizeof_phdr * Z.of_nat (length phs))) (drop (Z.to_nat (e_phoff hdr)) content).

Lemma read_phdrs hdr phs f :
  program_headers hdr phs ->
  (Z.to_nat (sizeof_phdr * Z.of_nat (length phs)) + interrupts f + 1 < fuel)%nat ->
  exists ret f1, pread_in_full pread fuel f (sizeof_phdr * Z.of_nat (length phs)) (e_phoff hdr) =
      OK (ret, phdr_table hdr phs, f1) /\
    (s32 ret <? 0) = false /\ (interrupts f1 <= interrupts f)%nat.
Proof.
  intros Hb Hf. destruct (boot_table _ _ Hb) as (_ & _ & Hbl & Hoff & _).
  destruct (pread_in_full_ok pread content interrupts f (sizeof_phdr * Z.of_nat (length phs))
    (e_phoff hdr) fuel Hfile ltac:(unfold sizeof_phdr, SSIZE_MAX in *; lia) Hoff Hf) as (f1 & E & Hi).
  eexists _, f1. split; [exact E|]. split; [|done]. set (buf := take _ _).
  assert (Z.of_nat (length buf) < 2 ^ 31) by (unfold buf; rewrite length_take; unfold sizeof_phdr in *; lia).
  unfold s32. rewrite signed_small by lia. apply Z.ltb_ge. lia.
Qed.

Lemma phdr_at_table hdr phs i ph :
  program_headers hdr phs -> phs !! i = Some ph ->
  phdr_at (phdr_table hdr phs) (0 + Z.of_nat i) = OK ph.
Proof.
  intros Hb Hi. pose proof (lookup_lt_Some _ _ _ Hi) as Hlt.
  destruct (boot_table _ _ Hb) as (_ & _ & _ & H0 & H1).
  unfold phdr_at, phdr_table, sizeof_phdr in *. rewrite length_take, length_drop.
  destruct (Z.leb_spec (56 * (0 + Z.of_nat i + 1))
    (Z.of_nat (Nat.min (Z.to_nat (56 * Z.of_nat (length phs))) (length content - Z.to_nat (e_phoff hdr)))));
    [|lia].
  f_equal. rewrite <- (boot_phdrs _ _ Hb i ph Hi). f_equal.
  rewrite skipn_firstn_comm, take_take, drop_drop. f_equal; [lia|]. f_equal. lia.
Qed.

Ltac header_lia :=
  unfold header_end, BOOT_INFO_ADDR, sizeof_kernel_header, k_magic_number, k_version,
    k_single_kernel, le32 in *;
  rewrite ?length_le_split, ?length_replicate; cbn [length msize poken]; lia.

Lemma boot_info_ok m :
  header_end <= msize m ->
  exists m0, (m ← memset0 m BOOT_INFO_ADDR sizeof_kernel_header;
     set_fields m BOOT_INFO_ADDR [(k_magic_number, le32 0xC0DECAFE); (k_version, le32 1);
       (k_single_kernel, [Byte.x01])]) = OK m0 /\ msize m0 = msize m /\
    load32 m0 BOOT_INFO_ADDR = OK 0xC0DECAFE /\
    forall x, x < BOOT_INFO_ADDR \/ header_end <= x -> peek m0 x = peek m x.
Proof.
  intros Hm. unfold memset0. rewrite store_ok by header_lia. rewrite bind_OK.
  set (m1 := poken m BOOT_INFO_ADDR (replicate sizeof_kernel_header NUL)).
  assert (msize m1 = msize m) as Hs by done. cbn [set_fields].
  rewrite store_ok by header_lia. rewrite bind_OK, store_ok by header_lia.
  rewrite bind_OK, store_ok by header_lia.
  rewrite bind_OK. eexists. split; [reflexivity|]. split; [done|]. split.
  - rewrite load_le_poken_other by header_lia. rewrite load_le_poken_other by header_lia.
    unfold k_magic_number, le32. rewrite Z.add_0_r. by rewrite load_le_poken_same by header_lia.
  - intros x Hx. unfold m1. rewrite !peek_poken_out; [done|..]; header_lia.
Qed.
Lemma image_byte_header phs x b size :
  x < header_end -> Forall (loadable size) phs -> image_byte phs x b = b.
Proof.
  intros Hx Hl. revert b. induction Hl as [|ph phs Hph Hl IH]; intros b; [done|].
  rewrite image_byte_cons, IH. destruct (is_loaded ph) eqn:E; [|done]. cbn [andb].
  unfold seg_covers. destruct (Hph E) as (_ & _ & _ & Hp & _).
  destruct (Z.leb_spec (p_paddr ph) x); [lia|done].
Qed.

(** C17. The kernel is loaded as its program headers say.  For a HermitCore
    executable whose segments lie in the file and, behind the boot information,
    in guest memory, however the file system cuts the reads, [load_kernel]
    returns 0; afterwards every byte outside the boot information is the byte of
    the last loaded segment (PT_LOAD or PT_TLS) that covers it, or what it was;
    the boot information has its magic number and, when there is a segment, the
    start of the first one as base, the guest's size as limit and the extent up
    to the end of the last one as image size; and the entry point is the
    file's. *)
Theorem load_kernel_image freq hdr phs fd malloc m klog entry0 f :
  environment_ok freq -> bootable hdr phs (msize m) -> fd <> -1 ->
  malloc (sizeof_phdr * Z.of_nat (length phs)) = true ->
  (64 + interrupts f + 1 < fuel)%nat ->
  (Z.to_nat (sizeof_phdr * Z.of_nat (length phs)) + interrupts f + 1 < fuel)%nat ->
  Forall (fun ph => Z.to_nat (p_filesz ph) + interrupts f + 1 < fuel)%nat phs ->
  exists l, load_kernel pread fuel env fd malloc (mkloader m None klog entry0 f) = OK (0, l) /\
    l_entry l = e_entry hdr /\ l_kheader l = Some BOOT_INFO_ADDR /\ msize (l_mem l) = msize m /\
    (forall x, x < BOOT_INFO_ADDR \/ header_end <= x ->
       peek (l_mem l) x = image_byte phs x (peek m x)) /\
    load32 (l_mem l) BOOT_INFO_ADDR = OK 0xC0DECAFE /\
    header_ok (l_mem l) (image_start phs 0) (image_end phs 0).
Proof.
  intros Henv Hb Hfd Hmal Hf1 Hf2 Hf3. pose proof (boot_file _ _ _ Hb) as Hph.
  destruct (boot_header _ _ Hph) as [Hdec _].
  destruct (boot_table _ _ Hph) as (Hnum & Hsz & Hbl & _ & _).
  pose proof (boot_size _ _ _ Hb) as Hm.
  unfold load_kernel. cbn [l_mem l_kheader l_klog l_entry l_file].
  destruct (Z.eqb_spec fd (-1)); [done|].
  destruct (read_ehdr _ _ f Hph Hf1) as (f1 & -> & Hi1 & Hl64). rewrite bind_OK. cbn match.
  rewrite Hl64. change (s32 64 <? 0) with false. change (Z.of_nat 64 <? sizeof_ehdr) with false. cbn match.
  rewrite Hdec, (boot_hermit _ _ _ Hb), Hnum, Hsz. cbn [negb]. cbn zeta.
  destruct (Z.leb_spec (2 ^ 31) (sizeof_phdr * Z.of_nat (length phs))); [lia|].
  rewrite Hmal. cbn [negb].
  destruct (read_phdrs _ _ f1 Hph ltac:(lia)) as (ret & f2 & -> & Hret & Hi2). rewrite bind_OK. cbn match.
  rewrite Hret. unfold GUEST_OFFSET. rewrite Z.sub_0_r. set (buf := phdr_table hdr phs).
  destruct (boot_info_ok m Hm) as (m0 & E0 & Hs0 & Hmag & Hp0).
  destruct (load_segments_ok freq buf phs 0 m0 klog 0 0 f2 Henv) as (m' & klog' & f' & E & Hs & Hh & Hp).
  - by rewrite Hs0.
  - intros j ph Hj. by apply (phdr_at_table hdr phs).
  - rewrite Hs0. apply (boot_loadable _ _ _ Hb).
  - eapply Forall_impl; [exact Hf3|]. cbn. lia.
  - by intros [].
  - apply bind_OK_inv in E0 as (mz & Ez & E0). rewrite Ez, bind_OK, E0, !bind_OK. cbn match.
    rewrite Nat2Z.id, E, bind_OK. eexists. split; [reflexivity|]. cbn [l_mem l_kheader l_entry].
    split; [done|]. split; [done|]. split; [congruence|]. split; [|split; [|done]].
    + intros x Hx. rewrite Hp by (unfold outside_header; lia). by rewrite Hp0.
    + rewrite (load_le_ext 4 m' m0); [done|done|]. intros x Hx. rewrite Hp by (unfold outside_header; lia).
      apply (image_byte_header _ _ _ (msize m)); [unfold header_end, sizeof_kernel_header; lia|]. apply (boot_loadable _ _ _ Hb).
Qed.
End Boot.

(** *** Files that are refused *)

(** What [load_kernel] refuses.  When the kernel cannot be opened, when the
    header cannot be read, and for a file that is not a HermitCore executable of
    this processor it returns a negative number and changes neither guest
    memory nor the pointers into it. *)
Theorem load_kernel_rejects {F} (pread : F -> Z -> Z -> read_result * F) fuel env fd malloc l :
  (fd = -1 \/
   (exists bytes f', pread_in_full pread fuel (l_file l) sizeof_ehdr 0 = OK (-1, bytes, f')) \/
   (exists bytes f', pread_in_full pread fuel (l_file l) sizeof_ehdr 0 = OK (64, bytes, f') /\
      length bytes = 64%nat /\ is_hermit (decode_ehdr bytes) = false)) ->
  exists f', load_kernel pread fuel env fd malloc l =
    OK (-1, mkloader (l_mem l) (l_kheader l) (l_klog l) (l_entry l) f').
Proof.
  unfold load_kernel. intros [->|[(bytes & f' & E)|(bytes & f' & E & Hl & Hh)]].
  - exists (l_file l). done.
  - destruct (fd =? -1); [by exists (l_file l)|]. rewrite E. by exists f'.
  - destruct (fd =? -1); [by exists (l_file l)|]. rewrite E, bind_OK. cbn match.
    change (s32 64 <? 0) with false. cbn match. rewrite Hl.
    change (Z.of_nat 64 <? sizeof_ehdr) with false. cbn match. rewrite Hh. by exists f'.
Qed.

(** *** A small kernel *)

(** Two program headers: 8 bytes at 0x10000, then 4 bytes at 0x20000 in 16. *)
Definition small_kernel : list byte :=
  [Byte.x7f; Byte.x45; Byte.x4c; Byte.x46; Byte.x02; Byte.x01; Byte.x01; Byte.xff] ++ replicate 8 NUL ++
  le16 2 ++ le16 62 ++ le32 1 ++ le64 0x10000 ++ le64 64 ++ le64 0 ++ le32 0 ++ le16 64 ++
  le16 56 ++ le16 2 ++ le16 0 ++ le16 0 ++ le16 0 ++
  (le32 1 ++ le32 5 ++ le64 176 ++ le64 0x10000 ++ le64 0x10000 ++ le64 8 ++ le64 8 ++ le64 0) ++
  (le32 1 ++ le32 6 ++ le64 184 ++ le64 0x20000 ++ le64 0x20000 ++ le64 4 ++ le64 16 ++ le64 0) ++
  str "kernel!!" ++ str "data".

Definition small_hdr : Elf64_Ehdr := decode_ehdr (take 64 small_kernel).
Definition small_phdrs : list Elf64_Phdr :=
  [mkphdr 1 176 0x10000 8 8; mkphdr 1 184 0x20000 4 16].

Definition small_setup : setup :=
  mksetup (fun name => if decide (name = "HERMIT_IP"%string) then Some (str "10.0.5.2") else None)
    false 0x40000 0x7f0000000000 (OK 3400) 1.

Lemma small_program_headers : program_headers small_kernel small_hdr small_phdrs.
Proof.
  split.
  - split; [done|vm_compute; congruence].
  - vm_compute. intuition congruence.
  - intros i ph Hi. destruct i as [|[|i]]; cbn in Hi; [..|done]; injection Hi as <-; vm_compute; reflexivity.
Qed.

Lemma small_bootable : bootable small_kernel small_hdr small_phdrs 0x40000.
Proof.
  split.
  - exact small_program_headers.
  - vm_compute. reflexivity.
  - unfold small_phdrs, loadable. repeat apply Forall_cons_2; [..|apply Forall_nil_2]; intros _;
      vm_compute; intuition congruence.
  - vm_compute. congruence.
Qed.

Lemma load_kernel_image_witness :
  exists l, load_kernel (slow_pread small_kernel) 130 small_setup 3 (fun _ => true)
    (mkloader (fresh_mem 0x40000) None None 0 true) = OK (0, l) /\
    peek (l_mem l) 0x20003 = Byte.x61 /\ load64 (l_mem l) (BOOT_INFO_ADDR + k_base) = OK 0x10000.
Proof.
  destruct (load_kernel_image (slow_pread small_kernel) 130 small_setup small_kernel _
    (slow_pread_regular small_kernel) 3400 small_hdr small_phdrs 3 (fun _ => true) (fresh_mem 0x40000)
    None 0 true) as (l & E & _ & _ & _ & Hp & _ & Hh).
  - split; [reflexivity|vm_compute; intuition congruence|].
    eexists _, _, _. split; [vm_compute; reflexivity|]. split; vm_compute; reflexivity.
  - exact small_bootable.
  - lia.
  - reflexivity.
  - vm_compute. lia.
  - vm_compute. lia.
  - unfold small_phdrs. repeat apply Forall_cons_2; [..|apply Forall_nil_2]; vm_compute; lia.
  - exists l. split; [exact E|]. split.
    + rewrite Hp by (right; vm_compute; congruence). vm_compute. reflexivity.
    + apply Hh. vm_compute. congruence.
Defined.

Lemma load_kernel_rejects_witness :
  exists f', load_kernel (slow_pread (replicate 64 NUL)) 70 small_setup 3 (fun _ => true)
    (mkloader (fresh_mem 0x40000) None None 0 false) =
    OK (-1, mkloader (fresh_mem 0x40000) None None 0 f') /\ f' = f'.
Proof.
  destruct (load_kernel_rejects (slow_pread (replicate 64 NUL)) 70 small_setup 3 (fun _ => true)
    (mkloader (fresh_mem 0x40000) None None 0 false)) as (f' & E).
  - right. right. exists (replicate 64 NUL), false. split; [vm_compute; reflexivity|].
    split; [reflexivity|vm_compute; reflexivity].
  - exists f'. split; [exact E|reflexivity].
Defined.
