(* ===== verification/Checkpoint.v ===== *)
(** * Checkpoints

    [timer_handler], [scan_page_tables], [write_mem_page_to_chk_file] and
    [load_checkpoint] of src/uhyve-x86_64.c: saving the guest's pages to the file
    checkpoint/chk<n>_mem.dat and reading them back.  The files are byte lists;
    the format of the configuration file is in Config.v, the state of the
    processors in Smp.v. *)

From S2P Require Import Prelude GuestMem Paging CLib Config Elf.

Open Scope uhyve_scope.

(** ** Saving *)

(** A page table has 512 entries. *)
Definition ENTRIES : nat := 512.
Definition flags_set (entry mask : Z) : bool := entry .& mask =? mask.

Section Scan.
(** [save_page(entry, sizeof(size_t), page, size)]: the handler gets the bytes
    of the entry, and a pointer to the page in guest memory. *)
Context {S : Type} (save_page : gmem -> list byte -> Z -> Z -> S -> outcome S).
Context (full_checkpoint : bool) (no_checkpoint : Z).

(** Pages that were dirtied since the last checkpoint, or used at all. *)
Definition flag : Z :=
  if negb full_checkpoint && (0 <? no_checkpoint) then PG_DIRTY else PG_ACCESSED.

(** Later checkpoints only save what is dirtied from now on. *)
Definition clear_flags (m : gmem) (a entry : Z) : outcome (gmem * Z) :=
  if full_checkpoint then OK (m, entry)
  else
    let entry := entry .& not64 (PG_DIRTY .| PG_ACCESSED) in
    m ← store64 m a entry; OK (m, entry).

Definition scan_pgt (pgt : Z) : gmem * S -> outcome (gmem * S) :=
  for_upto ENTRIES 0 (fun l '(m, s) =>
    entry ← load64 m (pgt + 8 * l);
    if flags_set entry (PG_PRESENT .| flag) then
      '(m, entry) ← clear_flags m (pgt + 8 * l) entry;
      s ← save_page m (le64 (entry .& not64 PG_PSE)) (entry .& PAGE_MASK) (1 << PAGE_BITS) s;
      OK (m, s)
    else OK (m, s)).

Definition scan_pgd (pgd : Z) : gmem * S -> outcome (gmem * S) :=
  for_upto ENTRIES 0 (fun k '(m, s) =>
    entry ← load64 m (pgd + 8 * k);
    if negb (flags_set entry PG_PRESENT) then OK (m, s)
    else if negb (flags_set entry PG_PSE) then scan_pgt (entry .& PAGE_MASK) (m, s)
    else if flags_set entry flag then
      '(m, entry) ← clear_flags m (pgd + 8 * k) entry;
      s ← save_page m (le64 entry) (entry .& PAGE_2M_MASK) (1 << PAGE_2M_BITS) s;
      OK (m, s)
    else OK (m, s)).

Definition scan_pdpt (pdpt : Z) : gmem * S -> outcome (gmem * S) :=
  for_upto ENTRIES 0 (fun j '(m, s) =>
    entry ← load64 m (pdpt + 8 * j);
    if negb (flags_set entry PG_PRESENT) then OK (m, s)
    else scan_pgd (entry .& PAGE_MASK) (m, s)).

Definition scan_page_tables : gmem * S -> outcome (gmem * S) :=
  for_upto ENTRIES 0 (fun i '(m, s) =>
    entry ← load64 m (BOOT_PML4 + 8 * i);
    if negb (flags_set entry PG_PRESENT) then OK (m, s)
    else scan_pdpt (entry .& PAGE_MASK) (m, s)).
End Scan.

(** [write_mem_page_to_chk_file]: the entry, then the page. *)
Definition write_mem_page_to_chk_file (m : gmem) (entry : list byte) (page page_size : Z) (chk_file : list byte)
    : outcome (list byte) :=
  data ← load m page (Z.to_nat page_size); OK (chk_file ++ entry ++ data).

Definition sizeof_clock : nat := 48.

(** What a checkpoint leaves behind: the memory (whose entries may have lost
    flags), the configuration with the next number, the file of the pages and
    the configuration file.  [clock] is what [KVM_GET_CLOCK] stores. *)
Definition timer_handler (clock : list byte) (m : gmem) (c : config)
    : outcome (gmem * config * list byte * list byte) :=
  '(m, chk_file) ←
    scan_page_tables write_mem_page_to_chk_file (full_checkpoint c) (no_checkpoint c) (m, clock);
  OK (m, set_no_checkpoint c (u32 (no_checkpoint c + 1)), chk_file, write_chk_config c).

(** ** Loading *)

(** The loop over the records of a file: where the page goes and how long it is
    follows from the entry.  A record cut short ends uhyve, a cut entry ends
    the loop. *)
Definition load_pages (fuel : nat) (m : gmem) (f : list byte) : outcome gmem :=
  while fuel (fun '(m, f) =>
    if (length f <? 8)%nat then OK (inr m)
    else
      let location := le_combine (take 8 f) in
      let f := drop 8 f in
      let n := Z.to_nat (if has location PG_PSE then 1 << PAGE_2M_BITS else 1 << PAGE_BITS) in
      if (length f <? n)%nat then Exited 1
      else m ← store m (determine_dest_offset location) (take n f); OK (inl (m, drop n f))) (m, f).

Record loaded := mkloaded {
  ld_mem : gmem;
  ld_kheader : option Z;
  ld_klog : option Z;
  ld_clock : option Z              (* the argument of KVM_SET_CLOCK *)
}.

(** The pointers that are still NULL. *)
Definition set_pointers (elf_entry : Z) (l : loaded) : loaded :=
  let klog := match ld_klog l with Some a => Some a | None => Some (elf_entry + 0x5000 - GUEST_OFFSET) end in
  let kheader := match ld_kheader l with Some a => Some a | None => Some (elf_entry - GUEST_OFFSET) end in
  mkloaded (ld_mem l) kheader klog (ld_clock l).

Section Load.
Context (fuel : nat) (files : Z -> option (list byte)) (no_checkpoint : Z) (cap_adjust_clock_stable : bool).

(** The checkpoints [i], [i + 1], ..., [n] of them; -1 when a file is missing. *)
Fixpoint load_files (n : nat) (i : Z) (l : loaded) : outcome (Z * loaded) :=
  match n with
  | O => OK (0, l)
  | S n =>
      match files i with
      | None => OK (-1, l)
      | Some f =>
          if (length f <? sizeof_clock)%nat then Exited 1
          else
            let clock := le_combine (take 8 f) in
            let l := if cap_adjust_clock_stable && (i =? no_checkpoint)
                     then mkloaded (ld_mem l) (ld_kheader l) (ld_klog l) (Some clock) else l in
            m ← load_pages fuel (ld_mem l) (drop sizeof_clock f);
            load_files n (i + 1) (mkloaded m (ld_kheader l) (ld_klog l) (ld_clock l))
      end
  end.

(** [load_checkpoint] of the default build; that of a build with USE_DIRTY_LOG,
    which loads the kernel first, is in DirtyLog.v. *)
Definition load_checkpoint (full_checkpoint : bool) (elf_entry : Z) (l : loaded) : outcome (Z * loaded) :=
  let i := if full_checkpoint then no_checkpoint else 0 in
  load_files (Z.to_nat (no_checkpoint + 1 - i)) i (set_pointers elf_entry l).
End Load.

(** [uhyve_loop] announces the number of cores in the boot information. *)
Definition announce_cpus (m : gmem) (kheader ncores : Z) : outcome gmem :=
  store32 m (kheader + k_possible_cpus) ncores.

(** ** What a full checkpoint saves *)

Definition word (m : gmem) (a : Z) : Z := le_combine (peekn m a 8).

(** The locations of the pages that are saved, in the order of the scan. *)
Section Leaves.
Context (flag : Z) (m : gmem).

Definition over_entries {A} (f : Z -> list A) : list A := concat (f <$> seqZ 0 (Z.of_nat ENTRIES)).

Definition pgt_leaves (pgt : Z) : list Z := over_entries (fun l =>
  let e := word m (pgt + 8 * l) in
  if flags_set e (PG_PRESENT .| flag) then [e .& not64 PG_PSE] else []).

Definition pgd_leaves (pgd : Z) : list Z := over_entries (fun k =>
  let e := word m (pgd + 8 * k) in
  if negb (flags_set e PG_PRESENT) then []
  else if negb (flags_set e PG_PSE) then pgt_leaves (e .& PAGE_MASK)
  else if flags_set e flag then [e] else []).

Definition pdpt_leaves (pdpt : Z) : list Z := over_entries (fun j =>
  let e := word m (pdpt + 8 * j) in
  if negb (flags_set e PG_PRESENT) then [] else pgd_leaves (e .& PAGE_MASK)).

Definition page_leaves : list Z := over_entries (fun i =>
  let e := word m (BOOT_PML4 + 8 * i) in
  if negb (flags_set e PG_PRESENT) then [] else pdpt_leaves (e .& PAGE_MASK)).

(** The tables and the pages lie in guest memory. *)
Definition table_in (a : Z) : Prop := 0 <= a /\ a + 4096 <= msize m.
Definition page_in (a n : Z) : Prop := 0 <= a /\ a + n <= msize m.

Definition pgt_in (pgt : Z) : Prop := table_in pgt /\ forall l, 0 <= l < 512 ->
  let e := word m (pgt + 8 * l) in
  flags_set e (PG_PRESENT .| flag) -> page_in (e .& PAGE_MASK) (1 << PAGE_BITS).
Definition pgd_in (pgd : Z) : Prop := table_in pgd /\ forall k, 0 <= k < 512 ->
  let e := word m (pgd + 8 * k) in
  flags_set e PG_PRESENT ->
  if flags_set e PG_PSE then flags_set e flag -> page_in (e .& PAGE_2M_MASK) (1 << PAGE_2M_BITS)
  else pgt_in (e .& PAGE_MASK).
Definition pdpt_in (pdpt : Z) : Prop := table_in pdpt /\ forall j, 0 <= j < 512 ->
  let e := word m (pdpt + 8 * j) in flags_set e PG_PRESENT -> pgd_in (e .& PAGE_MASK).
Definition tables_in_memory : Prop := table_in BOOT_PML4 /\ forall i, 0 <= i < 512 ->
  let e := word m (BOOT_PML4 + 8 * i) in flags_set e PG_PRESENT -> pdpt_in (e .& PAGE_MASK).
End Leaves.

(** The page of a location, and its record in the file. *)
Definition page_size (e : Z) : Z := if has e PG_PSE then 1 << PAGE_2M_BITS else 1 << PAGE_BITS.
Definition record (m : gmem) (e : Z) : list byte :=
  le64 e ++ peekn m (determine_dest_offset e) (Z.to_nat (page_size e)).
Definition records (m : gmem) (es : list Z) : list byte := concat (record m <$> es).

Lemma records_app m es1 es2 : records m (es1 ++ es2) = records m es1 ++ records m es2.
Proof. unfold records. by rewrite fmap_app, concat_app. Qed.

Lemma load_word m a : 0 <= a -> a + 8 <= msize m -> load64 m a = OK (word m a).
Proof. intros. by rewrite load_le_ok by done. Qed.

(** A loop whose iterations append to the file. *)
Lemma for_upto_collect (body : Z -> gmem * list byte -> outcome (gmem * list byte)) m g :
  forall n i f,
  (forall j f, i <= j < i + Z.of_nat n -> body j (m, f) = OK (m, f ++ records m (g j))) ->
  for_upto n i body (m, f) = OK (m, f ++ records m (concat (g <$> seqZ i (Z.of_nat n)))).
Proof.
  induction n as [|n IH]; intros i f Hb; [by rewrite app_nil_r|].
  cbn [for_upto]. rewrite Hb by lia. rewrite bind_OK, IH by (intros; apply Hb; lia).
  rewrite (seqZ_cons i (Z.of_nat (S n))) by lia.
  rewrite fmap_cons. cbn [concat]. rewrite records_app, app_assoc.
  by replace (Z.pred (Z.of_nat (S n))) with (Z.of_nat n) by lia.
Qed.

Lemma collect_entries body m g f :
  (forall j f, 0 <= j < 512 -> body j (m, f) = OK (m, f ++ records m (g j))) ->
  for_upto ENTRIES 0 body (m, f) = OK (m, f ++ records m (over_entries g)).
Proof. intros Hb. apply for_upto_collect. intros j f' Hj. apply Hb.
  change (Z.of_nat ENTRIES) with 512 in Hj. lia.
Qed.

Lemma record_4k m e :
  is_u64 e ->
  le64 (e .& not64 PG_PSE) ++ peekn m (e .& PAGE_MASK) (Z.to_nat (1 << PAGE_BITS)) =
  record m (e .& not64 PG_PSE).
Proof.
  intros He. unfold record, page_size, determine_dest_offset, has.
  assert ((e .& not64 PG_PSE) .& PG_PSE = 0) as ->.
  { rewrite <- Z.land_assoc. change (not64 PG_PSE .& PG_PSE) with 0. apply Z.land_0_r. }
  cbn [Z.eqb negb]. rewrite <- Z.land_assoc. by change (not64 PG_PSE .& PAGE_MASK) with PAGE_MASK.
Qed.

Lemma flags_set_has e : flags_set e PG_PSE = has e PG_PSE.
Proof.
  unfold flags_set, has. change PG_PSE with (2 ^ 7).
  destruct (Z.testbit e 7) eqn:E.
  - assert (e .& 2 ^ 7 = 2 ^ 7) as ->; [|done]. apply Z.bits_inj'. intros i Hi.
    rewrite Z.land_spec, Z.pow2_bits_eqb by lia. destruct (Z.eqb_spec 7 i); [by subst; rewrite E|apply andb_false_r].
  - assert (e .& 2 ^ 7 = 0) as ->; [|done]. apply Z.bits_inj'. intros i Hi.
    rewrite Z.land_spec, Z.pow2_bits_eqb, Z.bits_0 by lia.
    destruct (Z.eqb_spec 7 i); [by subst; rewrite E|apply andb_false_r].
Qed.

Lemma record_2m m e :
  flags_set e PG_PSE = true ->
  le64 e ++ peekn m (e .& PAGE_2M_MASK) (Z.to_nat (1 << PAGE_2M_BITS)) = record m e.
Proof.
  rewrite flags_set_has. intros E. unfold record, page_size, determine_dest_offset. by rewrite E.
Qed.

Lemma records_nil m f : f ++ records m [] = f.
Proof. apply app_nil_r. Qed.

Section FullScan.
Context (no : Z) (m : gmem).
Abbreviation fl := (flag true no).

Lemma word_range a : is_u64 (word m a).
Proof.
  unfold word, is_u64. pose proof (le_combine_bound (peekn m a 8)) as H.
  rewrite length_peekn in H. exact H.
Qed.

Lemma load_page a n : page_in m a n -> 0 <= n -> load m a (Z.to_nat n) = OK (peekn m a (Z.to_nat n)).
Proof. intros [H1 H2] Hn. apply load_ok; [exact H1|]. by rewrite Z2Nat.id. Qed.

Lemma scan_pgt_full pgt f :
  pgt_in fl m pgt ->
  scan_pgt write_mem_page_to_chk_file true no pgt (m, f) = OK (m, f ++ records m (pgt_leaves fl m pgt)).
Proof.
  intros [[H0 Hs] Hin]. unfold scan_pgt. apply collect_entries. intros l f' Hl.
  rewrite load_word by lia. rewrite bind_OK. cbn beta zeta.
  destruct (flags_set (word m (pgt + 8 * l)) (PG_PRESENT .| fl)) eqn:E; [|by rewrite records_nil].
  assert (page_in m (word m (pgt + 8 * l) .& PAGE_MASK) (1 << PAGE_BITS)) as Hp
    by (apply (Hin l Hl); by rewrite E).
  cbn [clear_flags]. unfold write_mem_page_to_chk_file.
  rewrite bind_OK, (load_page _ _ Hp) by (vm_compute; congruence). rewrite !bind_OK.
  unfold records. cbn [fmap list_fmap concat]. rewrite app_nil_r.
  by rewrite record_4k by apply word_range.
Qed.

Lemma scan_pgd_full pgd f :
  pgd_in fl m pgd ->
  scan_pgd write_mem_page_to_chk_file true no pgd (m, f) = OK (m, f ++ records m (pgd_leaves fl m pgd)).
Proof.
  intros [[H0 Hs] Hin]. unfold scan_pgd. apply collect_entries. intros k f' Hk.
  rewrite load_word by lia. rewrite bind_OK. cbn beta zeta.
  destruct (flags_set (word m (pgd + 8 * k)) PG_PRESENT) eqn:E; cbn [negb]; [|by rewrite records_nil].
  specialize (Hin k Hk). cbn beta zeta in Hin. rewrite E in Hin. specialize (Hin I).
  destruct (flags_set (word m (pgd + 8 * k)) PG_PSE) eqn:Ep; cbn [negb]; [|by apply scan_pgt_full].
  destruct (flags_set (word m (pgd + 8 * k)) fl) eqn:Ef; [|by rewrite records_nil].
  specialize (Hin I). rename Hin into Hp.
  cbn [clear_flags]. unfold write_mem_page_to_chk_file.
  rewrite bind_OK, (load_page _ _ Hp) by (vm_compute; congruence). rewrite !bind_OK.
  unfold records. cbn [fmap list_fmap concat]. rewrite app_nil_r. by rewrite record_2m.
Qed.

Lemma scan_pdpt_full pdpt f :
  pdpt_in fl m pdpt ->
  scan_pdpt write_mem_page_to_chk_file true no pdpt (m, f) = OK (m, f ++ records m (pdpt_leaves fl m pdpt)).
Proof.
  intros [[H0 Hs] Hin]. unfold scan_pdpt. apply collect_entries. intros j f' Hj.
  rewrite load_word by lia. rewrite bind_OK. cbn beta zeta.
  destruct (flags_set (word m (pdpt + 8 * j)) PG_PRESENT) eqn:E; cbn [negb]; [|by rewrite records_nil].
  apply scan_pgd_full, (Hin j Hj). by rewrite E.
Qed.

Lemma scan_page_tables_full f :
  tables_in_memory fl m ->
  scan_page_tables write_mem_page_to_chk_file true no (m, f) = OK (m, f ++ records m (page_leaves fl m)).
Proof.
  intros [[H0 Hs] Hin]. unfold scan_page_tables. apply collect_entries. intros i f' Hi.
  rewrite load_word by lia. rewrite bind_OK. cbn beta zeta.
  destruct (flags_set (word m (BOOT_PML4 + 8 * i)) PG_PRESENT) eqn:E; cbn [negb]; [|by rewrite records_nil].
  apply scan_pdpt_full, (Hin i Hi). by rewrite E.
Qed.
End FullScan.

(** ** Loading what was saved *)

Definition covers (e x : Z) : bool :=
  (determine_dest_offset e <=? x) && (x <? determine_dest_offset e + page_size e).

(** [x] lies in one of the pages. *)
Definition covered (es : list Z) (x : Z) : bool := existsb (fun e => covers e x) es.

Lemma page_size_pos e : 0 < page_size e.
Proof. unfold page_size. by destruct (has e PG_PSE). Qed.

(** An address of a page as an entry: it has no flags. *)
Lemma page_aligned_has o : 0 <= o -> o mod 4096 = 0 -> has o PG_PSE = false.
Proof.
  intros Ho Hm. change PG_PSE with (2 ^ 7). rewrite has_pow2 by lia.
  rewrite (Z.div_mod o 4096) by lia. rewrite Hm.
  replace (4096 * (o / 4096) + 0) with (o / 4096 * 2 ^ 12 + 0) by lia.
  by rewrite testbit_aligned, Z.bits_0 by lia.
Qed.

Lemma page_offset o : 0 <= o < 2 ^ 63 -> o mod 4096 = 0 -> determine_dest_offset o = o.
Proof.
  intros Ho Hm. unfold determine_dest_offset. rewrite page_aligned_has by lia.
  rewrite PAGE_MASK_eq, land_high_mask, (Z.mod_small o) by lia.
  change (2 ^ 12) with 4096. Z.div_mod_to_equations. lia.
Qed.

Lemma page_aligned_size o : 0 <= o -> o mod 4096 = 0 -> page_size o = 4096.
Proof. intros Ho Hm. unfold page_size. by rewrite page_aligned_has. Qed.

(** A record of a file: where the page goes, and its bytes. *)
Definition encode_records (rs : list (Z * list byte)) : list byte :=
  concat ((fun '(e, page) => le64 e ++ page) <$> rs).
Definition record_in (size : Z) (r : Z * list byte) : Prop :=
  is_u64 r.1 /\ 0 <= determine_dest_offset r.1 /\
  determine_dest_offset r.1 + page_size r.1 <= size /\ length r.2 = Z.to_nat (page_size r.1).

(** What the records make of a byte: the last page that covers it counts. *)
Definition restored_byte (rs : list (Z * list byte)) (x : Z) (old : byte) : byte :=
  foldl (fun b r => if covers r.1 x then default NUL (r.2 !! Z.to_nat (x - determine_dest_offset r.1)) else b)
    old rs.

Lemma load_encoded rs : forall fuel m0,
  Forall (record_in (msize m0)) rs -> (length rs < fuel)%nat ->
  exists m1, load_pages fuel m0 (encode_records rs) = OK m1 /\ msize m1 = msize m0 /\
    forall x, peek m1 x = restored_byte rs x (peek m0 x).
Proof.
  unfold load_pages. induction rs as [|[e page] rs IH]; intros fuel m0 Hrs Hf;
    (destruct fuel as [|fuel]; [cbn in Hf; lia|]); rewrite while_S.
  - exists m0. done.
  - apply Forall_cons in Hrs as [(He & Hp0 & Hp1 & Hlen) Hrs]. cbn [fst snd] in *.
    unfold encode_records. rewrite fmap_cons. cbn [concat]. fold (encode_records rs).
    rewrite <- app_assoc.
    assert (length (le64 e) = 8%nat) as H8 by apply length_le_split.
    destruct (Nat.ltb_spec (length (le64 e ++ page ++ encode_records rs)) 8) as [Hlt|_];
      [rewrite length_app in Hlt; lia|].
    rewrite take_app_length', drop_app_length' by done.
    pose proof (page_size_pos e).
    assert (le_combine (le64 e) = e) as ->.
    { unfold le64. rewrite le_combine_split. change (2 ^ (Z.of_nat 8 * 8)) with (2 ^ 64).
      by apply Z.mod_small. }
    fold (page_size e). set (n := Z.to_nat (page_size e)) in *.
    assert (page_size e = Z.of_nat n) as Hn by (unfold n; lia). clearbody n.
    destruct (Nat.ltb_spec (length (page ++ encode_records rs)) n) as [Hlt|_];
      [rewrite length_app in Hlt; lia|].
    rewrite take_app_length', drop_app_length' by done.
    rewrite store_ok by (rewrite ?Hlen; lia). rewrite !bind_OK.
    destruct (IH fuel (poken m0 (determine_dest_offset e) page) Hrs) as (m1 & E & Hs1 & Hp);
      [cbn in Hf; lia|].
    exists m1. split; [exact E|]. split; [done|]. intros x. rewrite Hp, peek_poken.
    unfold restored_byte. cbn [foldl fst snd]. unfold covers at 3. rewrite Hn, Hlen. done.
Qed.

Lemma restored_same rs x b v :
  (forall r, r ∈ rs -> covers r.1 x = true ->
     default NUL (r.2 !! Z.to_nat (x - determine_dest_offset r.1)) = v) ->
  restored_byte rs x b = if covered rs.*1 x then v else b.
Proof.
  unfold restored_byte. revert b. induction rs as [|r rs IH]; intros b Hr; [done|].
  cbn [foldl fmap list_fmap covered existsb]. fold (covered rs.*1 x).
  rewrite IH by (intros r' Hr'; apply Hr; by right).
  destruct (covers r.1 x) eqn:E; cbn [orb]; [|done].
  rewrite (Hr r) by (done || by left). by destruct (covered rs.*1 x).
Qed.

(** *** The pages that are saved lie in memory *)

Section LeavesIn.
Context (flag : Z) (m : gmem).

Definition leaf_in (e : Z) : Prop := is_u64 e /\ page_in m (determine_dest_offset e) (page_size e).

Lemma over_entries_Forall (P : Z -> Prop) g :
  (forall j, 0 <= j < 512 -> Forall P (g j)) -> Forall P (over_entries g).
Proof.
  intros H. unfold over_entries. apply Forall_concat, Forall_fmap, Forall_forall.
  intros j Hj%elem_of_seqZ. apply H. change (Z.of_nat ENTRIES) with 512 in Hj. lia.
Qed.

Lemma leaf_4k e :
  is_u64 e -> page_in m (e .& PAGE_MASK) (1 << PAGE_BITS) -> leaf_in (e .& not64 PG_PSE).
Proof.
  intros He Hp. split.
  - pose proof (land_bounds e (not64 PG_PSE) ltac:(done)). unfold is_u64.
    assert (not64 PG_PSE < 2 ^ 64) by done. lia.
  - unfold page_size, determine_dest_offset, has.
    assert ((e .& not64 PG_PSE) .& PG_PSE = 0) as ->.
    { rewrite <- Z.land_assoc. change (not64 PG_PSE .& PG_PSE) with 0. apply Z.land_0_r. }
    cbn [Z.eqb negb]. rewrite <- Z.land_assoc. by change (not64 PG_PSE .& PAGE_MASK) with PAGE_MASK.
Qed.

Lemma pgt_leaves_in pgt : pgt_in flag m pgt -> Forall leaf_in (pgt_leaves flag m pgt).
Proof.
  intros [_ H]. apply over_entries_Forall. intros l Hl. cbn beta zeta.
  destruct (flags_set _ _) eqn:E; [|apply Forall_nil_2]. apply Forall_singleton.
  apply leaf_4k; [apply word_range|]. apply (H l Hl). by rewrite E.
Qed.

Lemma pgd_leaves_in pgd : pgd_in flag m pgd -> Forall leaf_in (pgd_leaves flag m pgd).
Proof.
  intros [_ H]. apply over_entries_Forall. intros k Hk. specialize (H k Hk). cbn beta zeta in *.
  destruct (flags_set (word m (pgd + 8 * k)) PG_PRESENT) eqn:E; cbn [negb]; [|apply Forall_nil_2].
  specialize (H I). destruct (flags_set (word m (pgd + 8 * k)) PG_PSE) eqn:Ep; cbn [negb];
    [|by apply pgt_leaves_in].
  destruct (flags_set (word m (pgd + 8 * k)) flag) eqn:Ef; [|apply Forall_nil_2].
  apply Forall_singleton. split; [apply word_range|]. rewrite flags_set_has in Ep.
  unfold determine_dest_offset, page_size. rewrite Ep. by apply H.
Qed.

Lemma pdpt_leaves_in pdpt : pdpt_in flag m pdpt -> Forall leaf_in (pdpt_leaves flag m pdpt).
Proof.
  intros [_ H]. apply over_entries_Forall. intros j Hj. specialize (H j Hj). cbn beta zeta in *.
  destruct (flags_set (word m (pdpt + 8 * j)) PG_PRESENT) eqn:E; cbn [negb]; [|apply Forall_nil_2].
  by apply pgd_leaves_in, H.
Qed.

Lemma page_leaves_in : tables_in_memory flag m -> Forall leaf_in (page_leaves flag m).
Proof.
  intros [_ H]. apply over_entries_Forall. intros i Hi. specialize (H i Hi). cbn beta zeta in *.
  destruct (flags_set (word m (BOOT_PML4 + 8 * i)) PG_PRESENT) eqn:E; cbn [negb]; [|apply Forall_nil_2].
  by apply pdpt_leaves_in, H.
Qed.
End LeavesIn.

Lemma load_files_app fuel files no cap n1 n2 : forall i l l1,
  load_files fuel files no cap n1 i l = OK (0, l1) ->
  load_files fuel files no cap (n1 + n2) i l = load_files fuel files no cap n2 (i + Z.of_nat n1) l1.
Proof.
  induction n1 as [|n1 IH]; intros i l l1 E.
  - cbn in E. injection E as <-. by rewrite Z.add_0_r.
  - cbn [load_files Nat.add] in *. destruct (files i) as [f|]; [|discriminate].
    destruct (length f <? sizeof_clock)%nat; [discriminate|].
    apply bind_OK_inv in E as (m & Em & E). rewrite Em, bind_OK.
    rewrite (IH _ _ _ E). f_equal. lia.
Qed.

Lemma load_pages_size fuel m f m' : load_pages fuel m f = OK m' -> msize m' = msize m.
Proof.
  unfold load_pages. intros H. revert H.
  apply (while_inv _ (fun '(m1, _) => msize m1 = msize m) (fun m1 => msize m1 = msize m)); [|done].
  intros [m1 f1] r Hm E. cbn match in Hm. destruct (length f1 <? 8)%nat; [by injection E as <-|].
  cbn zeta in E. destruct (_ <? _)%nat; [discriminate|].
  apply bind_OK_inv in E as (m2 & Es & E). injection E as <-. rewrite <- Hm. by eapply store_size.
Qed.

Lemma load_files_size fuel files no cap n : forall i l l',
  load_files fuel files no cap n i l = OK (0, l') -> msize (ld_mem l') = msize (ld_mem l).
Proof.
  induction n as [|n IH]; intros i l l' E; cbn [load_files] in E; [by injection E as <-|].
  destruct (files i) as [f|]; [|discriminate]. destruct (length f <? sizeof_clock)%nat; [discriminate|].
  apply bind_OK_inv in E as (m & Em & E). rewrite (IH _ _ _ E). cbn [ld_mem].
  rewrite (load_pages_size _ _ _ _ Em). by destruct (cap && (i =? no)).
Qed.

(** The last checkpoint sets the clock. *)
Lemma load_files_clock fuel files no n : forall i l l',
  i + Z.of_nat n = no -> load_files fuel files no true (S n) i l = OK (0, l') ->
  exists f, files no = Some f /\ ld_clock l' = Some (le_combine (take 8 f)).
Proof.
  induction n as [|n IH]; intros i l l' Hi E;
    [|remember (S n) as k eqn:Ek]; cbn [load_files] in E;
    (destruct (files i) as [f|] eqn:Ef; [|discriminate]); (destruct (length f <? sizeof_clock)%nat; [discriminate|]);
    apply bind_OK_inv in E as (m & Em & E).
  - assert (i = no) as -> by lia. rewrite Z.eqb_refl in E. injection E as <-. by exists f.
  - subst k. by apply (IH (i + 1) _ _ ltac:(lia)) in E.
Qed.

Lemma records_encode m es :
  records m es =
  encode_records ((fun e => (e, peekn m (determine_dest_offset e) (Z.to_nat (page_size e)))) <$> es).
Proof. unfold records, encode_records. by rewrite <- list_fmap_compose. Qed.

(** Loading the file of one checkpoint. *)
Lemma load_file fuel files no cap i l clock rs :
  files i = Some (clock ++ encode_records rs) -> length clock = sizeof_clock ->
  Forall (record_in (msize (ld_mem l))) rs -> (length rs < fuel)%nat ->
  exists l1, load_files fuel files no cap 1 i l = OK (0, l1) /\ msize (ld_mem l1) = msize (ld_mem l) /\
    (forall x, peek (ld_mem l1) x = restored_byte rs x (peek (ld_mem l) x)) /\
    (cap = true -> i = no -> ld_clock l1 = Some (le_combine (take 8 clock))).
Proof.
  intros Hf Hclk Hrs Hfuel. cbn [load_files]. rewrite Hf.
  destruct (Nat.ltb_spec (length (clock ++ encode_records rs)) sizeof_clock) as [Hlt|_];
    [rewrite length_app in Hlt; lia|].
  rewrite drop_app_length' by done. rewrite take_app_le by (rewrite Hclk; unfold sizeof_clock; lia).
  set (l2 := if cap && (i =? no) then _ else l).
  assert (ld_mem l2 = ld_mem l) as -> by (unfold l2; by destruct (cap && (i =? no))).
  destruct (load_encoded rs fuel (ld_mem l) Hrs Hfuel) as (m1 & E & Hs & Hp).
  rewrite E, bind_OK. eexists. split; [reflexivity|]. split; [done|]. split; [exact Hp|].
  intros -> ->. unfold l2. by rewrite Z.eqb_refl.
Qed.

(** The pages of a full checkpoint as records. *)
Definition page_records (m : gmem) (es : list Z) : list (Z * list byte) :=
  (fun e => (e, peekn m (determine_dest_offset e) (Z.to_nat (page_size e)))) <$> es.

Lemma page_records_in m es : Forall (leaf_in m) es -> Forall (record_in (msize m)) (page_records m es).
Proof.
  intros H. apply Forall_fmap. eapply list.Forall_impl; [exact H|]. intros e (He & H0 & H1).
  unfold record_in. cbn. by rewrite length_peekn.
Qed.

Lemma page_records_restored m es x b :
  restored_byte (page_records m es) x b = if covered es x then peek m x else b.
Proof.
  unfold page_records. rewrite (restored_same _ x _ (peek m x)).
  - by rewrite <- list_fmap_compose, (list_fmap_ext _ id), list_fmap_id by done.
  - intros r (e & -> & _)%list_elem_of_fmap. unfold covers. cbn [fst snd].
    rewrite andb_true_iff, Z.leb_le, Z.ltb_lt. intros Hx.
    rewrite lookup_peekn by lia. cbn. f_equal. lia.
Qed.

(** C4. A full checkpoint brings back the pages the guest has accessed.  With all
    page tables and pages in memory, taking checkpoint N leaves memory as it is,
    counts on to N + 1 and produces a file from which [load_checkpoint] restores
    the pages whose entry has the accessed flag, byte for byte, and the clock.
    Pages that are mapped but were not accessed are not in the file: there, and
    where nothing is mapped, memory is what it was, or, when the flag of the configuration
    was lost, what loading the checkpoints 0 to N - 1 first has made of it. *)
Theorem full_checkpoint_restores clock m c cap fuel entry l :
  full_checkpoint c = true -> 0 <= no_checkpoint c -> length clock = sizeof_clock ->
  let no := no_checkpoint c in
  let es := page_leaves (flag true no) m in
  tables_in_memory (flag true no) m -> (length es < fuel)%nat -> msize (ld_mem l) = msize m ->
  exists chk_file,
    timer_handler clock m c = OK (m, set_no_checkpoint c (u32 (no + 1)), chk_file, write_chk_config c) /\
    forall files full l0, files no = Some chk_file ->
    let i := if full : bool then no else 0 in
    load_files fuel files no cap (Z.to_nat (no - i)) i (set_pointers entry l) = OK (0, l0) ->
    exists l1, load_checkpoint fuel files no cap full entry l = OK (0, l1) /\
      (forall x, peek (ld_mem l1) x = if covered es x then peek m x else peek (ld_mem l0) x) /\
      (cap = true -> ld_clock l1 = Some (le_combine (take 8 clock))).
Proof.
  intros Hfull Hno Hclk no es Htab Hfuel Hsz. unfold timer_handler. rewrite Hfull.
  rewrite scan_page_tables_full by done. rewrite bind_OK. cbn match.
  eexists. split; [reflexivity|]. intros files full l0 Hfile Hl0. set (i := if full then no else 0) in *. fold no es in Hfile.
  unfold load_checkpoint. cbn zeta. fold i.
  replace (Z.to_nat (no + 1 - i)) with (Z.to_nat (no - i) + 1)%nat by (destruct full; unfold i; lia).
  rewrite (load_files_app _ _ _ _ _ _ _ _ _ Hl0).
  replace (i + Z.of_nat (Z.to_nat (no - i))) with no by (destruct full; unfold i; lia).
  pose proof (load_files_size _ _ _ _ _ _ _ _ Hl0) as Hsz0. change (ld_mem (set_pointers entry l)) with (ld_mem l) in Hsz0.
  destruct (load_file fuel files no cap no l0 clock (page_records m es)) as (l1 & E & _ & Hp & Hc).
  - by rewrite Hfile, records_encode.
  - done.
  - rewrite Hsz0, Hsz. apply page_records_in, (page_leaves_in _ _ Htab).
  - unfold page_records. by rewrite length_fmap.
  - exists l1. split; [exact E|]. split; [|auto]. intros x. by rewrite Hp, page_records_restored.
Qed.

(** *** A small guest *)

(** One page table of 4 KiB pages at 0x13000; the page at 0x14000 is accessed
    and dirty, the one at 0x15000 only mapped. *)
Definition paged_guest : gmem :=
  poken (foldl (fun m '(a, v) => poken m a (le64 v)) (fresh_mem 0x16000)
    [(BOOT_PML4, BOOT_PDPTE + 3); (BOOT_PDPTE, BOOT_PDE + 3); (BOOT_PDE, 0x13000 + 3);
     (0x13000, 0x14000 + 0x63); (0x13008, 0x15000 + 3)])
    0x14000 (str "accessed").

(** The hypotheses of the theorem as a test. *)
Section TablesTest.
Context (flag : Z) (m : gmem).

Definition inb (a n : Z) : bool := (0 <=? a) && (a + n <=? msize m).
Definition all_entries (table : Z) (p : Z -> bool) : bool :=
  inb table 4096 && forallb (fun i => p (word m (table + 8 * i))) (seqZ 0 512).
Definition pgt_inb (pgt : Z) : bool := all_entries pgt (fun e =>
  if flags_set e (PG_PRESENT .| flag) then inb (e .& PAGE_MASK) (1 << PAGE_BITS) else true).
Definition pgd_inb (pgd : Z) : bool := all_entries pgd (fun e =>
  if flags_set e PG_PRESENT then
    if flags_set e PG_PSE then
      if flags_set e flag then inb (e .& PAGE_2M_MASK) (1 << PAGE_2M_BITS) else true
    else pgt_inb (e .& PAGE_MASK)
  else true).
Definition pdpt_inb (pdpt : Z) : bool := all_entries pdpt (fun e =>
  if flags_set e PG_PRESENT then pgd_inb (e .& PAGE_MASK) else true).
Definition tables_inb : bool := all_entries BOOT_PML4 (fun e =>
  if flags_set e PG_PRESENT then pdpt_inb (e .& PAGE_MASK) else true).

Lemma inb_spec a n : inb a n = true -> 0 <= a /\ a + n <= msize m.
Proof. unfold inb. rewrite andb_true_iff, !Z.leb_le. done. Qed.

Lemma all_entries_spec table p (P : Z -> Prop) :
  all_entries table p = true -> (forall e, p e = true -> P e) ->
  table_in m table /\ forall i, 0 <= i < 512 -> P (word m (table + 8 * i)).
Proof.
  unfold all_entries. rewrite andb_true_iff, forallb_forall. intros [Hin Hall] HP.
  split; [by apply inb_spec|]. intros i Hi. apply HP, Hall. apply list_elem_of_In, elem_of_seqZ. lia.
Qed.

Lemma guarded (b c : bool) (P : Prop) : (if b then c else true) = true -> (c = true -> P) -> b -> P.
Proof. destruct b; cbn; [auto|done]. Qed.

Lemma tables_inb_spec : tables_inb = true -> tables_in_memory flag m.
Proof.
  intros H. unfold tables_in_memory.
  refine (all_entries_spec _ _ (fun e => flags_set e PG_PRESENT -> pdpt_in flag m (e .& PAGE_MASK)) H _).
  intros e4 H4. refine (guarded _ _ _ H4 _). intros H3.
  refine (all_entries_spec _ _ (fun e => flags_set e PG_PRESENT -> pgd_in flag m (e .& PAGE_MASK)) H3 _).
  intros e3 H3'. refine (guarded _ _ _ H3' _). intros H2.
  refine (all_entries_spec _ _ (fun e => flags_set e PG_PRESENT ->
    if flags_set e PG_PSE then flags_set e flag -> page_in m (e .& PAGE_2M_MASK) (1 << PAGE_2M_BITS)
    else pgt_in flag m (e .& PAGE_MASK)) H2 _).
  intros e2 H2'. refine (guarded _ _ _ H2' _). intros H1. destruct (flags_set e2 PG_PSE).
  - refine (guarded _ _ _ H1 _). apply inb_spec.
  - refine (all_entries_spec _ _ (fun e => flags_set e (PG_PRESENT .| flag) ->
      page_in m (e .& PAGE_MASK) (1 << PAGE_BITS)) H1 _).
    intros e1 H0. refine (guarded _ _ _ H0 _). apply inb_spec.
Qed.
End TablesTest.

Definition paged_config : config := mkconfig 1 0x16000 0 0x10000 true.
Definition empty_guest : loaded := mkloaded (fresh_mem 0x16000) None None None.

Lemma full_checkpoint_restores_witness :
  exists chk_file l1,
    load_checkpoint 2 (fun i => if i =? 0 then Some chk_file else None) 0 true false 0x10000 empty_guest = OK (0, l1) /\
    peek (ld_mem l1) 0x14003 = Byte.x65 /\ peek (ld_mem l1) 0x13000 = NUL.
Proof.
  destruct (full_checkpoint_restores (replicate 48 NUL) paged_guest paged_config true 2 0x10000 empty_guest)
    as (chk_file & _ & H).
  - reflexivity.
  - vm_compute. congruence.
  - reflexivity.
  - apply tables_inb_spec. vm_compute. reflexivity.
  - vm_compute. lia.
  - reflexivity.
  - destruct (H (fun i => if i =? 0 then Some chk_file else None) false (set_pointers 0x10000 empty_guest))
      as (l1 & E & Hp & _); [reflexivity|reflexivity|].
    exists chk_file, l1. split; [exact E|]. split; rewrite Hp; vm_compute; reflexivity.
Defined.

(** After a restart the boot information is looked for at the entry point, not
    at [BOOT_INFO_ADDR]: announcing the number of cores overwrites the kernel. *)
Lemma restart_overwrites_kernel fuel files no cap full entry l l1 n :
  ld_kheader l = None -> load_checkpoint fuel files no cap full entry l = OK (0, l1) ->
  0 <= entry -> entry + 128 <= msize (ld_mem l1) ->
  ld_kheader l1 = Some entry /\
  exists m, announce_cpus (ld_mem l1) entry n = OK m /\ load32 m (entry + 124) = OK (u32 n).
Proof.
  intros Hn E He Hs. split.
  - unfold load_checkpoint in E. 
    assert (forall k i l l', load_files fuel files no cap k i l = OK (0, l') -> ld_kheader l' = ld_kheader l) as Hk.
    { induction k as [|k IH]; intros i l2 l' E2; cbn [load_files] in E2; [by injection E2 as <-|].
      destruct (files i) as [f|]; [|discriminate]. destruct (length f <? sizeof_clock)%nat; [discriminate|].
      apply bind_OK_inv in E2 as (m & Em & E2). rewrite (IH _ _ _ E2). cbn [ld_kheader].
      by destruct (cap && (i =? no)). }
    rewrite (Hk _ _ _ _ E). cbn. rewrite Hn. unfold GUEST_OFFSET. f_equal. lia.
  - unfold announce_cpus, k_possible_cpus. rewrite store_le_ok by lia. eexists. split; [reflexivity|].
    by rewrite load_le_poken_same by lia.
Qed.
