(* ===== verification/Incremental.v ===== *)
(** * Incremental checkpoints

    Without HERMIT_FULLCHECKPOINT the first checkpoint saves the pages with the
    accessed flag, every later one those with the dirty flag, and each clears
    both flags of what it saves while it walks the tables ([scan_page_tables],
    src/uhyve-x86_64.c).  A restart loads all files in turn
    ([load_checkpoint]).  The definitions are those of Checkpoint.v; this file
    holds what they promise together. *)

From S2P Require Import Prelude GuestMem Paging CLib Config Elf Checkpoint.

Open Scope uhyve_scope.

(** An entry without its flags. *)
Definition strip (e : Z) : Z := e .& not64 (PG_DIRTY .| PG_ACCESSED).

(** The leaf entries the scan saves: whether they map a large page, and their
    addresses, in the order of the scan. *)
Section Slots.
Context (flag : Z) (m : gmem).

Definition pgt_slots (pgt : Z) : list (bool * Z) := over_entries (fun l =>
  if flags_set (word m (pgt + 8 * l)) (PG_PRESENT .| flag) then [(false, pgt + 8 * l)] else []).

Definition pgd_slots (pgd : Z) : list (bool * Z) := over_entries (fun k =>
  let e := word m (pgd + 8 * k) in
  if negb (flags_set e PG_PRESENT) then []
  else if negb (flags_set e PG_PSE) then pgt_slots (e .& PAGE_MASK)
  else if flags_set e flag then [(true, pgd + 8 * k)] else []).

Definition pdpt_slots (pdpt : Z) : list (bool * Z) := over_entries (fun j =>
  let e := word m (pdpt + 8 * j) in
  if negb (flags_set e PG_PRESENT) then [] else pgd_slots (e .& PAGE_MASK)).

Definition page_slots : list (bool * Z) := over_entries (fun i =>
  let e := word m (BOOT_PML4 + 8 * i) in
  if negb (flags_set e PG_PRESENT) then [] else pdpt_slots (e .& PAGE_MASK)).
End Slots.

(** The location the file gets: the entry, for a small page without the bit
    that has another meaning there. *)
Definition location (large : bool) (e : Z) : Z := if large then e else e .& not64 PG_PSE.

(** No entry is a leaf for a large page and, over another path, for a small one. *)
Definition unmixed (slots : list (bool * Z)) : Prop :=
  forall a, (false, a) ∈ slots -> (true, a) ∈ slots -> False.

(** ** Entries without flags *)

Lemma strip_test e mask :
  not64 (PG_DIRTY .| PG_ACCESSED) .& mask = mask -> strip e .& mask = e .& mask.
Proof. intros H. unfold strip. by rewrite <- Z.land_assoc, H. Qed.

Lemma strip_present e : flags_set (strip e) PG_PRESENT = flags_set e PG_PRESENT.
Proof. unfold flags_set. by rewrite strip_test. Qed.
Lemma strip_pse e : flags_set (strip e) PG_PSE = flags_set e PG_PSE.
Proof. unfold flags_set. by rewrite strip_test. Qed.
Lemma strip_mask e : strip e .& PAGE_MASK = e .& PAGE_MASK.
Proof. by apply strip_test. Qed.

(** What the scan looks for is gone. *)
Lemma strip_cleared e no mask :
  mask .& flag false no = flag false no -> flags_set (strip e) mask = false.
Proof.
  intros Hm. unfold flags_set. apply Z.eqb_neq. intros E.
  apply (f_equal (fun z => z .& flag false no)) in E. rewrite <- Z.land_assoc, Hm in E.
  unfold strip in E. rewrite <- Z.land_assoc in E. unfold flag in E. revert E.
  cbn [negb andb]. destruct (0 <? no); by rewrite Z.land_0_r.
Qed.

Lemma strip_u64 e : is_u64 e -> is_u64 (strip e).
Proof.
  intros He. unfold is_u64 in *.
  pose proof (land_bounds e (not64 (PG_DIRTY .| PG_ACCESSED)) ltac:(done)).
  assert (not64 (PG_DIRTY .| PG_ACCESSED) < 2 ^ 64) by done. unfold strip. lia.
Qed.

Lemma strip_high e : is_u64 e -> strip e >> 8 = e >> 8.
Proof.
  intros He. unfold strip. rewrite Z.shiftr_land.
  change (not64 (PG_DIRTY .| PG_ACCESSED) >> 8) with (Z.ones 56). rewrite Z.land_ones by lia.
  rewrite Z.shiftr_div_pow2 by lia. apply Z.mod_small. unfold is_u64 in He.
  split; [apply Z.div_pos; lia|apply Z.div_lt_upper_bound; lia].
Qed.

Lemma location_offset large e :
  determine_dest_offset (location large (strip e)) = determine_dest_offset (location large e) /\
  page_size (location large (strip e)) = page_size (location large e).
Proof.
  assert (forall mask, not64 (PG_DIRTY .| PG_ACCESSED) .& mask = mask ->
    location large (strip e) .& mask = location large e .& mask) as H.
  { intros mask Hm. destruct large; cbn [location]; [by apply strip_test|].
    rewrite <- !Z.land_assoc. apply strip_test.
    by rewrite Z.land_assoc, (Z.land_comm _ (not64 PG_PSE)), <- Z.land_assoc, Hm. }
  unfold determine_dest_offset, page_size, has. rewrite !H by done. done.
Qed.

Lemma covers_strip large e x : covers (location large (strip e)) x = covers (location large e) x.
Proof. unfold covers. by rewrite !(proj1 (location_offset _ _)), !(proj2 (location_offset _ _)). Qed.

(** ** Words and bytes *)

Lemma word_bytes m a : peekn m a 8 = le_split 8 (word m a).
Proof. unfold word. rewrite <- (length_peekn m a 8) at 2. by rewrite split_le_combine. Qed.

Lemma peek_word m m' a r : word m a = word m' a -> 0 <= r < 8 -> peek m (a + r) = peek m' (a + r).
Proof.
  intros E Hr. apply (inj Some).
  rewrite <- (Z2Nat.id r) by lia. rewrite <- !(lookup_peekn _ a 8) by lia. by rewrite !word_bytes, E.
Qed.

Lemma peek_strip m m' a r : word m' a = strip (word m a) -> 0 < r < 8 -> peek m' (a + r) = peek m (a + r).
Proof.
  intros E Hr. apply (inj Some). rewrite <- (Z2Nat.id r) by lia.
  rewrite <- !(lookup_peekn _ a 8) by lia. rewrite !word_bytes, E.
  replace (Z.to_nat r) with (S (Z.to_nat (r - 1))) by lia.
  change (le_split 8 ?z) with (byte.of_Z z :: le_split 7 (z >> 8)). cbn [lookup list_lookup].
  by rewrite strip_high by apply word_range.
Qed.

Lemma word_poken_same m a v : is_u64 v -> word (poken m a (le64 v)) a = v.
Proof.
  intros Hv. unfold word, le64.
  rewrite <- (length_le_split 8 v) at 2. rewrite peekn_poken_same, le_combine_split.
  by apply Z.mod_small.
Qed.

Lemma word_poken_other m a b v :
  a mod 8 = 0 -> b mod 8 = 0 -> a <> b -> word (poken m a (le64 v)) b = word m b.
Proof.
  intros Ha Hb Hne. unfold word, le64. rewrite peekn_poken_out; [done|].
  rewrite length_le_split. Z.div_mod_to_equations. lia.
Qed.

Lemma entry_aligned e j : (e .& PAGE_MASK + 8 * j) mod 8 = 0.
Proof.
  rewrite PAGE_MASK_eq, land_high_mask by lia.
  replace (2 ^ 12 * (e mod 2 ^ 63 / 2 ^ 12) + 8 * j) with ((512 * (e mod 2 ^ 63 / 2 ^ 12) + j) * 8) by lia.
  apply Z.mod_mul. lia.
Qed.

(** ** The scan *)

Section Scan.
Context (no : Z) (m : gmem) (f0 : list byte).
Abbreviation fl := (flag false no).
Abbreviation slots := (page_slots fl m).
Context (Hunmixed : unmixed slots).

Abbreviation state := (gmem * list byte)%type.
Abbreviation records_t := (list (Z * list byte)).

(** A record holds the page of a slot, up to the flags of saved entries. *)
Definition page_of_slot (r : Z * list byte) : Prop :=
  exists k a, (k, a) ∈ slots /\ r.1 = location k (strip (word m a)) /\
    length r.2 = Z.to_nat (page_size r.1) /\
    forall i b, r.2 !! i = Some b ->
      let x := determine_dest_offset r.1 + Z.of_nat i in
      b = peek m x \/ exists k', (k', x) ∈ slots.

(** The state of the scan: what is in the file, and which entries lost flags. *)
Record scanned (rs : records_t) (s : state) : Prop := {
  sc_file : s.2 = f0 ++ encode_records rs;
  sc_size : msize s.1 = msize m;
  sc_words : forall a, a mod 8 = 0 ->
    word s.1 a = word m a \/
    exists k, (k, a) ∈ slots /\ word s.1 a = strip (word m a) /\ location k (strip (word m a)) ∈ rs.*1;
  sc_records : Forall page_of_slot rs
}.

(** The scan only adds records and removes flags. *)
Record extends (rs : records_t) (s : state) (rs' : records_t) (s' : state) : Prop := {
  ex_records : rs `prefix_of` rs';
  ex_words : forall a, a mod 8 = 0 -> word s.1 a = strip (word m a) -> word s'.1 a = strip (word m a)
}.

Definition saved (rs : records_t) (s : state) (slot : bool * Z) : Prop :=
  slot.2 mod 8 = 0 /\ word s.1 slot.2 = strip (word m slot.2) /\
  location slot.1 (strip (word m slot.2)) ∈ rs.*1.

Lemma extends_refl rs s : extends rs s rs s.
Proof. split; done. Qed.

Lemma extends_trans rs s rs1 s1 rs2 s2 :
  extends rs s rs1 s1 -> extends rs1 s1 rs2 s2 -> extends rs s rs2 s2.
Proof. intros [H1 H2] [H3 H4]. split; [by etrans|]. auto. Qed.

Lemma saved_extends rs s rs' s' slot : extends rs s rs' s' -> saved rs s slot -> saved rs' s' slot.
Proof.
  intros [[rs2 ->] Hw] (Ha & Hs & Hl). split; [done|]. split; [by apply Hw|].
  rewrite fmap_app. apply elem_of_app. by left.
Qed.

(** Bytes of memory during the scan. *)
Definition flags_lost (m1 : gmem) : Prop := forall a, a mod 8 = 0 ->
  word m1 a = word m a \/ exists k, (k, a) ∈ slots /\ word m1 a = strip (word m a).

Lemma scanned_lost rs s : scanned rs s -> flags_lost s.1.
Proof.
  intros Hs a Ha. destruct (sc_words _ _ Hs a Ha) as [|(k & ? & ? & _)]; [by left|right; by exists k].
Qed.

Lemma lost_byte m1 x : flags_lost m1 -> peek m1 x = peek m x \/ exists k, (k, x) ∈ slots.
Proof.
  intros Hs. pose proof (Z.mod_pos_bound x 8 ltac:(lia)) as Hr.
  pose proof (Z.div_mod x 8 ltac:(lia)) as Hx. set (a := 8 * (x / 8)) in *. set (r := x mod 8) in *.
  assert (a mod 8 = 0) as Ha by (unfold a; rewrite Z.mul_comm; apply Z.mod_mul; lia).
  rewrite Hx. destruct (Hs a Ha) as [E|(k & Hk & E)].
  - left. by apply peek_word.
  - destruct (decide (r = 0)) as [->|]; [right; exists k; by rewrite Z.add_0_r|].
    left. apply peek_strip; [done|lia].
Qed.

Lemma page_recorded k a m2 :
  (k, a) ∈ slots -> flags_lost m2 ->
  let loc := location k (strip (word m a)) in
  page_of_slot (loc, peekn m2 (determine_dest_offset loc) (Z.to_nat (page_size loc))).
Proof.
  intros Hk Hl. cbn zeta. exists k, a. split; [done|]. split; [done|]. cbn [fst snd].
  split; [apply length_peekn|]. intros i b Hi. pose proof (lookup_lt_Some _ _ _ Hi) as Hlt.
  rewrite length_peekn in Hlt. rewrite lookup_peekn in Hi by done. injection Hi as <-.
  by apply lost_byte.
Qed.

(** Clearing one entry. *)
Section Clear.
Context (rs : records_t) (s : state) (k : bool) (a : Z) (page : list byte).
Context (Hk : (k, a) ∈ slots) (Ha : a mod 8 = 0) (Hs : scanned rs s).
Abbreviation e := (strip (word m a)).
Abbreviation m2 := (poken s.1 a (le64 e)).
Abbreviation rs' := (rs ++ [(location k e, page)]).
Abbreviation s' := (m2, s.2 ++ le64 (location k e) ++ page).

Lemma clear_same : word m2 a = e.
Proof. apply word_poken_same, strip_u64, word_range. Qed.

Lemma clear_other b : b mod 8 = 0 -> b <> a -> word m2 b = word s.1 b.
Proof. intros. apply word_poken_other; congruence. Qed.

Lemma clear_lost : flags_lost m2.
Proof.
  intros b Hb. destruct (decide (b = a)) as [->|Hne].
  - right. exists k. by rewrite clear_same.
  - rewrite clear_other by done. by apply (scanned_lost _ _ Hs).
Qed.

Lemma clear_location : location k e ∈ rs'.*1.
Proof. rewrite fmap_app. apply elem_of_app. right. by apply list_elem_of_singleton. Qed.

Lemma clear_scanned : page_of_slot (location k e, page) -> scanned rs' s'.
Proof.
  intros Hp. destruct Hs as [Hf Hms Hw Hr]. split.
  - cbn [snd]. rewrite Hf. unfold encode_records. rewrite fmap_app, concat_app.
    cbn [fmap list_fmap concat]. by rewrite app_nil_r, <- app_assoc.
  - done.
  - intros b Hb. cbn [fst]. destruct (decide (b = a)) as [->|Hne].
    + right. exists k. rewrite clear_same. split; [done|]. split; [done|apply clear_location].
    + rewrite clear_other by done. destruct (Hw b Hb) as [|(k' & Hk' & E & Hl')]; [by left|].
      right. exists k'. split; [done|]. split; [done|]. rewrite fmap_app. apply elem_of_app. by left.
  - apply Forall_app. split; [done|by apply Forall_singleton].
Qed.

Lemma clear_extends : extends rs s rs' s'.
Proof.
  split; [by exists [(location k e, page)]|]. intros b Hb E. cbn [fst].
  destruct (decide (b = a)) as [->|Hne]; [apply clear_same|]. by rewrite clear_other.
Qed.

Lemma clear_saved : saved rs' s' (k, a).
Proof. split; [done|]. split; [apply clear_same|apply clear_location]. Qed.
End Clear.

Lemma over_entries_sub {A} (g : Z -> list A) l j : over_entries g ⊆ l -> 0 <= j < 512 -> g j ⊆ l.
Proof.
  intros H Hj x Hx. apply H. unfold over_entries. apply list_elem_of_In, in_concat. exists (g j).
  split; apply list_elem_of_In; [|done]. apply list_elem_of_fmap. exists j.
  split; [done|]. apply elem_of_seqZ. change (Z.of_nat ENTRIES) with 512. lia.
Qed.

(** What the body of a scan loop does, given the slots it is responsible for. *)
Definition steps (body : state -> outcome state) (sl : list (bool * Z)) : Prop :=
  forall rs s, scanned rs s -> exists rs' s', body s = OK s' /\ scanned rs' s' /\
    extends rs s rs' s' /\ Forall (saved rs' s') sl /\ (length rs' <= length rs + length sl)%nat.

Lemma steps_skip : steps (fun s => OK s) [].
Proof. intros rs s Hs. exists rs, s. split; [done|]. split; [done|]. split; [apply extends_refl|]. split; [done|]. cbn. lia. Qed.

Lemma steps_entries (body : Z -> state -> outcome state) g :
  (forall j, 0 <= j < 512 -> steps (body j) (g j)) -> steps (for_upto ENTRIES 0 body) (over_entries g).
Proof.
  intros Hb rs s Hs.
  destruct (for_upto_inv (fun i s1 => exists rs1, scanned rs1 s1 /\ extends rs s rs1 s1 /\
    (forall j, 0 <= j < i -> Forall (saved rs1 s1) (g j)) /\
    (length rs1 <= length rs + length (concat (g <$> seqZ 0 i)))%nat) body ENTRIES 0 s)
    as (s' & E & rs' & Hs' & Hx & Hall & Hlen).
  - exists rs. split; [done|]. split; [apply extends_refl|]. split; lia.
  - intros j s1 Hj (rs1 & Hs1 & Hx1 & H1 & Hlen1). change (Z.of_nat ENTRIES) with 512 in Hj.
    destruct (Hb j ltac:(lia) rs1 s1 Hs1) as (rs2 & s2 & E & Hs2 & Hx2 & Hall & Hlen2).
    exists s2. split; [done|]. exists rs2. split; [done|]. split; [by eapply extends_trans|]. split.
    2:{ rewrite seqZ_app, fmap_app, concat_app, length_app by lia.
        replace (seqZ (0 + j) 1) with [j] by (unfold seqZ; cbn; f_equal; lia).
        cbn [fmap list_fmap concat]. rewrite app_nil_r. lia. }
    intros i Hi. destruct (decide (i = j)) as [->|]; [done|].
    eapply list.Forall_impl; [apply H1; lia|]. intros sl. by apply saved_extends.
  - exists rs', s'. split; [done|]. split; [done|]. split; [done|]. split; [|exact Hlen].
    unfold over_entries. apply Forall_concat, Forall_fmap, Forall_forall. intros j Hj%elem_of_seqZ. by apply Hall.
Qed.

(** The entry at [a] as the scan finds it. *)
Lemma scanned_entry rs s a :
  scanned rs s -> a mod 8 = 0 ->
  word s.1 a = word m a \/ word s.1 a = strip (word m a) /\ forall k, (k, a) ∈ slots -> saved rs s (k, a).
Proof.
  intros Hs Ha. destruct (sc_words _ _ Hs a Ha) as [|(k & Hk & E & Hl)]; [by left|].
  right. split; [done|]. intros k' Hk'. assert (k' = k) as ->; [|done].
  destruct k, k'; try done; exfalso; by eapply Hunmixed.
Qed.

(** The scan saves the page of a leaf entry that has its flags. *)
Lemma save_slot rs s k a :
  (k, a) ∈ slots -> a mod 8 = 0 -> 0 <= a -> a + 8 <= msize m -> leaf_in m (location k (word m a)) ->
  scanned rs s ->
  let e := strip (word m a) in let loc := location k e in
  exists m2 page, clear_flags false s.1 a (word m a) = OK (m2, e) /\
    load m2 (determine_dest_offset loc) (Z.to_nat (page_size loc)) = OK page /\
    exists rs', length rs' = S (length rs) /\ scanned rs' (m2, s.2 ++ le64 loc ++ page) /\
      extends rs s rs' (m2, s.2 ++ le64 loc ++ page) /\
      Forall (saved rs' (m2, s.2 ++ le64 loc ++ page)) [(k, a)].
Proof.
  intros Hk Ha H0 H8 [_ Hin] Hs. cbn zeta. set (e := strip (word m a)). set (loc := location k e).
  destruct (location_offset k (word m a)) as [Hoff Hsz]. fold e loc in Hoff, Hsz.
  rewrite <- Hoff, <- Hsz in Hin. destruct Hin as [Hin1 Hin2]. pose proof (page_size_pos loc) as Hpos.
  pose proof (sc_size _ _ Hs) as Hms.
  set (m2 := poken s.1 a (le64 e)).
  exists m2, (peekn m2 (determine_dest_offset loc) (Z.to_nat (page_size loc))).
  split; [|split].
  - unfold clear_flags. cbn [negb]. change (word m a .& not64 (PG_DIRTY .| PG_ACCESSED)) with e.
    rewrite store_le_ok by (cbn; lia). done.
  - apply load_ok; [done|]. rewrite Z2Nat.id by lia. unfold m2. cbn [msize poken]. lia.
  - eexists (rs ++ [_]). split; [rewrite length_app; cbn; lia|]. split; [apply clear_scanned; [done|done|done|]|].
    + apply page_recorded; [done|]. by apply (clear_lost rs s k a Hk Ha Hs).
    + split; [by apply clear_extends|]. apply Forall_singleton. by apply clear_saved.
Qed.

Lemma small_offset e :
  determine_dest_offset (location false e) = e .& PAGE_MASK /\ page_size (location false e) = 1 << PAGE_BITS.
Proof.
  unfold determine_dest_offset, page_size, has. cbn [location].
  assert ((e .& not64 PG_PSE) .& PG_PSE = 0) as ->.
  { rewrite <- Z.land_assoc. change (not64 PG_PSE .& PG_PSE) with 0. apply Z.land_0_r. }
  split; [|done]. cbn [Z.eqb negb]. rewrite <- Z.land_assoc. by change (not64 PG_PSE .& PAGE_MASK) with PAGE_MASK.
Qed.

Lemma large_offset e :
  flags_set e PG_PSE = true ->
  determine_dest_offset (location true e) = e .& PAGE_2M_MASK /\ page_size (location true e) = 1 << PAGE_2M_BITS.
Proof.
  rewrite flags_set_has. intros E. unfold determine_dest_offset, page_size. cbn [location]. by rewrite E.
Qed.

Lemma flag_in_pair : (PG_PRESENT .| fl) .& fl = fl.
Proof. unfold flag. cbn [negb andb]. by destruct (0 <? no). Qed.

Lemma scan_pgt_steps pgt :
  pgt mod 8 = 0 -> pgt_in fl m pgt -> pgt_slots fl m pgt ⊆ slots ->
  steps (scan_pgt write_mem_page_to_chk_file false no pgt) (pgt_slots fl m pgt).
Proof.
  intros Hal [[H0 Hmax] Hin] Hsub. unfold scan_pgt, pgt_slots. apply steps_entries.
  intros l Hl rs [m1 f1] Hs. pose proof (sc_size _ _ Hs) as Hms. cbn [fst] in Hms.
  set (a := pgt + 8 * l). assert (a mod 8 = 0) as Ha by (unfold a; Z.div_mod_to_equations; lia).
  rewrite load_word by (unfold a; lia). rewrite bind_OK.
  assert (flags_set (word m a) (PG_PRESENT .| fl) = true -> (false, a) ∈ slots) as Hmem.
  { intros E. apply (over_entries_sub _ _ l Hsub Hl). fold a. rewrite E. by left. }
  destruct (scanned_entry _ _ a Hs Ha) as [E|[E Hsv]]; cbn [fst] in E; rewrite E.
  - destruct (flags_set (word m a) (PG_PRESENT .| fl)) eqn:Ef; [|apply steps_skip; done].
    assert (leaf_in m (location false (word m a))) as Hleaf.
    { apply leaf_4k; [apply word_range|]. apply (Hin l Hl). fold a. by rewrite Ef. }
    destruct (save_slot rs (m1, f1) false a) as (m2 & page & Ec & El & rs' & Hlen & H1 & H2 & H3);
      [auto|done|unfold a; lia|unfold a; lia|done|done|].
    cbn [fst snd] in *. destruct (small_offset (strip (word m a))) as [Eo Es]. rewrite Eo, Es in El.
    rewrite Ec, bind_OK. cbn match. unfold write_mem_page_to_chk_file. rewrite El, !bind_OK.
    exists rs'. eexists. split; [reflexivity|]. split; [done|]. split; [done|]. split; [done|]. rewrite Hlen. cbn. lia.
  - rewrite (strip_cleared _ no) by apply flag_in_pair. exists rs, (m1, f1).
    split; [done|]. split; [done|]. split; [apply extends_refl|].
    split; [|lia]. destruct (flags_set (word m a) (PG_PRESENT .| fl)); [apply Forall_singleton; auto|done].
Qed.

Lemma scan_pgd_steps pgd :
  pgd mod 8 = 0 -> pgd_in fl m pgd -> pgd_slots fl m pgd ⊆ slots ->
  steps (scan_pgd write_mem_page_to_chk_file false no pgd) (pgd_slots fl m pgd).
Proof.
  intros Hal [[H0 Hmax] Hin] Hsub. unfold scan_pgd, pgd_slots. apply steps_entries.
  intros k Hk rs [m1 f1] Hs. pose proof (sc_size _ _ Hs) as Hms. cbn [fst] in Hms.
  set (a := pgd + 8 * k). assert (a mod 8 = 0) as Ha by (unfold a; Z.div_mod_to_equations; lia).
  rewrite load_word by (unfold a; lia). rewrite bind_OK. cbn beta zeta.
  pose proof (over_entries_sub _ _ k Hsub Hk) as Hsub_k. specialize (Hin k Hk). cbn beta zeta in Hin, Hsub_k.
  fold a in Hin, Hsub_k. revert Hin Hsub_k.
  destruct (flags_set (word m a) PG_PRESENT) eqn:Ep; cbn [negb]; intros Hin Hsub_k.
  2:{ replace (flags_set (word m1 a) PG_PRESENT) with false; [by apply steps_skip|].
      destruct (scanned_entry _ _ a Hs Ha) as [E|[E _]]; cbn [fst] in E; by rewrite E, ?strip_present. }
  specialize (Hin I). revert Hin Hsub_k.
  destruct (flags_set (word m a) PG_PSE) eqn:Es; cbn [negb]; intros Hin Hsub_k.
  2:{ assert (flags_set (word m1 a) PG_PRESENT = true /\ flags_set (word m1 a) PG_PSE = false /\
        word m1 a .& PAGE_MASK = word m a .& PAGE_MASK) as (-> & -> & ->).
      { destruct (scanned_entry _ _ a Hs Ha) as [E|[E _]]; cbn [fst] in E;
          by rewrite E, ?strip_present, ?strip_pse, ?strip_mask. }
      cbn [negb]. apply scan_pgt_steps; [|done|done|done].
      by rewrite <- (entry_aligned (word m a) 0), Z.add_0_r. }
  destruct (scanned_entry _ _ a Hs Ha) as [E|[E Hsv]]; cbn [fst] in E; rewrite E, ?strip_present, ?strip_pse, ?Ep, ?Es;
    cbn [negb].
  - destruct (flags_set (word m a) fl) eqn:Ef; [|by apply steps_skip].
    destruct (large_offset (word m a) Es) as [Eo Ez].
    assert (leaf_in m (location true (word m a))) as Hleaf
      by (split; [apply word_range|]; rewrite Eo, Ez; by apply Hin).
    destruct (save_slot rs (m1, f1) true a) as (m2 & page & Ec & El & rs' & Hlen & H1 & H2 & H3);
      [apply Hsub_k; by left|done|unfold a; lia|unfold a; lia|done|done|].
    cbn [fst snd] in *. destruct (large_offset (strip (word m a))) as [Eo2 Es2]; [by rewrite strip_pse|].
    rewrite Eo2, Es2 in El. rewrite Ec, bind_OK. cbn match. unfold write_mem_page_to_chk_file. rewrite El, !bind_OK.
    exists rs'. eexists. split; [reflexivity|]. split; [done|]. split; [done|]. split; [done|]. rewrite Hlen. cbn. lia.
  - rewrite (strip_cleared _ no fl) by apply Z.land_diag. exists rs, (m1, f1).
    split; [done|]. split; [done|]. split; [apply extends_refl|].
    split; [|lia]. destruct (flags_set (word m a) fl); [|done]. apply Forall_singleton, Hsv, Hsub_k. by left.
Qed.

(** The two upper levels only descend. *)
Lemma descend_steps table (body : Z -> state -> outcome state) (sl : Z -> list (bool * Z)) j :
  0 <= j < 512 -> table mod 8 = 0 -> table_in m table ->
  (flags_set (word m (table + 8 * j)) PG_PRESENT = true ->
     let t := word m (table + 8 * j) .& PAGE_MASK in t mod 8 = 0 -> steps (body t) (sl t)) ->
  steps (fun '(m, s) =>
      entry ← load64 m (table + 8 * j);
      if negb (flags_set entry PG_PRESENT) then OK (m, s) else body (entry .& PAGE_MASK) (m, s))
    (if negb (flags_set (word m (table + 8 * j)) PG_PRESENT) then [] else sl (word m (table + 8 * j) .& PAGE_MASK)).
Proof.
  intros Hj Hal [H0 Hmax] Hbody rs [m1 f1] Hs. pose proof (sc_size _ _ Hs) as Hms. cbn [fst] in Hms.
  set (a := table + 8 * j) in *. assert (a mod 8 = 0) as Ha by (unfold a; Z.div_mod_to_equations; lia).
  rewrite load_word by (unfold a; lia). rewrite bind_OK.
  assert (flags_set (word m1 a) PG_PRESENT = flags_set (word m a) PG_PRESENT /\
    word m1 a .& PAGE_MASK = word m a .& PAGE_MASK) as [-> ->].
  { destruct (scanned_entry _ _ a Hs Ha) as [E|[E _]]; cbn [fst] in E; by rewrite E, ?strip_present, ?strip_mask. }
  destruct (flags_set (word m a) PG_PRESENT); cbn [negb]; [|by apply steps_skip].
  apply Hbody; [done| |done]. by rewrite <- (entry_aligned (word m a) 0), Z.add_0_r.
Qed.

Lemma scan_pdpt_steps pdpt :
  pdpt mod 8 = 0 -> pdpt_in fl m pdpt -> pdpt_slots fl m pdpt ⊆ slots ->
  steps (scan_pdpt write_mem_page_to_chk_file false no pdpt) (pdpt_slots fl m pdpt).
Proof.
  intros Hal [Ht Hin] Hsub. apply steps_entries. intros j Hj.
  apply (descend_steps pdpt (scan_pgd write_mem_page_to_chk_file false no)); [done|done|done|].
  intros Ep. cbn zeta. intros Hal2. apply scan_pgd_steps; [done|apply Hin; [done|by rewrite Ep]|].
  pose proof (over_entries_sub _ _ j Hsub Hj) as H. cbn beta zeta in H. by rewrite Ep in H.
Qed.

Lemma scan_page_tables_steps :
  tables_in_memory fl m -> steps (scan_page_tables write_mem_page_to_chk_file false no) slots.
Proof.
  intros [Ht Hin]. apply steps_entries. intros i Hi.
  apply (descend_steps BOOT_PML4 (scan_pdpt write_mem_page_to_chk_file false no)); [done|done|done|].
  intros Ep. cbn zeta. intros Hal. apply scan_pdpt_steps; [done|apply Hin; [done|by rewrite Ep]|].
  assert (slots ⊆ slots) as Hsub by done.
  pose proof (over_entries_sub _ _ i Hsub Hi) as H. cbn beta zeta in H. by rewrite Ep in H.
Qed.

Lemma scanned_start : scanned [] (m, f0).
Proof. split; [by rewrite app_nil_r|done|by left|done]. Qed.
End Scan.

(** ** Slots and pages *)

Lemma over_entries_fmap {A B} (f : A -> B) (g : Z -> list A) :
  f <$> over_entries g = over_entries (fun j => f <$> g j).
Proof. unfold over_entries. induction (seqZ _ _) as [|j l IH]; [done|]. cbn. by rewrite fmap_app, IH. Qed.

Lemma over_entries_ext {A} (f g : Z -> list A) : (forall j, f j = g j) -> over_entries f = over_entries g.
Proof. intros H. unfold over_entries. f_equal. apply list_fmap_ext. auto. Qed.

Definition slot_location (m : gmem) (slot : bool * Z) : Z := location slot.1 (word m slot.2).

(** The pages of Checkpoint.v are those of the slots. *)
Lemma page_leaves_slots flag m : page_leaves flag m = slot_location m <$> page_slots flag m.
Proof.
  assert (forall pgt, pgt_leaves flag m pgt = slot_location m <$> pgt_slots flag m pgt) as H1.
  { intros pgt. unfold pgt_slots. rewrite over_entries_fmap. apply over_entries_ext. intros l. cbn zeta. by destruct (flags_set _ _). }
  assert (forall pgd, pgd_leaves flag m pgd = slot_location m <$> pgd_slots flag m pgd) as H2.
  { intros pgd. unfold pgd_slots. rewrite over_entries_fmap. apply over_entries_ext. intros k. cbn zeta.
    destruct (flags_set _ PG_PRESENT); cbn [negb]; [|done].
    destruct (flags_set _ PG_PSE); cbn [negb]; [by destruct (flags_set _ flag)|apply H1]. }
  assert (forall pdpt, pdpt_leaves flag m pdpt = slot_location m <$> pdpt_slots flag m pdpt) as H3.
  { intros pdpt. unfold pdpt_slots. rewrite over_entries_fmap. apply over_entries_ext. intros j. cbn zeta.
    destruct (flags_set _ PG_PRESENT); cbn [negb]; [apply H2|done]. }
  unfold page_slots. rewrite over_entries_fmap. apply over_entries_ext. intros i. cbn zeta.
  destruct (flags_set _ PG_PRESENT); cbn [negb]; [apply H3|done].
Qed.

Lemma covered_spec es x : covered es x = true <-> exists e, e ∈ es /\ covers e x = true.
Proof.
  unfold covered. rewrite existsb_exists. split; intros (e & He & Hx); exists e;
    (split; [by apply list_elem_of_In|done]).
Qed.

(** The effect of a scan that clears flags: what it does to memory, and what
    its file makes of any memory it is loaded into. *)
Record scan_result (no : Z) (m : gmem) (rs : list (Z * list byte)) (m1 : gmem) : Prop := {
  sr_size : msize m1 = msize m;
  sr_others : forall x, (forall k, (k, x) ∉ page_slots (flag false no) m) -> peek m1 x = peek m x;
  sr_cleared : forall k a, (k, a) ∈ page_slots (flag false no) m -> word m1 a = strip (word m a);
  sr_records : Forall (record_in (msize m)) rs;
  sr_restores : forall x b, (forall k, (k, x) ∉ page_slots (flag false no) m) ->
    restored_byte rs x b = if covered (page_leaves (flag false no) m) x then peek m x else b;
  sr_covered : forall x, covered rs.*1 x = covered (page_leaves (flag false no) m) x;
  sr_pages : forall r, r ∈ rs -> exists e, e ∈ page_leaves (flag false no) m /\
    determine_dest_offset r.1 = determine_dest_offset e /\ page_size r.1 = page_size e;
  sr_count : (length rs <= length (page_slots (flag false no) m))%nat
}.

Section Result.
Context (no : Z) (m : gmem) (f0 : list byte).
Abbreviation fl := (flag false no).
Context (Htab : tables_in_memory fl m).

Lemma page_of_slot_in r : page_of_slot no m r -> record_in (msize m) r.
Proof.
  intros (k & a & Hk & E & Hlen & _). unfold record_in. rewrite E in *. clear E.
  assert (leaf_in m (slot_location m (k, a))) as [_ [H1 H2]].
  { pose proof (page_leaves_in _ _ Htab) as H. rewrite page_leaves_slots, Forall_fmap in H.
    exact (proj1 (Forall_forall _ _) H _ Hk). }
  unfold slot_location in H1, H2. cbn [fst snd] in H1, H2.
  destruct (location_offset k (word m a)) as [Eo Es]. rewrite <- Eo in H1, H2. rewrite <- Es in H2.
  split; [|done]. pose proof (strip_u64 _ (word_range m a)) as Hu. destruct k; [done|]. cbn [location].
  pose proof (land_bounds (strip (word m a)) (not64 PG_PSE) ltac:(done)).
  assert (not64 PG_PSE < 2 ^ 64) by done. unfold is_u64. lia.
Qed.

Lemma covered_records rs s x :
  Forall (page_of_slot no m) rs -> Forall (saved m rs s) (page_slots fl m) ->
  covered rs.*1 x = covered (page_leaves fl m) x.
Proof.
  intros Hr Hs. apply Bool.eq_iff_eq_true. rewrite !covered_spec, page_leaves_slots. split.
  - intros (e & (r & -> & Hin)%list_elem_of_fmap & Hx).
    apply (proj1 (Forall_forall _ _) Hr) in Hin as (k & a & Hk & E & _). rewrite E, covers_strip in Hx.
    exists (slot_location m (k, a)). split; [by apply list_elem_of_fmap_2|done].
  - intros (e & ([k a] & -> & Hin)%list_elem_of_fmap & Hx).
    pose proof (proj1 (Forall_forall _ _) Hs _ Hin) as (_ & _ & Hl). cbn [fst snd] in Hl.
    exists (location k (strip (word m a))). split; [done|]. by rewrite covers_strip.
Qed.

Lemma incremental_scan :
  unmixed (page_slots fl m) ->
  exists rs m1, scan_page_tables write_mem_page_to_chk_file false no (m, f0) = OK (m1, f0 ++ encode_records rs) /\
    scan_result no m rs m1.
Proof.
  intros Hu.
  destruct (scan_page_tables_steps no m f0 Hu Htab [] (m, f0) (scanned_start no m f0))
    as (rs & [m1 f] & E & Hs & _ & Hall & Hcnt).
  exists rs, m1. pose proof (sc_file _ _ _ _ _ Hs) as Hf. cbn [snd] in Hf. rewrite <- Hf.
  split; [done|]. pose proof (sc_records _ _ _ _ _ Hs) as Hr. split.
  - apply (sc_size _ _ _ _ _ Hs).
  - intros x Hx. destruct (lost_byte no m m1 x (scanned_lost _ _ _ _ _ Hs)) as [|[k Hk]]; [done|].
    by destruct (Hx k).
  - intros k a Hk. by apply (proj1 (Forall_forall _ _) Hall) in Hk as (_ & ? & _).
  - eapply list.Forall_impl; [exact Hr|]. intros r. apply page_of_slot_in.
  - intros x b Hx. rewrite (restored_same _ x b (peek m x)).
    + by rewrite (covered_records _ _ x Hr Hall).
    + intros r Hin Hc. apply (proj1 (Forall_forall _ _) Hr) in Hin as (k & a & _ & _ & Hlen & Hb).
      unfold covers in Hc. apply andb_true_iff in Hc as [H1%Z.leb_le H2%Z.ltb_lt].
      destruct (lookup_lt_is_Some_2 r.2 (Z.to_nat (x - determine_dest_offset r.1))) as [b' Hb']; [lia|].
      rewrite Hb'. cbn. destruct (Hb _ _ Hb') as [->|[k' Hk']].
      * f_equal. lia.
      * destruct (Hx k'). by replace x with (determine_dest_offset r.1 + Z.of_nat (Z.to_nat (x - determine_dest_offset r.1))) by lia.
  - intros x. by apply (covered_records rs (m1, f)).
  - intros r Hin. apply (proj1 (Forall_forall _ _) Hr) in Hin as (k & a & Hk & E' & _). rewrite E'.
    exists (slot_location m (k, a)). rewrite page_leaves_slots. split; [by apply list_elem_of_fmap_2|].
    unfold slot_location. cbn [fst snd]. apply location_offset.
  - exact Hcnt.
Qed.
End Result.

(** ** A run with checkpoints *)

Section Run.
(** The configuration uhyve starts with, and the bytes of the page tables that
    hold the accessed and dirty flags. *)
Context (c0 : config) (Hc0 : full_checkpoint c0 = false) (Hno0 : no_checkpoint c0 = 0).
Context (flag_bytes : Z -> Prop).

(** The guest at a checkpoint. *)
Record checkpointable (no : Z) (m : gmem) : Prop := {
  ck_tables : tables_in_memory (flag false no) m;
  ck_unmixed : unmixed (page_slots (flag false no) m);
  ck_flags : forall k a, (k, a) ∈ page_slots (flag false no) m -> flag_bytes a
}.

(** The guest runs from memory [m] to [m']: of the bytes of [D], those that
    changed are in pages that now have the dirty flag. *)
Definition guest_period (no : Z) (D : Z -> Prop) (m m' : gmem) : Prop :=
  msize m' = msize m /\ forall x, D x -> ~ flag_bytes x ->
    covered (page_leaves (flag false no) m') x = false -> peek m' x = peek m x.

(** [checkpoints fs c m m1 D]: the files [fs] were written, the last of them
    when memory was [m]; [m1] and [c] are memory and configuration after it,
    and [D] holds of the bytes in the pages saved so far. *)
Inductive checkpoints : list (list byte) -> config -> gmem -> gmem -> (Z -> Prop) -> Prop :=
| checkpoints_first clock m m1 c f cfg :
    checkpointable 0 m -> length clock = sizeof_clock ->
    timer_handler clock m c0 = OK (m1, c, f, cfg) ->
    checkpoints [f] c m m1 (fun x => covered (page_leaves (flag false 0) m) x = true)
| checkpoints_next fs c m m1 D clock m' m1' c' f cfg :
    checkpoints fs c m m1 D -> guest_period (no_checkpoint c) D m1 m' ->
    checkpointable (no_checkpoint c) m' -> length clock = sizeof_clock ->
    timer_handler clock m' c = OK (m1', c', f, cfg) ->
    checkpoints (fs ++ [f]) c' m' m1'
      (fun x => D x \/ covered (page_leaves (flag false (no_checkpoint c)) m') x = true).

Lemma timer_incremental clock m c :
  full_checkpoint c = false -> checkpointable (no_checkpoint c) m ->
  exists rs m1, timer_handler clock m c =
      OK (m1, set_no_checkpoint c (u32 (no_checkpoint c + 1)), clock ++ encode_records rs, write_chk_config c) /\
    scan_result (no_checkpoint c) m rs m1.
Proof.
  intros Hf [Ht Hu _]. unfold timer_handler. rewrite Hf.
  destruct (incremental_scan (no_checkpoint c) m clock Ht Hu) as (rs & m1 & E & Hr).
  rewrite E, bind_OK. by exists rs, m1.
Qed.

Lemma encode_records_length rs : (8 * length rs <= length (encode_records rs))%nat.
Proof.
  induction rs as [|[e p] rs IH]; [done|]. unfold encode_records. rewrite fmap_cons. cbn [concat].
  fold (encode_records rs). rewrite !length_app. unfold le64. rewrite length_le_split. cbn [length]. lia.
Qed.

(** Loading one more file on top of what the earlier ones restored. *)
Lemma load_next fuel files no cap i l clock rs n m m1 D :
  files i = Some (clock ++ encode_records rs) -> length clock = sizeof_clock ->
  (length (clock ++ encode_records rs) < fuel)%nat ->
  scan_result n m rs m1 -> checkpointable n m -> msize (ld_mem l) = msize m ->
  (forall x, ~ flag_bytes x -> D x -> covered (page_leaves (flag false n) m) x = false ->
     peek (ld_mem l) x = peek m x) ->
  exists l1, load_files fuel files no cap 1 i l = OK (0, l1) /\ msize (ld_mem l1) = msize m /\
    (forall x, ~ flag_bytes x -> D x \/ covered (page_leaves (flag false n) m) x = true ->
       peek (ld_mem l1) x = peek m x) /\
    (forall x, ~ flag_bytes x -> covered (page_leaves (flag false n) m) x = false ->
       peek (ld_mem l1) x = peek (ld_mem l) x).
Proof.
  intros Hf Hclk Hfuel Hsr [_ _ Hfl] Hsz Hold. rewrite length_app in Hfuel.
  pose proof (encode_records_length rs).
  destruct (load_file fuel files no cap i l clock rs) as (l1 & E & Hs & Hp & _); [done|done| |lia|].
  { rewrite Hsz. apply (sr_records _ _ _ _ Hsr). }
  assert (forall x, ~ flag_bytes x ->
    peek (ld_mem l1) x = if covered (page_leaves (flag false n) m) x then peek m x else peek (ld_mem l) x) as Hx.
  { intros x Hx. rewrite Hp. apply (sr_restores _ _ _ _ Hsr). intros k Hk. by apply Hx, (Hfl k). }
  exists l1. split; [done|]. split; [congruence|]. split; intros x Hfx.
  - rewrite Hx by done. destruct (covered _ x) eqn:Ec; [done|]. intros [HD|]; [by apply Hold|done].
  - intros Ec. by rewrite Hx, Ec.
Qed.

Lemma checkpoints_load fuel fs c m m1 D :
  checkpoints fs c m m1 D -> Z.of_nat (length fs) < 2 ^ 32 -> Forall (fun f => length f < fuel)%nat fs ->
  full_checkpoint c = false /\ no_checkpoint c = u32 (Z.of_nat (length fs)) /\ msize m1 = msize m /\
  (forall x, ~ flag_bytes x -> peek m1 x = peek m x) /\
  forall files no cap l, (forall i, (i < length fs)%nat -> files (Z.of_nat i) = fs !! i) ->
  msize (ld_mem l) = msize m ->
  exists l1, load_files fuel files no cap (length fs) 0 l = OK (0, l1) /\ msize (ld_mem l1) = msize m /\
    (forall x, ~ flag_bytes x -> D x -> peek (ld_mem l1) x = peek m x) /\
    (forall x, ~ flag_bytes x -> ~ D x -> peek (ld_mem l1) x = peek (ld_mem l) x).
Proof.
  induction 1 as [clock m m1 c f cfg Hck Hclk E|fs c m m1 D clock m' m1' c' f cfg H IH [Hps Hp] Hck Hclk E];
    intros Hlen Hfuel.
  - rewrite <- Hno0 in Hck at 1. destruct (timer_incremental clock m c0 Hc0 Hck) as (rs & m2 & E2 & Hsr).
    rewrite E2 in E. injection E as <- <- <- <-. rewrite Hno0 in Hsr, Hck. apply Forall_cons in Hfuel as [Hfuel _].
    split; [done|]. split; [cbn; by rewrite Hno0|]. split; [apply (sr_size _ _ _ _ Hsr)|].
    split; [intros x Hx; apply (sr_others _ _ _ _ Hsr); intros k Hk; by apply Hx, (ck_flags _ _ Hck k)|].
    intros files no cap l Hfiles Hsz.
    destruct (load_next fuel files no cap 0 l clock rs 0 m m2 (fun _ => False)) as (l1 & El & Hs1 & H1 & H2);
      [exact (Hfiles 0%nat ltac:(cbn; lia))|done|done|done|done|done|done|].
    exists l1. split; [exact El|]. split; [done|]. split; intros x Hx HD; [apply H1; auto|].
    apply H2; [done|]. by destruct (covered _ x).
  - rewrite length_app in Hlen. cbn [length] in Hlen. apply Forall_app in Hfuel as [Hfs Hf].
    apply Forall_cons in Hf as [Hf _].
    destruct (IH ltac:(lia) Hfs) as (Hfc & Hno & Hsz1 & Hm1 & Hload).
    destruct (timer_incremental clock m' c Hfc Hck) as (rs & m2 & E2 & Hsr).
    rewrite E2 in E. injection E as <- <- <- <-.
    split; [done|]. split; [|split; [apply (sr_size _ _ _ _ Hsr)|split]].
    + cbn [no_checkpoint set_no_checkpoint]. rewrite length_app, Hno. cbn [length].
      rewrite (u32_small (Z.of_nat (length fs))) by (unfold is_u32; lia). f_equal. lia.
    + intros x Hx. apply (sr_others _ _ _ _ Hsr). intros k Hk. by apply Hx, (ck_flags _ _ Hck k).
    + intros files no cap l Hfiles Hsz.
      destruct (Hload files no cap l) as (l0 & El0 & Hs0 & HD & HnD).
      { intros i Hi. rewrite Hfiles by (rewrite length_app; lia). by rewrite lookup_app_l. }
      { congruence. }
      rewrite length_app. rewrite (load_files_app _ _ _ _ _ _ _ _ _ El0). cbn [length].
      destruct (load_next fuel files no cap (0 + Z.of_nat (length fs)) l0 clock rs (no_checkpoint c) m' m2 D)
        as (l1 & El & Hs1 & H1 & H2); [|done|done|done|done|congruence| |].
      { rewrite Z.add_0_l, Hfiles by (rewrite length_app; cbn; lia). by rewrite list_lookup_middle. }
      { intros x Hx Hd Hc. rewrite HD by done. rewrite (Hp x Hd Hx Hc). symmetry. by apply Hm1. }
      exists l1. split; [exact El|]. split; [done|]. split; intros x Hx; [by apply H1|].
      intros HnD'. assert (~ D x) as Hd by (intros Hd; apply HnD'; by left).
      rewrite H2; [by apply HnD|done|]. destruct (covered _ x); [exfalso; apply HnD'; by right|done].
Qed.
End Run.

(** Loading all files of a run, wherever they are kept. *)
Lemma load_all_checkpoints c0 flag_bytes fs c m m1 D fuel cap entry l files :
  full_checkpoint c0 = false -> no_checkpoint c0 = 0 ->
  checkpoints c0 flag_bytes fs c m m1 D ->
  Z.of_nat (length fs) < 2 ^ 32 -> Forall (fun f => length f < fuel)%nat fs ->
  msize (ld_mem l) = msize m -> (forall i, (i < length fs)%nat -> files (Z.of_nat i) = fs !! i) ->
  exists l1,
    load_checkpoint fuel files (no_checkpoint c - 1) cap false entry l = OK (0, l1) /\
    (forall x, ~ flag_bytes x -> D x -> peek (ld_mem l1) x = peek m x) /\
    (forall x, ~ flag_bytes x -> ~ D x -> peek (ld_mem l1) x = peek (ld_mem l) x) /\
    (forall x, ~ flag_bytes x -> peek m1 x = peek m x).
Proof.
  intros Hf Hn Hc Hlen Hfuel Hsz Hfiles.
  destruct (checkpoints_load c0 Hf Hn flag_bytes fuel fs c m m1 D Hc Hlen Hfuel) as (_ & Hno & _ & Hm1 & Hload).
  assert (no_checkpoint c = Z.of_nat (length fs)) as Hno' by (rewrite Hno; apply u32_small; unfold is_u32; lia).
  unfold load_checkpoint. cbn zeta. rewrite Z.sub_0_r.
  replace (Z.to_nat (no_checkpoint c - 1 + 1)) with (length fs) by lia.
  destruct (Hload files (no_checkpoint c - 1) cap (set_pointers entry l) Hfiles Hsz) as (l1 & E & _ & HD & HnD).
  by exists l1.
Qed.

(** C5. Incremental checkpoints bring back the saved pages.  Whatever the number
    of checkpoints taken in a run (below 2^32), if between any two of them every
    byte that changes in a page saved before lies in a page that has the dirty
    flag at the second, as it does when the guest writes through its page tables
    (not when uhyve does: [host_write_missed]), then loading the files in order
    gives every byte of every page that was ever saved, the bytes of page tables
    that hold the flags excepted, the value it had at the last checkpoint; bytes
    that no checkpoint saved keep what was there.  The checkpoint number that the
    configuration file gets is the one to load. *)
Theorem incremental_checkpoints_restore c0 flag_bytes fs c m m1 D fuel cap entry l :
  full_checkpoint c0 = false -> no_checkpoint c0 = 0 ->
  checkpoints c0 flag_bytes fs c m m1 D ->
  Z.of_nat (length fs) < 2 ^ 32 -> Forall (fun f => length f < fuel)%nat fs ->
  msize (ld_mem l) = msize m ->
  exists l1,
    load_checkpoint fuel (fun i => fs !! Z.to_nat i) (no_checkpoint c - 1) cap false entry l = OK (0, l1) /\
    (forall x, ~ flag_bytes x -> D x -> peek (ld_mem l1) x = peek m x) /\
    (forall x, ~ flag_bytes x -> ~ D x -> peek (ld_mem l1) x = peek (ld_mem l) x) /\
    (forall x, ~ flag_bytes x -> peek m1 x = peek m x).
Proof.
  intros. eapply load_all_checkpoints; try done. intros i _. by rewrite Nat2Z.id.
Qed.

(** *** A small run *)

Definition small_config : config := mkconfig 1 0x16000 0 0x10000 false.
Definition zero_clock : list byte := replicate 48 NUL.
Definition is_OK {A} (o : outcome A) : bool := match o with OK _ => true | _ => false end.
Definition result_of {A} (d : A) (o : outcome A) : A := match o with OK x => x | _ => d end.

Lemma result_of_OK {A} (d : A) o : is_OK o = true -> o = OK (result_of d o).
Proof. by destruct o. Qed.

Definition checkpoint_of (m : gmem) (c : config) : gmem * config * list byte * list byte :=
  result_of (m, c, [], []) (timer_handler zero_clock m c).

(** After the first checkpoint the guest writes to the page at 0x15000, and the
    processor sets the flags of its entry. *)
Definition second_guest : gmem :=
  poken (poken (checkpoint_of paged_guest small_config).1.1.1 0x13008 (le_split 1 0x63)) 0x15000 (str "dirty").
Definition second_config : config := (checkpoint_of paged_guest small_config).1.1.2.
Definition small_flag_bytes (a : Z) : Prop := a = 0x13000 \/ a = 0x13008.

Lemma checkpoint_of_OK m c :
  is_OK (timer_handler zero_clock m c) = true ->
  timer_handler zero_clock m c =
    OK ((checkpoint_of m c).1.1.1, (checkpoint_of m c).1.1.2, (checkpoint_of m c).1.2, (checkpoint_of m c).2).
Proof. intros H. rewrite (result_of_OK (m, c, [], []) _ H) at 1. unfold checkpoint_of. by destruct (result_of _ _) as [[[??]?]?]. Qed.

Lemma checkpointable_test no m a :
  tables_inb (flag false no) m = true -> page_slots (flag false no) m = [(false, a)] -> small_flag_bytes a ->
  checkpointable small_flag_bytes no m.
Proof.
  intros Ht Hs Ha. split; [by apply tables_inb_spec|rewrite Hs|rewrite Hs].
  - intros b _ [=]%list_elem_of_singleton.
  - by intros k b [= -> ->]%list_elem_of_singleton.
Qed.

Lemma incremental_checkpoints_restore_witness :
  let f1 := (checkpoint_of paged_guest small_config).1.2 in
  let f2 := (checkpoint_of second_guest second_config).1.2 in
  exists l1,
    load_checkpoint 5000 (fun i => [f1; f2] !! Z.to_nat i) 1 true false 0x10000 empty_guest = OK (0, l1) /\
    peek (ld_mem l1) 0x14003 = Byte.x65 /\ peek (ld_mem l1) 0x15000 = Byte.x64.
Proof.
  cbn zeta.
  destruct (incremental_checkpoints_restore small_config small_flag_bytes
    ([(checkpoint_of paged_guest small_config).1.2] ++ [(checkpoint_of second_guest second_config).1.2])
    (checkpoint_of second_guest second_config).1.1.2 second_guest
    (checkpoint_of second_guest second_config).1.1.1
    (fun x => covered (page_leaves (flag false 0) paged_guest) x = true \/
       covered (page_leaves (flag false (no_checkpoint second_config)) second_guest) x = true)
    5000 true 0x10000 empty_guest) as (l1 & E & HD & _).
  - reflexivity.
  - reflexivity.
  - apply checkpoints_next with (clock := zero_clock) (cfg := (checkpoint_of second_guest second_config).2)
      (c := second_config) (m := paged_guest) (m1 := (checkpoint_of paged_guest small_config).1.1.1).
    + apply checkpoints_first with (clock := zero_clock) (cfg := (checkpoint_of paged_guest small_config).2).
      * apply checkpointable_test with 0x13000; [vm_compute; reflexivity|vm_compute; reflexivity|by left].
      * reflexivity.
      * apply checkpoint_of_OK. vm_compute. reflexivity.
    + split; [vm_compute; reflexivity|]. intros x _ Hx Hc.
      assert (page_leaves (flag false (no_checkpoint second_config)) second_guest = [0x15063]) as El
        by (vm_compute; reflexivity).
      rewrite El in Hc. unfold covered, covers in Hc. cbn [existsb] in Hc. rewrite orb_false_r in Hc.
      change (determine_dest_offset 0x15063) with 0x15000 in Hc. change (page_size 0x15063) with 0x1000 in Hc.
      unfold second_guest. rewrite !peek_poken_out; [done| |].
      * unfold small_flag_bytes in Hx. change (Z.of_nat (length (le_split 1 0x63))) with 1. lia.
      * change (Z.of_nat (length (str "dirty"))) with 5. revert Hc.
        destruct (Z.leb_spec 0x15000 x), (Z.ltb_spec x (0x15000 + 0x1000)); cbn [andb]; lia || done.
    + apply checkpointable_test with 0x13008; [vm_compute; reflexivity|vm_compute; reflexivity|by right].
    + reflexivity.
    + apply checkpoint_of_OK. vm_compute. reflexivity.
  - vm_compute. reflexivity.
  - cbn [app]. apply Forall_cons; split; [apply Nat.ltb_lt; vm_compute; reflexivity|].
    apply Forall_cons; split; [apply Nat.ltb_lt; vm_compute; reflexivity|done].
  - vm_compute. reflexivity.
  - exists l1. split; [exact E|].
    split.
    + rewrite (HD 0x14003 ltac:(unfold small_flag_bytes; lia)); [vm_compute; reflexivity|].
      left. vm_compute. reflexivity.
    + rewrite (HD 0x15000 ltac:(unfold small_flag_bytes; lia)); [vm_compute; reflexivity|].
      right. vm_compute. reflexivity.
Defined.

(** What uhyve itself writes to guest memory, for a read of the guest or a packet
    it receives, does not set the flags of the guest's page tables: when that is
    all that changes in a page between two checkpoints, the second does not save
    it, and after a restart the page has its old contents. *)
Definition host_written : gmem := poken (checkpoint_of paged_guest small_config).1.1.1 0x14000 (str "host").
Lemma host_write_missed :
  let f1 := (checkpoint_of paged_guest small_config).1.2 in
  let f2 := (checkpoint_of host_written second_config).1.2 in
  match load_checkpoint 5000 (fun i => [f1; f2] !! Z.to_nat i) 1 true false 0x10000 empty_guest with
  | OK (ret, l1) => ret = 0 /\ peekn (ld_mem l1) 0x14000 4 = str "acce" /\ peekn host_written 0x14000 4 = str "host"
  | _ => False
  end.
Proof. vm_compute. by repeat split. Qed.
