(* ===== verification/DirtyLog.v ===== *)
(** * Checkpoints from KVM's dirty log

    [scan_dirty_log] of src/uhyve-x86_64.c, which takes the place of the scan
    of the page tables in [determine_dirty_pages] when USE_DIRTY_LOG is
    defined: KVM reports the pages of each memory slot that were written as a
    bitmap, and each is handed to the handler with its address as the entry.  In
    that build [load_checkpoint] first loads the kernel again, since KVM does not
    log what is never written. *)

From S2P Require Import Prelude GuestMem Paging MemRegions CLib Config Utils Elf Checkpoint.

Open Scope uhyve_scope.

(** ** The scan *)

Section DirtyLog.
(** The handler; the bitmap KVM_GET_DIRTY_LOG stores for a slot, as 64-bit words. *)
Context {S : Type} (save_page : gmem -> list byte -> Z -> Z -> S -> outcome S).
Context (get_dirty_log : Z -> list Z) (guest_size : Z) (m : gmem).

(** In words. *)
Definition dirty_log_size : Z := (guest_size >> PAGE_BITS) / 8.

(** The buffer is cleared before KVM stores to it, and must be large enough. *)
Definition dirty_bitmap (slot : Z) : outcome (list Z) :=
  let log := get_dirty_log slot in
  let n := Z.to_nat dirty_log_size in
  if (length log <=? n)%nat then OK (log ++ replicate (n - length log) 0) else Undefined.

Definition scan_value (slot_offset i value : Z) (s : S) : outcome S :=
  if value =? 0 then OK s
  else for_upto 64 0 (fun j s =>
    let test := u64 (1 << j) in
    if value .& test =? test then
      let addr := u64 ((i * 8 * 8 + j) * PAGE_SIZE + slot_offset) in
      save_page m (le64 addr) addr PAGE_SIZE s
    else OK s) s.

Definition scan_bitmap (bitmap : list Z) (slot_offset : Z) (s : S) : outcome S :=
  for_upto (Z.to_nat dirty_log_size) 0 (fun i s =>
    scan_value slot_offset i (nth (Z.to_nat i) bitmap 0) s) s.

(** [allocated]: whether [malloc] returned the buffer. *)
Definition scan_dirty_log (allocated : bool) (s : S) : outcome S :=
  if negb allocated then Exited 1
  else
    bitmap ← dirty_bitmap 0;
    s ← scan_bitmap bitmap 0 s;
    if KVM_32BIT_GAP_START - GUEST_OFFSET <? guest_size then
      bitmap ← dirty_bitmap 1; scan_bitmap bitmap KVM_32BIT_MAX_MEM_SIZE s
    else OK s.

(** ** The pages in the log *)

Fixpoint save_all (pages : list Z) (s : S) : outcome S :=
  match pages with [] => OK s | p :: pages => s ← save_page m (le64 p) p PAGE_SIZE s; save_all pages s end.

Lemma save_all_app l1 l2 s : save_all (l1 ++ l2) s = (s ← save_all l1 s; save_all l2 s).
Proof.
  revert s. induction l1 as [|p l1 IH]; intros s; [done|]. cbn [app save_all].
  destruct (save_page m (le64 p) p PAGE_SIZE s) as [s1| | |]; [|done..]. cbn. apply IH.
Qed.

(** Page [k] of a slot is in the log. *)
Definition logged (slot k : Z) : bool := (0 <=? k) && Z.testbit (nth (Z.to_nat (k / 64)) (get_dirty_log slot) 0) (k mod 64).

(** The addresses of [n] pages from page [k], in order. *)
Definition pages_in (slot slot_offset k n : Z) : list Z :=
  (fun k => k * PAGE_SIZE + slot_offset) <$> filter (fun k => logged slot k = true) (seqZ k n).
Definition slot_pages (slot slot_offset : Z) : list Z := pages_in slot slot_offset 0 (64 * dirty_log_size).

Definition dirty_pages : list Z :=
  slot_pages 0 0 ++ (if KVM_32BIT_GAP_START - GUEST_OFFSET <? guest_size then slot_pages 1 KVM_32BIT_MAX_MEM_SIZE else []).

Lemma pages_in_app slot off k n1 n2 :
  0 <= n1 -> 0 <= n2 -> pages_in slot off k (n1 + n2) = pages_in slot off k n1 ++ pages_in slot off (k + n1) n2.
Proof. intros H1 H2. unfold pages_in. by rewrite seqZ_app, filter_app, fmap_app. Qed.

(** A loop whose iterations save [w] pages each. *)
Lemma for_upto_pages slot off b w body : forall n i s,
  0 <= w -> (forall j s, i <= j < i + Z.of_nat n -> body j s = save_all (pages_in slot off (b + w * j) w) s) ->
  for_upto n i body s = save_all (pages_in slot off (b + w * i) (w * Z.of_nat n)) s.
Proof.
  induction n as [|n IH]; intros i s Hw Hb; [by rewrite Z.mul_0_r|]. cbn [for_upto]. rewrite Hb by lia.
  replace (w * Z.of_nat (Datatypes.S n)) with (w + w * Z.of_nat n) by lia.
  rewrite pages_in_app by lia. rewrite save_all_app.
  destruct (save_all (pages_in slot off (b + w * i) w) s) as [s1| | |]; [|done..]. cbn.
  rewrite IH by (done || intros; apply Hb; lia). by replace (b + w * (i + 1)) with (b + w * i + w) by lia.
Qed.

Context (Hsize : 0 <= guest_size < 2 ^ 60).

Lemma dirty_log_size_bound : 0 <= dirty_log_size < 2 ^ 45.
Proof.
  unfold dirty_log_size, PAGE_BITS. rewrite Z.shiftr_div_pow2 by lia. split.
  - apply Z.div_pos; [apply Z.div_pos; lia|lia].
  - apply Z.div_lt_upper_bound; [lia|]. apply Z.div_lt_upper_bound; lia.
Qed.

(** The test of one bit. *)
Lemma bit_test v j : 0 <= j < 64 -> (v .& u64 (1 << j) =? u64 (1 << j)) = Z.testbit v j.
Proof.
  intros Hj. rewrite u64_small.
  2:{ unfold is_u64. rewrite Z.shiftl_1_l. split; [apply Z.pow_nonneg; lia|apply Z.pow_lt_mono_r; lia]. }
  rewrite Z.shiftl_1_l. destruct (Z.testbit v j) eqn:E.
  - apply Z.eqb_eq, Z.bits_inj'. intros n Hn. rewrite Z.land_spec, Z.pow2_bits_eqb by lia.
    destruct (Z.eqb_spec j n) as [<-|]; [by rewrite E|apply andb_false_r].
  - apply Z.eqb_neq. intros H. apply (f_equal (fun z => Z.testbit z j)) in H.
    by rewrite Z.land_spec, E, Z.pow2_bits_eqb, Z.eqb_refl in H by lia.
Qed.

Lemma scan_value_pages slot off i v s :
  v = nth (Z.to_nat i) (get_dirty_log slot) 0 -> 0 <= i < dirty_log_size -> 0 <= off <= 2 ^ 32 ->
  scan_value off i v s = save_all (pages_in slot off (64 * i) 64) s.
Proof.
  intros -> Hi Hoff. unfold scan_value. pose proof dirty_log_size_bound.
  assert (forall j, 0 <= j < 64 -> logged slot (64 * i + j) = Z.testbit (nth (Z.to_nat i) (get_dirty_log slot) 0) j) as Hl.
  { intros j Hj. unfold logged. rewrite (proj2 (Z.leb_le _ _)) by lia. cbn [andb].
    by rewrite <- (Z.div_unique (64 * i + j) 64 i j), <- (Z.mod_unique (64 * i + j) 64 i j) by lia. }
  destruct (Z.eqb_spec (nth (Z.to_nat i) (get_dirty_log slot) 0) 0) as [E0|_].
  - assert (filter (fun k => logged slot k = true) (seqZ (64 * i) 64) = []) as E; [|unfold pages_in; by rewrite E].
    apply elem_of_nil_inv. intros k [Hk1 Hk2%elem_of_seqZ]%list_elem_of_filter. revert Hk1.
    replace k with (64 * i + (k - 64 * i)) by lia. rewrite Hl, E0 by lia. by rewrite Z.bits_0.
  - rewrite (for_upto_pages slot off (64 * i) 1); [|lia|].
    { replace (64 * i + 1 * 0) with (64 * i) by lia. by replace (1 * Z.of_nat 64) with 64 by lia. }
    intros j s1 Hj. change (Z.of_nat 64) with 64 in Hj. cbn zeta. rewrite bit_test by lia. unfold pages_in.
    replace (64 * i + 1 * j) with (64 * i + j) by lia. rewrite (seqZ_cons _ 1), (seqZ_nil _ (Z.pred 1)) by lia.
    rewrite <- Hl by lia.
    assert (u64 ((i * 8 * 8 + j) * PAGE_SIZE + off) = (64 * i + j) * PAGE_SIZE + off) as ->.
    { change PAGE_SIZE with 4096. rewrite u64_small by (unfold is_u64; lia). lia. }
    destruct (logged slot (64 * i + j)) eqn:E.
    + rewrite (filter_cons_True _ _ []) by exact E. cbn [filter list_filter fmap list_fmap save_all].
      match goal with |- ?o = _ => by destruct o end.
    + by rewrite (filter_cons_False _ _ []) by (by rewrite E).
Qed.

Lemma scan_bitmap_pages slot off bitmap s :
  dirty_bitmap slot = OK bitmap -> 0 <= off <= 2 ^ 32 ->
  scan_bitmap bitmap off s = save_all (slot_pages slot off) s.
Proof.
  unfold dirty_bitmap. destruct (Nat.leb_spec (length (get_dirty_log slot)) (Z.to_nat dirty_log_size)); [|done].
  intros [= <-] Hoff. pose proof dirty_log_size_bound. unfold scan_bitmap.
  rewrite (for_upto_pages slot off 0 64).
  - rewrite Z.mul_0_r, Z.add_0_r, Z2Nat.id by lia. done.
  - lia.
  - intros i s1 Hi. rewrite Z.add_0_l, Z2Nat.id in * by lia. apply scan_value_pages; [|lia|done].
    rewrite !nth_lookup. destruct (decide (Z.to_nat i < length (get_dirty_log slot))%nat).
    + by rewrite lookup_app_l.
    + rewrite lookup_app_r, (lookup_ge_None_2 (get_dirty_log slot)) by lia.
      destruct (replicate _ 0 !! _) as [v|] eqn:E; [|done]. by apply lookup_replicate in E as [-> _].
Qed.

(** The scan hands the pages in the log to the handler, in order. *)
Lemma scan_dirty_log_pages s :
  (forall slot, slot = 0 \/ slot = 1 -> Z.of_nat (length (get_dirty_log slot)) <= dirty_log_size) ->
  scan_dirty_log true s = save_all dirty_pages s.
Proof.
  intros Hlog. pose proof dirty_log_size_bound.
  assert (forall slot, slot = 0 \/ slot = 1 -> exists bitmap, dirty_bitmap slot = OK bitmap) as Hb.
  { intros slot Hs. specialize (Hlog slot Hs). unfold dirty_bitmap.
    destruct (Nat.leb_spec (length (get_dirty_log slot)) (Z.to_nat dirty_log_size)); [by eexists|lia]. }
  destruct (Hb 0 ltac:(auto)) as [b0 E0], (Hb 1 ltac:(auto)) as [b1 E1].
  unfold scan_dirty_log, dirty_pages. cbn [negb]. rewrite E0, bind_OK, (scan_bitmap_pages 0 0 b0) by (done || lia).
  rewrite save_all_app. destruct (save_all (slot_pages 0 0) s) as [s1| | |]; [|done..]. cbn [mbind outcome_bind].
  destruct (_ <? _); [|done]. rewrite E1. cbn [mbind outcome_bind].
  apply (scan_bitmap_pages 1); [done|]. change KVM_32BIT_MAX_MEM_SIZE with (2 ^ 32). lia.
Qed.
End DirtyLog.

(** ** The file *)

Section DirtyFile.
Context (get_dirty_log : Z -> list Z) (guest_size : Z) (m : gmem).
Abbreviation pages := (dirty_pages get_dirty_log guest_size).

(** Byte [x] is in a page that KVM has logged. *)
Definition in_log (x : Z) : bool :=
  logged get_dirty_log 0 (x / 4096) ||
  (KVM_32BIT_GAP_START - GUEST_OFFSET <? guest_size) && logged get_dirty_log 1 ((x - KVM_32BIT_MAX_MEM_SIZE) / 4096).

Context (Hsize : 0 <= guest_size < 2 ^ 60).
Context (Hlog : forall slot, slot = 0 \/ slot = 1 -> Z.of_nat (length (get_dirty_log slot)) <= dirty_log_size guest_size).
Context (Hin : Forall (fun p => 0 <= p /\ p + 4096 <= msize m) pages) (Hmax : msize m < 2 ^ 63).

Lemma logged_bound slot k :
  slot = 0 \/ slot = 1 -> logged get_dirty_log slot k = true -> 0 <= k < 64 * dirty_log_size guest_size.
Proof.
  intros Hs H. unfold logged in H. apply andb_true_iff in H as [Hk%Z.leb_le Hb]. specialize (Hlog slot Hs).
  split; [done|]. destruct (Z.lt_ge_cases k (64 * dirty_log_size guest_size)) as [|Hge]; [done|exfalso].
  assert (dirty_log_size guest_size <= k / 64) by (apply Z.div_le_lower_bound; lia).
  pose proof (dirty_log_size_bound guest_size Hsize). rewrite nth_overflow, Z.bits_0 in Hb by lia. done.
Qed.

Lemma elem_slot_pages slot off p :
  slot = 0 \/ slot = 1 ->
  p ∈ slot_pages get_dirty_log guest_size slot off <-> exists k, logged get_dirty_log slot k = true /\ p = k * 4096 + off.
Proof.
  intros Hs. unfold slot_pages, pages_in. rewrite list_elem_of_fmap. split.
  - intros (k & -> & [Hk _]%list_elem_of_filter). by exists k.
  - intros (k & Hk & ->). exists k. split; [done|]. apply list_elem_of_filter. split; [done|].
    apply elem_of_seqZ. pose proof (logged_bound slot k Hs Hk). lia.
Qed.

Lemma pages_aligned p : p ∈ pages -> 0 <= p < 2 ^ 63 /\ p mod 4096 = 0 /\ p + 4096 <= msize m.
Proof.
  intros Hp. pose proof (proj1 (Forall_forall _ _) Hin p Hp) as [H1 H2]. split; [lia|]. split; [|done].
  assert (exists k j, p = k * 4096 + j * 2 ^ 32) as (k & j & ->).
  { unfold dirty_pages in Hp. apply elem_of_app in Hp as [Hp|Hp].
    - apply elem_slot_pages in Hp as (k & _ & ->); [|auto]. exists k, 0. lia.
    - destruct (_ <? _); [|by apply elem_of_nil in Hp]. apply elem_slot_pages in Hp as (k & _ & ->); [|auto].
      exists k, 1. change KVM_32BIT_MAX_MEM_SIZE with (2 ^ 32). lia. }
  replace (k * 4096 + j * 2 ^ 32) with ((k + j * 2 ^ 20) * 4096) by lia. apply Z.mod_mul. lia.
Qed.

Lemma covers_page p x : p ∈ pages -> covers p x = (p <=? x) && (x <? p + 4096).
Proof.
  intros Hp. destruct (pages_aligned p Hp) as (H1 & H2 & _). unfold covers.
  by rewrite page_offset, page_aligned_size by (done || lia).
Qed.

Lemma covered_log x : covered pages x = in_log x.
Proof.
  assert (forall k o, (k * 4096 + o <=? x) && (x <? k * 4096 + o + 4096) = true <-> k = (x - o) / 4096) as Hk.
  { intros k o. rewrite andb_true_iff, Z.leb_le, Z.ltb_lt. split.
    - intros H. apply (Z.div_unique (x - o) 4096 k (x - o - k * 4096)); lia.
    - intros ->. pose proof (Z.div_mod (x - o) 4096). pose proof (Z.mod_pos_bound (x - o) 4096). lia. }
  apply Bool.eq_iff_eq_true. unfold covered, in_log. rewrite existsb_exists, orb_true_iff, andb_true_iff. split.
  - intros (p & Hp%list_elem_of_In & Hc). rewrite covers_page in Hc by done. unfold dirty_pages in Hp.
    apply elem_of_app in Hp as [Hp|Hp].
    + left. apply elem_slot_pages in Hp as (k & Hl & ->); [|auto]. apply Hk in Hc as ->. by rewrite Z.sub_0_r in Hl.
    + right. destruct (_ <? _); [|by apply elem_of_nil in Hp]. split; [done|].
      apply elem_slot_pages in Hp as (k & Hl & ->); [|auto]. by apply Hk in Hc as ->.
  - assert (forall slot off, slot = 0 \/ slot = 1 -> logged get_dirty_log slot ((x - off) / 4096) = true ->
      (forall p, p ∈ slot_pages get_dirty_log guest_size slot off -> p ∈ pages) ->
      exists p, In p pages /\ covers p x = true) as Hex.
    { intros slot off Hs Hl Hsub. exists ((x - off) / 4096 * 4096 + off).
      assert ((x - off) / 4096 * 4096 + off ∈ pages) as Hp by (apply Hsub, elem_slot_pages; eauto).
      split; [by apply list_elem_of_In|]. rewrite covers_page by done. by apply Hk. }
    intros [Hl|[Hb Hl]].
    + apply (Hex 0 0); [auto|by rewrite Z.sub_0_r|]. intros p Hp. apply elem_of_app. by left.
    + apply (Hex 1 KVM_32BIT_MAX_MEM_SIZE); [auto|done|]. intros p Hp. unfold dirty_pages. apply elem_of_app. right.
      by rewrite Hb.
Qed.

Lemma save_all_file ps f :
  (forall p, p ∈ ps -> p ∈ pages) ->
  save_all write_mem_page_to_chk_file m ps f = OK (f ++ encode_records (page_records m ps)).
Proof.
  revert f. induction ps as [|p ps IH]; intros f Hsub; [by rewrite app_nil_r|]. cbn [save_all].
  destruct (pages_aligned p (Hsub p ltac:(by left))) as (H1 & H2 & H3).
  assert (write_mem_page_to_chk_file m (le64 p) p PAGE_SIZE f = OK (f ++ le64 p ++ peekn m p (Z.to_nat PAGE_SIZE))) as ->.
  { unfold write_mem_page_to_chk_file. by rewrite load_ok by (change PAGE_SIZE with 4096; lia). }
  rewrite bind_OK.
  rewrite IH by (intros q Hq; apply Hsub; by right). unfold page_records. rewrite fmap_cons.
  rewrite page_offset, page_aligned_size by (done || lia). unfold encode_records at 2. rewrite fmap_cons. cbn [concat].
  change (Z.to_nat PAGE_SIZE) with (Z.to_nat 4096). by rewrite <- !app_assoc.
Qed.

(** ** Loading it *)

(** [load_checkpoint] as it is compiled with USE_DIRTY_LOG: [load_kernel] comes
    first, with the pointers already set, and the files are read only when it
    returns 0. *)
Section LoadDirtyLog.
Context {F : Type} (pread : F -> Z -> Z -> read_result * F) (env : setup) (fd : Z) (malloc : Z -> bool) (file : F).

Definition load_checkpoint_dirty_log (fuel : nat) (files : Z -> option (list byte)) (no_checkpoint : Z)
    (cap_adjust_clock_stable full_checkpoint : bool) (elf_entry : Z) (l : loaded) : outcome (Z * loaded) :=
  let l := set_pointers elf_entry l in
  '(ret, k) ← load_kernel pread fuel env fd malloc (mkloader (ld_mem l) (ld_kheader l) (ld_klog l) elf_entry file);
  let l := mkloaded (l_mem k) (l_kheader k) (l_klog k) (ld_clock l) in
  if negb (ret =? 0) then OK (ret, l)
  else
    let i := if full_checkpoint then no_checkpoint else 0 in
    load_files fuel files no_checkpoint cap_adjust_clock_stable (Z.to_nat (no_checkpoint + 1 - i)) i l.

(** C36. In the build with USE_DIRTY_LOG a checkpoint brings back the pages that
    KVM has logged, on top of a freshly loaded kernel.  Whatever bits the two
    bitmaps have, as long as they fit the buffer and the pages are in memory,
    the scan ends.  To restart from its file, as a full checkpoint or as the
    first one, [load_checkpoint] loads the kernel: when that fails, it returns
    the error and reads no file; when it succeeds, every byte of a logged page
    (of the second slot only when the guest is large enough to have one) gets
    the value it had, every other byte is that of the kernel loaded, and so all
    of memory is back if the guest differed from it in logged pages only; and the
    guest's clock is set to the file's if KVM can. *)
Theorem dirty_log_restores clock no cap full entry l fuel ret k :
  length clock = sizeof_clock -> (length pages < fuel)%nat -> full = true \/ no = 0 ->
  load_kernel pread fuel env fd malloc
    (mkloader (ld_mem l) (ld_kheader (set_pointers entry l)) (ld_klog (set_pointers entry l)) entry file) = OK (ret, k) ->
  msize (l_mem k) = msize m ->
  exists chk_file,
    scan_dirty_log write_mem_page_to_chk_file get_dirty_log guest_size m true clock = OK chk_file /\
    forall files, files no = Some chk_file -> exists l1,
      load_checkpoint_dirty_log fuel files no cap full entry l = OK (ret, l1) /\
      (ret <> 0 -> ld_mem l1 = l_mem k /\ ld_clock l1 = ld_clock l) /\
      (ret = 0 ->
         (forall x, peek (ld_mem l1) x = if in_log x then peek m x else peek (l_mem k) x) /\
         ((forall x, in_log x = false -> peek m x = peek (l_mem k) x) -> forall x, peek (ld_mem l1) x = peek m x) /\
         (cap = true -> ld_clock l1 = Some (le_combine (take 8 clock)))).
Proof.
  intros Hclk Hfuel Hfirst Ek Hsz. exists (clock ++ encode_records (page_records m pages)).
  split; [rewrite scan_dirty_log_pages by done; by apply save_all_file|]. intros files Hfile.
  unfold load_checkpoint_dirty_log. cbn [ld_mem set_pointers] in *. rewrite Ek, bind_OK. cbn match.
  destruct (Z.eqb_spec ret 0) as [->|Hret]; cbn [negb]; [|eexists; split; [done|]; by split].
  destruct (load_file fuel files no cap no (mkloaded (l_mem k) (l_kheader k) (l_klog k) (ld_clock l)) clock
    (page_records m pages)) as (l1 & E & _ & Hp & Hc).
  - done.
  - done.
  - cbn [ld_mem]. rewrite Hsz. apply page_records_in, Forall_forall. intros p Hp.
    destruct (pages_aligned p Hp) as (H1 & H2 & H3). unfold leaf_in, page_in, is_u64.
    rewrite page_offset, page_aligned_size by (done || lia). lia.
  - unfold page_records. by rewrite length_fmap.
  - exists l1. split; [|split; [done|intros _; split; [|split]]].
    + replace (if full then no else 0) with no by (by destruct full, Hfirst).
      by replace (Z.to_nat (no + 1 - no)) with 1%nat by lia.
    + intros x. rewrite Hp, page_records_restored. by rewrite covered_log.
    + intros Hlogged x. rewrite Hp, page_records_restored, covered_log. cbn [ld_mem].
      destruct (in_log x) eqn:Ex; [done|]. by rewrite Hlogged.
    + intros Hcap. by apply Hc.
Qed.
End LoadDirtyLog.
End DirtyFile.

(** The guest of the small kernel of Elf.v, with one byte changed, when KVM has
    logged two pages. *)
Definition two_logged (slot : Z) : list Z := if slot =? 0 then [0x300000] else [].
Definition changed_guest : gmem := poken (fresh_mem 0x40000) 0x14003 [Byte.x65].

Lemma two_logged_pages : dirty_pages two_logged 0x40000 = [0x14000; 0x15000].
Proof. vm_compute. reflexivity. Qed.

Definition reloaded : outcome (Z * loader (F := bool)) :=
  load_kernel (slow_pread small_kernel) 130 small_setup 3 (fun _ => true)
    (mkloader (fresh_mem 0x40000) (Some 0x10000) (Some 0x15000) 0x10000 true).
Lemma reloaded_ok :
  match reloaded with
  | OK (ret, k) => (ret =? 0) && (msize (l_mem k) =? 0x40000) && bool_decide (peek (l_mem k) 0x20003 = Byte.x61)
  | _ => false
  end = true.
Proof. vm_compute. reflexivity. Qed.

Lemma dirty_log_restores_witness :
  exists chk_file l1,
    scan_dirty_log write_mem_page_to_chk_file two_logged 0x40000 changed_guest true (replicate 48 NUL) = OK chk_file /\
    load_checkpoint_dirty_log (slow_pread small_kernel) small_setup 3 (fun _ => true) true 130
      (fun i => if i =? 7 then Some chk_file else None) 7 true true 0x10000
      (mkloaded (fresh_mem 0x40000) None None None) = OK (0, l1) /\
    peek (ld_mem l1) 0x14003 = Byte.x65 /\ peek (ld_mem l1) 0x20003 = Byte.x61 /\ ld_clock l1 = Some 0.
Proof.
  pose proof reloaded_ok as Hr. destruct reloaded as [[ret k]| | |] eqn:E; [|discriminate Hr..].
  apply andb_true_iff in Hr as [[->%Z.eqb_eq Hs%Z.eqb_eq]%andb_true_iff Hp%bool_decide_eq_true].
  destruct (dirty_log_restores two_logged 0x40000 changed_guest ltac:(lia)
    ltac:(intros slot [->| ->]; vm_compute; congruence)
    ltac:(rewrite two_logged_pages; repeat apply Forall_cons_2; try apply Forall_nil_2; vm_compute; intuition congruence)
    ltac:(vm_compute; congruence) (slow_pread small_kernel) small_setup 3 (fun _ => true) true
    (replicate 48 NUL) 7 true true 0x10000 (mkloaded (fresh_mem 0x40000) None None None) 130 0 k)
    as (chk_file & E1 & H).
  - reflexivity.
  - rewrite two_logged_pages. cbn. lia.
  - by left.
  - exact E.
  - rewrite Hs. reflexivity.
  - destruct (H (fun i => if i =? 7 then Some chk_file else None) eq_refl) as (l1 & E2 & _ & H0).
    destruct (H0 eq_refl) as (Hx & _ & Hc). exists chk_file, l1. split; [exact E1|]. split; [exact E2|].
    split; [rewrite Hx; vm_compute; reflexivity|]. split; [|exact (Hc eq_refl)].
    rewrite Hx. assert (in_log two_logged 0x40000 0x20003 = false) as -> by (vm_compute; reflexivity). exact Hp.
Defined.

(** A kernel that cannot be opened: its error, and no file is read. *)
Lemma no_kernel_no_checkpoint {F} (pread : F -> Z -> Z -> read_result * F) env malloc file fuel files no cap full entry l :
  load_checkpoint_dirty_log pread env (-1) malloc file fuel files no cap full entry l = OK (-1, set_pointers entry l).
Proof. done. Qed.

(** The size of the buffer is computed in bytes but used in words: it has eight
    times the room the bitmap needs, and none for a guest of less than eight
    pages. *)
Lemma dirty_log_size_words n : 0 <= n < 2 ^ 51 -> dirty_log_size (n * 4096) * 64 = n * 8 - n mod 8 * 8.
Proof.
  intros Hn. unfold dirty_log_size, PAGE_BITS. rewrite Z.shiftr_div_pow2 by lia.
  change (2 ^ 12) with 4096. rewrite Z.div_mul by lia. pose proof (Z.div_mod n 8). lia.
Qed.
