(* ===== verification/Snapshot.v ===== *)
(** * Stopping the processors for a checkpoint

    How the threads of the virtual CPUs synchronise: [timer_handler]
    (src/uhyve-x86_64.c) on the thread that gets the alarm, [sigusr_handler]
    (src/uhyve.c) on the others, the POSIX barrier between them, [rx_thread]
    (src/uhyve.c), which nobody stops, and the restart of the processors from a
    checkpoint at the start of [vcpu_loop].  An alarm during a checkpoint is
    left to Signals.v. *)

From S2P Require Import Prelude.
From stdpp Require Import functions.

Open Scope nat_scope.

(** ** Threads and the barrier *)

(** Where a vCPU thread is: running the guest, at the first barrier of a
    checkpoint (with the barrier's generation when it arrived), saving, at the
    second barrier. *)
Inductive vcpu_pc := Running | Barrier1 (gen : nat) | Saving | Barrier2 (gen : nat).

Section Snapshot.
(** [agree m m']: the two contents of guest memory differ at most in the queue
    of received packets, which [rx_thread] writes.  [takes_alarm]: the threads
    the kernel may give SIGALRM to. *)
Context {M R : Type} (ncores : nat) (agree : M -> M -> Prop) (takes_alarm : nat -> Prop).

(** Guest memory, the registers of each vCPU, its thread and whether a signal
    SIGTHRCHKP is pending for it; the barrier: how many threads wait in it and
    how often it has opened; the thread that has got the alarm, and what has
    been saved of the current checkpoint.  [entries] counts how often a thread
    has arrived at the barrier. *)
Record vm := mkvm {
  memory : M;
  regs : nat -> R;
  pc : nat -> vcpu_pc;
  pending : nat -> bool;
  waiting : nat;
  generation : nat;
  saver : nat;
  saved_mem : option M;
  saved_regs : nat -> option R;
  entries : nat -> nat
}.

(** [pthread_barrier_wait(&barrier)] by thread [i]: the last of [ncores]
    threads opens it. *)
Definition arrive (i : nat) (pc' : vcpu_pc) (s : vm) : vm :=
  let last := waiting s + 1 =? ncores in
  mkvm (memory s) (regs s) (<[i := pc']> (pc s)) (pending s)
    (if last then 0 else waiting s + 1) (if last then S (generation s) else generation s)
    (saver s) (saved_mem s) (saved_regs s) (<[i := S (entries s i)]> (entries s)).

Definition at_pc (i : nat) (pc' : vcpu_pc) (s : vm) : vm :=
  mkvm (memory s) (regs s) (<[i := pc']> (pc s)) (pending s) (waiting s) (generation s)
    (saver s) (saved_mem s) (saved_regs s) (entries s).

(** The guest on vCPU [i]. *)
Definition guest_runs (i : nat) (m : M) (r : R) (s : vm) : vm :=
  mkvm m (<[i := r]> (regs s)) (pc s) (pending s) (waiting s) (generation s)
    (saver s) (saved_mem s) (saved_regs s) (entries s).

(** [rx_thread] stores a packet. *)
Definition rx_writes (m : M) (s : vm) : vm :=
  mkvm m (regs s) (pc s) (pending s) (waiting s) (generation s)
    (saver s) (saved_mem s) (saved_regs s) (entries s).

(** [timer_handler] up to the first barrier: signal the other threads. *)
Definition alarm (c : nat) (s : vm) : vm :=
  arrive c (Barrier1 (generation s))
    (mkvm (memory s) (regs s) (pc s) (fun i => if i =? c then pending s i else true)
       (waiting s) (generation s) c None (saved_regs s) (entries s)).

(** [sigusr_handler] up to the first barrier. *)
Definition handle_signal (i : nat) (s : vm) : vm :=
  arrive i (Barrier1 (generation s))
    (mkvm (memory s) (regs s) (pc s) (<[i := false]> (pending s))
       (waiting s) (generation s) (saver s) (saved_mem s) (saved_regs s) (entries s)).

(** [write_cpu_state] and, on the thread of the alarm, the pages, as [m]; then
    the second barrier. *)
Definition save (i : nat) (m : M) (s : vm) : vm :=
  arrive i (Barrier2 (generation s))
    (mkvm (memory s) (regs s) (pc s) (pending s) (waiting s) (generation s) (saver s)
       (if i =? saver s then Some m else saved_mem s)
       (<[i := Some (regs s i)]> (saved_regs s)) (entries s)).

(** The alarm comes when no signal of an earlier checkpoint is on its way, which
    for a thread that runs the guest means that none is under way.  The pages
    are written while [rx_thread] goes on: of its queue the file has what was
    there at one moment or another. *)
Inductive vm_step : vm -> vm -> Prop :=
| step_guest i m r s : i < ncores -> pc s i = Running -> vm_step s (guest_runs i m r s)
| step_rx m s : agree (memory s) m -> vm_step s (rx_writes m s)
| step_alarm c s : c < ncores -> takes_alarm c -> pc s c = Running ->
    (forall i, i < ncores -> pending s i = false) -> vm_step s (alarm c s)
| step_signal i s : i < ncores -> pc s i = Running -> pending s i = true ->
    vm_step s (handle_signal i s)
| step_opened1 i g s : i < ncores -> pc s i = Barrier1 g -> g < generation s -> vm_step s (at_pc i Saving s)
| step_save i m s : i < ncores -> pc s i = Saving -> agree (memory s) m -> vm_step s (save i m s)
| step_opened2 i g s : i < ncores -> pc s i = Barrier2 g -> g < generation s -> vm_step s (at_pc i Running s).

Definition vm_start (m : M) (r : nat -> R) : vm :=
  mkvm m r (fun _ => Running) (fun _ => false) 0 0 0 None (fun _ => None) (fun _ => 0).

(** ** The invariant *)

(** What has been saved of memory. *)
Definition mem_saved (s : vm) : Prop := exists m, saved_mem s = Some m /\ agree (memory s) m.

(** A thread that has arrived [e] times when the barrier has opened [g] times. *)
Definition phase_ok (s : vm) (i : nat) : Prop :=
  let e := entries s i in
  let g := generation s in
  (e = g \/ e = S g) /\
  match pc s i with
  | Running => e = g /\ Nat.even e = true
  | Barrier1 g' => g' = pred e /\ 0 < e /\ Nat.even e = false
  | Saving => e = g /\ Nat.even e = false
  | Barrier2 g' => g' = pred e /\ 0 < e /\ Nat.even e = true /\
      (e = S g -> saved_regs s i = Some (regs s i) /\ (i = saver s -> mem_saved s))
  end.

(** The threads that wait for the barrier to open next. *)
Definition arrived (s : vm) : list nat :=
  filter (fun i => entries s i = S (generation s)) (seq 0 ncores).

Record vm_inv (s : vm) : Prop := {
  inv_phase : forall i, i < ncores -> phase_ok s i;
  inv_waiting : waiting s = length (arrived s);
  inv_closed : waiting s < ncores;
  inv_saver : saver s < ncores
}.

Lemma arrived_NoDup s : NoDup (arrived s).
Proof. apply list.NoDup_filter, NoDup_seq. Qed.

Lemma elem_of_arrived s i : i ∈ arrived s <-> entries s i = S (generation s) /\ i < ncores.
Proof. unfold arrived. rewrite list_elem_of_filter, elem_of_seq. split; intros []; split; try done; lia. Qed.

(** If only thread [i] is missing, all others have arrived. *)
Lemma all_arrived s i j :
  length (arrived s) + 1 = ncores -> i < ncores -> i ∉ arrived s -> j < ncores -> j <> i ->
  entries s j = S (generation s).
Proof.
  intros Hlen Hi Hni Hj Hne.
  assert (i :: arrived s ≡ₚ seq 0 ncores) as Hp.
  { apply submseteq_length_Permutation.
    - apply NoDup_submseteq; [apply list.NoDup_cons; split; [done|apply arrived_NoDup]|].
      intros x [->|Hx]%elem_of_cons; apply elem_of_seq; [lia|].
      apply elem_of_arrived in Hx. lia.
    - rewrite length_seq. cbn. lia. }
  assert (j ∈ i :: arrived s) as Hin by (rewrite Hp; apply elem_of_seq; lia).
  apply elem_of_cons in Hin as [->|Hin]; [done|]. by apply elem_of_arrived in Hin as [? _].
Qed.

Lemma count_arrival s s' i :
  i < ncores -> entries s i = generation s -> generation s' = generation s ->
  entries s' = <[i := S (entries s i)]> (entries s) ->
  length (arrived s') = length (arrived s) + 1.
Proof.
  intros Hi He Hg Hent.
  assert (arrived s' ≡ₚ i :: arrived s) as ->; [|cbn; lia].
  apply list.NoDup_Permutation.
  - apply arrived_NoDup.
  - apply list.NoDup_cons. split; [|apply arrived_NoDup]. rewrite elem_of_arrived. lia.
  - intros x. rewrite elem_of_cons, !elem_of_arrived, Hent, Hg.
    destruct (decide (x = i)) as [->|Hne].
    + rewrite fn_lookup_insert, He. intuition.
    + rewrite fn_lookup_insert_ne by done. intuition.
Qed.

(** Arriving: everybody else keeps waiting, or the barrier opens. *)
Lemma arrive_inv s i pc' :
  vm_inv s -> i < ncores -> entries s i = generation s ->
  (forall g', (g' = generation s \/ g' = S (generation s)) ->
     phase_ok (mkvm (memory s) (regs s) (<[i := pc']> (pc s)) (pending s) (waiting s) g'
       (saver s) (saved_mem s) (saved_regs s) (<[i := S (entries s i)]> (entries s))) i) ->
  vm_inv (arrive i pc' s).
Proof.
  intros [Hph Hw Hc Hsv] Hi He Hnew. unfold arrive.
  assert (i ∉ arrived s) as Hni by (rewrite elem_of_arrived; lia).
  destruct (Nat.eqb_spec (waiting s + 1) ncores) as [Hlast|Hmore].
  - split; cbn [waiting generation entries pc].
    + intros j Hj. destruct (decide (j = i)) as [->|Hne].
      * apply (Hnew (S (generation s))). by right.
      * assert (entries s j = S (generation s)) as Hej by (apply (all_arrived s i); try done; lia).
        pose proof (Hph j Hj) as [Ho Hp]. unfold phase_ok. cbn.
        rewrite !fn_lookup_insert_ne by done. split; [lia|].
        destruct (pc s j); try lia; try done. destruct Hp as (H1 & H2 & H3 & _). repeat (split; [done|]). lia.
    + cbn. match goal with |- 0 = length ?l => destruct l as [|x l0] eqn:Ea; [done|] end.
      assert (x ∈ x :: l0) as Hx by set_solver. rewrite <- Ea in Hx.
      apply elem_of_arrived in Hx as [Hx Hxn]. cbn in Hx.
      destruct (decide (x = i)) as [->|Hne].
      * rewrite fn_lookup_insert in Hx. lia.
      * rewrite fn_lookup_insert_ne in Hx by done.
        pose proof (all_arrived s i x ltac:(lia) Hi Hni Hxn Hne). lia.
    + lia.
    + done.
  - split; cbn [waiting generation entries pc].
    + intros j Hj. destruct (decide (j = i)) as [->|Hne].
      * apply (Hnew (generation s)). by left.
      * pose proof (Hph j Hj) as Hp. unfold phase_ok in *. cbn. by rewrite !fn_lookup_insert_ne by done.
    + rewrite (count_arrival s _ i); [cbn; lia|done..].
    + lia.
    + done.
Qed.

(** A thread that is not at the barrier has been let through each time. *)
Lemma not_waiting s i : vm_inv s -> i < ncores -> pc s i = Running \/ pc s i = Saving ->
  entries s i = generation s.
Proof.
  intros Hinv Hi Hpc. destruct (inv_phase s Hinv i Hi) as [_ Hp].
  destruct Hpc as [E|E]; rewrite E in Hp; by destruct Hp.
Qed.

Lemma even_S_negb n : Nat.even (S n) = negb (Nat.even n).
Proof. rewrite Nat.even_succ. by rewrite <- Nat.negb_even. Qed.

(** The parity of the generation separates running from saving. *)
Lemma running_even s i : vm_inv s -> i < ncores -> pc s i = Running -> Nat.even (generation s) = true.
Proof.
  intros Hinv Hi E. destruct (inv_phase s Hinv i Hi) as [_ Hp]. rewrite E in Hp. destruct Hp as [H1 H2].
  by rewrite <- H1.
Qed.
Lemma saving_odd s i : vm_inv s -> i < ncores -> pc s i = Saving -> Nat.even (generation s) = false.
Proof.
  intros Hinv Hi E. destruct (inv_phase s Hinv i Hi) as [_ Hp]. rewrite E in Hp. destruct Hp as [H1 H2].
  by rewrite <- H1.
Qed.

Context (Hagree : Equivalence agree).

(** A step that leaves the threads alone, while one of them runs the guest or
    the contents of memory agree. *)
Lemma same_threads_inv s s' :
  vm_inv s -> pc s' = pc s -> waiting s' = waiting s -> generation s' = generation s -> entries s' = entries s ->
  saver s' < ncores ->
  (Nat.even (generation s) = true \/ saved_regs s' = saved_regs s /\ regs s' = regs s /\ saver s' = saver s /\
     (mem_saved s -> mem_saved s')) ->
  vm_inv s'.
Proof.
  intros Hinv Epc Ew Eg Ee Hsv Hor. split; [|by rewrite Ew, (inv_waiting _ Hinv); unfold arrived; rewrite Ee, Eg|
    rewrite Ew; by apply Hinv|done].
  intros j Hj. pose proof (inv_phase s Hinv j Hj) as [Ho Hph]. unfold phase_ok. rewrite Epc, Eg, Ee. split; [done|].
  destruct (pc s j) eqn:Ej; try done. destruct Hph as (H1 & H2 & H3 & H4). repeat (split; [done|]). intros He.
  destruct Hor as [Hev|(-> & -> & -> & Hm)].
  - rewrite He, even_S_negb, Hev in H3. done.
  - destruct (H4 He) as [H5 H6]. split; [done|]. auto.
Qed.

(** A thread that goes on from a barrier. *)
Lemma opened_inv s i p :
  vm_inv s -> i < ncores ->
  (p = Saving /\ (exists g, pc s i = Barrier1 g /\ g < generation s) \/
   p = Running /\ (exists g, pc s i = Barrier2 g /\ g < generation s)) ->
  vm_inv (at_pc i p s).
Proof.
  intros Hinv Hi Hp. split; [|apply Hinv..]. intros j Hj. unfold phase_ok. cbn.
  destruct (decide (j = i)) as [->|Hne]; [|rewrite fn_lookup_insert_ne by done; by apply Hinv].
  rewrite fn_lookup_insert. destruct (inv_phase s Hinv i Hi) as [Ho Hph].
  destruct Hp as [(-> & g & Epc & Hg)|(-> & g & Epc & Hg)]; rewrite Epc in Hph; (split; [done|]);
    destruct Hph as (H1 & H2 & H3); (split; [lia|]); [done|by destruct H3].
Qed.

(** A thread that runs the guest arrives at the first barrier. *)
Lemma handler_inv s i : vm_inv s -> i < ncores -> pc s i = Running -> vm_inv (arrive i (Barrier1 (generation s)) s).
Proof.
  intros Hinv Hi Epc. pose proof (not_waiting s i Hinv Hi (or_introl Epc)) as He.
  pose proof (running_even s i Hinv Hi Epc) as Hev. apply arrive_inv; [done..|].
  intros g' Hg'. unfold phase_ok. cbn. rewrite !fn_lookup_insert, even_S_negb, He, Hev.
  cbn. split; [lia|]. split; [done|]. split; [lia|done].
Qed.

Lemma saving_inv s i m : vm_inv s -> i < ncores -> pc s i = Saving -> agree (memory s) m -> vm_inv (save i m s).
Proof.
  intros Hinv Hi Epc Hm. pose proof (not_waiting s i Hinv Hi (or_intror Epc)) as He.
  pose proof (saving_odd s i Hinv Hi Epc) as Hev. apply arrive_inv; cbn; [|done|done|].
  - split; [|apply Hinv..]. intros j Hj. pose proof (inv_phase s Hinv j Hj) as [Ho Hph].
    split; [done|]. cbn. destruct (pc s j) eqn:Ej; try done.
    destruct Hph as (H1 & H2 & H3 & H4). repeat (split; [done|]). intros E. destruct (H4 E) as [H5 H6].
    assert (j <> i) by congruence. rewrite fn_lookup_insert_ne by done. split; [done|].
    intros ->. unfold mem_saved. cbn. destruct (Nat.eqb_spec i (saver s)); [done|]. by apply H6.
  - intros g' Hg'. unfold phase_ok. cbn. rewrite !fn_lookup_insert, even_S_negb, He, Hev.
    cbn. split; [lia|]. split; [done|]. split; [lia|]. split; [done|]. intros _. split; [done|]. intros <-.
    unfold mem_saved. cbn. rewrite Nat.eqb_refl. by exists m.
Qed.

Lemma vm_step_inv s s' : vm_inv s -> vm_step s s' -> vm_inv s'.
Proof.
  intros Hinv H. destruct H as [i m r s Hi Epc|m s Hm|c s Hc _ Epc _|i s Hi Epc _|i g s Hi Epc Hg|i m s Hi Epc Hm|i g s Hi Epc Hg].
  - apply (same_threads_inv s); try done; [apply Hinv|]. left. by apply (running_even s i).
  - apply (same_threads_inv s); try done; [apply Hinv|]. right. do 3 (split; [done|]).
    intros (m0 & E & H0). exists m0. split; [done|]. cbn. etransitivity; [symmetry; exact Hm|exact H0].
  - refine (handler_inv (mkvm _ _ _ _ _ _ c _ _ _) c _ Hc Epc).
    apply (same_threads_inv s); try done. left. by apply (running_even s c).
  - refine (handler_inv (mkvm _ _ _ _ _ _ _ _ _ _) i _ Hi Epc).
    apply (same_threads_inv s); try done; [apply Hinv|]. left. by apply (running_even s i).
  - apply opened_inv; [done..|]. left. eauto.
  - by apply saving_inv.
  - apply opened_inv; [done..|]. right. eauto.
Qed.

Lemma vm_start_inv m r : 0 < ncores -> vm_inv (vm_start m r).
Proof.
  intros Hn. split; [|cbn|done|done].
  - intros i Hi. split; [by left|done].
  - symmetry. apply length_zero_iff_nil. destruct (arrived (vm_start m r)) as [|x l] eqn:E; [done|].
    assert (x ∈ arrived (vm_start m r)) as Hx by (rewrite E; set_solver).
    by apply elem_of_arrived in Hx as [Hx _].
Qed.

Lemma vm_reachable m r s : 0 < ncores -> rtc vm_step (vm_start m r) s -> vm_inv s.
Proof.
  intros Hn. revert s. apply rtc_ind_r; [by apply vm_start_inv|]. intros s s' _ Hstep Hinv.
  by eapply vm_step_inv.
Qed.

(** The barrier opens for the second time. *)
Lemma second_opening s s' :
  vm_inv s -> vm_step s s' -> generation s' = S (generation s) -> Nat.even (generation s') = true ->
  exists i m, i < ncores /\ pc s i = Saving /\ agree (memory s) m /\ s' = save i m s /\ waiting s + 1 = ncores.
Proof.
  intros Hinv H Hg Hev. rewrite Hg, even_S_negb in Hev.
  assert (Nat.even (generation s) = false) as Hodd by (by destruct (Nat.even (generation s))).
  destruct H as [i m r s Hi Epc|m s Hm|c s Hc _ Epc _|i s Hi Epc _|i g s Hi Epc Hgi|i m s Hi Epc Hm|i g s Hi Epc Hgi];
    cbn in Hg; try lia.
  - pose proof (running_even s c Hinv Hc Epc). congruence.
  - pose proof (running_even s i Hinv Hi Epc). congruence.
  - exists i, m. destruct (Nat.eqb_spec (waiting s + 1) ncores); [done|lia].
Qed.

(** ... and then everything has been saved. *)
Lemma opening_saved s s' :
  vm_inv s -> vm_step s s' -> generation s' = S (generation s) -> Nat.even (generation s') = true ->
  mem_saved s' /\ forall i, i < ncores -> saved_regs s' i = Some (regs s' i).
Proof.
  intros Hinv Hstep Hg Hev. destruct (second_opening s s' Hinv Hstep Hg Hev) as (i & m & Hi & Epc & Hm & -> & Hw).
  pose proof (not_waiting s i Hinv Hi (or_intror Epc)) as He.
  assert (forall j, j < ncores -> j <> i ->
    saved_regs s j = Some (regs s j) /\ (j = saver s -> mem_saved s)) as Hsaved.
  { intros j Hj Hne.
    assert (entries s j = S (generation s)) as Hej.
    { apply (all_arrived s i); try done; [rewrite <- (inv_waiting s Hinv); lia|].
      rewrite elem_of_arrived. lia. }
    destruct (inv_phase s Hinv j Hj) as [_ Hph].
    pose proof (saving_odd s i Hinv Hi Epc) as Hodd.
    destruct (pc s j); try (destruct Hph; lia).
    - destruct Hph as (_ & _ & Hph). rewrite Hej, even_S_negb, Hodd in Hph. done.
    - destruct Hph as (_ & _ & _ & Hph). by apply Hph. }
  split.
  - unfold mem_saved. cbn. destruct (Nat.eqb_spec i (saver s)) as [->|Hne]; [by exists m|].
    apply (Hsaved (saver s)); [apply Hinv|congruence|done].
  - intros j Hj. cbn. destruct (decide (j = i)) as [->|Hne].
    + by rewrite fn_lookup_insert.
    + rewrite fn_lookup_insert_ne by done. by apply Hsaved.
Qed.

End Snapshot.

(** *** A checkpoint of two processors *)

(** Memory is the guest's part and the queue.  Thread 1 gets the alarm, the
    other thread follows, thread 1 saves while a packet arrives. *)
Definition same_guest (m m' : nat * nat) : Prop := m.1 = m'.1.
#[export] Instance same_guest_equiv : Equivalence same_guest.
Proof. split; unfold same_guest; repeat intros ?; congruence. Qed.

Definition two_cpus : vm (M := nat * nat) (R := nat) := vm_start (7, 0) (fun i => 100 + i).
Definition first_saved : vm (M := nat * nat) (R := nat) :=
  rx_writes (7, 1) (save 2 1 (7, 0) (at_pc 1 Saving (at_pc 0 Saving (handle_signal 2 0 (alarm 2 1 two_cpus))))).
Abbreviation two_step := (vm_step 2 same_guest (fun _ => True)).

Lemma first_saved_reachable : rtc two_step two_cpus first_saved.
Proof.
  eapply rtc_l; [apply (step_alarm _ _ _ 1); [lia|done|reflexivity|reflexivity]|].
  eapply rtc_l; [apply (step_signal _ _ _ 0); [lia|reflexivity|reflexivity]|].
  eapply rtc_l; [apply (step_opened1 _ _ _ 0 0); [lia|reflexivity|cbn; lia]|].
  eapply rtc_l; [apply (step_opened1 _ _ _ 1 0); [lia|reflexivity|cbn; lia]|].
  eapply rtc_l; [apply (step_save _ _ _ 1 (7, 0)); [lia|reflexivity|reflexivity]|].
  apply rtc_once. unfold first_saved. apply step_rx. reflexivity.
Qed.

Lemma second_time :
  generation (save 2 0 (7, 1) first_saved) = S (generation first_saved) /\
  Nat.even (generation (save 2 0 (7, 1) first_saved)) = true.
Proof. vm_compute. split; reflexivity. Qed.


(** ** Restarting *)

(** After the barrier at the start of [vcpu_loop], each thread reads its state
    from the file with the number [no_checkpoint]; the first then increments
    the number, without waiting for the others. *)
Record restart_state := mkrestart {
  no_checkpoint : nat;
  read_from : nat -> option nat;     (* the number in the name of the file read *)
  incremented : bool
}.

Inductive restart_step : restart_state -> restart_state -> Prop :=
| restart_read i s : read_from s i = None ->
    restart_step s (mkrestart (no_checkpoint s) (<[i := Some (no_checkpoint s)]> (read_from s)) (incremented s))
| restart_next s : is_Some (read_from s 0) -> incremented s = false ->
    restart_step s (mkrestart (S (no_checkpoint s)) (read_from s) true).

(** The race: a slow thread reads the state of a checkpoint that was never
    taken. *)
Lemma restart_race n :
  exists s, rtc restart_step (mkrestart n (fun _ => None) false) s /\ read_from s 1 = Some (S n).
Proof.
  eexists. split.
  - eapply rtc_l; [apply (restart_read 0); reflexivity|].
    eapply rtc_l; [apply restart_next; [by eexists|reflexivity]|].
    apply rtc_once. by apply (restart_read 1).
  - reflexivity.
Qed.
