(* ===== verification/Freeze.v ===== *)
(** * Stopping the processors for a migration

    How the threads of the virtual CPUs and the migration thread synchronise:
    [vcpu_thread_mig_handler] (src/uhyve.c) on each vCPU and the end of
    [migration_handler] (src/uhyve-x86_64.c), with the two POSIX barriers
    [barrier] (for the vCPUs) and [migration_barrier] (for the vCPUs and the
    migration thread).  No checkpoint is taken meanwhile.  The memory of this
    model is what the virtual CPUs write: [rx_thread] is not stopped for a
    migration, and what it writes to the receive queue in guest memory is left
    to NetQueue.v. *)

From S2P Require Import Prelude.
From stdpp Require Import functions.

Open Scope nat_scope.

(** ** Barriers *)

(** A [pthread_barrier_t]: how many threads wait in it and how often it has
    opened. *)
Record barrier := mkbarrier { waiting : nat; generation : nat }.

(** A thread arrives at a barrier for [n] threads; the last one opens it. *)
Definition arrive_at (n : nat) (b : barrier) : barrier :=
  if waiting b + 1 =? n then mkbarrier 0 (S (generation b)) else mkbarrier (waiting b + 1) (generation b).

(** ** The threads *)

(** Where a vCPU thread is: in the guest (or the hypervisor's loop), in the
    handler at the barrier of the vCPUs (with the barrier's generation when it
    arrived), saving its state, at the migration barrier, there again. *)
Inductive vcpu_pc := Running | AtBarrier (gen : nat) | Saving | AtMigration (gen : nat) | Parked (gen : nat).

#[export] Instance vcpu_pc_eq_dec : EqDecision vcpu_pc.
Proof. solve_decision. Defined.

(** Where the migration thread is: before the end of the pre-copy phase, about
    to signal vCPU [i], at the migration barrier, in the last transfer. *)
Inductive mig_pc := Precopying | Signalling (i : nat) | MigAtBarrier (gen : nat) | Copying.

#[export] Instance mig_pc_eq_dec : EqDecision mig_pc.
Proof. solve_decision. Defined.

Section Freeze.
Context {M R : Type} (ncores : nat).

(** [pending]: a signal SIGTHRMIG is pending for the thread; [allocated] and
    [states] are [vcpu_thread_states]. *)
Record vm := mkvm {
  memory : M;
  regs : nat -> R;
  pc : nat -> vcpu_pc;
  pending : nat -> bool;
  vcpus : barrier;
  migration : barrier;
  allocated : bool;
  states : nat -> option R;
  mig : mig_pc
}.

Definition at_pc (i : nat) (p : vcpu_pc) (s : vm) : vm :=
  mkvm (memory s) (regs s) (<[i := p]> (pc s)) (pending s) (vcpus s) (migration s) (allocated s) (states s) (mig s).
Definition at_mig (p : mig_pc) (s : vm) : vm :=
  mkvm (memory s) (regs s) (pc s) (pending s) (vcpus s) (migration s) (allocated s) (states s) p.
Definition wait_vcpus (s : vm) : vm :=
  mkvm (memory s) (regs s) (pc s) (pending s) (arrive_at ncores (vcpus s)) (migration s) (allocated s) (states s) (mig s).
Definition wait_migration (s : vm) : vm :=
  mkvm (memory s) (regs s) (pc s) (pending s) (vcpus s) (arrive_at (ncores + 1) (migration s)) (allocated s) (states s)
    (mig s).

Definition guest_runs (i : nat) (m : M) (r : R) (s : vm) : vm :=
  mkvm m (<[i := r]> (regs s)) (pc s) (pending s) (vcpus s) (migration s) (allocated s) (states s) (mig s).

(** [migration_handler] after the pre-copy phase. *)
Definition freeze (s : vm) : vm :=
  mkvm (memory s) (regs s) (pc s) (pending s) (vcpus s) (migration s) true (fun _ => None) (Signalling 0).
Definition signal (i : nat) (s : vm) : vm :=
  mkvm (memory s) (regs s) (pc s) (<[i := true]> (pending s)) (vcpus s) (migration s) (allocated s) (states s)
    (Signalling (S i)).
Definition mig_waits (s : vm) : vm :=
  at_mig (MigAtBarrier (generation (migration s))) (wait_migration s).

(** [vcpu_thread_mig_handler], a step per barrier. *)
Definition handle_signal (i : nat) (s : vm) : vm :=
  at_pc i (AtBarrier (generation (vcpus s))) (wait_vcpus
    (mkvm (memory s) (regs s) (pc s) (<[i := false]> (pending s)) (vcpus s) (migration s) (allocated s) (states s) (mig s))).
Definition save (i : nat) (s : vm) : vm :=
  at_pc i (AtMigration (generation (migration s))) (wait_migration
    (mkvm (memory s) (regs s) (pc s) (pending s) (vcpus s) (migration s) (allocated s)
       (<[i := Some (regs s i)]> (states s)) (mig s))).
Definition park (i : nat) (s : vm) : vm :=
  at_pc i (Parked (generation (migration s))) (wait_migration s).

Definition guest_step (s s' : vm) : Prop :=
  exists i m r, i < ncores /\ pc s i = Running /\ s' = guest_runs i m r s.

(** The steps of the synchronisation. *)
Inductive sync_step : vm -> vm -> Prop :=
| step_signal i s : mig s = Signalling i -> i < ncores -> sync_step s (signal i s)
| step_mig_waits s : mig s = Signalling ncores -> sync_step s (mig_waits s)
| step_copy g s : mig s = MigAtBarrier g -> g < generation (migration s) -> sync_step s (at_mig Copying s)
| step_handle i s : i < ncores -> pc s i = Running -> pending s i = true -> sync_step s (handle_signal i s)
| step_opened i g s : i < ncores -> pc s i = AtBarrier g -> g < generation (vcpus s) -> sync_step s (at_pc i Saving s)
| step_save i s : i < ncores -> pc s i = Saving -> sync_step s (save i s)
| step_park i g s : i < ncores -> pc s i = AtMigration g -> g < generation (migration s) -> sync_step s (park i s).

Inductive vm_step : vm -> vm -> Prop :=
| step_guest s s' : guest_step s s' -> vm_step s s'
| step_freeze s : mig s = Precopying -> vm_step s (freeze s)
| step_sync s s' : sync_step s s' -> vm_step s s'.

Definition vm_start (m : M) (r : nat -> R) : vm :=
  mkvm m r (fun _ => Running) (fun _ => false) (mkbarrier 0 0) (mkbarrier 0 0) false (fun _ => None) Precopying.

(** ** Counting threads *)

Definition total (w : nat -> nat) : nat := list_sum (w <$> seq 0 ncores).

Lemma total_from_ext (w w' : nat -> nat) l : (forall j, j ∈ l -> w' j = w j) -> list_sum (w' <$> l) = list_sum (w <$> l).
Proof. intros H. f_equal. apply list_fmap_ext. intros k j Hj. apply H. by eapply list_elem_of_lookup_2. Qed.

Lemma total_change (w w' : nat -> nat) i :
  i < ncores -> (forall j, j <> i -> w' j = w j) -> total w' + w i = total w + w' i.
Proof.
  intros Hi Hw. unfold total. replace ncores with (i + S (ncores - S i)) by lia. rewrite seq_app, !fmap_app, !list_sum_app.
  cbn [seq fmap list_fmap list_sum foldr]. fold (list_sum (w' <$> seq (S (0 + i)) (ncores - S i))).
  rewrite (total_from_ext w w' (seq 0 i)), (total_from_ext w w' (seq (S (0 + i)) (ncores - S i))).
  - unfold list_sum. cbn. lia.
  - intros j Hj%elem_of_seq. apply Hw. lia.
  - intros j Hj%elem_of_seq. apply Hw. lia.
Qed.

Lemma total_le (w : nat -> nat) k : (forall j, w j <= k) -> total w <= k * ncores.
Proof.
  intros Hw. unfold total. rewrite <- (length_seq ncores 0) at 2. induction (seq 0 ncores) as [|j l IH]; [cbn; lia|].
  cbn [fmap list_fmap list_sum foldr length]. fold (list_sum (w <$> l)). specialize (Hw j). lia.
Qed.

Lemma total_ext (w w' : nat -> nat) : (forall j, j < ncores -> w' j = w j) -> total w' = total w.
Proof. intros H. apply total_from_ext. intros j Hj%elem_of_seq. apply H. lia. Qed.

(** How many threads satisfy a test. *)
Definition count (f : nat -> bool) : nat := total (fun i => Nat.b2n (f i)).

Lemma count_le f : count f <= ncores.
Proof.
  unfold count. pose proof (total_le (fun i => Nat.b2n (f i)) 1) as H. rewrite Nat.mul_1_l in H. apply H.
  intros j. destruct (f j); cbn; lia.
Qed.

Lemma count_change f f' i :
  i < ncores -> (forall j, j <> i -> f' j = f j) -> count f' + Nat.b2n (f i) = count f + Nat.b2n (f' i).
Proof.
  intros Hi Hf. apply (total_change (fun j => Nat.b2n (f j)) (fun j => Nat.b2n (f' j)) i Hi).
  intros j Hj. by rewrite Hf.
Qed.

Lemma count_missing f i : i < ncores -> f i = false -> count f < ncores.
Proof.
  intros Hi Hf. pose proof (count_le (<[i := true]> f)).
  pose proof (count_change f (<[i := true]> f) i Hi ltac:(intros; by apply fn_lookup_insert_ne)) as H1. rewrite fn_lookup_insert, Hf in H1. cbn in H1.
  lia.
Qed.

Lemma count_two_missing f i j : i < ncores -> j < ncores -> i <> j -> f i = false -> f j = false -> count f + 1 < ncores.
Proof.
  intros Hi Hj Hne Hf Hg. pose proof (count_missing (<[i := true]> f) j Hj) as H.
  rewrite fn_lookup_insert_ne in H by done. specialize (H Hg).
  pose proof (count_change f (<[i := true]> f) i Hi ltac:(intros; by apply fn_lookup_insert_ne)) as H1. rewrite fn_lookup_insert, Hf in H1. cbn in H1.
  lia.
Qed.

Lemma count_none f : (forall j, j < ncores -> f j = false) -> count f = 0.
Proof.
  intros Hf. transitivity (count (fun _ => false)).
  - apply total_ext. intros j Hj. by rewrite Hf.
  - unfold count, total. induction (seq 0 ncores) as [|j l IH]; done.
Qed.

(** If a thread is missing, there is one. *)
Lemma count_find f : count f < ncores -> exists i, i < ncores /\ f i = false.
Proof.
  intros Hc. destruct (decide (Exists (fun i => f i = false) (seq 0 ncores))) as [H|H].
  - apply Exists_exists in H as (i & Hi%list_elem_of_In%elem_of_seq & Hf). exists i. split; [lia|done].
  - exfalso. assert (count f = count (fun _ => true)) as E.
    { apply total_ext. intros j Hj. destruct (f j) eqn:Ef; [done|]. destruct H. apply Exists_exists. exists j.
      split; [apply list_elem_of_In, elem_of_seq; lia|done]. }
    assert (forall l : list nat, list_sum ((fun _ => Nat.b2n true) <$> l) = length l) as Hl.
    { induction l as [|j l IH]; [done|]. cbn [fmap list_fmap list_sum foldr length]. unfold list_sum in IH.
      rewrite IH. done. }
    rewrite E in Hc. unfold count, total in Hc. rewrite Hl, length_seq in Hc. lia.
Qed.

Lemma all_others f i j :
  i < ncores -> f i = false -> count f + 1 = ncores -> j < ncores -> j <> i -> f j = true.
Proof.
  intros Hi Hf Hc Hj Hne. destruct (f j) eqn:E; [done|]. pose proof (count_two_missing f i j Hi Hj ltac:(done) Hf E). lia.
Qed.

Lemma count_all f j : count f = ncores -> j < ncores -> f j = true.
Proof. intros Hc Hj. destruct (f j) eqn:E; [done|]. pose proof (count_missing f j Hj E). lia. Qed.

(** One thread moves. *)
Lemma count_move (t : vcpu_pc -> bool) (f : nat -> vcpu_pc) i p :
  i < ncores -> count (fun j => t (<[i := p]> f j)) + Nat.b2n (t (f i)) = count (fun j => t (f j)) + Nat.b2n (t p).
Proof.
  intros Hi. pose proof (count_change (fun j => t (f j)) (fun j => t (<[i := p]> f j)) i Hi) as H. cbn beta in H.
  rewrite fn_lookup_insert in H. apply H. intros j Hj. by rewrite fn_lookup_insert_ne.
Qed.

(** ** The invariant *)

Definition at_barrier (p : vcpu_pc) : bool := match p with AtBarrier _ => true | _ => false end.
Definition at_migration (p : vcpu_pc) : bool := match p with AtMigration _ => true | _ => false end.
Definition parked (p : vcpu_pc) : bool := match p with Parked _ => true | _ => false end.

(** vCPU [i] has been signalled. *)
Definition signalled (s : vm) (i : nat) : Prop :=
  match mig s with Precopying => False | Signalling k => i < k | _ => True end.

Definition vcpu_ok (s : vm) (i : nat) : Prop :=
  match pc s i with
  | Running => generation (vcpus s) = 0 /\ (signalled s i -> pending s i = true)
  | AtBarrier g => g = 0
  | Saving => generation (vcpus s) = 1
  | AtMigration g => g = 0 /\ generation (vcpus s) = 1 /\ states s i = Some (regs s i)
  | Parked _ => generation (migration s) = 1 /\ generation (vcpus s) = 1 /\ states s i = Some (regs s i)
  end /\
  (generation (migration s) = 1 -> at_migration (pc s i) || parked (pc s i) = true).

Definition vcpus_ok (s : vm) : Prop :=
  (generation (vcpus s) = 0 /\ waiting (vcpus s) = count (fun i => at_barrier (pc s i)) /\ waiting (vcpus s) < ncores) \/
  generation (vcpus s) = 1.

Definition mig_here (s : vm) : nat := match mig s with MigAtBarrier _ => 1 | _ => 0 end.
Definition migration_ok (s : vm) : Prop :=
  (generation (migration s) = 0 /\ waiting (migration s) = count (fun i => at_migration (pc s i)) + mig_here s /\
   waiting (migration s) <= ncores /\ mig s <> Copying) \/
  (generation (migration s) = 1 /\ waiting (migration s) = count (fun i => parked (pc s i)) /\
   (mig s = MigAtBarrier 0 \/ mig s = Copying)).

Definition mig_ok (s : vm) : Prop :=
  match mig s with Signalling k => k <= ncores | MigAtBarrier g => g = 0 | _ => True end.

Record vm_inv (s : vm) : Prop := {
  inv_vcpu : forall i, i < ncores -> vcpu_ok s i;
  inv_vcpus : vcpus_ok s;
  inv_migration : migration_ok s;
  inv_mig : mig_ok s;
  (** for the assertion of the handler *)
  inv_allocated : mig s <> Precopying -> allocated s = true;
  inv_start : mig s = Precopying -> forall i, i < ncores -> pc s i = Running /\ pending s i = false
}.

Lemma freeze_start_inv m r : 0 < ncores -> vm_inv (vm_start m r).
Proof.
  intros Hn. assert (count (fun _ => false) = 0) as E.
  { unfold count, total. induction (seq 0 ncores) as [|j l IH]; done. }
  split; cbn; try done.
  - left. cbn. by rewrite E.
  - left. cbn. rewrite E. split; [done|]. split; [done|]. split; [lia|done].
Qed.

(** Which generations a pc admits. *)
Lemma saving_generation s i : vm_inv s -> i < ncores -> pc s i = Saving ->
  generation (vcpus s) = 1 /\ generation (migration s) = 0.
Proof.
  intros Hinv Hi E. destruct (inv_vcpu _ Hinv i Hi) as [H1 H2]. rewrite E in *. split; [done|].
  destruct (inv_migration _ Hinv) as [[? _]|[Hg _]]; [done|]. specialize (H2 Hg). done.
Qed.

Lemma running_generation s i : vm_inv s -> i < ncores -> pc s i = Running ->
  generation (vcpus s) = 0 /\ generation (migration s) = 0.
Proof.
  intros Hinv Hi E. destruct (inv_vcpu _ Hinv i Hi) as [H1 H2]. rewrite E in *. split; [apply H1|].
  destruct (inv_migration _ Hinv) as [[? _]|[Hg _]]; [done|]. specialize (H2 Hg). done.
Qed.

Ltac vm_simpl := unfold vcpu_ok, vcpus_ok, migration_ok, mig_ok, mig_here, signalled in *;
  cbn [memory regs pc pending vcpus migration allocated states mig at_pc at_mig wait_vcpus wait_migration] in *.

Lemma handle_inv s i :
  vm_inv s -> i < ncores -> pc s i = Running -> pending s i = true -> vm_inv (handle_signal i s).
Proof.
  intros Hinv Hi E Hpe. destruct (running_generation s i Hinv Hi E) as [Hg Hm].
  destruct Hinv as [Hv Hb Hmi Hk Hal Hp]. destruct Hb as [(_ & Hw & Hlt)|Hb]; [|lia].
  destruct Hmi as [(_ & Hmw & Hml & Hnc)|[Hm1 _]]; [|lia].
  pose proof (count_move at_barrier (pc s) i (AtBarrier (generation (vcpus s))) Hi) as C1.
  pose proof (count_move at_migration (pc s) i (AtBarrier (generation (vcpus s))) Hi) as C2. rewrite E in C1, C2. cbn in C1, C2.
  unfold handle_signal. split; vm_simpl.
  - intros j Hj. rewrite Hm. split; [|done]. specialize (Hv j Hj) as [Hvj _]. destruct (decide (j = i)) as [->|Hne].
    { by rewrite fn_lookup_insert, Hg. }
    rewrite !fn_lookup_insert_ne by done. unfold arrive_at. rewrite Hg.
    destruct (Nat.eqb_spec (waiting (vcpus s) + 1) ncores) as [Eo|]; cbn [generation].
    + pose proof (all_others (fun k => at_barrier (pc s k)) i j Hi ltac:(cbn; by rewrite E) ltac:(lia) Hj Hne) as H.
      cbn in H. by destruct (pc s j).
    + destruct (pc s j); rewrite ?Hg in Hvj; intuition congruence.
  - unfold arrive_at. rewrite Hg.
    destruct (Nat.eqb_spec (waiting (vcpus s) + 1) ncores) as [Eo|]; cbn [generation waiting]; [by right|].
    left. split; [done|]. rewrite Hg in C1. lia.
  - left. split; [done|]. split; [|done]. lia.
  - done.
  - done.
  - intros Em. destruct (Hp Em i Hi). congruence.
Qed.

Lemma save_inv s i : vm_inv s -> i < ncores -> pc s i = Saving -> vm_inv (save i s).
Proof.
  intros Hinv Hi E. destruct (saving_generation s i Hinv Hi E) as [Hg Hm].
  destruct Hinv as [Hv Hb Hmi Hk Hal Hp]. destruct Hmi as [(_ & Hmw & Hml & Hnc)|[Hm1 _]]; [|lia].
  pose proof (count_move at_migration (pc s) i (AtMigration (generation (migration s))) Hi) as C1.
  pose proof (count_move parked (pc s) i (AtMigration (generation (migration s))) Hi) as C2.
  rewrite E in C1, C2. cbn in C1, C2. rewrite Hm in C1, C2.
  pose proof (count_missing (fun k => at_migration (pc s k)) i Hi ltac:(cbn; by rewrite E)) as Hlt. unfold save.
  assert (Hopen : waiting (migration s) = ncores -> mig s = MigAtBarrier 0 /\
    forall j, j < ncores -> j <> i -> at_migration (pc s j) = true).
  { intros Eo. vm_simpl. destruct (mig s) as [|k|g|] eqn:Em; try lia. split; [by rewrite Hk|].
    intros j Hj Hne. apply (all_others (fun k => at_migration (pc s k)) i); [done|cbn; by rewrite E|lia|done|done]. }
  split; vm_simpl.
  - intros j Hj. specialize (Hv j Hj) as [Hvj _]. unfold arrive_at. rewrite Hm.
    destruct (decide (j = i)) as [->|Hne].
    { rewrite !fn_lookup_insert. split; [done|]. by destruct (_ =? _). }
    rewrite !fn_lookup_insert_ne by done.
    destruct (Nat.eqb_spec (waiting (migration s) + 1) (ncores + 1)) as [Eo|]; cbn [generation].
    + destruct (Hopen ltac:(lia)) as [_ Hall]. specialize (Hall j Hj Hne). split; [|by rewrite Hall].
      by destruct (pc s j).
    + split; [|done]. destruct (pc s j); rewrite ?Hm in Hvj; intuition congruence.
  - right. done.
  - unfold arrive_at. rewrite Hm.
    destruct (Nat.eqb_spec (waiting (migration s) + 1) (ncores + 1)) as [Eo|]; cbn [generation waiting].
    + right. destruct (Hopen ltac:(lia)) as [-> Hall]. split; [done|]. split; [|by left].
      assert (count (fun k => parked (pc s k)) = 0) as E0; [|lia].
      apply count_none. intros j Hj. destruct (decide (j = i)) as [->|Hne]; [by rewrite E|].
      specialize (Hall j Hj Hne). by destruct (pc s j).
    + left. split; [done|]. split; [lia|]. split; [lia|done].
  - done.
  - done.
  - intros Em. destruct (Hp Em i Hi). congruence.
Qed.

Lemma park_inv s i g : vm_inv s -> i < ncores -> pc s i = AtMigration g -> g < generation (migration s) -> vm_inv (park i s).
Proof.
  intros Hinv Hi E Hlt. destruct (inv_vcpu _ Hinv i Hi) as [Hvi _]. rewrite E in Hvi. destruct Hvi as (-> & Hg & Hs).
  destruct Hinv as [Hv Hb Hmi Hk Hal Hp]. destruct Hmi as [(H0 & _)|(Hm & Hw & Hmig)]; [lia|].
  pose proof (count_move parked (pc s) i (Parked (generation (migration s))) Hi) as C1. rewrite E in C1. cbn in C1.
  pose proof (count_missing (fun k => parked (pc s k)) i Hi ltac:(cbn; by rewrite E)) as Hmiss.
  assert (arrive_at (ncores + 1) (migration s) = mkbarrier (waiting (migration s) + 1) 1) as Ea.
  { unfold arrive_at. rewrite (proj2 (Nat.eqb_neq _ _)) by lia. by rewrite Hm. }
  unfold park. split; vm_simpl; rewrite ?Ea; cbn [generation waiting].
  - intros j Hj. specialize (Hv j Hj). destruct (decide (j = i)) as [->|Hne].
    + rewrite !fn_lookup_insert. done.
    + rewrite !fn_lookup_insert_ne by done. by rewrite Hm in Hv.
  - right. exact Hg.
  - right. split; [done|]. split; [lia|done].
  - done.
  - done.
  - intros Em. destruct (Hp Em i Hi). congruence.
Qed.

Lemma mig_waits_inv s : vm_inv s -> mig s = Signalling ncores -> vm_inv (mig_waits s).
Proof.
  intros [Hv Hb Hmi Hk Hal Hp] E. destruct Hmi as [(Hm & Hw & Hle & _)|(_ & _ & [?|?])]; [|congruence..].
  assert (Hopen : waiting (migration s) = ncores -> forall j, j < ncores -> at_migration (pc s j) = true).
  { intros Eo j Hj. vm_simpl. rewrite E in Hw. apply (count_all (fun k => at_migration (pc s k))); [lia|done]. }
  unfold mig_waits. split; vm_simpl; rewrite ?E in *.
  - intros j Hj. specialize (Hv j Hj) as [Hvj _]. unfold arrive_at. rewrite Hm.
    destruct (Nat.eqb_spec (waiting (migration s) + 1) (ncores + 1)) as [Eo|]; cbn [generation].
    + pose proof (Hopen ltac:(lia) j Hj) as Ha. destruct (pc s j); done.
    + split; [|done]. destruct (pc s j); rewrite ?Hm in Hvj; intuition congruence.
  - exact Hb.
  - unfold arrive_at. rewrite Hm.
    destruct (Nat.eqb_spec (waiting (migration s) + 1) (ncores + 1)) as [Eo|]; cbn [generation waiting].
    + right. split; [done|]. split; [|by left].
      symmetry. apply count_none. intros j Hj. pose proof (Hopen ltac:(lia) j Hj) as Ha. by destruct (pc s j).
    + left. split; [done|]. split; [lia|]. split; [lia|done].
  - done.
  - intros _. by apply Hal.
  - done.
Qed.

Lemma sync_step_inv s s' : vm_inv s -> sync_step s s' -> vm_inv s'.
Proof.
  intros Hinv H. destruct H as [i s E Hi|s E|g s E Hg|i s Hi E Hpe|i g s Hi E Hg|i s Hi E|i g s Hi E Hg].
  - destruct Hinv as [Hv Hb Hmi Hk Hal Hp]. unfold signal.
    destruct Hmi as [(Hm & Hw & Hle & _)|(_ & _ & [?|?])]; [|congruence..].
    split; vm_simpl; rewrite ?E in *; try done.
    + intros j Hj. specialize (Hv j Hj) as [Hvj Hmj]. split; [|done]. destruct (pc s j); try done.
      destruct Hvj as [Hg Hs]. split; [done|]. intros Hlt. destruct (decide (j = i)) as [->|Hne].
      * by rewrite fn_lookup_insert.
      * rewrite fn_lookup_insert_ne by done. apply Hs. lia.
    + by left.
    + intros _. apply Hal. congruence.
  - by apply mig_waits_inv.
  - destruct Hinv as [Hv Hb Hmi Hk Hal Hp]. destruct Hmi as [(Hm & _)|(Hm & Hw & Hmig)]; [lia|].
    split; vm_simpl; rewrite ?E in *; try done; [right; auto|intros _; by apply Hal].
  - by apply handle_inv.
  - destruct Hinv as [Hv Hb Hmi Hk Hal Hp]. pose proof (Hv i Hi) as [_ Hm]. rewrite E in Hm.
    destruct Hb as [[H0 _]|Hg1]; [lia|].
    assert (generation (migration s) = 0) as Hm0.
    { destruct Hmi as [[? _]|[H1 _]]; [done|]. specialize (Hm H1). done. }
    pose proof (count_move at_migration (pc s) i Saving Hi) as C1.
    pose proof (count_move parked (pc s) i Saving Hi) as C2. rewrite E in C1, C2. cbn in C1, C2.
    split; vm_simpl; try done.
    + intros j Hj. specialize (Hv j Hj). destruct (decide (j = i)) as [->|Hne].
      * rewrite fn_lookup_insert. by rewrite Hm0.
      * by rewrite fn_lookup_insert_ne.
    + by right.
    + left. destruct Hmi as [(_ & Hw & Hle & Hnc)|[? _]]; [|lia]. split; [done|]. split; [lia|done].
    + intros Em. destruct (Hp Em i Hi). congruence.
  - by apply save_inv.
  - by eapply park_inv.
Qed.

Lemma freeze_step_inv s s' : vm_inv s -> vm_step s s' -> vm_inv s'.
Proof.
  intros Hinv H. destruct H as [s s' (i & m & r & Hi & E & ->)|s E|s s' H]; [| |by eapply sync_step_inv].
  - destruct Hinv as [Hv Hb Hmi Hk Hal Hp]. unfold guest_runs. split; vm_simpl; try done. intros j Hj. specialize (Hv j Hj).
    destruct (decide (j = i)) as [->|Hne]; [by rewrite E in Hv |- *|]. by rewrite fn_lookup_insert_ne.
  - destruct Hinv as [Hv Hb Hmi Hk Hal Hp]. destruct Hmi as [(Hm & Hw & Hle & _)|(_ & _ & [?|?])]; [|congruence..].
    unfold freeze. split; vm_simpl; rewrite ?E in *; try done; [|by left|lia].
    intros j Hj. specialize (Hv j Hj). destruct (Hp eq_refl j Hj) as [Ej _]. rewrite Ej in *. split; [|lia].
    split; [apply Hv|lia].
Qed.

Lemma freeze_reachable m r s : 0 < ncores -> rtc vm_step (vm_start m r) s -> vm_inv s.
Proof.
  intros Hn. revert s. apply rtc_ind_r; [by apply freeze_start_inv|]. intros s s' _ Hstep Hinv. by eapply freeze_step_inv.
Qed.

(** ** The last transfer *)

Lemma copying_frozen s : vm_inv s -> mig s = Copying ->
  generation (migration s) = 1 /\ forall i, i < ncores -> pc s i <> Running /\ states s i = Some (regs s i).
Proof.
  intros Hinv E. destruct (inv_migration _ Hinv) as [(_ & _ & _ & ?)|(Hm & _)]; [done|]. split; [done|].
  intros i Hi. destruct (inv_vcpu _ Hinv i Hi) as [H1 H2]. specialize (H2 Hm). destruct (pc s i); try done; by destruct H1 as (_ & _ & ?).
Qed.

Lemma copying_step s s' : vm_inv s -> mig s = Copying -> vm_step s s' ->
  memory s' = memory s /\ regs s' = regs s /\ states s' = states s /\ mig s' = Copying.
Proof.
  intros Hinv E H. destruct (copying_frozen s Hinv E) as [Hm Hall].
  destruct H as [s s' (i & m & r & Hi & Er & ->)|s Ep|s s' H]; [by destruct (Hall i Hi)|congruence|].
  destruct H as [i s Ei Hi|s Ei|g s Ei Hg|i s Hi Ei Hpe|i g s Hi Ei Hg|i s Hi Ei|i g s Hi Ei Hg]; try congruence; try done.
  destruct (saving_generation s i Hinv Hi Ei). lia.
Qed.


(** ** Reaching it *)

Definition weight (p : vcpu_pc) : nat :=
  match p with Running => 4 | AtBarrier _ => 3 | Saving => 2 | AtMigration _ => 1 | Parked _ => 0 end.
Definition mig_weight (p : mig_pc) : nat :=
  match p with Precopying => ncores + 3 | Signalling i => ncores - i + 2 | MigAtBarrier _ => 1 | Copying => 0 end.
Definition rank (s : vm) : nat := total (fun i => weight (pc s i)) + mig_weight (mig s).

Lemma rank_move s i p : i < ncores -> weight p < weight (pc s i) ->
  total (fun j => weight (<[i := p]> (pc s) j)) < total (fun j => weight (pc s j)).
Proof.
  intros Hi Hw. pose proof (total_change (fun j => weight (pc s j)) (fun j => weight (<[i := p]> (pc s) j)) i Hi) as H.
  cbn beta in H. rewrite fn_lookup_insert in H. specialize (H ltac:(intros; by rewrite fn_lookup_insert_ne)). lia.
Qed.

Lemma sync_step_rank s s' : sync_step s s' -> rank s' < rank s.
Proof.
  intros H. unfold rank. destruct H as [i s E Hi|s E|g s E Hg|i s Hi E Hpe|i g s Hi E Hg|i s Hi E|i g s Hi E Hg];
    cbn [signal mig_waits handle_signal save park at_mig at_pc wait_vcpus wait_migration mig pc mig_weight];
    rewrite ?E; cbn [mig_weight]; try lia; apply Nat.add_lt_mono_r, rank_move; rewrite ?E; cbn; done || lia.
Qed.

(** While it is not reached, a thread can go on. *)
Lemma sync_progress s : vm_inv s -> mig s <> Precopying -> mig s <> Copying -> exists s', sync_step s s'.
Proof.
  intros Hinv Hp Hc. destruct (mig s) as [|k|g|] eqn:Em; [done| | |done].
  - pose proof (inv_mig _ Hinv) as Hk. unfold mig_ok in Hk. rewrite Em in Hk.
    destruct (decide (k = ncores)) as [->|]; eexists; [by apply step_mig_waits|apply step_signal; [done|lia]].
  - pose proof (inv_mig _ Hinv) as Hg0. unfold mig_ok in Hg0. rewrite Em in Hg0. subst g.
    destruct (inv_migration _ Hinv) as [(Hm & Hw & Hle & _)|(Hm & _)].
    2:{ eexists. apply (step_copy 0); [done|lia]. }
    unfold mig_here in Hw. rewrite Em in Hw.
    assert (forall j, j < ncores -> pc s j = Running -> exists s', sync_step s s') as Hrun.
    { intros j Hj Ej. eexists. apply (step_handle j); [done|done|]. destruct (inv_vcpu _ Hinv j Hj) as [Hv _].
      rewrite Ej in Hv. apply Hv. unfold signalled. by rewrite Em. }
    destruct (count_find (fun i => at_migration (pc s i))) as (i & Hi & Hf); [lia|]. cbn in Hf.
    destruct (inv_vcpu _ Hinv i Hi) as [Hv _]. destruct (pc s i) as [|g| | |g] eqn:Ei; [by apply (Hrun i)| | |done|lia].
    + subst g. destruct (inv_vcpus _ Hinv) as [(Hg & Hw' & Hlt)|Hg].
      * destruct (count_find (fun i => at_barrier (pc s i))) as (j & Hj & Hfj); [lia|]. cbn in Hfj.
        destruct (inv_vcpu _ Hinv j Hj) as [Hvj _]. destruct (pc s j) eqn:Ej; [by apply (Hrun j)|done|lia|lia|lia].
      * eexists. apply (step_opened i 0); [done|done|lia].
    + eexists. by apply (step_save i).
Qed.

(** Runs, with the number of synchronisation steps. *)
Inductive run : nat -> vm -> vm -> Prop :=
| run_done s : run 0 s s
| run_guest n s s1 s2 : guest_step s s1 -> run n s1 s2 -> run n s s2
| run_sync n s s1 s2 : sync_step s s1 -> run n s1 s2 -> run (S n) s s2.

Lemma sync_step_mig s s' : mig s <> Precopying -> sync_step s s' -> mig s' <> Precopying.
Proof. intros Hm H. by destruct H. Qed.

Lemma run_rank n s s' : vm_inv s -> mig s <> Precopying -> run n s s' ->
  n + rank s' <= rank s /\ vm_inv s' /\ mig s' <> Precopying.
Proof.
  intros Hinv Hm H. induction H as [s|n s s1 s2 Hg _ IH|n s s1 s2 Hs _ IH]; [done| |].
  - destruct (IH (freeze_step_inv _ _ Hinv (step_guest _ _ Hg))) as [Hr H]; destruct Hg as (i & m & r & _ & _ & ->); done.
  - destruct (IH (freeze_step_inv _ _ Hinv (step_sync _ _ Hs)) (sync_step_mig _ _ Hm Hs)) as [Hr H].
    pose proof (sync_step_rank _ _ Hs). split; [lia|done].
Qed.

(** C12. Stopping the guest for a migration ends, provided that no checkpoint is
    taken meanwhile: the threads of one would wait at the same barrier, and can
    hang ([Signals.migration_during_checkpoint_hangs]).  From the end of the pre-copy
    phase on, whatever the guest does in between, the threads take at most
    five steps each and two more, and when none of them can go on the
    migration thread is in the last transfer: nobody is left at a barrier it
    waits for. *)
Theorem migration_freeze_completes m r s n s' :
  0 < ncores -> rtc vm_step (vm_start m r) s -> mig s = Precopying -> run n (freeze s) s' ->
  n <= 5 * ncores + 2 /\ ((forall s'', ~ sync_step s' s'') -> mig s' = Copying).
Proof.
  intros Hn Hr Em Hrun. pose proof (freeze_step_inv _ _ (freeze_reachable m r s Hn Hr) (step_freeze s Em)) as Hinv.
  destruct (run_rank n (freeze s) s' Hinv ltac:(done) Hrun) as (Hrank & Hinv' & Hm'). split.
  - pose proof (total_le (fun i => weight (pc (freeze s) i)) 4 ltac:(intros j; cbn beta; destruct (pc (freeze s) j); cbn; lia)) as Ht.
    unfold rank in Hrank. cbn [mig freeze mig_weight] in *. lia.
  - intros Hstuck. destruct (decide (mig s' = Copying)) as [|Hc]; [done|].
    destruct (sync_progress s' Hinv' Hm' Hc) as [s'' Hs]. by destruct (Hstuck s'').
Qed.
End Freeze.

(** *** Two processors *)

(** The guest still runs on the second processor when the first has its signal. *)
Definition two_cpus : vm (M := nat) (R := nat) := vm_start 7 (fun i => 100 + i).
Definition both_signalled : vm (M := nat) (R := nat) :=
  mig_waits 2 (guest_runs 1 8 111 (handle_signal 2 0 (signal 1 (signal 0 (freeze two_cpus))))).
Definition both_saved : vm (M := nat) (R := nat) :=
  save 2 0 (save 2 1 (at_pc 1 Saving (at_pc 0 Saving (handle_signal 2 1 both_signalled)))).
Definition both_parked : vm (M := nat) (R := nat) := park 2 1 (park 2 0 (at_mig Copying both_saved)).

Lemma both_signalled_run n s : run 2 n both_signalled s -> run 2 (4 + n) (freeze two_cpus) s.
Proof.
  intros H. change (4 + n) with (S (S (S (S n)))).
  eapply run_sync; [by apply (step_signal 2 0); [|lia]|]. eapply run_sync; [by apply (step_signal 2 1); [|lia]|].
  eapply run_sync; [by apply (step_handle 2 0); [lia|..]|].
  eapply run_guest; [exists 1, 8, 111; split; [lia|split; reflexivity]|].
  eapply run_sync; [by apply (step_mig_waits 2)|exact H].
Qed.

Lemma both_parked_run : run 2 8 both_signalled both_parked.
Proof.
  eapply run_sync; [by apply (step_handle 2 1); [lia|..]|].
  eapply run_sync; [apply (step_opened 2 0 0); [lia|reflexivity|cbn; lia]|].
  eapply run_sync; [apply (step_opened 2 1 0); [lia|reflexivity|cbn; lia]|].
  eapply run_sync; [by apply (step_save 2 1); [lia|]|]. eapply run_sync; [by apply (step_save 2 0); [lia|]|].
  eapply run_sync; [apply (step_copy 2 0); [reflexivity|cbn; lia]|].
  eapply run_sync; [apply (step_park 2 0 0); [lia|reflexivity|cbn; lia]|].
  eapply run_sync; [apply (step_park 2 1 0); [lia|reflexivity|cbn; lia]|]. apply run_done.
Qed.

Lemma run_reachable {M R} n k (s s' : vm (M := M) (R := R)) : run n k s s' -> rtc (vm_step n) s s'.
Proof.
  induction 1 as [s|k s s1 s2 H _ IH|k s s1 s2 H _ IH]; [done|eapply rtc_l; [by apply step_guest|done]|].
  eapply rtc_l; [by apply step_sync|done].
Qed.


Lemma migration_freeze_completes_witness : mig both_parked = Copying.
Proof.
  destruct (migration_freeze_completes 2 7 (fun i => 100 + i) two_cpus 12 both_parked) as [_ H].
  - lia.
  - apply rtc_refl.
  - reflexivity.
  - exact (both_signalled_run 8 both_parked both_parked_run).
  - apply H. intros s'' Hs. inversion Hs as [i s E|s E|g s E|i s Hi E|i g s Hi E|i s Hi E|i g s Hi E]; try discriminate E;
      (destruct i as [|[|i]]; [discriminate E..|lia]).
Defined.
