(* ===== verification/Migration.v ===== *)
(** * Migration over TCP/IP

    src/uhyve-migration.c and src/uhyve-migration-tcp.c with the two ends of a
    migration in src/uhyve-x86_64.c: [migration_handler] at the source, and
    [wait_for_incomming_migration] and [load_migration_data] at the destination.
    The connection is a [Socket] of Proxy.v; a host pointer into the guest's
    memory is its offset, as in GuestMem.v, so [convert_to_host_virt]
    (MemRegions.v) does not show here. *)

From S2P Require Import Prelude GuestMem Paging MemRegions CLib Config Hypercall Proxy.

(** ** Data (uhyve-migration.h) *)

Definition MIG_MODE_COMPLETE_DUMP : Z := 0.
Definition MIG_MODE_INCREMENTAL_DUMP : Z := 1.
Definition MIG_TYPE_COLD : Z := 0.
Definition MIG_TYPE_LIVE : Z := 1.

Record mig_params := mkparams { mig_type : Z; mig_mode : Z; use_odp : Z; prefetch : Z }.
Definition default_params : mig_params := mkparams MIG_TYPE_COLD MIG_MODE_COMPLETE_DUMP 0 0.

(** The structs as they are sent; padding is sent as zero and never read. *)
Definition sizeof_mig_params : Z := 12.
Definition encode_params (p : mig_params) : list byte :=
  le_split 4 (mig_type p) ++ le_split 4 (mig_mode p) ++ le_split 1 (use_odp p) ++
  le_split 1 (prefetch p) ++ le_split 2 0.

Definition int_at (n : nat) (bs : list byte) (off : nat) : Z := le_combine (take n (drop off bs)).

Definition decode_params (bs : list byte) : mig_params :=
  mkparams (int_at 4 bs 0) (int_at 4 bs 4) (int_at 1 bs 8) (int_at 1 bs 9).

Definition sizeof_metadata : Z := 40.
Definition bool_Z (b : bool) : Z := if b then 1 else 0.
Definition encode_metadata (d : migration_metadata) : list byte :=
  le_split 4 (m_ncores d) ++ le_split 4 0 ++ le_split 8 (m_guest_size d) ++
  le_split 4 (m_no_checkpoint d) ++ le_split 4 0 ++ le_split 8 (m_elf_entry d) ++
  le_split 1 (bool_Z (m_full_checkpoint d)) ++ le_split 7 0.
Definition decode_metadata (bs : list byte) : migration_metadata :=
  mkmetadata (int_at 4 bs 0) (int_at 8 bs 8) (int_at 4 bs 16) (int_at 8 bs 24)
    (negb (int_at 1 bs 32 =? 0)).

(** The size of a chunk comes first. *)
Definition sizeof_chunk : Z := 16.
Definition encode_chunk (c : mem_chunk) : list byte := le_split 8 (size c) ++ le_split 8 (ptr c).
Definition decode_chunk (bs : list byte) : mem_chunk := mkchunk (int_at 8 bs 8) (int_at 8 bs 0).
Fixpoint decode_chunks (n : nat) (bs : list byte) : list mem_chunk :=
  match n with O => [] | S n => decode_chunk (take 16 bs) :: decode_chunks n (drop 16 bs) end.

(** ** Sending and receiving *)

(** Bytes stored at an offset of a buffer. *)
Definition put_buffer (buf : list byte) (off : Z) (data : list byte) : outcome (list byte) :=
  if off + Z.of_nat (length data) <=? Z.of_nat (length buf)
  then OK (take (Z.to_nat off) buf ++ data ++ drop (Z.to_nat off + length data) buf)
  else Undefined.
(** ... and behind a pointer into guest memory. *)
Definition put_guest (addr : Z) (m : gmem) (off : Z) (data : list byte) : outcome gmem :=
  store m (addr + off) data.

Abbreviation mappings := MemRegions.mem_mappings.

Section Channel.
Context {S : Type} (sock : Socket S) (fuel : nat).

(** The count is a [size_t]; an error of [recv] or [send] is added to it. *)
Definition recv_data {B} (put : B -> Z -> list byte -> outcome B) (length : Z) (buffer : B) (s : S)
    : outcome (Z * B * S) :=
  while fuel (fun '(bytes_received, buffer, s) =>
    if bytes_received <? length then
      let '(ret, data, s) := sock_read sock s (u64 (length - bytes_received)) in
      buffer ← put buffer bytes_received data;
      OK (inl (u64 (bytes_received + ret), buffer, s))
    else OK (inr (s32 bytes_received, buffer, s))) (0, buffer, s).

Definition send_data (data : list byte) (s : S) : outcome (Z * S) :=
  while fuel (fun '(bytes_sent, s) =>
    if bytes_sent <? Z.of_nat (length data) then
      let '(ret, s) := sock_write sock s (drop (Z.to_nat bytes_sent) data) in
      OK (inl (u64 (bytes_sent + ret), s))
    else OK (inr (s32 bytes_sent, s))) (0, s).

Definition recv_bytes (n : Z) (s : S) : outcome (list byte * S) :=
  '(_, buf, s) ← recv_data put_buffer n (replicate (Z.to_nat n) NUL) s; OK (buf, s).
Definition send_bytes (data : list byte) (s : S) : outcome S :=
  '(_, s) ← send_data data s; OK s.

(** *** The source *)

Definition send_chunks (mm : mappings) (s : S) : outcome S :=
  s ← send_bytes (le_split 8 (count mm)) s;
  cs ← counted_chunks mm;
  send_bytes (concat (encode_chunk <$> cs)) s.

(** [guest_physical_memory] for a live migration or if there is nothing else. *)
Definition send_mem_regions (p : mig_params) (guest_physical_memory mem_mappings : mappings)
    (s : S) : outcome S :=
  if (mig_type p =? MIG_TYPE_LIVE) || (count mem_mappings =? 0)
  then send_chunks guest_physical_memory s
  else send_chunks mem_mappings s.

(** What [precopy_phase] marks as [mappings_to_be_transferred]. *)
Definition precopy_phase (p : mig_params) (guest_mem mem_mappings : mappings) : mappings :=
  if mig_type p =? MIG_TYPE_LIVE then guest_mem else mem_mappings.

Fixpoint send_memory (m : gmem) (cs : list mem_chunk) (s : S) : outcome S :=
  match cs with
  | [] => OK s
  | c :: cs =>
      data ← load m (ptr c) (Z.to_nat (size c));
      s ← send_bytes data s;
      send_memory m cs s
  end.

Definition stop_and_copy_phase (p : mig_params) (m : gmem) (to_be_transferred : mappings) (s : S) : outcome S :=
  if (mig_mode p =? MIG_MODE_INCREMENTAL_DUMP) || (mig_mode p =? MIG_MODE_COMPLETE_DUMP)
  then cs ← counted_chunks to_be_transferred; send_memory m cs s
  else Exited 1.

(** The size the destination is told. *)
Definition sent_guest_size (guest_size : Z) : Z :=
  if KVM_32BIT_GAP_START <=? u64 (guest_size - KVM_32BIT_GAP_SIZE)
  then u64 (guest_size - KVM_32BIT_GAP_SIZE) else guest_size.

(** [connect_to_server] once connected, and [migration_handler] from there on;
    [mem_mappings] is what the guest's free list gave, [cpu_states] and [clock]
    are the states of the stopped processors. *)
Definition migration_handler (p : mig_params) (c : config) (m : gmem) (mem_mappings : mappings)
    (cpu_states : list byte) (clock : option (list byte)) (s : S) : outcome S :=
  s ← send_bytes (encode_params p) s;
  s ← send_bytes (encode_metadata (mkmetadata (ncores c) (sent_guest_size (guest_size c)) 0
                                     (elf_entry c) (full_checkpoint c))) s;
  let guest_physical_memory := determine_guest_physical_memory_regions (guest_size c) in
  s ← send_mem_regions p guest_physical_memory mem_mappings s;
  let mappings_to_be_transferred := precopy_phase p guest_physical_memory mem_mappings in
  s ← stop_and_copy_phase p m mappings_to_be_transferred s;
  s ← send_bytes cpu_states s;
  match clock with Some clock => send_bytes clock s | None => OK s end.

(** *** The destination *)

(** [wait_for_client] and [wait_for_incomming_migration] *)
Definition wait_for_incomming_migration (s : S) : outcome (mig_params * migration_metadata * S) :=
  '(p, s) ← recv_bytes sizeof_mig_params s;
  '(d, s) ← recv_bytes sizeof_metadata s;
  OK (decode_params p, decode_metadata d, s).

Definition recv_mem_regions (s : S) : outcome (list mem_chunk * S) :=
  '(n, s) ← recv_bytes 8 s;
  let count := le_combine n in
  '(cs, s) ← recv_bytes (u64 (count * sizeof_chunk)) s;
  OK (decode_chunks (Z.to_nat count) cs, s).

Fixpoint recv_guest_mem (cs : list mem_chunk) (m : gmem) (s : S) : outcome (gmem * S) :=
  match cs with
  | [] => OK (m, s)
  | c :: cs =>
      '(_, m, s) ← recv_data (put_guest (ptr c)) (size c) m s;
      recv_guest_mem cs m s
  end.

(** Memory, the states of the processors and the clock. *)
Definition load_migration_data (sizeof_vcpu_state ncores : Z) (cap_adjust_clock_stable : bool)
    (sizeof_clock : Z) (m : gmem) (s : S) : outcome (gmem * list byte * option (list byte) * S) :=
  '(cs, s) ← recv_mem_regions s;
  '(m, s) ← recv_guest_mem cs m s;
  '(states, s) ← recv_bytes (u64 (sizeof_vcpu_state * ncores)) s;
  if cap_adjust_clock_stable then
    '(clock, s) ← recv_bytes sizeof_clock s; OK (m, states, Some clock, s)
  else OK (m, states, None, s).
End Channel.

(** ** The structs survive the transfer *)

Lemma int_at_skip n a bs off :
  (length a <= off)%nat -> int_at n (a ++ bs) off = int_at n bs (off - length a).
Proof. intros. unfold int_at. by rewrite drop_app_ge. Qed.

Lemma int_at_here n v bs : int_at n (le_split n v ++ bs) 0 = v mod 2 ^ (Z.of_nat n * 8).
Proof.
  unfold int_at. rewrite drop_0, take_app_length' by (by rewrite length_le_split). apply le_combine_split.
Qed.

Lemma int_at_end n v : int_at n (le_split n v) 0 = v mod 2 ^ (Z.of_nat n * 8).
Proof. rewrite <- (app_nil_r (le_split n v)). apply int_at_here. Qed.

Ltac read_field :=
  repeat (rewrite int_at_skip by (rewrite length_le_split; lia); rewrite length_le_split; cbn [Nat.sub]);
  rewrite ?int_at_here, ?int_at_end; apply Z.mod_small; lia.

Definition params_ok (p : mig_params) : Prop :=
  is_u32 (mig_type p) /\ is_u32 (mig_mode p) /\ 0 <= use_odp p < 256 /\ 0 <= prefetch p < 256.

Lemma decode_encode_params p : params_ok p -> decode_params (encode_params p) = p.
Proof.
  unfold params_ok, is_u32. destruct p as [t m o f]. cbn [mig_type mig_mode use_odp prefetch].
  intros (Ht & Hm & Ho & Hf). unfold decode_params, encode_params. cbn [mig_type mig_mode use_odp prefetch].
  f_equal; read_field.
Qed.

Definition metadata_ok (d : migration_metadata) : Prop :=
  is_u32 (m_ncores d) /\ is_u64 (m_guest_size d) /\ is_u32 (m_no_checkpoint d) /\ is_u64 (m_elf_entry d).

Lemma decode_encode_metadata d : metadata_ok d -> decode_metadata (encode_metadata d) = d.
Proof.
  unfold metadata_ok, is_u32, is_u64. destruct d as [n g k e f].
  cbn [m_ncores m_guest_size m_no_checkpoint m_elf_entry].
  intros (Hn & Hg & Hk & He). unfold decode_metadata, encode_metadata.
  cbn [m_ncores m_guest_size m_no_checkpoint m_elf_entry m_full_checkpoint].
  f_equal; try read_field. assert (0 <= bool_Z f < 256) as Hb by (destruct f; cbn; lia).
  replace (int_at 1 _ 32) with (bool_Z f) by (symmetry; read_field). by destruct f.
Qed.

Definition chunk_word_ok (c : mem_chunk) : Prop := is_u64 (ptr c) /\ is_u64 (size c).

Lemma length_encode_chunk c : length (encode_chunk c) = 16%nat.
Proof. unfold encode_chunk. by rewrite length_app, !length_le_split. Qed.

Lemma length_encode_chunks cs : length (concat (encode_chunk <$> cs)) = (16 * length cs)%nat.
Proof.
  induction cs as [|c cs IH]; [done|]. rewrite fmap_cons. cbn [concat length].
  rewrite length_app, length_encode_chunk, IH. lia.
Qed.

Lemma decode_encode_chunks cs :
  Forall chunk_word_ok cs -> decode_chunks (length cs) (concat (encode_chunk <$> cs)) = cs.
Proof.
  induction 1 as [|c cs [Hp Hs] Hcs IH]; [done|]. rewrite fmap_cons. cbn [concat length decode_chunks].
  rewrite take_app_length', drop_app_length', IH by (by rewrite length_encode_chunk).
  f_equal. destruct c as [p z]. unfold is_u64 in *. cbn [ptr size] in *.
  unfold decode_chunk, encode_chunk. cbn [ptr size]. f_equal; read_field.
Qed.

(** ** Sending and receiving over a working connection *)

Section Transfer.
Context {S : Type} (sock : Socket S) (R : S -> list byte -> list byte -> Prop).
Context (Hsock : connection sock R) (fuel : nat).

(** [filled n] is the destination after [n] bytes. *)
Lemma recv_data_ok {B} (put : B -> Z -> list byte -> outcome B) (filled : nat -> B) d rest sent s :
  (forall n data rest', d = take n d ++ data ++ rest' -> (n <= length d)%nat ->
     put (filled n) (Z.of_nat n) data = OK (filled (n + length data)%nat)) ->
  R s (d ++ rest) sent -> Z.of_nat (length d) < 2 ^ 64 -> (length d < fuel)%nat ->
  exists r s', recv_data sock fuel put (Z.of_nat (length d)) (filled 0%nat) s =
      OK (r, filled (length d), s') /\ R s' rest sent.
Proof.
  intros Hput HR Hlen Hf. unfold recv_data.
  match goal with |- context [while _ ?b _] => set (body := b) end.
  destruct (while_total body
    (fun '(n, b, s) => exists k, n = Z.of_nat k /\ b = filled k /\ (k <= length d)%nat /\
       R s (drop k d ++ rest) sent)
    (fun r => r.1.2 = filled (length d) /\ R r.2 rest sent)
    (fun '(n, _, _) => length d - Z.to_nat n)%nat) with (fuel := fuel) (s := (0, filled 0%nat, s))
    as ([[r b] s'] & E & H1 & H2).
  - intros [[n b] s1] (k & -> & -> & Hk & HR1). unfold body.
    pose proof (length_drop d k) as Hd2.
    destruct (Z.ltb_spec (Z.of_nat k) (Z.of_nat (length d))).
    + rewrite u64_small by (unfold is_u64; lia).
      destruct (read_delivers sock R Hsock s1 (drop k d ++ rest) sent (Z.of_nat (length d) - Z.of_nat k) HR1)
        as (data & rest' & s2 & -> & Hne & Hle & Hp & HR2);
        [lia|intros E; apply app_nil in E as [E _]; rewrite E in Hd2; cbn in Hd2; lia|].
      assert (0 < length data)%nat by (destruct data; [done|cbn; lia]).
      assert (drop k d = data ++ drop (k + length data) d) as E2.
      { rewrite <- drop_drop. rewrite <- (take_drop (length data) (drop k d)) at 1. f_equal.
        apply (f_equal (take (length data))) in Hp. rewrite take_app_le in Hp by lia.
        by rewrite take_app_length in Hp. }
      rewrite (Hput k data (drop (k + length data) d)) by (done || (rewrite <- E2; by rewrite take_drop)).
      rewrite bind_OK. eexists. split; [reflexivity|].
      rewrite u64_small by (unfold is_u64; lia). split; [|lia].
      exists (k + length data)%nat. split; [lia|]. split; [done|]. split; [lia|].
      rewrite E2, <- app_assoc in Hp. apply app_inv_head in Hp. by rewrite Hp.
    + assert (k = length d) as -> by lia. eexists. split; [reflexivity|]. by rewrite drop_all in HR1.
  - exists 0%nat. split; [done|]. split; [done|]. split; [lia|]. done.
  - cbn. lia.
  - cbn in *. subst b. eauto.
Qed.

Lemma send_data_ok data pending sent s :
  R s pending sent -> Z.of_nat (length data) < 2 ^ 64 -> (length data < fuel)%nat ->
  exists r s', send_data sock fuel data s = OK (r, s') /\ R s' pending (sent ++ data).
Proof.
  intros HR Hlen Hf. unfold send_data.
  match goal with |- context [while _ ?b _] => set (body := b) end.
  destruct (while_total body
    (fun '(j, s) => 0 <= j <= Z.of_nat (length data) /\ R s pending (sent ++ take (Z.to_nat j) data))
    (fun r => R r.2 pending (sent ++ data))
    (fun '(j, _) => length data - Z.to_nat j)%nat) with (fuel := fuel) (s := (0, s))
    as ([r s'] & E & H1).
  - intros [j s1] [Hj HR1]. unfold body. destruct (Z.ltb_spec j (Z.of_nat (length data))).
    + assert (length (drop (Z.to_nat j) data) = length data - Z.to_nat j)%nat as Hl by apply length_drop.
      destruct (write_sends sock R Hsock s1 pending _ (drop (Z.to_nat j) data) HR1)
        as (k & s2 & -> & Hk & HR2); [intros E; rewrite E in Hl; cbn in Hl; lia|].
      rewrite u64_small by (unfold is_u64; lia).
      eexists. split; [reflexivity|]. split; [split; [lia|]|lia].
      rewrite <- app_assoc, take_take_drop in HR2.
      by replace (Z.to_nat (j + Z.of_nat k)) with (Z.to_nat j + k)%nat by lia.
    + eexists. split; [reflexivity|]. cbn. by rewrite take_ge in HR1 by lia.
  - split; [lia|]. cbn. by rewrite app_nil_r.
  - cbn. lia.
  - eauto.
Qed.

Lemma send_bytes_ok data pending sent s :
  R s pending sent -> Z.of_nat (length data) < 2 ^ 64 -> (length data < fuel)%nat ->
  exists s', send_bytes sock fuel data s = OK s' /\ R s' pending (sent ++ data).
Proof.
  intros HR Hl Hf. destruct (send_data_ok data pending sent s HR Hl Hf) as (r & s' & E & HR').
  exists s'. unfold send_bytes. by rewrite E.
Qed.

Lemma recv_bytes_ok d rest sent s n :
  R s (d ++ rest) sent -> n = Z.of_nat (length d) -> n < 2 ^ 64 -> (length d < fuel)%nat ->
  exists s', recv_bytes sock fuel n s = OK (d, s') /\ R s' rest sent.
Proof.
  intros HR -> Hl Hf. unfold recv_bytes. rewrite Nat2Z.id.
  destruct (recv_data_ok put_buffer (fun k => take k d ++ replicate (length d - k) NUL) d rest sent s)
    as (r & s' & E & HR'); [|done|done|done|].
  - intros k data rest' Hd Hk. unfold put_buffer.
    assert (length d = k + length data + length rest')%nat as Hlen.
    { apply (f_equal length) in Hd. rewrite !length_app, length_take in Hd. lia. }
    rewrite length_app, length_take, length_replicate.
    destruct (Z.leb_spec (Z.of_nat k + Z.of_nat (length data))
      (Z.of_nat (Nat.min k (length d) + (length d - k)))); [|lia].
    f_equal. rewrite Nat2Z.id. rewrite take_app_length' by (rewrite length_take; lia).
    rewrite drop_app_ge by (rewrite length_take; lia). rewrite drop_replicate, length_take.
    rewrite app_assoc. f_equal.
    + rewrite Hd at 2. rewrite app_assoc, take_app_length'; [done|]. rewrite length_app, length_take. lia.
    + f_equal. lia.
  - change (take 0 d ++ replicate (length d - 0) NUL) with (replicate (length d - 0) NUL) in E.
    rewrite Nat.sub_0_r in E. rewrite E, bind_OK. exists s'.
    by rewrite firstn_all, Nat.sub_diag, app_nil_r.
Qed.

(** Into guest memory. *)
Lemma pokes_app b a x y : pokes b a (x ++ y) = pokes (pokes b a x) (a + Z.of_nat (length x)) y.
Proof.
  revert b a. induction x as [|c x IH]; intros b a; cbn [app pokes length].
  - by rewrite Z.add_0_r.
  - rewrite IH. f_equal. lia.
Qed.

Lemma poken_app m a x y : poken m a (x ++ y) = poken (poken m a x) (a + Z.of_nat (length x)) y.
Proof. unfold poken. cbn. by rewrite pokes_app. Qed.

Lemma recv_guest_ok d rest sent s m addr :
  R s (d ++ rest) sent -> 0 <= addr -> addr + Z.of_nat (length d) <= msize m -> msize m < 2 ^ 64 ->
  (length d < fuel)%nat ->
  exists r s', recv_data sock fuel (put_guest addr) (Z.of_nat (length d)) m s =
    OK (r, poken m addr d, s') /\ R s' rest sent.
Proof.
  intros HR Ha Hm Hs Hf.
  destruct (recv_data_ok (put_guest addr) (fun k => poken m addr (take k d)) d rest sent s)
    as (r & s' & E & HR'); [|done|lia|done|].
  - intros k data rest' Hd Hk. unfold put_guest.
    assert (length d = k + length data + length rest')%nat as Hlen.
    { apply (f_equal length) in Hd. rewrite !length_app, length_take in Hd. lia. }
    rewrite store_ok by (cbn [msize poken]; lia). f_equal.
    assert (take (k + length data) d = take k d ++ data) as ->.
    { rewrite Hd at 1. rewrite app_assoc, take_app_length'; [done|]. rewrite length_app, length_take. lia. }
    rewrite poken_app. do 2 f_equal. rewrite length_take. lia.
  - exists r, s'. rewrite firstn_all in E.
    assert (poken m addr (take 0 d) = m) as E0 by (by destruct m). by rewrite E0 in E.
Qed.
End Transfer.

(** ** The whole migration *)

(** The memory of the chunks, and everything the source sends. *)
Definition chunk_bytes (m : gmem) (c : mem_chunk) : list byte := peekn m (ptr c) (Z.to_nat (size c)).
Definition memory_of (m : gmem) (cs : list mem_chunk) : list byte := concat (chunk_bytes m <$> cs).

Definition source_metadata (c : config) : migration_metadata :=
  mkmetadata (ncores c) (sent_guest_size (guest_size c)) 0 (elf_entry c) (full_checkpoint c).

Definition migration_stream (p : mig_params) (c : config) (m : gmem) (cs : list mem_chunk)
    (cpu_states : list byte) (clock : option (list byte)) : list byte :=
  encode_params p ++ encode_metadata (source_metadata c) ++
  le_split 8 (Z.of_nat (length cs)) ++ concat (encode_chunk <$> cs) ++ memory_of m cs ++
  cpu_states ++ default [] clock.

Definition chunk_in (m : gmem) (c : mem_chunk) : Prop :=
  0 <= ptr c /\ 0 <= size c /\ ptr c + size c <= msize m.

Definition in_some_chunk (cs : list mem_chunk) (x : Z) : bool :=
  existsb (fun c => (ptr c <=? x) && (x <? ptr c + size c)) cs.

(** The chunks that are announced and sent. *)
Definition migrated (p : mig_params) (c : config) (mem_mappings : MemRegions.mem_mappings)
    (cs : list mem_chunk) : Prop :=
  let mm := precopy_phase p (determine_guest_physical_memory_regions (guest_size c)) mem_mappings in
  (mig_type p = MIG_TYPE_LIVE \/ count mem_mappings <> 0) /\
  counted_chunks mm = OK cs /\ count mm = Z.of_nat (length cs).

Section Source.
Context {S : Type} (sock : Socket S) (R : S -> list byte -> list byte -> Prop).
Context (Hsock : connection sock R) (fuel : nat).
Context (m : gmem) (Hm : msize m < 2 ^ 64).

(** Long enough for every single transfer. *)
Definition fuel_for (cs : list mem_chunk) : Prop :=
  (40 < fuel)%nat /\ (16 * length cs < fuel)%nat /\ Z.of_nat (16 * length cs) < 2 ^ 64 /\
  Forall (fun c => Z.to_nat (size c) < fuel)%nat cs.

Lemma send_memory_ok cs : forall pending sent s,
  R s pending sent -> Forall (chunk_in m) cs -> Forall (fun c => Z.to_nat (size c) < fuel)%nat cs ->
  exists s', send_memory sock fuel m cs s = OK s' /\ R s' pending (sent ++ memory_of m cs).
Proof.
  induction cs as [|c cs IH]; intros pending sent s HR Hin Hf.
  - exists s. unfold memory_of. cbn. by rewrite app_nil_r.
  - apply Forall_cons in Hin as [(Hp & Hs & He) Hin]. apply Forall_cons in Hf as [Hfc Hf].
    cbn [send_memory]. rewrite load_ok by lia. rewrite bind_OK.
    destruct (send_bytes_ok sock R Hsock fuel (chunk_bytes m c) pending sent s HR) as (s1 & E1 & HR1);
      [unfold chunk_bytes; rewrite length_peekn; lia..|].
    unfold chunk_bytes in E1. rewrite E1, bind_OK.
    destruct (IH pending _ s1 HR1 Hin Hf) as (s2 & E2 & HR2). exists s2. split; [done|].
    unfold memory_of in *. rewrite fmap_cons. cbn [concat]. by rewrite app_assoc.
Qed.

Lemma send_chunks_ok mm cs pending sent s :
  R s pending sent -> counted_chunks mm = OK cs -> count mm = Z.of_nat (length cs) -> fuel_for cs ->
  exists s', send_chunks sock fuel mm s = OK s' /\
    R s' pending (sent ++ le_split 8 (Z.of_nat (length cs)) ++ concat (encode_chunk <$> cs)).
Proof.
  intros HR Hcs Hn (H40 & H16 & Hl & _). unfold send_chunks. rewrite Hn.
  destruct (send_bytes_ok sock R Hsock fuel (le_split 8 (Z.of_nat (length cs))) pending sent s HR)
    as (s1 & -> & HR1); [rewrite length_le_split; lia..|]. rewrite bind_OK, Hcs, bind_OK.
  destruct (send_bytes_ok sock R Hsock fuel (concat (encode_chunk <$> cs)) pending _ s1 HR1)
    as (s2 & -> & HR2); [rewrite length_encode_chunks; lia..|].
  exists s2. by rewrite app_assoc.
Qed.

Lemma migration_handler_ok p c mem_mappings cs cpu_states clock pending sent s :
  R s pending sent -> mig_mode p = MIG_MODE_COMPLETE_DUMP \/ mig_mode p = MIG_MODE_INCREMENTAL_DUMP ->
  migrated p c mem_mappings cs -> Forall (chunk_in m) cs -> fuel_for cs ->
  (length cpu_states < fuel)%nat -> Z.of_nat (length cpu_states) < 2 ^ 64 ->
  (length (default [] clock) < fuel)%nat -> Z.of_nat (length (default [] clock)) < 2 ^ 64 ->
  exists s', migration_handler sock fuel p c m mem_mappings cpu_states clock s = OK s' /\
    R s' pending (sent ++ migration_stream p c m cs cpu_states clock).
Proof.
  intros HR Hmode (Hty & Hcs & Hn) Hin Hfuel Hc1 Hc2 Hk1 Hk2. unfold migration_handler.
  pose proof Hfuel as (H40 & _ & _ & Hfs).
  destruct (send_bytes_ok sock R Hsock fuel (encode_params p) pending sent s HR) as (s1 & -> & HR1);
    [unfold encode_params; rewrite !length_app, !length_le_split; lia..|]. rewrite bind_OK.
  fold (source_metadata c).
  destruct (send_bytes_ok sock R Hsock fuel (encode_metadata (source_metadata c)) pending _ s1 HR1)
    as (s2 & -> & HR2);
    [unfold encode_metadata; rewrite !length_app, !length_le_split; lia..|]. rewrite bind_OK.
  set (g := determine_guest_physical_memory_regions (guest_size c)) in *.
  assert (send_mem_regions sock fuel p g mem_mappings s2 = send_chunks sock fuel (precopy_phase p g mem_mappings) s2)
    as ->.
  { unfold send_mem_regions, precopy_phase. destruct (Z.eqb_spec (mig_type p) MIG_TYPE_LIVE); [done|].
    cbn [orb]. destruct (Z.eqb_spec (count mem_mappings) 0); [|done]. destruct Hty; done. }
  destruct (send_chunks_ok _ cs pending _ s2 HR2 Hcs Hn Hfuel) as (s3 & -> & HR3). rewrite bind_OK. cbn zeta.
  unfold stop_and_copy_phase. 
  assert ((mig_mode p =? MIG_MODE_INCREMENTAL_DUMP) || (mig_mode p =? MIG_MODE_COMPLETE_DUMP) = true) as ->
    by (destruct Hmode as [->| ->]; done).
  rewrite Hcs, bind_OK.
  destruct (send_memory_ok cs pending _ s3 HR3 Hin Hfs) as (s4 & -> & HR4). rewrite bind_OK.
  destruct (send_bytes_ok sock R Hsock fuel cpu_states pending _ s4 HR4) as (s5 & -> & HR5); [done..|].
  rewrite bind_OK. unfold migration_stream.
  destruct clock as [clock|]; cbn [default] in *.
  - destruct (send_bytes_ok sock R Hsock fuel clock pending _ s5 HR5) as (s6 & -> & HR6); [done..|].
    exists s6. split; [done|]. by rewrite <- !app_assoc in HR6.
  - exists s5. split; [done|]. rewrite <- !app_assoc in HR5. cbn. by rewrite app_nil_r.
Qed.
End Source.

Section Destination.
Context {S : Type} (sock : Socket S) (R : S -> list byte -> list byte -> Prop).
Context (Hsock : connection sock R) (fuel : nat).
Context (m : gmem) (Hm : msize m < 2 ^ 64).

Lemma recv_guest_mem_ok cs : forall rest sent s m0,
  R s (memory_of m cs ++ rest) sent -> Forall (chunk_in m) cs ->
  Forall (fun c => Z.to_nat (size c) < fuel)%nat cs -> msize m0 = msize m ->
  exists m1 s', recv_guest_mem sock fuel cs m0 s = OK (m1, s') /\ R s' rest sent /\
    msize m1 = msize m /\ forall x, peek m1 x = if in_some_chunk cs x then peek m x else peek m0 x.
Proof.
  induction cs as [|c cs IH]; intros rest sent s m0 HR Hin Hf Hs; [by exists m0, s|].
  apply Forall_cons in Hin as [(Hp & Hz & He) Hin]. apply Forall_cons in Hf as [Hfc Hf].
  unfold memory_of in HR. rewrite fmap_cons in HR. cbn [concat] in HR. rewrite <- app_assoc in HR.
  cbn [recv_guest_mem].
  assert (size c = Z.of_nat (length (chunk_bytes m c))) as Hlen
    by (unfold chunk_bytes; rewrite length_peekn; lia).
  destruct (recv_guest_ok sock R Hsock fuel (chunk_bytes m c) _ sent s m0 (ptr c) HR)
    as (r & s1 & E & HR1); [done|lia|lia|unfold chunk_bytes; rewrite length_peekn; lia|].
  rewrite Hlen, E, bind_OK. cbn match.
  destruct (IH rest sent s1 (poken m0 (ptr c) (chunk_bytes m c)) HR1 Hin Hf Hs) as (m1 & s' & E1 & HR2 & Hs1 & Hpk).
  exists m1, s'. split; [done|]. split; [done|]. split; [done|]. intros x. rewrite Hpk.
  cbn [in_some_chunk existsb]. fold (in_some_chunk cs x). rewrite Hlen.
  unfold chunk_bytes. rewrite length_peekn.
  destruct (in_some_chunk cs x); [by rewrite orb_true_r|]. rewrite orb_false_r.
  rewrite peek_poken, length_peekn.
  destruct (Z.leb_spec (ptr c) x), (Z.ltb_spec x (ptr c + Z.of_nat (Z.to_nat (size c)))); try done.
  cbn [andb]. rewrite lookup_peekn by lia. cbn. f_equal. lia.
Qed.
End Destination.

Lemma length_encode_params p : length (encode_params p) = 12%nat.
Proof. unfold encode_params. by rewrite !length_app, !length_le_split. Qed.
Lemma length_encode_metadata d : length (encode_metadata d) = 40%nat.
Proof. unfold encode_metadata. by rewrite !length_app, !length_le_split. Qed.

Lemma chunk_in_word m c : chunk_in m c -> msize m < 2 ^ 64 -> chunk_word_ok c.
Proof. unfold chunk_in, chunk_word_ok, is_u64. lia. Qed.

Lemma source_metadata_ok c :
  is_u32 (ncores c) -> is_u64 (guest_size c) -> is_u64 (elf_entry c) -> metadata_ok (source_metadata c).
Proof.
  intros Hn Hg He. unfold metadata_ok, source_metadata. cbn.
  split; [done|]. split; [|split; [done|done]].
  unfold sent_guest_size. destruct (_ <=? _); [apply u64_range|done].
Qed.

(** The destination, reading what the source has sent. *)
Lemma destination_ok {S} (sock : Socket S) R fuel p c m cs cpu_states clock rest sent s m0
    sizeof_vcpu_state cap sizeof_clock :
  connection sock R -> msize m < 2 ^ 64 -> params_ok p ->
  is_u32 (ncores c) -> is_u64 (guest_size c) -> is_u64 (elf_entry c) ->
  Forall (chunk_in m) cs -> fuel_for fuel cs ->
  Z.of_nat (length cpu_states) = sizeof_vcpu_state * ncores c ->
  Z.of_nat (length cpu_states) < 2 ^ 64 -> (length cpu_states < fuel)%nat ->
  match clock with
  | Some k => cap = true /\ Z.of_nat (length k) = sizeof_clock /\ sizeof_clock < 2 ^ 64 /\ (length k < fuel)%nat
  | None => cap = false end ->
  R s (migration_stream p c m cs cpu_states clock ++ rest) sent -> msize m0 = msize m ->
  exists s1 m1 s2,
    wait_for_incomming_migration sock fuel s = OK (p, source_metadata c, s1) /\
    load_migration_data sock fuel sizeof_vcpu_state (ncores c) cap sizeof_clock m0 s1 =
      OK (m1, cpu_states, clock, s2) /\
    R s2 rest sent /\ forall x, peek m1 x = if in_some_chunk cs x then peek m x else peek m0 x.
Proof.
  intros Hsock Hm Hp Hn Hg He Hin Hfuel Hcpu Hc1 Hc2 Hclk HR Hs.
  pose proof Hfuel as (H40 & H16 & H64 & Hfs).
  unfold migration_stream in HR. rewrite <- !app_assoc in HR. unfold wait_for_incomming_migration.
  destruct (recv_bytes_ok sock R Hsock fuel (encode_params p) _ sent s sizeof_mig_params HR) as (s1 & -> & HR1);
    [by rewrite length_encode_params|done|rewrite length_encode_params; lia|]. rewrite bind_OK. cbn match.
  destruct (recv_bytes_ok sock R Hsock fuel (encode_metadata (source_metadata c)) _ sent s1 sizeof_metadata HR1)
    as (s2 & -> & HR2); [by rewrite length_encode_metadata|done|rewrite length_encode_metadata; lia|]. rewrite bind_OK. cbn match.
  rewrite decode_encode_params by done. rewrite decode_encode_metadata by (by apply source_metadata_ok).
  unfold load_migration_data, recv_mem_regions.
  destruct (recv_bytes_ok sock R Hsock fuel (le_split 8 (Z.of_nat (length cs))) _ sent s2 8 HR2)
    as (s3 & E3 & HR3); [by rewrite length_le_split|done|rewrite length_le_split; lia|].
  assert (le_combine (le_split 8 (Z.of_nat (length cs))) = Z.of_nat (length cs)) as Hlc.
  { rewrite le_combine_split. change (2 ^ (Z.of_nat 8 * 8)) with (2 ^ 64). apply Z.mod_small. lia. }
  destruct (recv_bytes_ok sock R Hsock fuel (concat (encode_chunk <$> cs)) _ sent s3
    (u64 (Z.of_nat (length cs) * sizeof_chunk)) HR3) as (s4 & E4 & HR4);
    [rewrite length_encode_chunks; unfold sizeof_chunk; rewrite u64_small by (unfold is_u64; lia); lia
    |apply u64_range|rewrite length_encode_chunks; lia|].
  destruct (recv_guest_mem_ok sock R Hsock fuel m Hm cs _ sent s4 m0 HR4 Hin Hfs Hs)
    as (m1 & s5 & E5 & HR5 & _ & Hpk).
  destruct (recv_bytes_ok sock R Hsock fuel cpu_states _ sent s5 (u64 (sizeof_vcpu_state * ncores c)) HR5)
    as (s6 & E6 & HR6); [rewrite <- Hcpu; by rewrite u64_small by (unfold is_u64; lia)|apply u64_range|done|].
  assert (Forall chunk_word_ok cs) as Hw.
  { eapply Forall_impl; [exact Hin|]. intros c0 H. by apply (chunk_in_word m). }
  exists s2. destruct clock as [k|]; cbn [default] in HR6.
  - destruct Hclk as (-> & Hk1 & Hk2 & Hk3).
    destruct (recv_bytes_ok sock R Hsock fuel k rest sent s6 sizeof_clock HR6) as (s7 & E7 & HR7); [done..|].
    exists m1, s7. split; [done|]. split; [|done].
    rewrite E3, bind_OK. cbn match zeta. rewrite Hlc, E4, !bind_OK, Nat2Z.id, decode_encode_chunks by done.
    cbn match. rewrite E5, bind_OK, E6, bind_OK, E7, bind_OK. done.
  - subst cap. exists m1, s6. split; [done|]. split; [|done].
    rewrite E3, bind_OK. cbn match zeta. rewrite Hlc, E4, !bind_OK, Nat2Z.id, decode_encode_chunks by done.
    cbn match. rewrite E5, bind_OK, E6, bind_OK. done.
Qed.

(** C3. A migration moves the guest.  Over connections that cut the stream in
    any way, the source sends everything and ends, and the destination, reading
    that stream, learns the same parameters, cores, entry point and checkpoint
    mode, gets every byte of every announced memory chunk into the same place
    with all other memory untouched, and the states of the processors and the
    clock as they were, and leaves what follows in the stream alone.  The chunks
    are those of the whole guest for a live migration and the guest's
    allocations otherwise, provided there are any. *)
Theorem migration_transfers_guest {S1 S2} (sock1 : Socket S1) R1 (sock2 : Socket S2) R2
    fuel p c m mem_mappings cs cpu_states clock sizeof_vcpu_state cap sizeof_clock s1 :
  connection sock1 R1 -> connection sock2 R2 -> msize m < 2 ^ 64 ->
  params_ok p -> mig_mode p = MIG_MODE_COMPLETE_DUMP \/ mig_mode p = MIG_MODE_INCREMENTAL_DUMP ->
  is_u32 (ncores c) -> is_u64 (guest_size c) -> is_u64 (elf_entry c) ->
  migrated p c mem_mappings cs -> Forall (chunk_in m) cs -> fuel_for fuel cs ->
  Z.of_nat (length cpu_states) = sizeof_vcpu_state * ncores c ->
  Z.of_nat (length cpu_states) < 2 ^ 64 -> (length cpu_states < fuel)%nat ->
  match clock with
  | Some k => cap = true /\ Z.of_nat (length k) = sizeof_clock /\ sizeof_clock < 2 ^ 64 /\ (length k < fuel)%nat
  | None => cap = false end ->
  R1 s1 [] [] ->
  exists stream s1', migration_handler sock1 fuel p c m mem_mappings cpu_states clock s1 = OK s1' /\
    R1 s1' [] stream /\
    forall s2 rest m0, R2 s2 (stream ++ rest) [] -> msize m0 = msize m ->
    exists s2' m1 s2'',
      wait_for_incomming_migration sock2 fuel s2 = OK (p, source_metadata c, s2') /\
      load_migration_data sock2 fuel sizeof_vcpu_state (ncores c) cap sizeof_clock m0 s2' =
        OK (m1, cpu_states, clock, s2'') /\
      R2 s2'' rest [] /\ forall x, peek m1 x = if in_some_chunk cs x then peek m x else peek m0 x.
Proof.
  intros H1 H2 Hm Hp Hmode Hn Hg He Hmig Hin Hfuel Hcpu Hc1 Hc2 Hclk HR.
  destruct (migration_handler_ok sock1 R1 H1 fuel m Hm p c mem_mappings cs cpu_states clock [] [] s1 HR Hmode
    Hmig Hin Hfuel Hc2 Hc1) as (s1' & E & HR1).
  - destruct clock; [apply Hclk|]. destruct Hfuel. cbn. lia.
  - destruct clock as [k|]; [|done]. destruct Hclk as (_ & <- & ? & _). done.
  - exists (migration_stream p c m cs cpu_states clock), s1'. split; [done|]. split; [done|].
    intros s2 rest m0 HR2 Hs. by apply (destination_ok sock2 R2 fuel p c m cs cpu_states clock).
Qed.

(** *** A concrete migration *)

Definition small_guest : gmem := poken (fresh_mem 0x1000) 0x20 (str "guest data").
Definition small_config : config := mkconfig 1 0x1000 0 0x100 false.
Definition small_mappings : MemRegions.mem_mappings := mkmappings [Some (mkchunk 0x20 10)] 1.

Lemma migration_transfers_guest_witness :
  exists stream s1', migration_handler slow_socket 60 default_params small_config small_guest small_mappings
      (str "regs") None ([], []) = OK s1' /\ s1' = ([], stream) /\
    exists s2' m1 s2'', wait_for_incomming_migration slow_socket 60 (stream, []) = OK (default_params,
        source_metadata small_config, s2') /\
      load_migration_data slow_socket 60 4 1 false 0 (fresh_mem 0x1000) s2' = OK (m1, str "regs", None, s2'') /\
      peek m1 0x26 = Byte.x64.
Proof.
  destruct (migration_transfers_guest slow_socket _ slow_socket _ 60 default_params small_config small_guest
    small_mappings [mkchunk 0x20 10] (str "regs") None 4 false 0 ([], []) slow_connection slow_connection)
    as (stream & s1' & E & HR & H).
  - vm_compute. reflexivity.
  - vm_compute. intuition congruence.
  - left. reflexivity.
  - vm_compute. intuition congruence.
  - vm_compute. intuition congruence.
  - vm_compute. intuition congruence.
  - split; [right; vm_compute; congruence|]. split; reflexivity.
  - apply Forall_singleton. vm_compute. intuition congruence.
  - split; [lia|]. split; [cbn; lia|]. split; [cbn; lia|]. apply Forall_singleton. cbn. lia.
  - reflexivity.
  - cbn. lia.
  - cbn. lia.
  - reflexivity.
  - reflexivity.
  - exists stream, s1'. split; [exact E|]. split; [exact HR|].
    destruct (H (stream, []) [] (fresh_mem 0x1000)) as (s2' & m1 & s2'' & E1 & E2 & _ & Hp).
    + by rewrite app_nil_r.
    + reflexivity.
    + exists s2', m1, s2''. split; [exact E1|]. split; [exact E2|]. rewrite Hp. vm_compute. reflexivity.
Defined.

(** The destination maps as much memory as the source.  The source sends its
    size without the I/O gap, which the destination adds again; for every size
    [g] uhyve was started with, even where the subtraction wraps around (below
    768 MiB), both end with the same size.  The protected range is the same too,
    except for guests below 768 MiB: there the destination protects a range
    behind its mapping. *)
Theorem migrated_guest_size check acc mmap merge huge check2 acc2 mmap2 merge2 huge2 g arch arch2 :
  0 <= g -> g + KVM_32BIT_GAP_SIZE < 2 ^ 64 ->
  init_kvm_arch check acc mmap merge huge g = OK arch ->
  init_kvm_arch check2 acc2 mmap2 merge2 huge2 (sent_guest_size (MemRegions.guest_size arch)) = OK arch2 ->
  let G := MemRegions.guest_size arch in
  let gap_at mem := Some (u64 (mem + KVM_32BIT_GAP_START), KVM_32BIT_GAP_SIZE) in
  MemRegions.guest_size arch2 = G /\
  (no_access arch = if g <? KVM_32BIT_GAP_START then None else gap_at (MemRegions.guest_mem arch)) /\
  (no_access arch2 = if (KVM_32BIT_GAP_SIZE <=? g) && (g <? KVM_32BIT_GAP_START) then None
                     else gap_at (MemRegions.guest_mem arch2)).
Proof.
  intros Hg Hmax E E2 G gap_at.
  destruct (init_kvm_arch_sizes _ _ _ _ _ _ _ E) as [Hs Hn].
  destruct (init_kvm_arch_sizes _ _ _ _ _ _ _ E2) as [Hs2 Hn2]. unfold G, gap_at. rewrite Hs2, Hn, Hn2, Hs.
  change KVM_32BIT_GAP_START with 0xd0000000 in *. change KVM_32BIT_GAP_SIZE with 0x30000000 in *.
  unfold sent_guest_size. change KVM_32BIT_GAP_START with 0xd0000000. change KVM_32BIT_GAP_SIZE with 0x30000000.
  destruct (Z.ltb_spec g 0xd0000000).
  - destruct (Z.leb_spec 0x30000000 g); cbn [andb].
    + rewrite (u64_small (g - 0x30000000)) by (unfold is_u64; lia).
      rewrite (proj2 (Z.leb_gt _ _)) by lia. by rewrite (proj2 (Z.ltb_lt _ _)) by lia.
    + assert (u64 (g - 0x30000000) = g - 0x30000000 + 2 ^ 64) as ->
        by (symmetry; apply Z.mod_unique with (-1); lia).
      rewrite (proj2 (Z.leb_le _ _)) by lia. rewrite (proj2 (Z.ltb_ge _ _)) by lia.
      split; [|done]. symmetry. apply Z.mod_unique with 1; lia.
  - rewrite andb_false_r. rewrite (u64_small (g + 0x30000000)) by (unfold is_u64; lia).
    replace (g + 0x30000000 - 0x30000000) with g by lia. rewrite (u64_small g) by (unfold is_u64; lia).
    rewrite (proj2 (Z.leb_le _ _)) by lia. rewrite (proj2 (Z.ltb_ge _ _)) by lia.
    by rewrite (u64_small (g + 0x30000000)) by (unfold is_u64; lia).
Qed.

Lemma migrated_guest_size_witness :
  exists arch arch2, let init := init_kvm_arch (fun _ => 1) (fun _ => true) (fun _ => Some 0x7f0000000000) None None in
    init 0x20000000 = OK arch /\ init (sent_guest_size (MemRegions.guest_size arch)) = OK arch2 /\
    MemRegions.guest_size arch2 = 0x20000000 /\ no_access arch = None /\
    no_access arch2 = Some (0x7f0000000000 + 0xd0000000, 0x30000000).
Proof.
  eexists _, _. cbn zeta. split; [reflexivity|]. split; [reflexivity|].
  edestruct (migrated_guest_size (fun _ => 1) (fun _ => true) (fun _ => Some 0x7f0000000000) None None
    (fun _ => 1) (fun _ => true) (fun _ => Some 0x7f0000000000) None None 0x20000000) as (H1 & H2 & H3).
  - lia.
  - vm_compute. reflexivity.
  - reflexivity.
  - reflexivity.
  - split; [rewrite H1; reflexivity|]. split; [rewrite H2; reflexivity|]. rewrite H3. reflexivity.
Defined.
