(* ===== verification/MigParams.v ===== *)
(** * The parameters of a migration

    [set_migration_params] and the setters and getters the macros of
    src/uhyve-migration.c generate from the tables of src/uhyve-migration.h. *)

From S2P Require Import Prelude GuestMem Paging MemRegions CLib Config Hypercall Proxy Migration.

Open Scope uhyve_scope.

(** ** Names *)

Definition mig_mode_conv : list (Z * list byte) :=
  [(MIG_MODE_COMPLETE_DUMP, str "complete-dump"); (MIG_MODE_INCREMENTAL_DUMP, str "incremental-dump")].
Definition mig_type_conv : list (Z * list byte) := [(MIG_TYPE_COLD, str "cold"); (MIG_TYPE_LIVE, str "live")].

Definition with_mode (p : mig_params) (v : Z) : mig_params := mkparams (mig_type p) v (use_odp p) (prefetch p).
Definition with_type (p : mig_params) (v : Z) : mig_params := mkparams v (mig_mode p) (use_odp p) (prefetch p).

(** [define_migration_param_setter]: an unknown name leaves the parameter as
    it is, after a message. *)
Definition set_migration_param (conv : list (Z * list byte)) (set : mig_params -> Z -> mig_params)
    (name : list byte) (p : mig_params) : mig_params :=
  foldl (fun p '(v, s) => if decide (name = s) then set p v else p) p conv.
Definition set_migration_mode := set_migration_param mig_mode_conv with_mode.
Definition set_migration_type := set_migration_param mig_type_conv with_type.

(** [define_migration_param_getter]; the index is the value. *)
Definition get_migration_param_str (conv : list (Z * list byte)) (v : Z) : outcome (list byte) :=
  match conv !! Z.to_nat v with Some (_, s) => OK s | None => Undefined end.
Definition get_migration_mode_str := get_migration_param_str mig_mode_conv.
Definition get_migration_type_str := get_migration_param_str mig_type_conv.

(** ** The file *)

Definition MAX_PARAM_STR_LEN : Z := 128.

(** Literals and white space of a format. *)
Fixpoint scan_literals (ds : list directive) (s : list byte) : bool * list byte :=
  match ds, s with
  | [], _ => (true, s)
  | FSpace :: ds, _ => scan_literals ds (skip_spaces s)
  | FLit c :: ds, b :: s' => if decide (b = c) then scan_literals ds s' else (false, s)
  | _, _ => (false, s)
  end.

Fixpoint scan_word (s : list byte) : list byte * list byte :=
  match s with
  | c :: s' => if isspace c then ([], s) else let '(w, rest) := scan_word s' in (c :: w, rest)
  | [] => ([], [])
  end.

(** [fscanf(f, label "%s\n", tmp_str)]; [tmp] is what the buffer holds, [None]
    as long as nothing was stored. *)
Definition fscanf_word (label : list byte) (tmp : option (list byte)) (s : list byte) : option (list byte) * list byte :=
  let '(matched, s) := scan_literals (parse_format label) s in
  if matched then
    let '(w, rest) := scan_word (skip_spaces s) in
    match w with [] => (tmp, rest) | _ => (Some w, skip_spaces rest) end
  else (tmp, s).

(** The string in the buffer of 128 bytes. *)
Definition buffer_string (tmp : option (list byte)) : outcome (list byte) :=
  match tmp with
  | Some w => if Z.of_nat (length w) <? MAX_PARAM_STR_LEN then OK w else Undefined
  | None => Undefined
  end.

(** [mig_params] in memory and the byte behind it; a 32-bit value is stored
    to one of the two [bool] members. *)
Definition params_memory (p : mig_params) (behind : byte) : list byte := encode_params p ++ [behind].
Definition of_memory (bs : list byte) : mig_params * byte := (decode_params bs, default NUL (bs !! 12%nat)).
Definition store_u32 (off : Z) (vs : list Z) (bs : list byte) : outcome (list byte) :=
  match vs with v :: _ => put_buffer bs off (le_split 4 v) | [] => OK bs end.

Definition set_migration_params (file : option (option (list byte))) (p : mig_params) (behind : byte)
    : outcome (mig_params * byte) :=
  match file with
  | None => OK (p, behind)                      (* no file name *)
  | Some None => Undefined                      (* fopen failed: fscanf(NULL) *)
  | Some (Some f) =>
      let '(tmp, f) := fscanf_word (str "mode: ") None f in
      name ← buffer_string tmp;
      let p := set_migration_mode name p in
      let '(tmp, f) := fscanf_word (str "type: ") tmp f in
      name ← buffer_string tmp;
      let p := set_migration_type name p in
      let '(vs, f) := fscanf (str "use-odp: %u" ++ [NL]) f in
      bs ← store_u32 8 vs (params_memory p behind);
      let '(vs, f) := fscanf (str "prefetch: %u" ++ [NL]) f in
      bs ← store_u32 9 vs bs;
      OK (of_memory bs)
  end.

(** ** A file as it is meant *)

Definition params_file (mode type : list byte) (u v : Z) : list byte :=
  str "mode: " ++ mode ++ [NL] ++ str "type: " ++ type ++ [NL] ++
  str "use-odp: " ++ print_u u ++ [NL] ++ str "prefetch: " ++ print_u v ++ [NL].

(** ** Correctness *)

(** A name as [%s] reads it into the buffer. *)
Definition is_word (w : list byte) : Prop :=
  w <> [] /\ Forall (fun c => isspace c = false) w /\ Z.of_nat (length w) < MAX_PARAM_STR_LEN.

Lemma scan_word_app w rest :
  Forall (fun c => isspace c = false) w -> match rest with c :: _ => isspace c = true | [] => True end ->
  scan_word (w ++ rest) = (w, rest).
Proof.
  intros Hw Hr. induction Hw as [|c w Hc _ IH]; cbn [app scan_word].
  - destruct rest as [|c rest]; [done|]. cbn. by rewrite Hr.
  - by rewrite Hc, IH.
Qed.

Lemma skip_word w rest : w <> [] -> Forall (fun c => isspace c = false) w -> skip_spaces (w ++ rest) = w ++ rest.
Proof. intros Hne Hw. destruct w as [|c w]; [done|]. apply Forall_cons in Hw as [Hc _]. cbn. by rewrite Hc. Qed.

Lemma scan_mode_word tmp w rest : is_word w ->
  fscanf_word (str "mode: ") tmp (str "mode: " ++ w ++ [NL] ++ rest) = (Some w, skip_spaces rest).
Proof.
  intros (Hne & Hw & _). unfold fscanf_word.
  assert (forall s, scan_literals (parse_format (str "mode: ")) (str "mode: " ++ s) = (true, skip_spaces s)) as -> by done.
  rewrite skip_word, skip_word, scan_word_app by done. destruct w; [done|]. done.
Qed.

Lemma scan_type_word tmp w rest : is_word w ->
  fscanf_word (str "type: ") tmp (str "type: " ++ w ++ [NL] ++ rest) = (Some w, skip_spaces rest).
Proof.
  intros (Hne & Hw & _). unfold fscanf_word.
  assert (forall s, scan_literals (parse_format (str "type: ")) (str "type: " ++ s) = (true, skip_spaces s)) as -> by done.
  rewrite skip_word, skip_word, scan_word_app by done. destruct w; [done|]. done.
Qed.

Lemma scan_odp z rest : is_u32 z ->
  fscanf (str "use-odp: %u" ++ [NL]) (str "use-odp: " ++ print_u z ++ [NL] ++ rest) = ([z], skip_spaces rest).
Proof.
  intros Hz. scan_label. rewrite space_number_u by done. cbn [scan_directives]. by rewrite convert_u.
Qed.
Lemma scan_prefetch z rest : is_u32 z ->
  fscanf (str "prefetch: %u" ++ [NL]) (str "prefetch: " ++ print_u z ++ [NL] ++ rest) = ([z], skip_spaces rest).
Proof.
  intros Hz. scan_label. rewrite space_number_u by done. cbn [scan_directives]. by rewrite convert_u.
Qed.

(** What the two stores make of the struct and the byte behind it. *)
Lemma store_flags p behind u v :
  is_u32 (mig_type p) -> is_u32 (mig_mode p) -> is_u32 v ->
  (bs ← store_u32 8 [u] (params_memory p behind); bs ← store_u32 9 [v] bs; OK (of_memory bs)) =
    OK (mkparams (mig_type p) (mig_mode p) (u mod 256) (v mod 256), byte.of_Z (v / 2 ^ 24)).
Proof.
  intros Ht Hm Hv. destruct p as [t m o f]. unfold params_memory, encode_params. cbn [mig_type mig_mode use_odp prefetch] in *.
  assert (forall z, is_u32 z -> le_combine (le_split 4 z) = z) as Hc.
  { intros z Hz. rewrite le_combine_split. by apply Z.mod_small. }
  assert (forall z, le_combine [byte.of_Z z] = z mod 256) as Hb.
  { intros z. change [byte.of_Z z] with (le_split 1 z). by rewrite le_combine_split. }
  pose proof (Hc t Ht) as Et. pose proof (Hc m Hm) as Em.
  destruct (le_split 4 t) as [|t0 [|t1 [|t2 [|t3 [|]]]]] eqn:Lt; try (apply (f_equal length) in Lt; done).
  destruct (le_split 4 m) as [|m0 [|m1 [|m2 [|m3 [|]]]]] eqn:Lm; try (apply (f_equal length) in Lm; done).
  assert (v >> 8 >> 8 >> 8 = v / 2 ^ 24) as E24 by (rewrite !Z.shiftr_shiftr by lia; by rewrite Z.shiftr_div_pow2 by lia).
  cbn [store_u32].
  change (le_split 4 u) with [byte.of_Z u; byte.of_Z (u >> 8); byte.of_Z (u >> 8 >> 8); byte.of_Z (u >> 8 >> 8 >> 8)].
  change (le_split 4 v) with [byte.of_Z v; byte.of_Z (v >> 8); byte.of_Z (v >> 8 >> 8); byte.of_Z (v >> 8 >> 8 >> 8)].
  rewrite E24.
  change (le_split 1 o) with [byte.of_Z o]. change (le_split 1 f) with [byte.of_Z f]. change (le_split 2 0) with [NUL; NUL].
  unfold put_buffer. cbn [app length]. change (8 + Z.of_nat 4 <=? Z.of_nat 13) with true. cbn match.
  change (Z.to_nat 8) with 8%nat. change (Z.to_nat 9) with 9%nat. cbn [take drop Nat.add app]. rewrite bind_OK.
  cbn [length]. change (9 + Z.of_nat 4 <=? Z.of_nat 13) with true. cbn match. cbn [take drop Nat.add app]. rewrite bind_OK.
  unfold of_memory, decode_params, int_at. cbn [take drop lookup list_lookup default]. by rewrite Et, Em, !Hb.
Qed.

(** What the setters do. *)
Lemma type_set n p : mig_type (set_migration_type n p) =
  if decide (n = str "live") then MIG_TYPE_LIVE else if decide (n = str "cold") then MIG_TYPE_COLD else mig_type p.
Proof. unfold set_migration_type, set_migration_param, mig_type_conv. cbn [foldl]. by repeat destruct (decide _). Qed.
Lemma mode_set n p : mig_mode (set_migration_mode n p) =
  if decide (n = str "incremental-dump") then MIG_MODE_INCREMENTAL_DUMP
  else if decide (n = str "complete-dump") then MIG_MODE_COMPLETE_DUMP else mig_mode p.
Proof. unfold set_migration_mode, set_migration_param, mig_mode_conv. cbn [foldl]. by repeat destruct (decide _). Qed.
Lemma mode_set_type n p : mig_type (set_migration_mode n p) = mig_type p.
Proof. unfold set_migration_mode, set_migration_param, mig_mode_conv. cbn [foldl]. by repeat destruct (decide _). Qed.
Lemma type_set_mode n p : mig_mode (set_migration_type n p) = mig_mode p.
Proof. unfold set_migration_type, set_migration_param, mig_type_conv. cbn [foldl]. by repeat destruct (decide _). Qed.

Lemma conv_name (v0 v1 : Z) (n0 n1 : list byte) conv k name :
  0 <= k -> get_migration_param_str conv k = OK name -> conv = [(v0, n0); (v1, n1)] ->
  (k = 0 /\ name = n0) \/ (k = 1 /\ name = n1).
Proof.
  intros Hk E ->. unfold get_migration_param_str in E. destruct (Z.to_nat k) as [|[|]] eqn:Ek; cbn in E; [left|right|done].
  - injection E as <-. split; [lia|done].
  - injection E as <-. split; [lia|done].
Qed.



(** A name of 128 characters overruns the buffer; without the first line the
    buffer is compared before anything is stored to it. *)
Lemma long_name_overruns p behind w rest :
  w <> [] -> Forall (fun c => isspace c = false) w -> MAX_PARAM_STR_LEN <= Z.of_nat (length w) ->
  set_migration_params (Some (Some (str "mode: " ++ w ++ [NL] ++ rest))) p behind = Undefined.
Proof.
  intros Hne Hw Hlen. unfold set_migration_params, fscanf_word.
  assert (forall s, scan_literals (parse_format (str "mode: ")) (str "mode: " ++ s) = (true, skip_spaces s)) as -> by done.
  rewrite skip_word, skip_word, scan_word_app by done. destruct w as [|c w]; [done|]. cbn match. unfold buffer_string.
  by rewrite (proj2 (Z.ltb_ge _ _)).
Qed.
