(* ===== verification/Startup.v ===== *)
(** * Starting and restarting uhyve

    [uhyve_init] and the beginning of [uhyve_loop] and [vcpu_loop] of
    src/uhyve.c: the three ways to start put together from the components, the
    directory of the checkpoint files with [write_cpu_state], [read_cpu_state]
    and [timer_handler] of src/uhyve-x86_64.c, and what a restart from it
    brings back. *)

From stdpp Require Import functions.
From S2P Require Import Prelude GuestMem Paging MemRegions Hypercall Vcpu Proxy CLib Config Utils NetConfig.
From S2P Require Import Elf Checkpoint Incremental Migration.

(** ** The files of a checkpoint *)

(** Contents by name; [None]: there is no such file. *)
Abbreviation disk := (list byte -> option (list byte)).

(** The names are far shorter than MAX_FNAME. *)
Definition chk_config_name : list byte := str "checkpoint/chk_config.txt".
Definition chk_mem_name (no_checkpoint : Z) : list byte :=
  str "checkpoint/chk" ++ print_u no_checkpoint ++ str "_mem.dat".
Definition chk_core_name (no_checkpoint cpuid : Z) : list byte :=
  str "checkpoint/chk" ++ print_u no_checkpoint ++ str "_core" ++ print_u cpuid ++ str ".dat".

Section Files.
(** [fopen(name, "w")] succeeds; the size of vcpu_state_t. *)
Context (writable : list byte -> bool) (sizeof_vcpu_state : nat).

Definition write_file (name data : list byte) (d : disk) : outcome disk :=
  if writable name then OK (<[name := Some data]> d) else Exited 1.

(** [cpu_state] is what [save_cpu_state] returns, as bytes. *)
Definition write_cpu_state (no_checkpoint cpuid : Z) (cpu_state : list byte) (d : disk) : outcome disk :=
  write_file (chk_core_name no_checkpoint cpuid) cpu_state d.

Definition read_cpu_state (no_checkpoint cpuid : Z) (d : disk) : outcome (list byte) :=
  match d (chk_core_name no_checkpoint cpuid) with
  | None => Exited 1
  | Some f => if (length f <? sizeof_vcpu_state)%nat then Exited 1 else OK (take sizeof_vcpu_state f)
  end.

(** The cores behind the first write their states in their signal handlers
    while core 0 is between the two barriers of [timer_handler] (Snapshot.v);
    each has a file of its own. *)
Fixpoint write_cpu_states (no_checkpoint cpuid : Z) (states : list (list byte)) (d : disk) : outcome disk :=
  match states with
  | [] => OK d
  | st :: states =>
      d ← write_cpu_state no_checkpoint cpuid st d;
      write_cpu_states no_checkpoint (cpuid + 1) states d
  end.

(** A checkpoint: [states] are the states of the stopped cores. *)
Definition take_checkpoint (clock : list byte) (states : list (list byte)) (m : gmem) (c : config) (d : disk)
    : outcome (gmem * config * disk) :=
  let no := no_checkpoint c in
  d ← write_cpu_states no 0 states d;
  '(m, c, chk_file, chk_config) ← timer_handler clock m c;
  d ← write_file (chk_mem_name no) chk_file d;
  d ← write_file chk_config_name chk_config d;
  OK (m, c, d).
End Files.

(** ** uhyve_init *)

(** What the process has set up when the vCPUs start. *)
Record vm := mkvm {
  vm_startup : startup;
  vm_config : config;
  vm_arch : arch_state;
  vm_mem : gmem;
  vm_kheader : option Z;           (* offsets in guest memory *)
  vm_klog : option Z;
  vm_clock : option Z;             (* the argument of KVM_SET_CLOCK *)
  vm_cpu_states : option (list byte);  (* vcpu_thread_states *)
  vm_net : option (Z * list byte)  (* netfd and the MAC address *)
}.

(** The world around the process: the environment and the files, /dev/kvm, the
    migration socket, the kernel image, the network device. *)
Record world (S F : Type) := mkworld {
  w_getenv : environment;
  w_disk : disk;
  w_fuel : nat;
  w_calloc : Z -> bool;
  w_kvm : Z;                       (* open("/dev/kvm") *)
  w_api_version : Z;
  w_check_extension : kvm_cap -> Z;
  w_vm_ioctl : vm_ioctl -> bool;     (* the other requests to the VM *)
  w_mmap : Z -> option Z;
  w_vcpu_mmap_size : Z;            (* KVM_GET_VCPU_MMAP_SIZE *)
  w_sizeof_kvm_run : Z;
  w_map_run : bool;                (* the kvm_run area can be mapped *)
  w_sock : Socket S;
  w_conn : S;                      (* the accepted connection *)
  w_sizeof_vcpu_state : Z;
  w_sizeof_clock : Z;
  w_pread : F -> Z -> Z -> read_result * F;
  w_file : F;
  w_fd : Z;                        (* open(path) *)
  w_cpufreq : outcome Z;
  w_time : Z;
  w_fcntl_nonblock : Z -> Z;
  w_open_tun : Z;
  w_tunsetiff : Z -> list byte -> Z * list byte;
  w_write_eio : Z -> bool;
  w_urandom : option (list byte)
}.
Arguments mkworld {S F}.
Arguments w_getenv {S F}.
Arguments w_disk {S F}.
Arguments w_fuel {S F}.
Arguments w_calloc {S F}.
Arguments w_kvm {S F}.
Arguments w_api_version {S F}.
Arguments w_check_extension {S F}.
Arguments w_vm_ioctl {S F}.
Arguments w_mmap {S F}.
Arguments w_vcpu_mmap_size {S F}.
Arguments w_sizeof_kvm_run {S F}.
Arguments w_map_run {S F}.
Arguments w_sock {S F}.
Arguments w_conn {S F}.
Arguments w_sizeof_vcpu_state {S F}.
Arguments w_sizeof_clock {S F}.
Arguments w_pread {S F}.
Arguments w_file {S F}.
Arguments w_fd {S F}.
Arguments w_cpufreq {S F}.
Arguments w_time {S F}.
Arguments w_fcntl_nonblock {S F}.
Arguments w_open_tun {S F}.
Arguments w_tunsetiff {S F}.
Arguments w_write_eio {S F}.
Arguments w_urandom {S F}.

Definition no_metadata : migration_metadata := mkmetadata 0 0 0 0 false.
Definition EXIT_FAILURE : Z := 1.

Section Init.
Context {S F : Type} (w : world S F).

(** The configuration, and the migration connection after the metadata. *)
Definition startup_config : outcome (startup * config * S) :=
  '(metadata, s) ←
    match w_getenv w "HERMIT_MIGRATION_SERVER" with
    | Some _ =>
        '(_, metadata, s) ← wait_for_incomming_migration (w_sock w) (w_fuel w) (w_conn w);
        OK (metadata, s)
    | None => OK (no_metadata, w_conn w)
    end;
  let '(start, c) := uhyve_init_config (w_getenv w) metadata (w_disk w chk_config_name) default_config in
  OK (start, c, s).

Definition check_kvm (ncores : Z) : outcome unit :=
  if negb (w_calloc w (ncores * 8)) then Exited 1          (* vcpu_threads *)
  else if negb (w_calloc w (ncores * 4)) then Exited 1     (* vcpu_fds *)
  else if w_kvm w <? 0 then Exited 1
  else if negb (w_api_version w =? 12) then Exited 1
  else OK tt.

(** Filling the memory of the guest. *)
Definition load_guest (start : startup) (c : config) (arch : arch_state) (s : S) : outcome vm :=
  let m := fresh_mem (MemRegions.guest_size arch) in
  let c := set_guest_size c (MemRegions.guest_size arch) in
  let cap := cap_adjust_clock_stable arch in
  match start with
  | FromCheckpoint =>
      '(ret, l) ← load_checkpoint (w_fuel w) (fun i => w_disk w (chk_mem_name i)) (no_checkpoint c) cap
                    (full_checkpoint c) (elf_entry c) (mkloaded m None None None);
      if negb (ret =? 0) then Exited EXIT_FAILURE
      else OK (mkvm start c arch (ld_mem l) (ld_kheader l) (ld_klog l) (ld_clock l) None None)
  | FromMigration =>
      let l := set_pointers (elf_entry c) (mkloaded m None None None) in
      '(m, states, clock, _) ← load_migration_data (w_sock w) (w_fuel w) (w_sizeof_vcpu_state w) (ncores c) cap
                                 (w_sizeof_clock w) m s;
      OK (mkvm start c arch m (ld_kheader l) (ld_klog l)
            ((fun bs => le_combine (take 8 bs)) <$> clock) (Some states) None)
  | FromKernel =>
      let env := mksetup (w_getenv w) (main_verbose (w_getenv w)) (Config.guest_size c)
                   (MemRegions.guest_mem arch) (w_cpufreq w) (w_time w) in
      '(ret, l) ← load_kernel (w_pread w) (w_fuel w) env (w_fd w) (w_calloc w)
                    (mkloader m None None (elf_entry c) (w_file w));
      if negb (ret =? 0) then Exited EXIT_FAILURE
      else OK (mkvm start (set_elf_entry c (l_entry l)) arch (l_mem l) (l_kheader l) (l_klog l) None None None)
  end.

(** Each vCPU needs its kvm_run area. *)
Definition vcpu_init : outcome Z :=
  if w_vcpu_mmap_size w <? w_sizeof_kvm_run w then Exited 1
  else if negb (w_map_run w) then Exited 1
  else OK 0.

Definition uhyve_init : outcome vm :=
  '(start, c, s) ← startup_config;
  _ ← check_kvm (ncores c);
  arch ← init_kvm_arch (w_check_extension w) (w_vm_ioctl w) (w_mmap w) (w_getenv w "HERMIT_MERGEABLE")
           (w_getenv w "HERMIT_HUGEPAGE") (Config.guest_size c);
  v ← load_guest start c arch s;
  _ ← vcpu_init;
  match w_getenv w "HERMIT_NETIF" with
  | None => OK v
  | Some netif =>
      net ← uhyve_net_init (w_fcntl_nonblock w) (w_open_tun w) (w_tunsetiff w) (w_write_eio w)
              (w_getenv w) (w_urandom w) (Some netif);
      OK (mkvm (vm_startup v) (vm_config v) (vm_arch v) (vm_mem v) (vm_kheader v) (vm_klog v)
            (vm_clock v) (vm_cpu_states v) (Some net))
  end.

(** ** uhyve_loop *)

(** The part in front of [vcpu_loop]: what the guest is told about the command
    line and the cores.  The first component is the value -1 that is returned
    for too many arguments. *)
Definition uhyve_loop (argc envc : Z) (v : vm) : outcome (Z + Z * Z * vm) :=
  match uhyve_loop_args argc envc with
  | None => OK (inl (-1))
  | Some (uhyve_argc, uhyve_envc) =>
      match vm_kheader v with
      | None => Undefined
      | Some kheader =>
          m ← announce_cpus (vm_mem v) kheader (ncores (vm_config v));
          OK (inr (uhyve_argc, uhyve_envc,
            mkvm (vm_startup v) (vm_config v) (vm_arch v) m (vm_kheader v) (vm_klog v)
              (vm_clock v) (vm_cpu_states v) (vm_net v)))
      end
  end.

(** ** vcpu_loop *)

(** What a vCPU starts with, and the checkpoint number behind it: the state
    from its file, the migrated one, or the start of the kernel. *)
Inductive vcpu_origin :=
| RestoredFrom (cpu_state : list byte)
| StartsAt (entry : Z).

Definition vcpu_loop_start (cpuid : Z) (v : vm) : outcome (vcpu_origin * Z) :=
  let no := no_checkpoint (vm_config v) in
  match vm_startup v with
  | FromCheckpoint =>
      cpu_state ← read_cpu_state (Z.to_nat (w_sizeof_vcpu_state w)) no cpuid (w_disk w);
      OK (RestoredFrom cpu_state, if cpuid =? 0 then u32 (no + 1) else no)
  | _ =>
      match vm_cpu_states v with
      | Some states =>
          let n := Z.to_nat (w_sizeof_vcpu_state w) in
          OK (RestoredFrom (take n (drop (n * Z.to_nat cpuid) states)), no)
      | None => OK (StartsAt (elf_entry (vm_config v)), no)
      end
  end.

(** [main], up to the vCPUs. *)
Definition main (argc envc : Z) : outcome (Z + Z * Z * vm) :=
  v ← uhyve_init; uhyve_loop argc envc v.
End Init.

(** ** The names of the files differ *)

Lemma app_prefix_inj {A} (p a b : list A) : p ++ a = p ++ b -> a = b.
Proof. apply app_inv_head. Qed.

(** A number in a name can be read back. *)
Lemma number_inj a b s1 s2 :
  is_u32 a -> is_u32 b -> starts_with_digit 10 s1 = false -> not_x s1 ->
  starts_with_digit 10 s2 = false -> not_x s2 ->
  print_u a ++ s1 = print_u b ++ s2 -> a = b /\ s1 = s2.
Proof.
  intros Ha Hb H1 H2 H3 H4 E. apply (f_equal (convert ConvU)) in E.
  rewrite !convert_u in E by done. by injection E as -> ->.
Qed.

Lemma chk_mem_name_inj i j : is_u32 i -> is_u32 j -> chk_mem_name i = chk_mem_name j -> i = j.
Proof. intros Hi Hj E%app_prefix_inj. apply number_inj in E as [? _]; done. Qed.

Lemma chk_core_name_inj n i j : is_u32 n -> is_u32 i -> is_u32 j -> chk_core_name n i = chk_core_name n j -> i = j.
Proof. intros Hn Hi Hj E%app_prefix_inj%app_prefix_inj%app_prefix_inj. apply number_inj in E as [? _]; done. Qed.

Lemma chk_mem_core_ne n k i : is_u32 n -> is_u32 k -> chk_mem_name n <> chk_core_name k i.
Proof. intros Hn Hk E%app_prefix_inj. apply number_inj in E as [_ E]; done. Qed.

Lemma chk_name_config_ne n s : is_u32 n -> starts_with_digit 10 s = false -> not_x s ->
  str "checkpoint/chk" ++ print_u n ++ s <> chk_config_name.
Proof.
  intros Hn H1 H2 E. change chk_config_name with (str "checkpoint/chk" ++ str "_config.txt") in E.
  apply app_prefix_inj, (f_equal (convert ConvU)) in E. by rewrite convert_u in E.
Qed.

Lemma chk_mem_config_ne n : is_u32 n -> chk_mem_name n <> chk_config_name.
Proof. intros Hn. by apply chk_name_config_ne. Qed.

Lemma chk_core_config_ne n i : is_u32 n -> chk_core_name n i <> chk_config_name.
Proof. intros Hn. by apply chk_name_config_ne. Qed.

(** ** A checkpoint on disk *)

Section OnDisk.
Context (writable : list byte -> bool).

Lemma write_file_inv name data d d' :
  write_file writable name data d = OK d' -> d' = <[name := Some data]> d.
Proof. unfold write_file. destruct (writable name); [by intros [=]|done]. Qed.

Lemma write_cpu_states_spec no states : forall k d d',
  is_u32 no -> 0 <= k -> k + Z.of_nat (length states) <= 2 ^ 32 ->
  write_cpu_states writable no k states d = OK d' ->
  (forall i st, states !! i = Some st -> d' (chk_core_name no (k + Z.of_nat i)) = Some st) /\
  (forall name, (forall i, name <> chk_core_name no i) -> d' name = d name) /\
  (forall i, 0 <= i < k -> d' (chk_core_name no i) = d (chk_core_name no i)).
Proof.
  induction states as [|st states IH]; intros k d d' Hno Hk Hlen E; cbn [write_cpu_states length] in *.
  { injection E as <-. done. }
  apply bind_OK_inv in E as (d1 & ->%write_file_inv & E).
  destruct (IH (k + 1) _ _ Hno ltac:(lia) ltac:(lia) E) as (H1 & H2 & H3). split; [|split].
  - intros [|i] st' Hi; cbn in Hi.
    + injection Hi as <-. rewrite Z.add_0_r, H3 by lia. by rewrite fn_lookup_insert.
    + rewrite <- (H1 i st' Hi). do 2 f_equal. lia.
  - intros name Hn. rewrite H2 by done. by rewrite fn_lookup_insert_ne by (intros <-; by eapply Hn).
  - intros i Hi. rewrite H3 by lia. apply fn_lookup_insert_ne. intros E2.
    apply chk_core_name_inj in E2; [lia|done| |]; unfold is_u32; lia.
Qed.

(** What a checkpoint leaves in the directory. *)
Lemma take_checkpoint_spec clock states m c d m1 c1 d1 :
  is_u32 (no_checkpoint c) -> Z.of_nat (length states) <= 2 ^ 32 ->
  take_checkpoint writable clock states m c d = OK (m1, c1, d1) ->
  exists f cfg, timer_handler clock m c = OK (m1, c1, f, cfg) /\ cfg = write_chk_config c /\
    d1 chk_config_name = Some cfg /\ d1 (chk_mem_name (no_checkpoint c)) = Some f /\
    (forall i st, states !! i = Some st -> d1 (chk_core_name (no_checkpoint c) (Z.of_nat i)) = Some st) /\
    (forall i, is_u32 i -> i <> no_checkpoint c -> d1 (chk_mem_name i) = d (chk_mem_name i)).
Proof.
  intros Hno Hlen E. unfold take_checkpoint in E.
  apply bind_OK_inv in E as (d2 & E2 & E). apply bind_OK_inv in E as ([[[m2 c2] f] cfg] & Et & E).
  apply bind_OK_inv in E as (d3 & ->%write_file_inv & E).
  apply bind_OK_inv in E as (d4 & ->%write_file_inv & E). injection E as <- <- <-.
  destruct (write_cpu_states_spec _ states 0 _ _ Hno (Z.le_refl 0) ltac:(lia) E2) as (H1 & H2 & _).
  exists f, cfg. split; [done|]. split; [|split; [|split; [|split]]].
  - unfold timer_handler in Et. apply bind_OK_inv in Et as ([m3 f3] & _ & Et). by injection Et as _ _ _ <-.
  - by rewrite fn_lookup_insert.
  - rewrite fn_lookup_insert_ne by (apply not_eq_sym, chk_mem_config_ne; done). by rewrite fn_lookup_insert.
  - intros i st Hi. rewrite fn_lookup_insert_ne by (apply not_eq_sym, chk_core_config_ne; done).
    rewrite fn_lookup_insert_ne by (apply chk_mem_core_ne; done). exact (H1 i st Hi).
  - intros i Hi Hne. rewrite fn_lookup_insert_ne by (apply not_eq_sym, chk_mem_config_ne; done).
    rewrite fn_lookup_insert_ne by (intros E3; apply Hne; symmetry; by apply chk_mem_name_inj).
    apply H2. intros j. by apply chk_mem_core_ne.
Qed.
End OnDisk.

(** ** A run and its restart *)

Section Run.
Context (writable : list byte -> bool) (c0 : config) (flag_bytes : Z -> Prop).

(** [run fs d c m m1 D states clock]: checkpoints have been taken ([fs] are their
    memory files), the last one with memory [m], the cores' [states] and what
    KVM_GET_CLOCK gave as [clock]; it left
    the directory [d], the memory [m1] and the configuration [c].  [D] holds of
    the bytes of the pages saved so far. *)
Inductive run : list (list byte) -> disk -> config -> gmem -> gmem -> (Z -> Prop) -> list (list byte) -> list byte -> Prop :=
| run_first clock states d0 m m1 c d f :
    checkpointable flag_bytes 0 m -> length clock = sizeof_clock -> Z.of_nat (length states) = ncores c0 ->
    take_checkpoint writable clock states m c0 d0 = OK (m1, c, d) -> d (chk_mem_name 0) = Some f ->
    run [f] d c m m1 (fun x => covered (page_leaves (flag false 0) m) x = true) states clock
| run_next fs d c m m1 D states clock0 clock states' m' m1' c' d' f :
    run fs d c m m1 D states clock0 -> guest_period flag_bytes (no_checkpoint c) D m1 m' ->
    checkpointable flag_bytes (no_checkpoint c) m' -> length clock = sizeof_clock ->
    Z.of_nat (length states') = ncores c0 ->
    take_checkpoint writable clock states' m' c d = OK (m1', c', d') ->
    d' (chk_mem_name (no_checkpoint c)) = Some f ->
    run (fs ++ [f]) d' c' m' m1' (fun x => D x \/ covered (page_leaves (flag false (no_checkpoint c)) m') x = true)
      states' clock.

Context (Hfull : full_checkpoint c0 = false) (Hno : no_checkpoint c0 = 0) (Hcores : is_u32 (ncores c0)).

(** The directory after a run. *)
Record directory (fs : list (list byte)) (d : disk) (c : config) (states : list (list byte)) : Prop := {
  dir_config : c = set_no_checkpoint c0 (Z.of_nat (length fs));
  dir_mem : forall i, (i < length fs)%nat -> d (chk_mem_name (Z.of_nat i)) = fs !! i;
  dir_chk_config : d chk_config_name = Some (write_chk_config (set_no_checkpoint c0 (Z.of_nat (length fs) - 1)));
  dir_states : forall i st, states !! i = Some st ->
    d (chk_core_name (Z.of_nat (length fs) - 1) (Z.of_nat i)) = Some st
}.

Lemma config_eq c c' : ncores c = ncores c' -> Config.guest_size c = Config.guest_size c' ->
  no_checkpoint c = no_checkpoint c' -> elf_entry c = elf_entry c' -> full_checkpoint c = full_checkpoint c' -> c = c'.
Proof. destruct c, c'; cbn; congruence. Qed.

Lemma take_directory clock states m c d m1 c1 d1 fs f :
  Z.of_nat (length fs) + 1 < 2 ^ 32 -> c = set_no_checkpoint c0 (Z.of_nat (length fs)) ->
  checkpointable flag_bytes (no_checkpoint c) m -> Z.of_nat (length states) = ncores c0 ->
  take_checkpoint writable clock states m c d = OK (m1, c1, d1) ->
  d1 (chk_mem_name (no_checkpoint c)) = Some f ->
  (forall i, (i < length fs)%nat -> d (chk_mem_name (Z.of_nat i)) = fs !! i) ->
  directory (fs ++ [f]) d1 c1 states /\ (exists cfg, timer_handler clock m c = OK (m1, c1, f, cfg)) /\
  exists rest, f = clock ++ rest.
Proof.
  intros Hlen Hc Hck Hst E Hf Hold. assert (no_checkpoint c = Z.of_nat (length fs)) as Hn by by rewrite Hc.
  destruct (take_checkpoint_spec writable clock states m c d m1 c1 d1) as (f' & cfg & Et & Hcfg & Hd1 & Hf' & Hs & Hother).
  { rewrite Hn. unfold is_u32. lia. }
  { unfold is_u32 in Hcores. lia. }
  { done. }
  rewrite Hf in Hf'. injection Hf' as <-.
  destruct (timer_incremental flag_bytes clock m c) as (rs & m2 & Et2 & _); [by rewrite Hc|done|].
  rewrite Et in Et2. injection Et2 as _ Hc1 Hff _. split; [|split; [by exists cfg|by eexists]].
  assert (length (fs ++ [f]) = S (length fs)) as Hl by (rewrite length_app; cbn; lia).
  split; rewrite ?Hl.
  - rewrite Hc1, Hn, u32_small by (unfold is_u32; lia). subst c. cbn. f_equal. lia.
  - intros i Hi. destruct (decide (i = length fs)) as [->|Hne].
    + rewrite <- Hn, Hf. by rewrite list_lookup_middle.
    + rewrite Hother by (unfold is_u32; lia). rewrite Hold by lia. by rewrite lookup_app_l by lia.
  - rewrite Hd1, Hcfg. replace (Z.of_nat (S (length fs)) - 1) with (Z.of_nat (length fs)) by lia. by rewrite <- Hc.
  - replace (Z.of_nat (S (length fs)) - 1) with (no_checkpoint c) by lia. done.
Qed.

Lemma run_directory fs d c m m1 D states clock :
  run fs d c m m1 D states clock -> Z.of_nat (length fs) < 2 ^ 32 ->
  directory fs d c states /\ checkpoints c0 flag_bytes fs c m m1 D /\ length clock = sizeof_clock /\
  exists rest, last fs = Some (clock ++ rest).
Proof.
  induction 1 as [clock states d0 m m1 c d f Hck Hclk Hst E Hf
    |fs d c m m1 D states clock0 clock states' m' m1' c' d' f H IH Hp Hck Hclk Hst E Hf]; intros Hlen.
  - destruct (take_directory clock states m c0 d0 m1 c d [] f) as (Hd & [cfg Et] & rest & ->); try done.
    + apply config_eq; [done..|by rewrite Hno|done|done].
    + by rewrite Hno.
    + by rewrite Hno.
    + intros i Hi. cbn in Hi. lia.
    + split; [done|]. split; [by eapply checkpoints_first|]. split; [done|]. by exists rest.
  - rewrite length_app in Hlen. cbn [length] in Hlen. destruct (IH ltac:(lia)) as ([Hc Hmem _ _] & Hcp & _).
    destruct (take_directory clock states' m' c d m1' c' d' fs f) as (Hd & [cfg Et] & rest & ->); try done; [lia|].
    split; [done|]. split; [by eapply checkpoints_next|]. split; [done|]. exists rest. by rewrite last_snoc.
Qed.
End Run.

Lemma init_kvm_arch_small check acc mmap merge huge g arch :
  init_kvm_arch check acc mmap merge huge g = OK arch -> g < KVM_32BIT_GAP_START -> MemRegions.guest_size arch = g.
Proof. intros E Hg. destruct (init_kvm_arch_sizes _ _ _ _ _ _ _ E) as [-> _]. by rewrite (proj2 (Z.ltb_lt _ _) Hg). Qed.

(** The size in the configuration file includes the I/O gap, and a restart adds
    the gap once more: a guest of 3.25 GiB or more grows with every restart. *)
Lemma restart_grows check acc mmap merge huge g arch arch2 :
  KVM_32BIT_GAP_START <= g -> g + 2 * KVM_32BIT_GAP_SIZE < 2 ^ 64 ->
  init_kvm_arch check acc mmap merge huge g = OK arch ->
  init_kvm_arch check acc mmap merge huge (MemRegions.guest_size arch) = OK arch2 ->
  MemRegions.guest_size arch2 = g + 2 * KVM_32BIT_GAP_SIZE.
Proof.
  intros Hg Hmax E E2. assert (0 < KVM_32BIT_GAP_SIZE) by done. assert (0 < KVM_32BIT_GAP_START) by done.
  destruct (init_kvm_arch_sizes _ _ _ _ _ _ _ E) as [Hs _].
  destruct (init_kvm_arch_sizes _ _ _ _ _ _ _ E2) as [-> _]. revert E2. rewrite Hs.
  rewrite (proj2 (Z.ltb_ge _ _) Hg). rewrite u64_small by (unfold is_u64; lia). intros _.
  rewrite (proj2 (Z.ltb_ge _ _)) by lia. rewrite u64_small by (unfold is_u64; lia). lia.
Qed.

(** The clock is that of the file loaded last. *)
Lemma last_clock fuel files no entry l l1 clock rest :
  load_checkpoint fuel files no true false entry l = OK (0, l1) -> 0 <= no ->
  files no = Some (clock ++ rest) -> length clock = sizeof_clock -> ld_clock l1 = Some (le_combine (take 8 clock)).
Proof.
  intros El Hno Hf Hclk. unfold load_checkpoint in El. cbn zeta in El.
  replace (Z.to_nat (no + 1 - 0)) with (Datatypes.S (Z.to_nat no)) in El by lia.
  apply load_files_clock in El as (f & Ef & ->); [|lia].
  rewrite Hf in Ef. injection Ef as <-.
  by rewrite take_app_le by (rewrite Hclk; unfold sizeof_clock; lia).
Qed.


(** *** A small guest restarted *)

Definition first_run : gmem * config * disk :=
  result_of (paged_guest, Incremental.small_config, fun _ => None)
    (take_checkpoint (fun _ => true) zero_clock [[Byte.x2a]] paged_guest Incremental.small_config (fun _ => None)).

Definition no_socket : Socket unit := {|
  sock_read s _ := (-1, [], s);
  sock_write s _ := (-1, s)
|}.

Definition small_world : world unit unit :=
  mkworld (fun _ => None) first_run.2 5000 (fun _ => true) 3 12
    (fun c => match c with KVM_CAP_ADJUST_CLOCK => KVM_CLOCK_TSC_STABLE | _ => 1 end) (fun _ => true)
    (fun _ => Some 0x7f0000000000) 0x3000 0x900 true no_socket tt 1 48
    (fun s _ _ => (ReadError, s)) tt (-1) (OK 0) 0 (fun _ => -1) (-1) (fun _ _ => (-1, [])) (fun _ => false) None.

