(* ===== verification/Aarch64.v ===== *)
(** * The aarch64 port

    src/uhyve-aarch64.c: the two walks of the guest's page tables
    ([virt_to_phys] for the hypercalls, [aarch64_virt_to_phys] for the
    debugger), the memory slots of [init_kvm_arch], the start of a core
    ([init_cpu_state]), the interrupt mask and [load_kernel].  Checkpoints and
    migration end the process on this architecture. *)

From S2P Require Import Prelude GuestMem Paging MemRegions CLib Config Utils Elf.

Open Scope uhyve_scope.

Module Arm.

(** ** Address translation *)

Definition PT_ADDR_MASK : Z := 0xFFFFFFFFF000.
Definition LOW48 : Z := 0xFFFFFFFFFFFF.

(** The walk for the hypercalls: every entry but 0 counts as present, pages are
    4 KiB. *)
Fixpoint virt_to_phys_for_table (m : gmem) (virtual_address table : Z) (level : nat) : outcome (Z * Z) :=
  let lv := Z.of_nat level * PAGE_MAP_BITS in
  let index := virtual_address >> PAGE_BITS >> lv .& PAGE_MAP_MASK in
  let page_mask := u64 (u64 (ONES64 << PAGE_BITS) << lv) .& LOW48 in
  let page_size := PAGE_SIZE << lv in
  entry ← load64 m (table + 8 * index);
  if entry =? 0 then OK (0, 0)
  else
    match level with
    | O =>
        let phy := entry .& page_mask in
        let off := virtual_address .& not64 page_mask .& LOW48 in
        OK (phy .| off, u64 (phy + page_size))
    | S level' => virt_to_phys_for_table m virtual_address (entry .& PT_ADDR_MASK) level'
    end.

Definition virt_to_phys (m : gmem) (elf_entry virtual_address : Z) : outcome (Z * Z) :=
  virt_to_phys_for_table m virtual_address (elf_entry + PAGE_SIZE) 3.

(** The walk for the debugger works with host pointers: [guest_mem] is the host
    address of the guest's memory. *)
Section Debugger.
Context (m : gmem) (guest_mem elf_entry static_mem_start static_mem_size : Z).

Definition load_host (host : Z) : outcome Z := load64 m (host - guest_mem).

Definition in_static (vaddr : Z) : bool :=
  (static_mem_start <=? vaddr) && (vaddr <? u64 (static_mem_start + static_mem_size)).

Definition aarch64_virt_to_phys (vaddr : Z) : outcome Z :=
  if in_static vaddr then OK vaddr
  else
    let pt0_index := (vaddr .& 0xFF8000000000) >> 39 in
    let pt1_index := (vaddr .& 0x7FC0000000) >> 30 in
    let pt2_index := (vaddr .& 0x3FE00000) >> 21 in
    let pt3_index := (vaddr .& 0x1FF000) >> 12 in
    let pt0_addr := u64 (elf_entry + PAGE_SIZE + guest_mem) .& PT_ADDR_MASK in
    e0 ← load_host (pt0_addr + 8 * pt0_index);
    let pt1_addr := e0 .& PT_ADDR_MASK + guest_mem in
    e1 ← load_host (pt1_addr + 8 * pt1_index);
    let pt2_addr := e1 .& PT_ADDR_MASK + guest_mem in
    e2 ← load_host (pt2_addr + 8 * pt2_index);
    let pt3_addr := e2 .& PT_ADDR_MASK + guest_mem in
    e3 ← load_host (pt3_addr + 8 * pt3_index);
    let paddr := e3 .& PT_ADDR_MASK in
    OK (paddr .| (vaddr .& 0xFFF)).
End Debugger.

(** *** The walk in arithmetic terms *)

Definition page_of (entry : Z) : Z := entry .& PT_ADDR_MASK.

Lemma page_of_spec entry : page_of entry = 4096 * ((entry mod 2 ^ 48) / 2 ^ 12).
Proof.
  unfold page_of. replace PT_ADDR_MASK with (Z.ldiff (Z.ones 48) (Z.ones 12)) by reflexivity.
  rewrite Z.ldiff_land, Z.land_assoc, <- Z.ldiff_land, Z.land_ones by lia.
  rewrite Z.ldiff_ones_r, Z.shiftl_mul_pow2, Z.shiftr_div_pow2 by lia. lia.
Qed.

Lemma page_of_range entry : 0 <= page_of entry /\ page_of entry + 4096 <= 2 ^ 48 /\ page_of entry mod 4096 = 0.
Proof.
  rewrite page_of_spec. pose proof (Z.mod_pos_bound entry (2 ^ 48) ltac:(lia)) as He.
  set (x := entry mod 2 ^ 48) in *.
  assert (0 <= x / 2 ^ 12 < 2 ^ 36) as Hq.
  { split; [apply Z.div_pos; lia|]. apply Z.div_lt_upper_bound; lia. }
  split; [lia|]. split; [lia|]. rewrite Z.mul_comm. apply Z.mod_mul. lia.
Qed.

Lemma page_or_offset entry va : page_of entry .| va mod 4096 = page_of entry + va mod 4096.
Proof.
  apply lor_add_disjoint with 12; [lia|apply Z.mod_pos_bound; lia|]. apply page_of_range.
Qed.

Lemma arm_walk_unfold m va table level :
  (level <= 3)%nat ->
  virt_to_phys_for_table m va table level =
  (entry ← load64 m (table + 8 * pt_index va level);
   if entry =? 0 then OK (0, 0)
   else
     match level with
     | O => OK (page_of entry + va mod 4096, page_of entry + 4096)
     | S level' => virt_to_phys_for_table m va (page_of entry) level'
     end).
Proof.
  intros Hl. destruct level; cbn [virt_to_phys_for_table]; rewrite index_level;
    destruct (load64 _ _) as [entry| | |]; cbn [mbind outcome_bind]; try done.
  destruct (entry =? 0); [done|]. change (Z.of_nat 0 * PAGE_MAP_BITS) with 0.
  rewrite !Z.shiftl_0_r. change (u64 (u64 (ONES64 << PAGE_BITS)) .& LOW48) with PT_ADDR_MASK.
  fold (page_of entry). rewrite <- Z.land_assoc. change (not64 PT_ADDR_MASK .& LOW48) with (Z.ones 12).
  rewrite Z.land_ones by lia. change (2 ^ 12) with 4096. rewrite page_or_offset.
  destruct (page_of_range entry) as (H0 & H1 & _). change PAGE_SIZE with 4096.
  rewrite u64_small; [done|]. unfold is_u64. lia.
Qed.

(** The walk depends on the page of the address only, up to the offset. *)
Lemma arm_walk_page m : forall level va table p e,
  (level <= 3)%nat -> virt_to_phys_for_table m va table level = OK (p, e) ->
  (p, e) = (0, 0) \/
  exists frame, p = frame + va mod 4096 /\ e = frame + 4096 /\ 0 <= frame /\ frame + 4096 <= 2 ^ 48 /\
    frame mod 4096 = 0 /\
    forall va', va' / 4096 = va / 4096 ->
      virt_to_phys_for_table m va' table level = OK (frame + va' mod 4096, frame + 4096).
Proof.
  assert (forall level va va', va' / 4096 = va / 4096 -> pt_index va' level = pt_index va level) as Hidx.
  { intros level va va' Hv. apply pt_index_same. apply div_coarser with 12; [|done].
    unfold page_bits, PAGE_BITS, PAGE_MAP_BITS. lia. }
  induction level as [|level IH]; intros va table p e Hl H; rewrite arm_walk_unfold in H by done;
    apply bind_OK_inv in H as (entry & Hload & H); (destruct (entry =? 0) eqn:E0; [left; congruence|]).
  - right. injection H as <- <-. destruct (page_of_range entry) as (? & ? & ?).
    exists (page_of entry). do 5 (split; [done|]). intros va' Hv.
    rewrite arm_walk_unfold by done. by rewrite (Hidx _ va va' Hv), Hload, bind_OK, E0.
  - destruct (IH va _ p e ltac:(lia) H) as [|(fr & H1 & H2 & H3 & H4 & H5 & Hw)]; [by left|right].
    exists fr. do 5 (split; [done|]). intros va' Hv.
    rewrite arm_walk_unfold by done. rewrite (Hidx _ va va' Hv), Hload, bind_OK, E0. by apply Hw.
Qed.

(** ** The interface to the hypercalls

    The hypercalls of Hypercall.v work on any translation with these laws; the
    instance for aarch64 depends on where the kernel is. *)
Definition arm_translation (elf_entry : Z) : AddrTranslation gmem := fun m va => virt_to_phys m elf_entry va.

Lemma arm_page_translation elf_entry :
  @PageTranslation gmem (arm_translation elf_entry) is_u64.
Proof.
  split; unfold translate, arm_translation, virt_to_phys.
  - intros m va p e Hva H. apply arm_walk_page in H as [[= -> ->]|(fr & -> & -> & ? & ? & _)]; [lia| |lia].
    pose proof (Z.mod_pos_bound va 4096 ltac:(lia)). lia.
  - intros m va p e i Hva H Hi. apply arm_walk_page in H as [[= -> ->]|(fr & -> & -> & ? & ? & _ & Hw)]; [lia| |lia].
    pose proof (Z.mod_pos_bound va 4096 ltac:(lia)). pose proof (Z.div_mod va 4096 ltac:(lia)).
    destruct (same_page va i 12) as [Hd Hm]; [lia|change (2 ^ 12) with 4096; lia|].
    change (2 ^ 12) with 4096 in *. split.
    + unfold is_u64 in *. pose proof (Z.div_mod (va + i) 4096 ltac:(lia)).
      pose proof (Z.mod_pos_bound (va + i) 4096 ltac:(lia)).
      assert (va / 4096 < 2 ^ 52) by (apply Z.div_lt_upper_bound; lia). lia.
    + rewrite (Hw (va + i) Hd), Hm. do 2 f_equal. lia.
Qed.

(** *** The two walks agree *)

Lemma masked_index va level mask :
  (level <= 3)%nat -> mask = 511 * 2 ^ page_bits level ->
  (va .& mask) >> page_bits level = pt_index va level.
Proof.
  intros Hl ->. pose proof (page_bits_bounds level Hl). rewrite Z.shiftr_land.
  rewrite !Z.shiftr_div_pow2 by lia. rewrite Z.div_mul by lia.
  change 511 with (Z.ones 9). rewrite Z.land_ones by lia. done.
Qed.

Lemma host_page m guest_mem entry i :
  load_host m guest_mem (entry .& PT_ADDR_MASK + guest_mem + 8 * i) = load64 m (page_of entry + 8 * i).
Proof. unfold load_host, page_of. f_equal. lia. Qed.

(** C35. Debugger and hypercalls see the same memory.  With the guest's memory
    and the kernel page-aligned and below 2^48, wherever the walk for the
    hypercalls finds a page, [aarch64_virt_to_phys] gives the same physical
    address; in the static memory of the kernel it gives the address itself,
    which is the same where the kernel maps itself identically. *)
Theorem aarch64_translations_agree m guest_mem elf_entry start size va p e :
  0 <= guest_mem -> guest_mem mod 4096 = 0 -> 0 <= elf_entry -> elf_entry mod 4096 = 0 ->
  elf_entry + PAGE_SIZE + guest_mem < 2 ^ 48 ->
  virt_to_phys m elf_entry va = OK (p, e) -> e <> 0 ->
  aarch64_virt_to_phys m guest_mem elf_entry start size va = OK (if in_static start size va then va else p).
Proof.
  intros Hg Hga He Hea Hmax H Hne. unfold aarch64_virt_to_phys. destruct (in_static start size va); [done|].
  change ((va .& 0xFF8000000000) >> 39) with ((va .& 0xFF8000000000) >> page_bits 3).
  change ((va .& 0x7FC0000000) >> 30) with ((va .& 0x7FC0000000) >> page_bits 2).
  change ((va .& 0x3FE00000) >> 21) with ((va .& 0x3FE00000) >> page_bits 1).
  change ((va .& 0x1FF000) >> 12) with ((va .& 0x1FF000) >> page_bits 0).
  rewrite !masked_index by (lia || done). cbn zeta.
  assert (u64 (elf_entry + PAGE_SIZE + guest_mem) .& PT_ADDR_MASK = elf_entry + PAGE_SIZE + guest_mem) as ->.
  { change PAGE_SIZE with 4096 in *. rewrite u64_small by (unfold is_u64; lia).
    change (?x .& PT_ADDR_MASK) with (page_of x). rewrite page_of_spec, Z.mod_small by lia.
    change (2 ^ 12) with 4096. Z.div_mod_to_equations. lia. }
  unfold virt_to_phys in H. rewrite arm_walk_unfold in H by lia.
  apply bind_OK_inv in H as (e0 & H0 & H). destruct (e0 =? 0); [congruence|].
  rewrite arm_walk_unfold in H by lia. apply bind_OK_inv in H as (e1 & H1 & H). destruct (e1 =? 0); [congruence|].
  rewrite arm_walk_unfold in H by lia. apply bind_OK_inv in H as (e2 & H2 & H). destruct (e2 =? 0); [congruence|].
  rewrite arm_walk_unfold in H by lia. apply bind_OK_inv in H as (e3 & H3 & H). destruct (e3 =? 0); [congruence|].
  injection H as <- <-.
  assert (load_host m guest_mem (elf_entry + PAGE_SIZE + guest_mem + 8 * pt_index va 3) = OK e0) as ->
    by (rewrite <- H0; unfold load_host; f_equal; lia).
  rewrite bind_OK.
  rewrite host_page, H1, bind_OK, host_page, H2, bind_OK, host_page, H3, bind_OK.
  fold (page_of e3). change 0xFFF with (Z.ones 12). rewrite Z.land_ones by lia. change (2 ^ 12) with 4096.
  by rewrite page_or_offset.
Qed.

(** Four tables behind the kernel at 0x1000, mapping address 0 to 0x6000. *)
Definition arm_guest : gmem :=
  foldl (fun m '(a, v) => poken m a (le_split 8 v)) (fresh_mem 0x7000)
    [(0x2000, 0x3003); (0x3000, 0x4003); (0x4000, 0x5003); (0x5000, 0x6703)].

Lemma aarch64_translations_agree_witness :
  virt_to_phys arm_guest 0x1000 0x10 = OK (0x6010, 0x7000) /\
  aarch64_virt_to_phys arm_guest 0x7f0000000000 0x1000 0x1000 0x1000 0x10 = OK 0x6010.
Proof.
  assert (virt_to_phys arm_guest 0x1000 0x10 = OK (0x6010, 0x7000)) as E by (vm_compute; reflexivity).
  split; [exact E|].
  rewrite (aarch64_translations_agree arm_guest 0x7f0000000000 0x1000 0x1000 0x1000 0x10 0x6010 0x7000).
  - reflexivity.
  - lia.
  - reflexivity.
  - lia.
  - reflexivity.
  - vm_compute. reflexivity.
  - exact E.
  - lia.
Defined.

(** ** Memory slots *)

Definition KVM_MEM_READONLY : Z := 2.

Record arm_region := mkarmregion { r_slot : Z; r_guest_phys : Z; r_size : Z; r_userspace : Z; r_flags : Z }.

Record arm_state := mkarm {
  arm_guest_mem : Z;
  arm_advices : list advice;
  arm_regions : list arm_region
}.

Section InitKvmArch.
Context (check_readonly_mem check_irqfd : Z) (mmap : Z -> option Z).

(** [merge && strcmp(merge, "0") != 0], used for both advices: the value of
    HERMIT_HUGEPAGE is read but not looked at. *)
Definition set_and_not_0 (v : option (list byte)) : bool :=
  match v with Some v => if decide (v = str "0") then false else true | None => false end.

Definition init_kvm_arch (HERMIT_MERGEABLE HERMIT_HUGEPAGE : option (list byte)) (guest_size : Z)
    : outcome arm_state :=
  mem ← match mmap guest_size with Some p => OK p | None => Exited 1 end;
  let merge := if set_and_not_0 HERMIT_MERGEABLE then [MADV_MERGEABLE] else [] in
  let hugepage := if set_and_not_0 HERMIT_MERGEABLE then [MADV_HUGEPAGE] else [] in
  if check_readonly_mem <=? 0 then Exited 1
  else
    let regions :=
      [mkarmregion 0 0 PAGE_SIZE mem KVM_MEM_READONLY;
       mkarmregion 1 PAGE_SIZE (u64 (guest_size - PAGE_SIZE)) (u64 (mem + PAGE_SIZE)) 0] in
    if check_irqfd <=? 0 then Exited 1
    else OK (mkarm mem (merge ++ hugepage) regions).
End InitKvmArch.

(** The host address behind a guest-physical address. *)
Definition backing (rs : list arm_region) (x : Z) : option (Z * bool) :=
  match List.find (fun r => (r_guest_phys r <=? x) && (x <? r_guest_phys r + r_size r)) rs with
  | Some r => Some (r_userspace r + (x - r_guest_phys r), r_flags r =? KVM_MEM_READONLY)
  | None => None
  end.

(** The slots back exactly the guest's memory, in order, and only the first
    page is read-only. *)
Lemma init_kvm_arch_backing ro irqfd mmap merge huge size st x :
  PAGE_SIZE <= size -> arm_guest_mem st + size < 2 ^ 64 -> 0 <= arm_guest_mem st ->
  init_kvm_arch ro irqfd mmap merge huge size = OK st ->
  backing (arm_regions st) x =
    if (0 <=? x) && (x <? size) then Some (arm_guest_mem st + x, x <? PAGE_SIZE) else None.
Proof.
  intros Hsz Hm Hm0 E. unfold init_kvm_arch in E. destruct (mmap size) as [mem|]; [|done]. rewrite bind_OK in E.
  destruct (ro <=? 0); [done|]. destruct (irqfd <=? 0); [done|]. injection E as <-. cbn in Hm, Hm0 |- *.
  unfold backing. change PAGE_SIZE with 4096 in *. rewrite !u64_small by (unfold is_u64; lia).
  cbn [List.find r_guest_phys r_size r_userspace r_flags].
  destruct (Z.leb_spec 0 x), (Z.ltb_spec x (0 + 4096)); cbn [andb r_userspace r_guest_phys r_flags].
  - rewrite (proj2 (Z.ltb_lt x size)), (proj2 (Z.ltb_lt x 4096)) by lia. do 2 f_equal. lia.
  - rewrite (proj2 (Z.ltb_ge x 4096)), (proj2 (Z.leb_le 4096 x)) by lia. cbn [andb].
    replace (4096 + (size - 4096)) with size by lia. destruct (Z.ltb_spec x size); [|done].
    cbn [r_userspace r_guest_phys r_flags]. do 2 f_equal. lia.
  - rewrite (proj2 (Z.leb_gt 4096 x)) by lia. done.
  - rewrite (proj2 (Z.leb_gt 4096 x)) by lia. done.
Qed.

(** HERMIT_HUGEPAGE makes no difference on aarch64. *)
Lemma hugepage_ignored ro irqfd mmap merge huge huge' size :
  init_kvm_arch ro irqfd mmap merge huge size = init_kvm_arch ro irqfd mmap merge huge' size.
Proof. reflexivity. Qed.

(** ** The cores *)

(** arch/arm64/include/uapi/asm/ptrace.h and kvm.h *)
Definition PSR_F_BIT : Z := 0x40.
Definition PSR_I_BIT : Z := 0x80.
Definition PSR_A_BIT : Z := 0x100.
Definition PSR_D_BIT : Z := 0x200.
Definition PSR_MODE_EL1h : Z := 5.
Definition KVM_ARM_TARGET_CORTEX_A57 : Z := 2.
Definition KVM_ARM_TARGET_CORTEX_A53 : Z := 4.
Definition KVM_ARM_TARGET_GENERIC_V8 : Z := 5.

Inductive arm_reg := PC | PSTATE.
Inductive vcpu_ioctl :=
| KVM_ARM_VCPU_INIT (target : Z)
| KVM_SET_MP_STATE_RUNNABLE
| KVM_SET_ONE_REG (r : arm_reg) (v : Z)
| KVM_SET_NR_IRQS (n : Z)
| KVM_VGIC_INIT.

(** What a core is given before it waits for its predecessor; [preferred] is
    what KVM_ARM_PREFERRED_TARGET answers. *)
Definition init_cpu_ioctls (preferred : option Z) (gic_fd elf_entry : Z) : list vcpu_ioctl :=
  let target :=
    match preferred with
    | Some t =>
        if (t =? KVM_ARM_TARGET_CORTEX_A57) || (t =? KVM_ARM_TARGET_CORTEX_A53)
        then t else KVM_ARM_TARGET_GENERIC_V8
    | None => KVM_ARM_TARGET_GENERIC_V8
    end in
  [KVM_ARM_VCPU_INIT target; KVM_SET_MP_STATE_RUNNABLE;
   KVM_SET_ONE_REG PSTATE (PSR_D_BIT .| PSR_A_BIT .| PSR_I_BIT .| PSR_F_BIT .| PSR_MODE_EL1h);
   KVM_SET_ONE_REG PC elf_entry] ++
  (if 0 <? gic_fd then [KVM_SET_NR_IRQS (1 * 32 + 32); KVM_VGIC_INIT] else []).

(** A turn of the loop on the number of cores online: the core waits, or it
    announces itself and enters the guest. *)
Definition init_cpu_turn (mboot cpuid : Z) (m : gmem) : outcome (gmem * bool) :=
  online ← load32 m (mboot + 0x120);
  if online <? cpuid then OK (m, false)
  else m ← store32 m (mboot + 0x130) cpuid; OK (m, true).

(** The fast interrupt mask in PSTATE. *)
Definition get_fiq_status (pstate : Z) : Z := if has pstate PSR_F_BIT then 1 else 0.
Definition mask_fiqs (pstate : Z) : Z := pstate .| PSR_F_BIT.
Definition unmask_fiqs (pstate : Z) : Z := pstate .& not64 PSR_F_BIT.

Lemma fiq_status_masked p : get_fiq_status (mask_fiqs p) = 1.
Proof.
  unfold get_fiq_status, mask_fiqs. change PSR_F_BIT with (2 ^ 6). rewrite has_pow2 by lia.
  by rewrite Z.lor_spec, Z.pow2_bits_true, orb_true_r by lia.
Qed.

Lemma fiq_status_unmasked p : get_fiq_status (unmask_fiqs p) = 0.
Proof.
  unfold get_fiq_status, unmask_fiqs, has. rewrite <- Z.land_assoc.
  change (not64 PSR_F_BIT .& PSR_F_BIT) with 0. by rewrite Z.land_0_r.
Qed.

(** Both leave the other bits of a 64-bit PSTATE alone. *)
Lemma fiqs_other_bits p i :
  is_u64 p -> i <> 6 -> Z.testbit (mask_fiqs p) i = Z.testbit p i /\ Z.testbit (unmask_fiqs p) i = Z.testbit p i.
Proof.
  intros Hp Hi. destruct (Z.ltb_spec i 0); [by rewrite !Z.testbit_neg_r by done|].
  unfold mask_fiqs, unmask_fiqs. change PSR_F_BIT with (2 ^ 6). split.
  - rewrite Z.lor_spec, Z.pow2_bits_eqb by lia. destruct (Z.eqb_spec 6 i); [lia|]. by rewrite orb_false_r.
  - rewrite Z.land_spec. destruct (Z.ltb_spec i 64).
    + unfold not64, u64. rewrite Z.mod_pow2_bits_low, Z.lnot_spec, Z.pow2_bits_eqb by lia.
      destruct (Z.eqb_spec 6 i); [lia|]. by rewrite andb_true_r.
    + by rewrite (testbit_above_pow2 p 64 i) by (done || lia).
Qed.

(** [timer_handler], [migration_handler], [load_checkpoint] and the functions
    they use. *)
Definition not_supported {A} : outcome A := Exited 1.

(** ** The loader *)

Definition EM_AARCH64 : Z := 183.

Definition is_hermit (hdr : Elf64_Ehdr) : bool :=
  let id i := match e_ident hdr !! i with Some b => char b | None => -1 end in
  (id 0%nat =? 0x7f) && (id 1%nat =? 69) && (id 2%nat =? 76) && (id 3%nat =? 70) &&
  (id 4%nat =? ELFCLASS64) && (id 7%nat =? HERMIT_ELFOSABI) &&
  (e_type hdr =? ET_EXEC) && (e_machine hdr =? EM_AARCH64).

Section Loader.
Context {F : Type} (pread : F -> Z -> Z -> read_result * F) (fuel : nat) (env : setup) (ncores : Z).

(** Guest memory, [mboot] and [klog], [elf_entry], the static memory and the
    file. *)
Record loader := mkloader {
  l_mem : gmem;
  l_mboot : option Z;
  l_klog : option Z;
  l_entry : Z;
  l_static : Z * Z;                (* static_mem_start, static_mem_size *)
  l_file : F
}.

(** The boot information is inside the kernel, at its start. *)
Definition init_kernel (m : gmem) (paddr : Z) : outcome gmem :=
  freq ← s_cpufreq env;
  set_fields m (paddr - GUEST_OFFSET) (
    [(0x100, le64 paddr);
     (0x108, le64 (u64 (s_guest_size env - PAGE_SIZE)));
     (0x110, le32 freq);
     (0x128, le32 ncores);
     (0x130, le32 0);
     (0x148, le32 1)] ++
    (if s_verbose env then [(0x174, le32 UHYVE_UART_PORT)] else []) ++
    [(0x18c, le64 (u64 (s_time env * 1000000)))]).

(** One PT_LOAD segment; the state is memory, [mboot], [klog], the static
    memory, [pstart] and the file. *)
Definition state : Type := gmem * option Z * option Z * (Z * Z) * Z * F.

Definition load_segment (ph : Elf64_Phdr) (st : state) : outcome (Z * state) :=
  let '(m, mboot, klog, static, pstart, f) := st in
  let paddr := p_paddr ph in
  let static := if negb (p_type ph =? PT_TLS) then (paddr, p_memsz ph) else static in
  '(ret, bytes, f) ← pread_in_full pread fuel f (p_filesz ph) (p_offset ph);
  m ← store m (paddr - GUEST_OFFSET) bytes;
  if s32 ret <? 0 then OK (s32 ret, (m, mboot, klog, static, pstart, f))
  else
    let klog := match klog with Some a => Some a | None => Some (paddr + 0x1000 - GUEST_OFFSET) end in
    let mboot := match mboot with Some a => Some a | None => Some (paddr - GUEST_OFFSET) end in
    '(m, pstart) ← (if pstart =? 0 then m ← init_kernel m paddr; OK (m, paddr) else OK (m, pstart));
    m ← set_fields m (pstart - GUEST_OFFSET) [(0x158, le64 (u64 (paddr + p_memsz ph - pstart)))];
    OK (0, (m, mboot, klog, static, pstart, f)).

Fixpoint load_segments (phdr : list byte) (n : nat) (ph_i : Z) (st : state) : outcome (Z * state) :=
  match n with
  | O => OK (0, st)
  | S n =>
      ph ← phdr_at phdr ph_i;
      if negb (p_type ph =? PT_LOAD) then load_segments phdr n (ph_i + 1) st
      else
        '(ret, st) ← load_segment ph st;
        if ret <? 0 then OK (ret, st) else load_segments phdr n (ph_i + 1) st
  end.

Definition load_kernel (fd : Z) (malloc : Z -> bool) (l : loader) : outcome (Z * loader) :=
  let out ret f entry : outcome (Z * loader) :=
    OK (ret, mkloader (l_mem l) (l_mboot l) (l_klog l) entry (l_static l) f) in
  if fd =? -1 then out (-1) (l_file l) (l_entry l)
  else
    '(ret, bytes, f) ← pread_in_full pread fuel (l_file l) sizeof_ehdr 0;
    if s32 ret <? 0 then out (s32 ret) f (l_entry l)
    else if Z.of_nat (length bytes) <? sizeof_ehdr then Undefined
    else
      let hdr := decode_ehdr bytes in
      if negb (is_hermit hdr) then out (-1) f (l_entry l)
      else
        let entry := e_entry hdr in
        let buflen := e_phentsize hdr * e_phnum hdr in
        if 2 ^ 31 <=? buflen then Undefined
        else if negb (malloc buflen) then out (-1) f entry
        else
          '(ret, phdr, f) ← pread_in_full pread fuel f buflen (e_phoff hdr);
          if s32 ret <? 0 then out (s32 ret) f entry
          else
            '(ret, st) ← load_segments phdr (Z.to_nat (e_phnum hdr)) 0
                           (l_mem l, l_mboot l, l_klog l, l_static l, 0, f);
            let '(m, mboot, klog, static, _, f) := st in
            OK (ret, mkloader m mboot klog entry static f).
End Loader.
Arguments mkloader {F}.
Arguments l_mem {F}.
Arguments l_mboot {F}.
Arguments l_klog {F}.
Arguments l_entry {F}.
Arguments l_static {F}.
Arguments l_file {F}.

(** ** What the loader leaves *)

Definition is_load (ph : Elf64_Phdr) : bool := p_type ph =? PT_LOAD.

Section Load.
Context {F : Type} (pread : F -> Z -> Z -> read_result * F) (fuel : nat) (env : setup) (ncores : Z).
Context (content : list byte) (interrupts : F -> nat) (Hfile : regular_file pread content interrupts).
Context (freq : Z) (Hfreq : s_cpufreq env = OK freq) (Hsize : PAGE_SIZE <= s_guest_size env < 2 ^ 64).
Context (Hcores : is_u32 ncores).
(** A bound on the interruptions still to come. *)
Context (budget : nat).

Definition loadable (size : Z) (ph : Elf64_Phdr) : Prop :=
  0 <= p_filesz ph < 2 ^ 31 /\ 0 <= p_offset ph /\ p_offset ph + p_filesz ph <= Z.of_nat (length content) /\
  0 < p_paddr ph < 2 ^ 64 /\ p_paddr ph + p_filesz ph <= size /\
  (Z.to_nat (p_filesz ph) + budget + 1 < fuel)%nat.

(** The bytes of the boot information of a kernel that starts at [pstart]. *)
Definition in_info (pstart x : Z) : Prop := pstart + 0x100 <= x < pstart + 0x194.

Definition info_ok (m : gmem) (pstart last : Z) : Prop :=
  load64 m (pstart + 0x100) = OK pstart /\ load64 m (pstart + 0x108) = OK (s_guest_size env - PAGE_SIZE) /\
  load32 m (pstart + 0x128) = OK ncores /\ load64 m (pstart + 0x158) = OK (u64 (last - pstart)).

Lemma info_apart m m' pstart last x n :
  info_ok m pstart last -> x + n <= pstart + 0x100 \/ pstart + 0x194 <= x -> msize m' = msize m ->
  (forall y, y < x \/ x + n <= y -> peek m' y = peek m y) -> info_ok m' pstart last.
Proof.
  intros (H1 & H2 & H3 & H4) Hx Hs Hp. unfold info_ok.
  rewrite <- H1, <- H2, <- H3, <- H4. repeat split; apply load_le_ext; try done; intros y Hy; apply Hp; lia.
Qed.

Lemma arm_init_kernel m paddr :
  0 < paddr < 2 ^ 64 -> paddr + 0x194 <= msize m ->
  exists m', init_kernel env ncores m paddr = OK m' /\ msize m' = msize m /\
    (forall x, ~ in_info paddr x -> peek m' x = peek m x) /\
    load64 m' (paddr + 0x100) = OK paddr /\ load64 m' (paddr + 0x108) = OK (s_guest_size env - PAGE_SIZE) /\
    load32 m' (paddr + 0x128) = OK ncores.
Proof.
  intros Hp Hm. unfold init_kernel. rewrite Hfreq, bind_OK. unfold GUEST_OFFSET. rewrite Z.sub_0_r.
  assert (exists tail, (if s_verbose env then [(0x174, le32 UHYVE_UART_PORT)] else []) ++
      [(0x18c, le64 (u64 (s_time env * 1000000)))] = tail /\
    Forall (fun '(off, bs) => 0x174 <= off /\ off + Z.of_nat (length bs) <= 0x194) tail) as (tail & Etail & Htail).
  { eexists. split; [reflexivity|]. unfold le32, le64.
    destruct (s_verbose env); cbn [app]; repeat constructor; rewrite ?length_le_split; lia. }
  rewrite Etail. clear Etail.
  assert (forall off n, off + n <= 0x174 -> apart off n tail) as Hap.
  { intros off n Ho. eapply list.Forall_impl; [exact Htail|]. intros [o bs]. lia. }
  set (fields := _ ++ tail).
  destruct (set_fields_within 0x100 0x194 fields m paddr) as (m' & E & Hs & Hpk); [|lia|lia|].
  { apply Forall_app. split; [unfold le32, le64; repeat constructor; rewrite ?length_le_split; lia|].
    eapply list.Forall_impl; [exact Htail|]. intros [o bs]. lia. }
  exists m'. split; [done|]. split; [done|].
  split; [intros x Hx; apply Hpk; unfold in_info in Hx; lia|].
  assert (forall off n l, Forall (fun '(o, bs) => off + n <= o \/ o + Z.of_nat (length bs) <= off) l ->
    off + n <= 0x174 -> apart off n (l ++ tail)) as Hap2.
  { intros off n l Hl Ho. apply Forall_app. split; [exact Hl|by apply Hap]. }
  split; [|split].
  - apply (set_fields_load [] _ _ _ _ _ _ E); [|unfold is_u64; lia].
    apply (Hap2 _ _ [_; _; _; _; _]); [|lia]. unfold le32, le64. repeat constructor; rewrite ?length_le_split; lia.
  - rewrite (set_fields_load [_] _ _ _ _ _ _ E); [| |apply u64_range].
    + f_equal. apply u64_small. change PAGE_SIZE with 4096 in *. unfold is_u64. lia.
    + apply (Hap2 _ _ [_; _; _; _]); [|lia]. unfold le32, le64. repeat constructor; rewrite ?length_le_split; lia.
  - rewrite (set_fields_load_le 4 [_; _; _] 0x128 ncores _ _ _ _ E).
    + f_equal. by apply Z.mod_small.
    + apply (Hap2 _ _ [_; _]); [|lia]. unfold le32, le64. repeat constructor; rewrite ?length_le_split; lia.
Qed.

(** What the segments make of a byte, and where the kernel ends. *)
Definition image_byte (phs : list Elf64_Phdr) (x : Z) (old : byte) : byte :=
  foldl (fun b ph => if is_load ph && seg_covers ph x then seg_byte content ph x else b) old phs.
Definition image_end (phs : list Elf64_Phdr) (e : Z) : Z :=
  foldl (fun e ph => if is_load ph then p_paddr ph + p_memsz ph else e) e phs.
Definition static_memory (phs : list Elf64_Phdr) (st : Z * Z) : Z * Z :=
  foldl (fun st ph => if is_load ph then (p_paddr ph, p_memsz ph) else st) st phs.

Lemma load_not_tls ph : is_load ph = true -> negb (p_type ph =? PT_TLS) = true.
Proof. unfold is_load, PT_LOAD, PT_TLS. rewrite Z.eqb_eq. intros ->. done. Qed.

(** The read of a segment into memory. *)
Lemma read_segment m ph f :
  loadable (msize m) ph -> (interrupts f <= budget)%nat ->
  exists ret bytes f', pread_in_full pread fuel f (p_filesz ph) (p_offset ph) = OK (ret, bytes, f') /\
    (s32 ret <? 0) = false /\ (interrupts f' <= budget)%nat /\
    store m (p_paddr ph - GUEST_OFFSET) bytes = OK (poken m (p_paddr ph) bytes) /\
    length bytes = Z.to_nat (p_filesz ph) /\
    forall x, peek (poken m (p_paddr ph) bytes) x = if seg_covers ph x then seg_byte content ph x else peek m x.
Proof.
  intros (Hf & Ho & Hlen & Hp & Hsz & Hfu) Hi.
  destruct (pread_in_full_ok pread content interrupts f (p_filesz ph) (p_offset ph) fuel Hfile
    ltac:(unfold SSIZE_MAX; lia) Ho ltac:(lia)) as (f' & E & Hi').
  destruct (segment_bytes content ph 0 Ho ltac:(lia) Hlen) as [Hb _]. cbn zeta in Hb.
  eexists _, _, f'. split; [exact E|]. rewrite Hb. split.
  - unfold s32. rewrite signed_small by lia. apply Z.ltb_ge. lia.
  - split; [lia|]. unfold GUEST_OFFSET. rewrite Z.sub_0_r.
    split; [apply store_ok; rewrite ?Hb; lia|]. split; [done|]. intros x. by apply (segment_bytes content ph x Ho ltac:(lia) Hlen).
Qed.

Lemma size_field_ok m pstart v :
  0 < pstart -> pstart + 0x194 <= msize m ->
  exists m', set_fields m (pstart - GUEST_OFFSET) [(0x158, le64 (u64 v))] = OK m' /\ msize m' = msize m /\
    load64 m' (pstart + 0x158) = OK (u64 v) /\
    forall x, x < pstart + 0x158 \/ pstart + 0x160 <= x -> peek m' x = peek m x.
Proof.
  intros Hp Hm. unfold GUEST_OFFSET. rewrite Z.sub_0_r.
  destruct (set_fields_within 0x158 0x160 [(0x158, le64 (u64 v))] m pstart) as (m' & E & Hs & Hpk); [|lia|lia|].
  { unfold le64. repeat constructor; rewrite ?length_le_split; lia. }
  exists m'. split; [done|]. split; [done|]. split; [|done].
  apply (set_fields_load [] _ _ [] _ _ _ E); [apply Forall_nil_2|apply u64_range].
Qed.

(** The size field alone changes. *)
Lemma info_size m m' pstart last last' :
  info_ok m pstart last -> msize m' = msize m ->
  (forall x, x < pstart + 0x158 \/ pstart + 0x160 <= x -> peek m' x = peek m x) ->
  load64 m' (pstart + 0x158) = OK (u64 (last' - pstart)) -> info_ok m' pstart last'.
Proof.
  intros (H1 & H2 & H3 & _) Hs Hp H4. unfold info_ok. rewrite <- H1, <- H2, <- H3.
  split_and!; [..|done]; apply load_le_ext; try done; intros y Hy; apply Hp; lia.
Qed.

Lemma load_first m mboot klog static f ph :
  is_load ph = true -> loadable (msize m) ph -> (interrupts f <= budget)%nat -> p_paddr ph + 0x194 <= msize m ->
  exists m' mboot' klog' f', load_segment pread fuel env ncores ph (m, mboot, klog, static, 0, f) =
      OK (0, (m', mboot', klog', (p_paddr ph, p_memsz ph), p_paddr ph, f')) /\
    msize m' = msize m /\ (interrupts f' <= budget)%nat /\
    info_ok m' (p_paddr ph) (p_paddr ph + p_memsz ph) /\
    forall x, ~ in_info (p_paddr ph) x ->
      peek m' x = if seg_covers ph x then seg_byte content ph x else peek m x.
Proof.
  intros Hl Hph Hi Hm. pose proof Hph as (_ & _ & _ & Hp & _ & _).
  destruct (read_segment m ph f Hph Hi) as (ret & bytes & f' & E & Hr & Hi' & Es & _ & Hpk).
  unfold load_segment. rewrite (load_not_tls _ Hl), E, bind_OK. cbn match. rewrite Es, bind_OK, Hr.
  change (0 =? 0) with true. cbn match.
  destruct (arm_init_kernel (poken m (p_paddr ph) bytes) (p_paddr ph) Hp Hm) as (m1 & E1 & Hs1 & Hp1 & H1 & H2 & H3).
  rewrite E1, !bind_OK. cbn match.
  destruct (size_field_ok m1 (p_paddr ph) (p_paddr ph + p_memsz ph - p_paddr ph)) as (m2 & E2 & Hs2 & H4 & Hp2);
    [lia|by rewrite Hs1|].
  rewrite E2, bind_OK. eexists m2, _, _, f'. split; [reflexivity|]. split; [by rewrite Hs2, Hs1|]. split; [done|].
  split.
  - unfold info_ok. rewrite <- H1, <- H2, <- H3. split_and!; [..|done];
      apply load_le_ext; try done; intros y Hy; apply Hp2; lia.
  - intros x Hx. rewrite Hp2 by (unfold in_info in Hx; lia). rewrite Hp1 by done. apply Hpk.
Qed.

Lemma load_other m mboot klog static pstart last f ph :
  is_load ph = true -> loadable (msize m) ph -> (interrupts f <= budget)%nat ->
  0 < pstart -> pstart + 0x194 <= msize m -> info_ok m pstart last ->
  p_paddr ph + p_filesz ph <= pstart + 0x100 \/ pstart + 0x194 <= p_paddr ph ->
  exists m' mboot' klog' f', load_segment pread fuel env ncores ph (m, mboot, klog, static, pstart, f) =
      OK (0, (m', mboot', klog', (p_paddr ph, p_memsz ph), pstart, f')) /\
    msize m' = msize m /\ (interrupts f' <= budget)%nat /\
    info_ok m' pstart (p_paddr ph + p_memsz ph) /\
    forall x, ~ in_info pstart x -> peek m' x = if seg_covers ph x then seg_byte content ph x else peek m x.
Proof.
  intros Hl Hph Hi Hpos Hm Hok Hap.
  destruct (read_segment m ph f Hph Hi) as (ret & bytes & f' & E & Hr & Hi' & Es & Hb & Hpk).
  unfold load_segment. rewrite (load_not_tls _ Hl), E, bind_OK. cbn match. rewrite Es, bind_OK, Hr.
  rewrite (proj2 (Z.eqb_neq pstart 0)) by lia. rewrite bind_OK. cbn match.
  set (m1 := poken m (p_paddr ph) bytes).
  destruct (size_field_ok m1 pstart (p_paddr ph + p_memsz ph - pstart)) as (m2 & E2 & Hs2 & H4 & Hp2);
    [lia|done|].
  rewrite E2, bind_OK. eexists m2, _, _, f'. split; [reflexivity|]. split; [by rewrite Hs2|]. split; [done|].
  pose proof Hph as (Hf & _). split.
  - apply (info_size m1 m2 pstart last); try done.
    apply (info_apart m m1 pstart last (p_paddr ph) (p_filesz ph)); try done.
    intros y Hy. unfold m1. apply peek_poken_out. rewrite Hb. lia.
  - intros x Hx. rewrite Hp2 by (unfold in_info in Hx; lia). apply Hpk.
Qed.

(** A segment that keeps clear of the boot information of a kernel at [pstart]. *)
Definition clear_of (pstart : Z) (ph : Elf64_Phdr) : Prop :=
  p_paddr ph + p_filesz ph <= pstart + 0x100 \/ pstart + 0x194 <= p_paddr ph.

Lemma arm_image_cons ph phs x b :
  image_byte (ph :: phs) x b =
    image_byte phs x (if is_load ph && seg_covers ph x then seg_byte content ph x else b).
Proof. done. Qed.

(** The segments behind the first one. *)
Lemma load_rest buf rest : forall ph_i m mboot klog static pstart last f,
  (forall j ph, rest !! j = Some ph -> phdr_at buf (ph_i + Z.of_nat j) = OK ph) ->
  Forall (fun ph => is_load ph = true -> loadable (msize m) ph /\ clear_of pstart ph) rest ->
  (interrupts f <= budget)%nat -> 0 < pstart -> pstart + 0x194 <= msize m -> info_ok m pstart last ->
  exists m' mboot' klog' f',
    load_segments pread fuel env ncores buf (length rest) ph_i (m, mboot, klog, static, pstart, f) =
      OK (0, (m', mboot', klog', static_memory rest static, pstart, f')) /\
    msize m' = msize m /\ info_ok m' pstart (image_end rest last) /\
    forall x, ~ in_info pstart x -> peek m' x = image_byte rest x (peek m x).
Proof.
  induction rest as [|ph rest IH]; intros ph_i m mboot klog static pstart last f Hbuf Hld Hi Hpos Hm Hok.
  { by exists m, mboot, klog, f. }
  cbn [length load_segments]. pose proof (Hbuf 0%nat ph eq_refl) as H0.
  rewrite Z.add_0_r in H0. rewrite H0, bind_OK.
  apply Forall_cons in Hld as [Hph Hld].
  assert (forall j p, rest !! j = Some p -> phdr_at buf (ph_i + 1 + Z.of_nat j) = OK p) as Hbuf'.
  { intros j p Hj. rewrite <- (Hbuf (S j) p Hj). f_equal. lia. }
  cbn [image_end static_memory foldl]. change (p_type ph =? PT_LOAD) with (is_load ph).
  destruct (is_load ph) eqn:El; cbn [negb].
  - destruct (Hph eq_refl) as [Hl Hc].
    destruct (load_other m mboot klog static pstart last f ph El Hl Hi Hpos Hm Hok Hc)
      as (m1 & mb1 & k1 & f1 & -> & Hs & Hi1 & Hok1 & Hp1). rewrite bind_OK. cbn match.
    change (0 <? 0) with false. cbn match.
    destruct (IH (ph_i + 1) m1 mb1 k1 (p_paddr ph, p_memsz ph) pstart (p_paddr ph + p_memsz ph) f1 Hbuf')
      as (m' & mb' & k' & f' & E & Hs' & Hok' & Hp'); rewrite ?Hs; try done.
    exists m', mb', k', f'. split; [exact E|]. split; [congruence|]. split; [exact Hok'|].
    intros x Hx. rewrite Hp', Hp1 by done. by rewrite arm_image_cons, El.
  - destruct (IH (ph_i + 1) m mboot klog static pstart last f Hbuf' Hld Hi Hpos Hm Hok)
      as (m' & mb' & k' & f' & E & Hs' & Hok' & Hp').
    exists m', mb', k', f'. split; [exact E|]. split; [done|]. split; [exact Hok'|].
    intros x Hx. rewrite Hp' by done. by rewrite arm_image_cons, El.
Qed.

(** Headers of other kinds in front of the first segment. *)
Lemma load_skip buf skip : forall ph_i n st,
  (forall j ph, skip !! j = Some ph -> phdr_at buf (ph_i + Z.of_nat j) = OK ph) ->
  Forall (fun ph => is_load ph = false) skip ->
  load_segments pread fuel env ncores buf (length skip + n) ph_i st =
    load_segments pread fuel env ncores buf n (ph_i + Z.of_nat (length skip)) st.
Proof.
  induction skip as [|ph skip IH]; intros ph_i n st Hbuf Hsk; [by rewrite Z.add_0_r|].
  apply Forall_cons in Hsk as [Hph Hsk]. cbn [length Nat.add load_segments].
  pose proof (Hbuf 0%nat ph eq_refl) as H0. rewrite Z.add_0_r in H0. rewrite H0, bind_OK.
  change (p_type ph =? PT_LOAD) with (is_load ph). rewrite Hph. cbn [negb].
  rewrite IH; [f_equal; lia| |done]. intros j p Hj. rewrite <- (Hbuf (S j) p Hj). f_equal. lia.
Qed.

Lemma no_loads skip :
  Forall (fun ph => is_load ph = false) skip ->
  (forall phs x b, image_byte (skip ++ phs) x b = image_byte phs x b) /\
  (forall phs e, image_end (skip ++ phs) e = image_end phs e) /\
  (forall phs st, static_memory (skip ++ phs) st = static_memory phs st).
Proof.
  induction 1 as [|ph skip Hph _ (IH1 & IH2 & IH3)]; [done|].
  split_and!; intros; cbn [app]; unfold image_byte, image_end, static_memory in *; cbn [foldl];
    rewrite Hph; cbn [andb]; auto.
Qed.

(** A HermitCore executable for this processor; [first] is its first loaded
    segment, and the others keep clear of the boot information in it. *)
Record bootable (hdr : Elf64_Ehdr) (phs : list Elf64_Phdr) (first : Elf64_Phdr) (size : Z) : Prop := {
  arm_file : program_headers content hdr phs;
  arm_hermit : is_hermit hdr = true;
  arm_first : exists skip rest, phs = skip ++ first :: rest /\ Forall (fun ph => is_load ph = false) skip /\
    Forall (fun ph => is_load ph = true -> loadable size ph /\ clear_of (p_paddr first) ph) rest;
  arm_loads : is_load first = true /\ loadable size first /\ p_paddr first + 0x194 <= size
}.


(** The kernel on aarch64.  For a HermitCore executable of this processor
    whose segments lie in the file and in guest memory, and behind the first
    one clear of the boot information in it, [load_kernel] returns 0 however
    the file system cuts the reads; afterwards every byte outside the boot
    information is the byte of the last PT_LOAD segment that covers it, or what
    it was; the boot information, 256 bytes into the first segment, has that
    segment's address as base, the guest's size less a page as limit, the
    number of cores, and the extent up to the end of the last segment as image
    size; the entry point is the file's; and the static memory, where the
    debugger takes addresses as physical, is the last segment alone. *)
Theorem arm_load_kernel_image hdr phs first fd malloc m entry0 static0 f :
  bootable hdr phs first (msize m) -> fd <> -1 ->
  malloc (sizeof_phdr * Z.of_nat (length phs)) = true -> (interrupts f <= budget)%nat ->
  (64 + budget + 1 < fuel)%nat -> (Z.to_nat (sizeof_phdr * Z.of_nat (length phs)) + budget + 1 < fuel)%nat ->
  exists l, load_kernel pread fuel env ncores fd malloc (mkloader m None None entry0 static0 f) = OK (0, l) /\
    l_entry l = e_entry hdr /\ l_static l = static_memory phs static0 /\ msize (l_mem l) = msize m /\
    info_ok (l_mem l) (p_paddr first) (image_end phs 0) /\
    forall x, ~ in_info (p_paddr first) x -> peek (l_mem l) x = image_byte phs x (peek m x).
Proof.
  intros [Hph Hher (skip & rest & -> & Hsk & Hrest) (Hl & Hld & Hsz)] Hfd Hmal Hi Hf1 Hf2.
  destruct (boot_header _ _ _ Hph) as [Hdec _].
  destruct (boot_table _ _ _ Hph) as (Hnum & Hpsz & Hbl & _ & _).
  unfold load_kernel. cbn [l_mem l_mboot l_klog l_entry l_static l_file].
  destruct (Z.eqb_spec fd (-1)); [done|].
  destruct (read_ehdr pread fuel content interrupts Hfile _ _ f Hph ltac:(lia)) as (f1 & -> & Hi1 & Hl64).
  rewrite bind_OK. cbn match.
  rewrite Hl64. change (s32 64 <? 0) with false. change (Z.of_nat 64 <? sizeof_ehdr) with false. cbn match.
  rewrite Hdec, Hher, Hnum, Hpsz. cbn [negb]. cbn zeta.
  set (phs := skip ++ first :: rest) in *.
  destruct (Z.leb_spec (2 ^ 31) (sizeof_phdr * Z.of_nat (length phs))); [lia|]. rewrite Hmal. cbn [negb].
  destruct (read_phdrs pread fuel content interrupts Hfile _ _ f1 Hph ltac:(lia)) as (ret & f2 & -> & Hret & Hi2).
  rewrite bind_OK. cbn match. rewrite Hret, Nat2Z.id. set (buf := phdr_table content hdr phs).
  assert (forall j ph, phs !! j = Some ph -> phdr_at buf (0 + Z.of_nat j) = OK ph) as Hbuf.
  { intros j ph Hj. by apply (phdr_at_table content hdr phs). }
  unfold phs at 1. rewrite length_app, load_skip; [|intros j p Hj; apply Hbuf; by apply lookup_app_l_Some|done].
  destruct (no_loads skip Hsk) as (Hn1 & Hn2 & Hn3).
  cbn [length load_segments].
  rewrite (Hbuf (length skip) first) by (by apply list_lookup_middle). rewrite bind_OK.
  change (p_type first =? PT_LOAD) with (is_load first). rewrite Hl. cbn [negb].
  destruct (load_first m None None static0 f2 first Hl Hld ltac:(lia) Hsz)
    as (m1 & mb1 & k1 & f3 & -> & Hs1 & Hi3 & Hok1 & Hp1). rewrite bind_OK. cbn match.
  change (0 <? 0) with false. cbn match.
  destruct (load_rest buf rest (0 + Z.of_nat (length skip) + 1) m1 mb1 k1 (p_paddr first, p_memsz first)
    (p_paddr first) (p_paddr first + p_memsz first) f3) as (m' & mb' & k' & f' & -> & Hs & Hok & Hp).
  - intros j p Hj. rewrite <- (Hbuf (length skip + S j)%nat p); [f_equal; lia|].
    unfold phs. rewrite lookup_app_r by lia. by replace (_ + S j - _)%nat with (S j) by lia.
  - by rewrite Hs1.
  - done.
  - apply Hld.
  - by rewrite Hs1.
  - done.
  - rewrite bind_OK. eexists. split; [reflexivity|]. cbn [l_mem l_entry l_static].
    unfold phs. rewrite Hn2, Hn3. unfold image_end, static_memory. cbn [foldl]. rewrite Hl.
    split_and!; [done|done|congruence|exact Hok|].
    intros x Hx. rewrite Hn1, arm_image_cons, Hp, Hp1 by done. by rewrite Hl.
Qed.
End Load.

(** A note header, then 8 bytes at 0x10000 in 0x1000 and 4 bytes at 0x20000. *)
Definition arm_kernel : list byte :=
  [Byte.x7f; Byte.x45; Byte.x4c; Byte.x46; Byte.x02; Byte.x01; Byte.x01; Byte.xff] ++ replicate 8 NUL ++
  le16 2 ++ le16 183 ++ le32 1 ++ le64 0x11000 ++ le64 64 ++ le64 0 ++ le32 0 ++ le16 64 ++
  le16 56 ++ le16 3 ++ le16 0 ++ le16 0 ++ le16 0 ++
  (le32 4 ++ le32 4 ++ le64 232 ++ le64 0 ++ le64 0 ++ le64 4 ++ le64 4 ++ le64 0) ++
  (le32 1 ++ le32 5 ++ le64 232 ++ le64 0x10000 ++ le64 0x10000 ++ le64 8 ++ le64 0x1000 ++ le64 0) ++
  (le32 1 ++ le32 6 ++ le64 240 ++ le64 0x20000 ++ le64 0x20000 ++ le64 4 ++ le64 16 ++ le64 0) ++
  str "kernel!!" ++ str "data".

Definition arm_hdr : Elf64_Ehdr := decode_ehdr (take 64 arm_kernel).
Definition arm_phdrs : list Elf64_Phdr :=
  [mkphdr 4 232 0 4 4; mkphdr 1 232 0x10000 8 0x1000; mkphdr 1 240 0x20000 4 16].

Lemma arm_bootable :
  bootable 260 arm_kernel 1 arm_hdr arm_phdrs (mkphdr 1 232 0x10000 8 0x1000) 0x40000.
Proof.
  split.
  - split.
    + split; [done|vm_compute; congruence].
    + vm_compute. intuition congruence.
    + intros i ph Hi. destruct i as [|[|[|i]]]; cbn in Hi; [..|done]; injection Hi as <-; vm_compute; reflexivity.
  - vm_compute. reflexivity.
  - eexists [_], [_]. split; [reflexivity|]. split; apply Forall_cons_2; [done|constructor| |constructor].
    intros _. split; [|right; vm_compute; congruence]. vm_compute. intuition (congruence || lia).
  - split; [done|]. split; [|vm_compute; congruence]. vm_compute. intuition (congruence || lia).
Qed.

Lemma arm_load_kernel_image_witness :
  exists l, load_kernel (slow_pread arm_kernel) 260 small_setup 2 3 (fun _ => true)
    (mkloader (fresh_mem 0x40000) None None 0 (0, 0) true) = OK (0, l) /\
    l_static l = (0x20000, 16) /\ peek (l_mem l) 0x20003 = Byte.x61 /\
    load64 (l_mem l) 0x10158 = OK 0x10010.
Proof.
  destruct (arm_load_kernel_image (slow_pread arm_kernel) 260 small_setup 2 arm_kernel _
    (slow_pread_regular arm_kernel) 3400) with (budget := 1%nat) (hdr := arm_hdr) (phs := arm_phdrs)
    (first := mkphdr 1 232 0x10000 8 0x1000) (fd := 3) (malloc := fun _ : Z => true) (m := fresh_mem 0x40000)
    (entry0 := 0) (static0 := (0, 0)) (f := true) as (l & E & _ & Hst & _ & Hok & Hp).
  - reflexivity.
  - vm_compute. intuition congruence.
  - vm_compute. intuition congruence.
  - exact arm_bootable.
  - lia.
  - reflexivity.
  - vm_compute. lia.
  - vm_compute. lia.
  - vm_compute. lia.
  - exists l. split; [exact E|]. split; [exact Hst|]. split; [|apply Hok].
    rewrite Hp; [vm_compute; reflexivity|unfold in_info; cbn; lia].
Defined.
End Arm.
