(* ===== verification/Rdma.v ===== *)
(** * Migration over RDMA

    src/uhyve-migration-rdma.c, the variant of uhyve-migration-tcp.c that the
    build option ENABLE_RDMA_MIGRATION selects: the set-up of the queue pairs
    and the exchange of their parameters, the list of work requests for the
    memory of the guest, posting it to the adapter, and the two phases of a
    migration.  The adapter, behind libibverbs, is a record of operations; what
    the code relies on is the record [reliable]. *)

From S2P Require Import Prelude GuestMem Paging MemRegions CLib Config Elf Hypercall Proxy.
From S2P Require Import Checkpoint Incremental Migration.

Open Scope uhyve_scope.

(** ** Data *)

Definition MIG_ITERS : Z := 4.
Definition IB_MAX_SEND_WR : Z := 8192.
Definition IB_WR_WRITE_LAST_PAGE_ID : Z := 1.
Definition IB_WR_BASE_ID : Z := 3.

(** [qp_info_t]; the keys are sent behind it. *)
Record qp_info := mkqp { qpn : Z; lid : Z; psn : Z; qp_addr : Z; keys : list Z }.

(** [struct ibv_mr] *)
Record mr := mkmr { mr_addr : Z; mr_length : Z; mr_lkey : Z; mr_rkey : Z }.

(** The parts of [com_hndl_t] the code reads after [init_com_hndl]. *)
Record com_hndl := mkhndl {
  mrs : list mr;
  max_msg_sz : Z;                  (* port_attr.max_msg_sz *)
  loc_qp_info : qp_info;
  rem_qp_info : qp_info;
  used_port : Z
}.

Inductive wr_opcode := IBV_WR_RDMA_WRITE | IBV_WR_RDMA_WRITE_WITH_IMM.

(** [struct ibv_send_wr] with its one scatter/gather element. *)
Record send_wr := mkwr {
  wr_id : Z;
  opcode : wr_opcode;
  signaled : bool;                 (* IBV_SEND_SIGNALED *)
  solicited : bool;                (* IBV_SEND_SOLICITED *)
  sg_addr : Z;
  sg_length : Z;
  sg_lkey : Z;
  remote_addr : Z;
  rkey : Z;
  imm_data : Z
}.

(** The globals of the sender.  [send_list_last] is the last element of the
    list; [prefetched] are the calls of [ibv_exp_prefetch_mr]: region, address
    and length. *)
Record sender := mksender {
  cur_wr_id : Z;
  send_list : list send_wr;
  send_list_length : Z;
  prefetched : list (Z * Z * Z)
}.
Definition initial_sender : sender := mksender IB_WR_BASE_ID [] 0 [].

(** ** The list of work requests *)

Definition prepare_send_list_elem (st : sender) : send_wr * sender :=
  let id := u64 (cur_wr_id st + 1) in
  (mkwr id IBV_WR_RDMA_WRITE false false 0 0 0 0 0 0,
   mksender id (send_list st) (send_list_length st) (prefetched st)).

Definition set_signaled (wr : send_wr) : send_wr :=
  mkwr (wr_id wr) (opcode wr) true (solicited wr) (sg_addr wr) (sg_length wr) (sg_lkey wr)
    (remote_addr wr) (rkey wr) (imm_data wr).

(** A completion is requested whenever the send queue may be full. *)
Definition append_to_send_list (wr : send_wr) (st : sender) : sender :=
  let n := u64 (send_list_length st + 1) in
  let wr := if n mod IB_MAX_SEND_WR =? 0 then set_signaled wr else wr in
  mksender (cur_wr_id st) (send_list st ++ [wr]) n (prefetched st).

(** The first region that contains a pointer. *)
Definition in_mr (p : Z) (r : mr) : bool := (mr_addr r <=? p) && (p <? u64 (mr_addr r + mr_length r)).
Definition enclosing_mr (l : list mr) (p : Z) : option (nat * mr) := list_find (fun r => in_mr p r = true) l.
Definition determine_enclosing_mr (c : com_hndl) (p : Z) : Z :=
  match enclosing_mr (mrs c) p with Some (i, _) => Z.of_nat i | None => -1 end.

Section Sender.
Context (c : com_hndl) (p : mig_params).

Definition uses (v : Z) : bool := negb (v =? 0).

(** Every chunk is prefetched in region 0. *)
Fixpoint prefetch_mem_mappings (cs : list mem_chunk) (st : sender) : sender :=
  match cs with
  | [] => st
  | ch :: cs =>
      if determine_enclosing_mr c (ptr ch) <? 0 then st
      else prefetch_mem_mappings cs
        (mksender (cur_wr_id st) (send_list st) (send_list_length st) (prefetched st ++ [(0, ptr ch, size ch)]))
  end.

(** [addr] points to a page-table entry or an offset, or is NULL; a page
    outside every region is reported and left out. *)
Definition create_send_list_entry (addr : option Z) (page page_size : Z) (st : sender) : outcome sender :=
  let '(wr, st) := prepare_send_list_elem st in
  match enclosing_mr (mrs c) page with
  | None => OK st
  | Some (i, r) =>
      match keys (rem_qp_info c) !! i with
      | None => Undefined
      | Some key =>
          let st := if uses (use_odp p) && uses (prefetch p)
                    then mksender (cur_wr_id st) (send_list st) (send_list_length st)
                           (prefetched st ++ [(Z.of_nat i, page, page_size)])
                    else st in
          let remote := match addr with
                        | Some a => u64 (qp_addr (rem_qp_info c) + determine_dest_offset a)
                        | None => qp_addr (rem_qp_info c)
                        end in
          OK (append_to_send_list
                (mkwr (wr_id wr) (opcode wr) (signaled wr) (solicited wr) page (u32 page_size) (mr_lkey r)
                   remote key (imm_data wr)) st)
      end
  end.

(** The regions in messages of at most [max_msg_sz] bytes; [guest_mem] is the
    host address of guest memory. *)
Definition enqueue_mr (guest_mem : Z) (r : mr) (st : sender) : outcome sender :=
  let entry offset size st :=
    create_send_list_entry (Some (u64 (offset + mr_addr r - guest_mem))) (u64 (mr_addr r + offset)) size st in
  let max_chunks := mr_length r / max_msg_sz c in
  st ← for_upto (Z.to_nat max_chunks) 0 (fun cur_chunk st =>
         entry (u64 (cur_chunk * max_msg_sz c)) (max_msg_sz c) st) st;
  let remainder := mr_length r mod max_msg_sz c in
  if negb (remainder =? 0) then entry (u64 (mr_length r - remainder)) remainder st else OK st.

Fixpoint enqueue_mrs (guest_mem : Z) (rs : list mr) (st : sender) : outcome sender :=
  match rs with [] => OK st | r :: rs => st ← enqueue_mr guest_mem r st; enqueue_mrs guest_mem rs st end.

(** A division by [max_msg_sz] 0 raises SIGFPE. *)
Definition enqueue_all_mrs (guest_mem : Z) (st : sender) : outcome sender :=
  if (max_msg_sz c =? 0) && (0 <? Z.of_nat (length (mrs c))) then Undefined
  else enqueue_mrs guest_mem (mrs c) st.

(** The pages whose flags are set ([determine_dirty_pages] with this handler). *)
Definition determine_dirty_pages (cfg : config) (guest_mem : Z) (m : gmem) (st : sender) : outcome (gmem * sender) :=
  scan_page_tables (fun _ entry page page_size => create_send_list_entry (Some (le_combine entry))
                      (u64 (guest_mem + page)) page_size)
    (full_checkpoint cfg) (no_checkpoint cfg) (m, st).
End Sender.

(** ** Posting *)

Definition ENOMEM : Z := 12.

(** A completion: its status (0 is IBV_WC_SUCCESS) and the request. *)
Record wc := mkwc { wc_status : Z; wc_wr_id : Z }.

(** [ibv_post_send]: the result, errno and where [bad_wr] points ([[]]: it was
    not set); [ibv_poll_cq] for one completion. *)
Record Hca (H : Type) := mkhca {
  ibv_post_send : H -> list send_wr -> Z * Z * list send_wr * H;
  ibv_poll_cq : H -> Z * wc * H
}.
Arguments mkhca {H}.
Arguments ibv_post_send {H}.
Arguments ibv_poll_cq {H}.

Section Post.
Context {H : Type} (hca : Hca H) (fuel : nat).

Definition poll_completion (h : H) : outcome (wc * H) :=
  while fuel (fun h =>
    let '(res, w, h) := ibv_poll_cq hca h in
    if res <? 0 then Exited 1 else if res <? 1 then OK (inl h) else OK (inr (w, h))) h.

(** One completion is awaited for each call of [ibv_post_send]; a request that
    failed is only reported.  The result is what was completed. *)
Definition process_send_list (st : sender) (h : H) : outcome (list wc * sender * H) :=
  '(ws, h) ← while fuel (fun '(l, ws, h) =>
      let '(ret, errno, remaining, h) := ibv_post_send hca h l in
      if negb (ret =? 0) && negb (errno =? ENOMEM) then Exited 1
      else
        '(w, h) ← poll_completion h;
        OK (match remaining with [] => inr (ws ++ [w], h) | _ => inl (remaining, ws ++ [w], h) end))
    (send_list st, [], h);
  OK (ws, mksender (cur_wr_id st) [] 0 (prefetched st), h).
End Post.

(** ** The connection *)

Definition IBV_ACCESS_LOCAL_WRITE : Z := 1.
Definition IBV_ACCESS_REMOTE_WRITE : Z := 2.
Definition IBV_ACCESS_ON_DEMAND : Z := 64.
Definition IBV_PORT_ACTIVE : Z := 4.
Definition IBV_MTU_2048 : Z := 4.

Record port_attr := mkport { port_state : Z; port_lid : Z; port_max_msg_sz : Z }.

(** A device: whether it opens, what the two device queries return, the number
    of its ports, [ibv_query_port] (result and, if it filled it, the attributes)
    and the result of [ibv_close_device]. *)
Record device := mkdevice {
  d_opens : bool;
  d_query_ex : Z;
  d_query : Z;
  d_phys_port_cnt : Z;
  d_query_port : Z -> Z * option port_attr;
  d_close : Z
}.

(** [ibv_modify_qp], one constructor per call of the code. *)
Inductive qp_change :=
| ToInit (pkey_index port_num access_flags : Z)
| ToRTR (path_mtu dest_qp_num rq_psn max_dest_rd_atomic min_rnr_timer dlid port_num : Z)
| ToRTS (timeout retry_cnt rnr_retry sq_psn max_rd_atomic : Z).

(** The other calls of libibverbs. *)
Record Verbs := mkverbs {
  v_devices : option (list device);
  v_alloc_pd : bool;
  v_reg_mr : Z -> Z -> Z -> option (Z * Z);   (* address, length, access: lkey and rkey *)
  v_create_comp_channel : bool;
  v_create_cq : bool;
  v_create_qp : option Z;                     (* qp_num *)
  v_modify_qp : qp_change -> Z;
  v_lrand48 : Z;
  v_destroy_qp : Z;
  v_destroy_cq : Z;
  v_destroy_comp_channel : Z;
  v_dereg_mr : nat -> Z;
  v_dealloc_pd : Z;
  v_close_device : Z;
  v_req_notify_cq : Z;
  v_post_recv : Z;
  v_get_cq_event : Z
}.

Definition exit_if (b : bool) : outcome unit := if b then Exited 1 else OK tt.

Section Connection.
Context (v : Verbs).

(** The ports are counted from 0 to [phys_port_cnt]; the attributes stay what
    they were when a query does not fill them. *)
Fixpoint scan_ports (d : device) (n : nat) (cur_port : Z) (attr : port_attr) : outcome (option Z * port_attr) :=
  match n with
  | O => OK (None, attr)
  | S n =>
      let '(ret, filled) := d_query_port d cur_port in
      if ret <? 0 then Exited 1
      else
        let attr := default attr filled in
        if port_state attr =? IBV_PORT_ACTIVE then OK (Some cur_port, attr)
        else scan_ports d n (cur_port + 1) attr
  end.

Fixpoint find_port (devices : list device) (attr : port_attr) : outcome (Z * port_attr) :=
  match devices with
  | [] => Exited 1
  | d :: devices =>
      exit_if (negb (d_opens d));;
      exit_if (d_query_ex d <? 0);;
      exit_if (d_query d <? 0);;
      '(port, attr) ← scan_ports d (Z.to_nat (d_phys_port_cnt d + 1)) 0 attr;
      match port with
      | Some port => OK (port, attr)
      | None => exit_if (d_close d <? 0);; find_port devices attr
      end
  end.

Fixpoint register_mrs (access_flags : Z) (cs : list mem_chunk) : outcome (list mr) :=
  match cs with
  | [] => OK []
  | ch :: cs =>
      match v_reg_mr v (ptr ch) (size ch) access_flags with
      | None => Exited 1
      | Some (lkey, rkey) =>
          rs ← register_mrs access_flags cs; OK (mkmr (ptr ch) (size ch) lkey rkey :: rs)
      end
  end.

(** [buf] is [guest_mem]. *)
Definition init_com_hndl (p : mig_params) (guest_mem : Z) (cs : list mem_chunk) : outcome com_hndl :=
  devices ← match v_devices v with None => Exited 1 | Some l => OK l end;
  '(port, attr) ← find_port devices (mkport 0 0 0);
  exit_if (negb (v_alloc_pd v));;
  let access_flags := IBV_ACCESS_LOCAL_WRITE .| IBV_ACCESS_REMOTE_WRITE .|
                      (if uses (use_odp p) then IBV_ACCESS_ON_DEMAND else 0) in
  rs ← register_mrs access_flags cs;
  exit_if (negb (v_create_comp_channel v));;
  exit_if (negb (v_create_cq v));;
  qp_num ← match v_create_qp v with None => Exited 1 | Some n => OK n end;
  exit_if (v_modify_qp v (ToInit 0 port IBV_ACCESS_REMOTE_WRITE) <? 0);;
  OK (mkhndl rs (port_max_msg_sz attr)
        (mkqp qp_num (port_lid attr) (u16 (v_lrand48 v .& 0xffffff)) guest_mem (mr_rkey <$> rs))
        (mkqp 0 0 0 0 []) port).

(** qpn, lid, psn, a pointer that means nothing to the other side, addr *)
Definition sizeof_qp_info : Z := 24.
Definition encode_qp_info (q : qp_info) (keys_ptr : Z) : list byte :=
  le_split 4 (qpn q) ++ le_split 2 (lid q) ++ le_split 2 (psn q) ++ le_split 8 keys_ptr ++ le_split 8 (qp_addr q).
Definition encode_keys (ks : list Z) : list byte := concat (le_split 4 <$> ks).
Fixpoint decode_keys (n : nat) (bs : list byte) : list Z :=
  match n with O => [] | S n => le_combine (take 4 bs) :: decode_keys n (drop 4 bs) end.
Definition decode_qp_info (bs : list byte) (ks : list Z) : qp_info :=
  mkqp (int_at 4 bs 0) (int_at 2 bs 4) (int_at 2 bs 6) (int_at 8 bs 16) ks.

Section Exchange.
Context {S : Type} (sock : Socket S) (fuel : nat).

(** [keys_ptr] is the address of the own keys. *)
Definition exchange_qp_info (server : bool) (keys_ptr : Z) (c : com_hndl) (s : S) : outcome (com_hndl * S) :=
  let keys_size := 4 * Z.of_nat (length (mrs c)) in
  let info := encode_qp_info (loc_qp_info c) keys_ptr in
  let ks := encode_keys (keys (loc_qp_info c)) in
  '(rem, rem_keys, s) ←
    (if server then
       '(rem, s) ← recv_bytes sock fuel sizeof_qp_info s;
       s ← send_bytes sock fuel info s;
       '(rem_keys, s) ← recv_bytes sock fuel keys_size s;
       s ← send_bytes sock fuel ks s;
       OK (rem, rem_keys, s)
     else
       s ← send_bytes sock fuel info s;
       '(rem, s) ← recv_bytes sock fuel sizeof_qp_info s;
       s ← send_bytes sock fuel ks s;
       '(rem_keys, s) ← recv_bytes sock fuel keys_size s;
       OK (rem, rem_keys, s));
  OK (mkhndl (mrs c) (max_msg_sz c) (loc_qp_info c)
        (decode_qp_info rem (decode_keys (length (mrs c)) rem_keys)) (used_port c), s).
End Exchange.

(** What [con_com_buf] asks of the queue pair. *)
Definition to_rtr (c : com_hndl) : qp_change :=
  ToRTR IBV_MTU_2048 (qpn (rem_qp_info c)) (psn (rem_qp_info c)) 1 1 (lid (rem_qp_info c)) (used_port c).
Definition to_rts (c : com_hndl) : qp_change := ToRTS 14 7 7 (psn (loc_qp_info c)) 1.

(** The status is errno, [v_modify_qp]'s result for this library. *)
Definition con_com_buf (c : com_hndl) : outcome unit :=
  if negb (v_modify_qp v (to_rtr c) =? 0) then Exited (v_modify_qp v (to_rtr c))
  else if negb (v_modify_qp v (to_rts c) =? 0) then Exited (v_modify_qp v (to_rts c))
  else OK tt.

Fixpoint dereg_mrs (n : nat) (i : nat) : outcome unit :=
  match n with O => OK tt | S n => exit_if (v_dereg_mr v i <? 0);; dereg_mrs n (i + 1)%nat end.

Definition destroy_com_hndl (c : com_hndl) : outcome unit :=
  exit_if (v_destroy_qp v <? 0);;
  exit_if (v_destroy_cq v <? 0);;
  exit_if (v_destroy_comp_channel v <? 0);;
  dereg_mrs (length (mrs c)) 0;;
  exit_if (v_dealloc_pd v <? 0);;
  exit_if (v_close_device v <? 0).
End Connection.

(** ** The phases of a migration *)

(** The last request of the list, changed in place. *)
Definition update_last (f : send_wr -> send_wr) (st : sender) : sender :=
  mksender (cur_wr_id st) (alter f (pred (length (send_list st))) (send_list st)) (send_list_length st)
    (prefetched st).
Definition last_page (wr : send_wr) : send_wr :=
  mkwr IB_WR_WRITE_LAST_PAGE_ID (opcode wr) true false (sg_addr wr) (sg_length wr) (sg_lkey wr)
    (remote_addr wr) (rkey wr) (imm_data wr).
(** The last request of all tells the destination. *)
Definition last_of_all (wr : send_wr) : send_wr :=
  mkwr IB_WR_WRITE_LAST_PAGE_ID IBV_WR_RDMA_WRITE_WITH_IMM true true (sg_addr wr) (sg_length wr) (sg_lkey wr)
    (remote_addr wr) (rkey wr) 0x01000000.

Section Phases.
Context (v : Verbs) {S : Type} (sock : Socket S) {H : Type} (hca : Hca H) (fuel : nat).
(** The memory of the guest, which may be running, as part of the state [H]. *)
Context (mem : H -> gmem) (set_mem : gmem -> H -> H) (cfg : config) (guest_mem : Z).

Definition scan_dirty (c : com_hndl) (p : mig_params) (st : sender) (h : H) : outcome (sender * H) :=
  '(m, st) ← determine_dirty_pages c p cfg guest_mem (mem h) st; OK (st, set_mem m h).

(** The iterations of a live migration; the counter is the static variable of
    [termination_criterion]. *)
Definition precopy_iterations (c : com_hndl) (p : mig_params) (mig_round : Z) (st : sender) (h : H)
    : outcome (Z * sender * H) :=
  while fuel (fun '(mig_round, st, h) =>
    if mig_type p =? MIG_TYPE_COLD then OK (inr (mig_round, st, h))
    else if mig_round =? MIG_ITERS then OK (inr (u32 (mig_round + 1), st, h))
    else
      '(st, h) ← scan_dirty c p st h;
      if negb (send_list_length st =? 0) then
        '(_, st, h) ← process_send_list hca fuel (update_last last_page st) h;
        OK (inl (u32 (mig_round + 1), st, h))
      else OK (inr (u32 (mig_round + 1), st, h))) (mig_round, st, h).

(** [guest_chunks] and [chunks] are the two arguments, with host addresses. *)
Definition precopy_phase (guest_chunks chunks : list mem_chunk) (keys_ptr : Z) (p : mig_params) (st : sender)
    (s : S) (h : H) : outcome (com_hndl * mig_params * sender * S * H) :=
  c ← init_com_hndl v p guest_mem
        (if (mig_type p =? MIG_TYPE_LIVE) || (Z.of_nat (length chunks) =? 0) then guest_chunks else chunks);
  let '(p, st) :=
    if uses (use_odp p) && uses (prefetch p) then
      (if (mig_mode p =? MIG_MODE_COMPLETE_DUMP) || (mig_type p =? MIG_TYPE_COLD)
       then mkparams (mig_type p) (mig_mode p) (use_odp p) 0 else p,
       prefetch_mem_mappings c chunks st)
    else (p, st) in
  '(c, s) ← exchange_qp_info sock fuel false keys_ptr c s;
  con_com_buf v c;;
  '(_, st, h) ← precopy_iterations c p 0 st h;
  OK (c, p, st, s, h).

Definition stop_and_copy_phase (c : com_hndl) (p : mig_params) (st : sender) (h : H) : outcome (sender * H) :=
  '(st, h) ←
    (if mig_type p =? MIG_TYPE_COLD then
       if mig_mode p =? MIG_MODE_COMPLETE_DUMP
       then st ← enqueue_all_mrs c p guest_mem st; OK (st, h)
       else if mig_mode p =? MIG_MODE_INCREMENTAL_DUMP then scan_dirty c p st h
       else Exited 1
     else if mig_type p =? MIG_TYPE_LIVE then scan_dirty c p st h
     else Exited 1);
  let st := if send_list_length st =? 0
            then let '(wr, st) := prepare_send_list_elem st in append_to_send_list wr st else st in
  '(_, st, h) ← process_send_list hca fuel (update_last last_of_all st) h;
  destroy_com_hndl v c;;
  OK (st, h).

(** The destination: it has the memory when the event of the last request
    arrives. *)
Definition recv_guest_mem (chunks : list mem_chunk) (keys_ptr : Z) (p : mig_params) (s : S) : outcome (com_hndl * S) :=
  c ← init_com_hndl v p guest_mem chunks;
  '(c, s) ← exchange_qp_info sock fuel true keys_ptr c s;
  con_com_buf v c;;
  exit_if (v_req_notify_cq v <? 0);;
  (* recv_wr uses the key of the first region *)
  match mrs c with
  | [] => Undefined
  | _ :: _ =>
      exit_if (v_post_recv v <? 0);;
      exit_if (v_get_cq_event v <? 0);;
      destroy_com_hndl v c;;
      OK (c, s)
  end.
End Phases.

(** ** What the adapter promises *)

(** [reads a b]: the byte at host address [a] may be read as [b] while the
    request is carried out.  [base] is the host address of the memory [d] of the
    destination. *)
Definition wr_written (reads : Z -> byte -> Prop) (base : Z) (wr : send_wr) (d d' : gmem) : Prop :=
  msize d' = msize d /\ forall x,
    if (remote_addr wr <=? base + x) && (base + x <? remote_addr wr + sg_length wr)
    then reads (sg_addr wr + (base + x - remote_addr wr)) (peek d' x)
    else peek d' x = peek d x.

Fixpoint written (reads : Z -> byte -> Prop) (base : Z) (wrs : list send_wr) (d d' : gmem) : Prop :=
  match wrs with
  | [] => msize d' = msize d /\ forall x, peek d' x = peek d x
  | wr :: wrs => exists d1, wr_written reads base wr d d1 /\ written reads base wrs d1 d'
  end.

Definition unsignaled (wr : send_wr) : Prop := signaled wr = false.
Definition completion (wr : send_wr) : wc := mkwc 0 (wr_id wr).

(** A reliable connection with room for [cap] requests: requests are carried
    out in order; a request stays in the queue until a completion at or behind
    it is polled, which happens after at most [polls] polls without result;
    [ibv_post_send] takes what fits and then fails with ENOMEM.  All this for the
    states of [alive], which the calls do not leave; [later] orders the states
    in time, and [reads h] are the bytes that may have been read before [h]. *)
Record reliable {H} (hca : Hca H) (cap polls : nat) (reads : H -> Z -> byte -> Prop) (base : Z)
    (permitted : send_wr -> Prop) (alive : H -> Prop) (later : H -> H -> Prop) (queued : H -> list send_wr) (settled : H -> gmem)
    (patience : H -> nat) := {
  patience_bound : forall h, (patience h <= polls)%nat;
  later_refl : forall h, later h h;
  later_trans : forall h h1 h2, later h h1 -> later h1 h2 -> later h h2;
  reads_later : forall h h1 a b, later h h1 -> reads h a b -> reads h1 a b;
  post_takes : forall h l, alive h -> queued h = [] -> l <> [] -> exists h',
    ibv_post_send hca h l = (if (length l <=? cap)%nat then (0, 0, [], h') else (ENOMEM, ENOMEM, drop cap l, h')) /\
    alive h' /\ later h h' /\ queued h' = take cap l /\ settled h' = settled h;
  poll_completes : forall h pre wr post,
    alive h -> queued h = pre ++ wr :: post -> Forall unsignaled pre -> signaled wr = true ->
    Forall permitted (pre ++ [wr]) -> exists w h',
    alive h' /\ later h h' /\
    ((ibv_poll_cq hca h = (0, w, h') /\ queued h' = queued h /\ settled h' = settled h /\
       (patience h' < patience h)%nat) \/
    (ibv_poll_cq hca h = (1, completion wr, h') /\ queued h' = post /\
       written (reads h') base (pre ++ [wr]) (settled h) (settled h')))
}.

Lemma written_app reads base l1 l2 : forall d d1 d2,
  written reads base l1 d d1 -> written reads base l2 d1 d2 -> written reads base (l1 ++ l2) d d2.
Proof.
  induction l1 as [|wr l1 IH]; intros d d1 d2 H1 H2.
  - destruct H1 as [Hs Hp]. destruct l2 as [|wr l2]; cbn [app written] in *.
    + destruct H2 as [Hs2 Hp2]. split; [congruence|]. intros x. by rewrite Hp2.
    + destruct H2 as (d3 & [Hs3 Hp3] & H2). exists d3. split; [|done]. split; [congruence|].
      intros x. specialize (Hp3 x). destruct (_ && _); [done|]. by rewrite Hp3.
  - destruct H1 as (d3 & Hw & H1). exists d3. split; [done|]. by apply (IH d3 d1).
Qed.

Lemma written_mono (reads reads' : Z -> byte -> Prop) base l :
  (forall a b, reads a b -> reads' a b) -> forall d d', written reads base l d d' -> written reads' base l d d'.
Proof.
  intros Hr. induction l as [|wr l IH]; intros d d' H; [done|]. destruct H as (d1 & [Hs Hp] & H).
  exists d1. split; [|by apply IH]. split; [done|]. intros x. specialize (Hp x). destruct (_ && _); auto.
Qed.

(** A completion is requested for every [cap]-th request and for the last. *)
Definition batched (cap : nat) (l : list send_wr) : Prop := forall i wr, l !! i = Some wr ->
  signaled wr = bool_decide ((S i) mod cap = 0 \/ S i = length l)%nat.

Section Posting.
Context {H : Type} (hca : Hca H) (cap polls : nat) (reads : H -> Z -> byte -> Prop) (base : Z).
Context (permitted : send_wr -> Prop) (alive : H -> Prop) (later : H -> H -> Prop) (queued : H -> list send_wr) (settled : H -> gmem).
Context (patience : H -> nat).
Context (Hrel : reliable hca cap polls reads base permitted alive later queued settled patience) (Hcap : (0 < cap)%nat).
Context (fuel : nat) (Hpolls : (polls < fuel)%nat).

Lemma poll_completion_ok h pre wr :
  alive h -> queued h = pre ++ [wr] -> Forall unsignaled pre -> signaled wr = true -> Forall permitted (pre ++ [wr]) ->
  exists h', poll_completion hca fuel h = OK (completion wr, h') /\ alive h' /\ later h h' /\
    queued h' = [] /\ written (reads h') base (pre ++ [wr]) (settled h) (settled h').
Proof.
  intros Ha Hq Hpre Hwr Hperm. unfold poll_completion.
  match goal with |- context [while _ ?b _] => set (body := b) end.
  destruct (while_total body (fun h1 => alive h1 /\ later h h1 /\ queued h1 = pre ++ [wr] /\ settled h1 = settled h)
    (fun '(w, h') => w = completion wr /\ alive h' /\ later h h' /\ queued h' = [] /\
       written (reads h') base (pre ++ [wr]) (settled h) (settled h'))
    patience) with (fuel := fuel) (s := h) as ([w h'] & E & -> & ?); [| | |by exists h'].
  - intros h1 (Ha1 & Hl1 & Hq1 & Hs1). unfold body.
    destruct (poll_completes _ _ _ _ _ _ _ _ _ _ _ Hrel h1 pre wr [] Ha1 Hq1 Hpre Hwr Hperm)
      as (w & h' & Ha' & Hl' & H0). pose proof (later_trans _ _ _ _ _ _ _ _ _ _ _ Hrel _ _ _ Hl1 Hl') as Hl2.
    destruct H0 as [(-> & Hq' & Hs' & Hp)|(-> & Hq' & Hw)].
    + exists (inl h'). split; [done|]. split; [|done]. split; [done|]. split; [done|]. split; congruence.
    + exists (inr (completion wr, h')). split; [done|]. split; [done|]. split; [done|]. split; [done|].
      split; [done|]. by rewrite <- Hs1.
  - split; [done|]. split; [apply (later_refl _ _ _ _ _ _ _ _ _ _ _ Hrel)|done].
  - pose proof (patience_bound _ _ _ _ _ _ _ _ _ _ _ Hrel h). lia.
Qed.

(** A batch ends with the one request in it that is signalled. *)
Lemma batch_split (b : list send_wr) :
  b <> [] -> (forall i wr, b !! i = Some wr -> signaled wr = bool_decide (S i = length b)) ->
  exists pre wr, b = pre ++ [wr] /\ Forall unsignaled pre /\ signaled wr = true.
Proof.
  intros Hne Hs. destruct (exists_last Hne) as (pre & wr & ->). exists pre, wr. split; [done|].
  rewrite length_app, Nat.add_1_r in Hs. split.
  - apply Forall_lookup_2. intros i w Hi. unfold unsignaled. pose proof (lookup_lt_Some _ _ _ Hi).
    rewrite (Hs i) by (by apply lookup_app_l_Some). apply bool_decide_eq_false_2. lia.
  - rewrite (Hs (length pre) wr) by (by apply list_lookup_middle). by apply bool_decide_eq_true_2.
Qed.

Lemma batched_take done_ l :
  batched cap (done_ ++ l) -> (length done_ mod cap = 0)%nat -> forall i wr, take cap l !! i = Some wr ->
  signaled wr = bool_decide (S i = length (take cap l)).
Proof.
  intros Hb Hm i wr Hi. apply lookup_take_Some in Hi as [Hi Hlt]. pose proof (lookup_lt_Some _ _ _ Hi) as Hl.
  rewrite (Hb (length done_ + i)%nat) by (rewrite lookup_app_r by lia; by replace (_ + i - _)%nat with i by lia).
  apply bool_decide_ext. rewrite length_app, length_take.
  replace (S (length done_ + i)) with (length done_ + S i)%nat by lia.
  rewrite Nat.Div0.add_mod, Hm, Nat.add_0_l, Nat.Div0.mod_mod.
  destruct (decide (S i = cap)) as [E|].
  - rewrite E, Nat.Div0.mod_same. lia.
  - rewrite Nat.mod_small by lia. lia.
Qed.

Lemma filter_batch pre wr :
  Forall unsignaled pre -> signaled wr = true -> filter (fun w => signaled w = true) (pre ++ [wr]) = [wr].
Proof.
  intros Hpre Hwr. rewrite filter_app, (filter_cons_True _ wr []) by done.
  assert (filter (fun w => signaled w = true) pre = []) as ->; [|done].
  induction Hpre as [|x pre Hx _ IH]; [done|]. rewrite filter_cons_False; [done|]. by rewrite Hx.
Qed.

Lemma process_list_ok st h :
  batched cap (send_list st) -> send_list st <> [] -> Forall permitted (send_list st) -> alive h ->
  queued h = [] -> (length (send_list st) < fuel)%nat ->
  exists h', process_send_list hca fuel st h =
      OK (completion <$> filter (fun w => signaled w = true) (send_list st),
          mksender (cur_wr_id st) [] 0 (prefetched st), h') /\
    alive h' /\ later h h' /\ queued h' = [] /\ written (reads h') base (send_list st) (settled h) (settled h').
Proof.
  intros Hb Hne Hperm Ha Hq Hf. set (l := send_list st) in *. unfold process_send_list. fold l.
  match goal with |- context [while _ ?b _] => set (body := b) end.
  set (compl := fun l : list send_wr => completion <$> filter (fun w => signaled w = true) l).
  destruct (while_total body
    (fun '(l', ws, h1) => exists done_, l = done_ ++ l' /\ l' <> [] /\ (length done_ mod cap = 0)%nat /\
       alive h1 /\ later h h1 /\ queued h1 = [] /\ ws = compl done_ /\ written (reads h1) base done_ (settled h) (settled h1))
    (fun '(ws, h') => ws = compl l /\ alive h' /\ later h h' /\ queued h' = [] /\ written (reads h') base l (settled h) (settled h'))
    (fun '(l', _, _) => length l')) with (fuel := fuel) (s := (l, @nil wc, h)) as ([ws h'] & E & -> & Ha' & Hla' & Hq' & Hw).
  - intros [[l' ws] h1] (d & Hl & Hl' & Hm & Ha1 & Hla1 & Hq1 & -> & Hw1). unfold body.
    destruct (post_takes _ _ _ _ _ _ _ _ _ _ _ Hrel h1 l' Ha1 Hq1 Hl') as (h2 & Ep & Ha2 & Hla2 & Hq2 & Hs2).
    destruct (batch_split (take cap l')) as (pre & wr & Et & Hpre & Hwr).
    { destruct l', cap; try done; lia. }
    { apply (batched_take d); [by rewrite <- Hl|done]. }
    rewrite Et in Hq2.
    destruct (poll_completion_ok h2 pre wr Ha2 Hq2 Hpre Hwr) as (h3 & E3 & Ha3 & Hla3 & Hq3 & Hw3).
    { rewrite <- Et. apply Forall_take. rewrite Hl in Hperm. by apply Forall_app in Hperm as [_ ?]. }
    pose proof (later_trans _ _ _ _ _ _ _ _ _ _ _ Hrel _ _ _ Hla2 Hla3) as Hla.
    pose proof (later_trans _ _ _ _ _ _ _ _ _ _ _ Hrel _ _ _ Hla1 Hla) as Hla'.
    assert (written (reads h3) base (d ++ take cap l') (settled h) (settled h3)) as Hw2.
    { apply (written_app _ _ _ _ _ (settled h1)); [|by rewrite Et, <- Hs2]. eapply written_mono; [|exact Hw1].
      intros a b. by apply (reads_later _ _ _ _ _ _ _ _ _ _ _ Hrel). }
    assert (compl (d ++ take cap l') = compl d ++ [completion wr]) as Hc.
    { unfold compl. by rewrite filter_app, fmap_app, Et, filter_batch. }
    rewrite Ep. destruct (Nat.leb_spec (length l') cap) as [Hle|Hlt].
    + cbn [negb andb Z.eqb]. rewrite E3, bind_OK. exists (inr (compl d ++ [completion wr], h3)).
      split; [done|]. rewrite <- Hc, take_ge in * by done. by rewrite Hl.
    + change (ENOMEM =? ENOMEM) with true. rewrite andb_false_r. rewrite E3, bind_OK.
      assert (length (drop cap l') = length l' - cap)%nat as Hdl by apply length_drop.
      destruct (drop cap l') as [|w0 l''] eqn:Ed; [cbn in Hdl; lia|]. rewrite <- Ed in *.
      exists (inl (drop cap l', compl d ++ [completion wr], h3)). split; [by rewrite Ed|]. split; [|lia].
      exists (d ++ take cap l'). rewrite <- app_assoc, take_drop. split; [done|]. split; [by rewrite Ed|].
      split; [|by rewrite Hc]. rewrite length_app, length_take, Nat.min_l by lia.
      rewrite Nat.Div0.add_mod, Hm, Nat.Div0.mod_same. apply Nat.Div0.mod_0_l.
  - exists []. split; [done|]. split; [done|]. split; [apply Nat.Div0.mod_0_l|]. split; [done|].
    split; [apply (later_refl _ _ _ _ _ _ _ _ _ _ _ Hrel)|]. split; [done|]. split; done.
  - cbn. lia.
  - rewrite E, bind_OK. exists h'. done.
Qed.
End Posting.

(** ** The list of a region *)

Definition wr_covers (base : Z) (wr : send_wr) (x : Z) : bool :=
  (remote_addr wr <=? base + x) && (base + x <? remote_addr wr + sg_length wr).
Definition list_covers (base : Z) (wrs : list send_wr) (x : Z) : bool := existsb (fun wr => wr_covers base wr x) wrs.

(** Requests that put every byte at the offset it comes from leave the bytes
    they cover as they were read. *)
Lemma written_mirror reads gm base wrs : forall d d',
  Forall (fun wr => sg_length wr = 0 \/ sg_addr wr - gm = remote_addr wr - base) wrs ->
  written reads base wrs d d' -> msize d' = msize d /\
  forall x, if list_covers base wrs x then reads (gm + x) (peek d' x) else peek d' x = peek d x.
Proof.
  induction wrs as [|wr wrs IH]; intros d d' Hm Hw; [done|].
  apply Forall_cons in Hm as [Hwr Hm]. destruct Hw as (d1 & [Hs1 Hp1] & Hw).
  destruct (IH d1 d' Hm Hw) as [Hs Hp]. split; [congruence|]. intros x. specialize (Hp1 x). specialize (Hp x).
  unfold list_covers in *. cbn [existsb]. unfold wr_covers at 1. fold (list_covers base wrs x) in *.
  destruct ((remote_addr wr <=? base + x) && (base + x <? remote_addr wr + sg_length wr)) eqn:Ec; cbn [orb].
  - destruct (list_covers base wrs x); [done|]. rewrite Hp.
    apply andb_true_iff in Ec as [?%Z.leb_le ?%Z.ltb_lt]. destruct Hwr as [?|?]; [lia|]. by replace (gm + x) with (sg_addr wr + (base + x - remote_addr wr)) by lia.
  - destruct (list_covers base wrs x); [done|]. by rewrite Hp.
Qed.

(** The send queue's size as a number of requests. *)
Definition queue_size : nat := Z.to_nat IB_MAX_SEND_WR.
Lemma queue_size_Z : Z.of_nat queue_size = IB_MAX_SEND_WR.
Proof. by apply Z2Nat.id. Qed.

(** What a send queue must have room for.  [init_com_hndl] asks for 8192
    requests and [ibv_create_qp] may grant more; then a list longer than was
    asked for must not be posted ([larger_queue_returns_early]). *)
Definition queue_fits (cap requests : nat) : Prop :=
  (queue_size <= cap)%nat /\ (cap = queue_size \/ requests <= queue_size)%nat.
Lemma queue_fits_pos cap n : queue_fits cap n -> (0 < cap)%nat.
Proof. intros [H _]. pose proof queue_size_Z. unfold IB_MAX_SEND_WR in *. lia. Qed.
Lemma queue_fits_le cap n n' : (n' <= n)%nat -> queue_fits cap n -> queue_fits cap n'.
Proof. unfold queue_fits. lia. Qed.

(** The completions that are asked for are those of the batches it takes. *)
Lemma batched_fits cap l : queue_fits cap (length l) -> batched queue_size l -> batched cap l.
Proof.
  intros [Hle [->|Hl]] Hb; [done|]. intros i wr Hi. rewrite (Hb i wr Hi). apply bool_decide_ext.
  pose proof (lookup_lt_Some _ _ _ Hi). destruct (decide (S i = length l)) as [|Hne]; [tauto|].
  rewrite !Nat.mod_small by lia. lia.
Qed.

(** The list as [append_to_send_list] keeps it. *)
Definition sender_ok (st : sender) : Prop :=
  send_list_length st = u64 (Z.of_nat (length (send_list st))) /\
  forall i wr, send_list st !! i = Some wr -> signaled wr = bool_decide ((S i) mod queue_size = 0)%nat.

Lemma initial_sender_ok : sender_ok initial_sender.
Proof. split; done. Qed.

Lemma append_ok wr st :
  sender_ok st -> unsignaled wr -> exists wr', send_list (append_to_send_list wr st) = send_list st ++ [wr'] /\
    sender_ok (append_to_send_list wr st) /\ (wr' = wr \/ wr' = set_signaled wr).
Proof.
  intros [Hn Hs] Hwr. unfold append_to_send_list. cbn [send_list]. eexists. split; [reflexivity|].
  assert (u64 (send_list_length st + 1) = u64 (Z.of_nat (S (length (send_list st))))) as En.
  { rewrite Hn. unfold u64. rewrite Zplus_mod_idemp_l. f_equal. lia. }
  assert ((u64 (send_list_length st + 1) mod IB_MAX_SEND_WR =? 0) =
          bool_decide (S (length (send_list st)) mod queue_size = 0)%nat) as Em.
  { rewrite En. unfold u64. rewrite Z.mod_mod_divide by (by exists (2 ^ 51)).
    rewrite <- queue_size_Z, <- Nat2Z.inj_mod. apply Bool.eq_iff_eq_true. rewrite bool_decide_eq_true, Z.eqb_eq. lia. }
  split; [|by destruct (_ =? 0); [right|left]]. split; cbn [send_list send_list_length].
  - rewrite En, length_app. do 2 f_equal. cbn. lia.
  - intros i w Hi. apply lookup_app_Some in Hi as [Hi|[Hle Hi]]; [by apply Hs|].
    apply list_lookup_singleton_Some in Hi as [Hi <-]. rewrite Em.
    replace i with (length (send_list st)) by lia.
    destruct (bool_decide _) eqn:E; [done|]. exact Hwr.
Qed.

(** The last request is signalled. *)
Lemma update_last_batched f st :
  sender_ok st -> send_list st <> [] -> (forall wr, signaled (f wr) = true) -> batched queue_size (send_list (update_last f st)).
Proof.
  intros [_ Hs] Hne Hf i wr Hi. cbn [update_last send_list] in *. rewrite length_alter.
  assert (length (send_list st) <> 0)%nat by (by destruct (send_list st)).
  destruct (decide (i = pred (length (send_list st)))) as [E|Hi'].
  - subst i. rewrite list_lookup_alter_eq in Hi. destruct (send_list st !! _) as [w|]; [|done]. cbn in Hi. injection Hi as <-.
    rewrite Hf. symmetry. apply bool_decide_eq_true. right. lia.
  - rewrite list_lookup_alter_ne in Hi by done. pose proof (lookup_lt_Some _ _ _ Hi). rewrite (Hs i wr Hi).
    apply bool_decide_ext. lia.
Qed.

(** The regions of the two sides: the source's at [gm], the destination's at
    [base], with the same offsets. *)
Definition paired (gm base : Z) (r r' : mr) : Prop :=
  mr_addr r - gm = mr_addr r' - base /\ mr_length r = mr_length r'.

(** What the adapters accept: the bytes lie in a region of each side and the
    keys are its keys. *)
Definition permitted (lmrs rmrs : list mr) (wr : send_wr) : Prop :=
  sg_length wr = 0 \/
  exists r r', r ∈ lmrs /\ sg_lkey wr = mr_lkey r /\
    mr_addr r <= sg_addr wr /\ sg_addr wr + sg_length wr <= mr_addr r + mr_length r /\
    r' ∈ rmrs /\ rkey wr = mr_rkey r' /\
    mr_addr r' <= remote_addr wr /\ remote_addr wr + sg_length wr <= mr_addr r' + mr_length r'.

(** No two regions overlap, and all end below 2^64. *)
Definition mrs_ok (gm : Z) (rs : list mr) : Prop :=
  (forall i r, rs !! i = Some r -> gm <= mr_addr r /\ 0 <= mr_length r /\ mr_addr r + mr_length r < 2 ^ 64) /\
  forall i j r1 r2, rs !! i = Some r1 -> rs !! j = Some r2 -> i <> j ->
    mr_addr r1 + mr_length r1 <= mr_addr r2 \/ mr_addr r2 + mr_length r2 <= mr_addr r1.

(** Both sides after the exchange. *)
Record connected (gm base : Z) (c : com_hndl) (rmrs : list mr) : Prop := {
  cn_pairs : Forall2 (paired gm base) (mrs c) rmrs;
  cn_keys : keys (rem_qp_info c) = mr_rkey <$> rmrs;
  cn_addr : qp_addr (rem_qp_info c) = base;
  cn_local : mrs_ok gm (mrs c);
  cn_remote : mrs_ok base rmrs;
  cn_host : 0 <= gm /\ 0 <= base
}.

Section Lists.
Context (gm base : Z) (c : com_hndl) (rmrs : list mr) (p : mig_params) (Hcn : connected gm base c rmrs).

(** A request as the lists should hold it. *)
Definition good (wr : send_wr) : Prop :=
  permitted (mrs c) rmrs wr /\ (sg_length wr = 0 \/ sg_addr wr - gm = remote_addr wr - base).

(** The list grew by at most [n] requests that cover exactly the bytes of [f]. *)
Definition adds (n : nat) (st st' : sender) (f : Z -> bool) : Prop :=
  exists wrs, send_list st' = send_list st ++ wrs /\ (length wrs <= n)%nat /\ sender_ok st' /\ Forall good wrs /\
    forall x, list_covers base wrs x = f x.

Lemma adds_nothing st f : sender_ok st -> (forall x, f x = false) -> adds 0 st st f.
Proof.
  intros H Hf. exists []. split; [by rewrite app_nil_r|]. split; [done|]. split; [done|]. split; [done|].
  intros x. by rewrite Hf.
Qed.

Lemma adds_trans n1 n2 st st1 st2 f g h :
  adds n1 st st1 f -> adds n2 st1 st2 g -> (forall x, h x = f x || g x) -> adds (n1 + n2) st st2 h.
Proof.
  intros (w1 & E1 & L1 & _ & H1 & C1) (w2 & E2 & L2 & Hok & H2 & C2) Hh. exists (w1 ++ w2).
  split; [by rewrite E2, E1, app_assoc|]. split; [rewrite length_app; lia|]. split; [done|]. split; [by apply Forall_app|].
  intros x. unfold list_covers in *. by rewrite existsb_app, C1, C2, Hh.
Qed.

Lemma enclosing_lookup i r q :
  mrs c !! i = Some r -> mr_addr r <= q < mr_addr r + mr_length r -> enclosing_mr (mrs c) q = Some (i, r).
Proof.
  destruct (cn_local _ _ _ _ Hcn) as [Hr Hdis]. intros Hi Hq. unfold enclosing_mr. apply list_find_Some.
  assert (forall j r2, mrs c !! j = Some r2 -> in_mr q r2 = true -> mr_addr r2 <= q < mr_addr r2 + mr_length r2) as Hin.
  { intros j r2 Hj. destruct (Hr j r2 Hj) as (? & ? & ?). pose proof (proj1 (cn_host _ _ _ _ Hcn)). unfold in_mr.
    rewrite u64_small by (unfold is_u64; lia). zbool; cbn; [lia|done..]. }
  split; [done|]. split.
  - destruct (Hr i r Hi) as (? & ? & ?). pose proof (proj1 (cn_host _ _ _ _ Hcn)). unfold in_mr.
    rewrite u64_small by (unfold is_u64; lia). zbool; cbn; [done|lia..].
  - intros j r2 Hj Hlt Hx. destruct (Hdis i j r r2 Hi Hj ltac:(lia)); pose proof (Hin j r2 Hj Hx); lia.
Qed.

(** One entry: [n] bytes at the offset that [addr] stands for. *)
Lemma entry_adds i r addr q n st :
  mrs c !! i = Some r -> mr_addr r <= gm + q -> 0 < n < 2 ^ 32 -> gm + q + n <= mr_addr r + mr_length r ->
  determine_dest_offset addr = q -> sender_ok st ->
  exists st', create_send_list_entry c p (Some addr) (gm + q) n st = OK st' /\
    adds 1 st st' (fun x => (q <=? x) && (x <? q + n)).
Proof.
  intros Hi Hlo Hn Hhi Ha Hok. unfold create_send_list_entry. cbn [prepare_send_list_elem].
  rewrite (enclosing_lookup i r) by (done || lia). rewrite (cn_keys _ _ _ _ Hcn), list_lookup_fmap.
  destruct (Forall2_lookup_l _ _ _ _ _ (cn_pairs _ _ _ _ Hcn) Hi) as (r' & Hi' & Hoff & Hlen).
  rewrite Hi'. cbn [fmap option_fmap option_map]. rewrite (cn_addr _ _ _ _ Hcn), Ha.
  destruct (proj1 (cn_remote _ _ _ _ Hcn) i r' Hi') as (? & ? & ?).
  pose proof (cn_host _ _ _ _ Hcn) as [? ?].
  rewrite (u64_small (base + q)) by (unfold is_u64; lia). rewrite (u32_small n) by (unfold is_u32; lia).
  cbn [wr_id opcode signaled solicited imm_data].
  match goal with |- context [append_to_send_list ?w ?s] => set (wr := w); set (st1 := s) end.
  assert (send_list st1 = send_list st /\ sender_ok st1) as [El Hok1]
    by (unfold st1; destruct (_ && _); destruct Hok; done).
  destruct (append_ok wr st1 Hok1 eq_refl) as (wr' & E & Hok' & Hwr').
  eexists. split; [reflexivity|]. exists [wr']. rewrite E, El. split; [done|]. split; [done|]. split; [done|].
  assert (sg_addr wr' = gm + q /\ sg_length wr' = n /\ sg_lkey wr' = mr_lkey r /\ remote_addr wr' = base + q /\
    rkey wr' = mr_rkey r') as (E1 & E2 & E3 & E4 & E5) by (destruct Hwr' as [->| ->]; done).
  split.
  - apply Forall_singleton. split; [|right; lia]. right. exists r, r'. rewrite E1, E2, E4.
    split; [by eapply list_elem_of_lookup_2|]. split; [done|]. split; [lia|]. split; [lia|].
    split; [by eapply list_elem_of_lookup_2|]. split; [done|]. lia.
  - intros x. unfold list_covers. cbn [existsb]. unfold wr_covers. rewrite E2, E4, orb_false_r.
    zbool; cbn; done || lia.
Qed.

(** A region at a page boundary of guest memory. *)
Definition aligned_mr (r : mr) : Prop :=
  (mr_addr r - gm) mod 4096 = 0 /\ mr_addr r - gm + mr_length r < 2 ^ 63.

Definition mr_covers (r : mr) (x : Z) : bool := (mr_addr r - gm <=? x) && (x <? mr_addr r - gm + mr_length r).
Definition mrs_cover (rs : list mr) (x : Z) : bool := existsb (fun r => mr_covers r x) rs.

Context (Hmax : 0 < max_msg_sz c < 2 ^ 32 /\ max_msg_sz c mod 4096 = 0).
Definition mr_requests (r : mr) : nat := S (Z.to_nat (mr_length r / max_msg_sz c)).

Lemma enqueue_mr_adds i r st :
  mrs c !! i = Some r -> aligned_mr r -> sender_ok st ->
  exists st', enqueue_mr c p gm r st = OK st' /\ adds (mr_requests r) st st' (mr_covers r).
Proof.
  intros Hi [Hal Hhi] Hok. destruct Hmax as [HM HMal]. set (M := max_msg_sz c) in *.
  destruct (proj1 (cn_local _ _ _ _ Hcn) i r Hi) as (Hlo & HL & Hend). pose proof (cn_host _ _ _ _ Hcn) as [? ?].
  set (q := mr_addr r - gm) in *. set (L := mr_length r) in *. assert (mr_addr r = gm + q) as Eq by (unfold q; lia).
  pose proof (Z.div_mod L M ltac:(lia)) as EL. pose proof (Z.mod_pos_bound L M ltac:(lia)) as Hrem.
  pose proof (Z.div_pos L M HL ltac:(lia)) as Hdiv.
  assert (forall o n st0, 0 <= o -> o mod 4096 = 0 -> 0 < n < 2 ^ 32 -> o + n <= L -> sender_ok st0 ->
    exists st', create_send_list_entry c p (Some (u64 (o + mr_addr r - gm))) (u64 (mr_addr r + o)) n st0 = OK st' /\
      adds 1 st0 st' (fun x => (q + o <=? x) && (x <? q + o + n))) as Hentry.
  { intros o n st0 Ho Hoal Hn Hon Hok0. rewrite !u64_small by (unfold is_u64; lia).
    replace (mr_addr r + o) with (gm + (q + o)) by lia. replace (o + mr_addr r - gm) with (q + o) by lia.
    apply (entry_adds i r); [done|lia|done|lia| |done].
    apply page_offset; [lia|]. rewrite Z.add_mod, Hal, Hoal by lia. done. }
  unfold enqueue_mr. fold M L.
  destruct (for_upto_inv (fun k st1 => adds (Z.to_nat k) st st1 (fun x => (q <=? x) && (x <? q + k * M)))
    (fun k st1 => create_send_list_entry c p (Some (u64 (u64 (k * M) + mr_addr r - gm)))
                    (u64 (mr_addr r + u64 (k * M))) M st1) (Z.to_nat (L / M)) 0 st) as (st1 & E1 & H1).
  - apply adds_nothing; [done|]. intros x. zbool; cbn; done || lia.
  - intros k st1 Hk Hst1. rewrite Z2Nat.id, Z.add_0_l in Hk by lia.
    assert (0 <= k * M /\ k * M + M <= L) as [Hk0 HkL] by nia. rewrite (u64_small (k * M)) by (unfold is_u64; lia).
    destruct (Hentry (k * M) M st1) as (st2 & E2 & H2); [lia| |done|lia|by destruct Hst1 as (? & _ & _ & ? & _)|].
    { rewrite Z.mul_mod, HMal, Z.mul_0_r by lia. done. }
    exists st2. split; [done|]. rewrite Z2Nat.inj_add by lia.
    apply (adds_trans _ _ _ _ _ _ _ _ Hst1 H2). intros x. cbn beta. zbool; cbn; done || lia.
  - rewrite E1, bind_OK. rewrite Z.add_0_l, Z2Nat.id in H1 by lia. unfold mr_requests. fold M L.
    destruct (Z.eqb_spec (L mod M) 0) as [E0|Hne]; cbn [negb].
    + exists st1. split; [done|]. replace (S (Z.to_nat (L / M))) with (Z.to_nat (L / M) + 1)%nat by lia.
      destruct H1 as (w & ? & ? & ? & ? & Hc). exists w. split; [done|]. split; [lia|]. split; [done|]. split; [done|].
      intros x. rewrite Hc. unfold mr_covers. fold q L. replace (L / M * M) with L by lia. done.
    + rewrite (u64_small (L - L mod M)) by (unfold is_u64; lia).
      destruct (Hentry (L - L mod M) (L mod M) st1) as (st2 & E2 & H2); [lia| |lia|lia|by destruct H1 as (? & _ & _ & ? & _)|].
      { replace (L - L mod M) with (M * (L / M)) by lia. rewrite Z.mul_mod, HMal by lia. done. }
      exists st2. split; [done|]. replace (S (Z.to_nat (L / M))) with (Z.to_nat (L / M) + 1)%nat by lia.
      apply (adds_trans _ _ _ _ _ _ _ _ H1 H2). intros x. unfold mr_covers. fold q L. zbool; cbn; done || lia.
Qed.

Lemma enqueue_mrs_adds rs : forall pre st,
  mrs c = pre ++ rs -> Forall aligned_mr rs -> sender_ok st ->
  exists st', enqueue_mrs c p gm rs st = OK st' /\
    adds (list_sum (mr_requests <$> rs)) st st' (mrs_cover rs).
Proof.
  induction rs as [|r rs IH]; intros pre st Hc Hal Hok.
  - exists st. split; [done|]. by apply adds_nothing.
  - apply Forall_cons in Hal as [Hr Hal]. cbn [enqueue_mrs].
    destruct (enqueue_mr_adds (length pre) r st) as (st1 & -> & H1); [|done|done|].
    { rewrite Hc. by apply list_lookup_middle. }
    rewrite bind_OK. destruct (IH (pre ++ [r]) st1) as (st2 & -> & H2); [|done| |].
    { by rewrite Hc, <- app_assoc. }
    { by destruct H1 as (? & _ & _ & ? & _). }
    exists st2. split; [done|]. cbn [fmap list_fmap list_sum foldr]. by apply (adds_trans _ _ _ _ _ _ _ _ H1 H2).
Qed.

(** The list of a cold migration. *)
Lemma enqueue_all_adds st :
  Forall aligned_mr (mrs c) -> sender_ok st ->
  exists st', enqueue_all_mrs c p gm st = OK st' /\
    adds (list_sum (mr_requests <$> mrs c)) st st' (mrs_cover (mrs c)).
Proof.
  intros Hal Hok. unfold enqueue_all_mrs. rewrite (proj2 (Z.eqb_neq _ 0)) by lia. cbn [andb].
  by apply (enqueue_mrs_adds (mrs c) []).
Qed.

(** A request whose addresses, lengths and keys are those of another. *)
Definition same_transfer (wr wr' : send_wr) : Prop :=
  sg_addr wr' = sg_addr wr /\ sg_length wr' = sg_length wr /\ sg_lkey wr' = sg_lkey wr /\
  remote_addr wr' = remote_addr wr /\ rkey wr' = rkey wr.

Lemma update_last_transfers f st :
  (forall wr, same_transfer wr (f wr)) -> Forall good (send_list st) ->
  Forall good (send_list (update_last f st)) /\
  (forall x, list_covers base (send_list (update_last f st)) x = list_covers base (send_list st) x).
Proof.
  intros Hf. cbn [update_last send_list]. generalize (pred (length (send_list st))).
  induction (send_list st) as [|wr l IH]; intros k Hg; [done|]. apply Forall_cons in Hg as [Hw Hg].
  destruct (Hf wr) as (E1 & E2 & E3 & E4 & E5). destruct k as [|k]; cbn [alter list_alter].
  - split.
    + apply Forall_cons_2; [|done]. unfold good, permitted. by rewrite E1, E2, E3, E4, E5.
    + intros x. unfold list_covers. cbn [existsb]. unfold wr_covers. by rewrite E2, E4.
  - destruct (IH k Hg) as [H1 H2]. split; [by apply Forall_cons_2|].
    intros x. unfold list_covers in *. cbn [existsb]. by rewrite H2.
Qed.

(** The list that is posted at the end: its last request, possibly one without
    data, tells the destination. *)
Definition final_sender (st : sender) : sender :=
  update_last last_of_all
    (if send_list_length st =? 0
     then let '(wr, st) := prepare_send_list_elem st in append_to_send_list wr st else st).

Lemma final_list n st st1 f :
  send_list st = [] -> adds n st st1 f ->
  let l := send_list (final_sender st1) in
  batched queue_size l /\ l <> [] /\ Forall good l /\ (length l <= S n)%nat /\
  forall x, list_covers base l x = f x.
Proof.
  intros Hnil (wrs & El & Hlen & Hok & Hg & Hc). rewrite Hnil in El. cbn [app] in El. cbn zeta.
  unfold final_sender. match goal with |- context [update_last last_of_all ?s] => set (st2 := s) end.
  assert (sender_ok st2 /\ send_list st2 <> [] /\ Forall good (send_list st2) /\ (length (send_list st2) <= S n)%nat /\
    forall x, list_covers base (send_list st2) x = f x) as (Hok2 & Hne & Hg2 & Hlen2 & Hc2).
  { unfold st2. destruct (Z.eqb_spec (send_list_length st1) 0) as [E0|E0].
    - cbn [prepare_send_list_elem]. match goal with |- context [append_to_send_list ?w ?s] => set (wr := w); set (st3 := s) end.
      destruct (append_ok wr st3 Hok eq_refl) as (wr' & E & Hok' & Hwr').
      assert (sg_length wr' = 0) as Hz by (by destruct Hwr' as [->| ->]).
      rewrite E. change (send_list st3) with (send_list st1). rewrite El. split; [done|].
      split; [by destruct wrs|]. split; [|split].
      + apply Forall_app_2; [done|]. apply Forall_singleton. by split; left.
      + rewrite length_app. cbn. lia.
      + intros x. unfold list_covers in *. rewrite existsb_app, Hc. cbn [existsb]. unfold wr_covers. rewrite Hz.
        zbool; cbn; rewrite ?orb_false_r; done || lia.
    - rewrite El. split; [done|]. split; [|split; [done|split; [lia|done]]].
      intros ->. destruct Hok as [Hz _]. rewrite El in Hz. done. }
  split; [by apply update_last_batched|]. destruct (update_last_transfers last_of_all st2) as [H1 H2]; [done|done|].
  split; [|split; [done|split]].
  - cbn [update_last send_list]. intros E. apply Hne, length_zero_iff_nil.
    by rewrite <- (length_alter last_of_all _ (pred (length (send_list st2)))), E.
  - cbn [update_last send_list]. by rewrite length_alter.
  - intros x. by rewrite H2.
Qed.
End Lists.

(** ** Setting up the connection *)

Definition qp_ok (q : qp_info) : Prop :=
  is_u32 (qpn q) /\ 0 <= lid q < 2 ^ 16 /\ 0 <= psn q < 2 ^ 16 /\ is_u64 (qp_addr q) /\ Forall is_u32 (keys q).

Lemma decode_encode_keys ks : Forall is_u32 ks -> decode_keys (length ks) (encode_keys ks) = ks.
Proof.
  induction 1 as [|k ks Hk _ IH]; [done|]. unfold encode_keys in *. cbn [fmap list_fmap concat length decode_keys].
  rewrite take_app_length', drop_app_length' by (by rewrite length_le_split).
  rewrite le_combine_split. f_equal; [|exact IH]. by apply Z.mod_small.
Qed.

Lemma length_encode_keys ks : length (encode_keys ks) = (4 * length ks)%nat.
Proof.
  induction ks as [|k ks IH]; [done|]. unfold encode_keys in *. cbn [fmap list_fmap concat length].
  rewrite length_app, length_le_split, IH. lia.
Qed.

Lemma length_encode_qp_info q ptr : length (encode_qp_info q ptr) = 24%nat.
Proof. unfold encode_qp_info. by rewrite !length_app, !length_le_split. Qed.

Lemma decode_encode_qp_info q ptr : qp_ok q -> decode_qp_info (encode_qp_info q ptr) (keys q) = q.
Proof.
  intros (H1 & H2 & H3 & H4 & _). unfold is_u32, is_u64 in *. destruct q as [n l s a ks]. cbn [qpn lid psn qp_addr keys] in *.
  unfold decode_qp_info, encode_qp_info. cbn [qpn lid psn qp_addr]. f_equal; read_field.
Qed.

(** What a side sends. *)
Definition qp_stream (c : com_hndl) (keys_ptr : Z) : list byte :=
  encode_qp_info (loc_qp_info c) keys_ptr ++ encode_keys (keys (loc_qp_info c)).

(** A handle as [init_com_hndl] leaves it. *)
Definition handle_ok (c : com_hndl) : Prop :=
  qp_ok (loc_qp_info c) /\ length (keys (loc_qp_info c)) = length (mrs c) /\ Z.of_nat (length (mrs c)) < 2 ^ 60.

Definition with_remote (c c' : com_hndl) : com_hndl :=
  mkhndl (mrs c) (max_msg_sz c) (loc_qp_info c) (loc_qp_info c') (used_port c).

Section ExchangeOk.
Context {S : Type} (sock : Socket S) (R : S -> list byte -> list byte -> Prop) (Hconn : connection sock R).
Context (fuel : nat).

Lemma exchange_ok server ptr ptr' c c' rest sent s :
  handle_ok c -> handle_ok c' -> length (mrs c) = length (mrs c') -> (4 * length (mrs c) + 24 < fuel)%nat ->
  R s (qp_stream c' ptr' ++ rest) sent ->
  exists s', exchange_qp_info sock fuel server ptr c s = OK (with_remote c c', s') /\
    R s' rest (sent ++ qp_stream c ptr).
Proof.
  intros (Hq & Hk & Hn) (Hq' & Hk' & _) Hlen Hf HR. unfold qp_stream in *. rewrite <- app_assoc in HR.
  pose proof (length_encode_qp_info (loc_qp_info c) ptr) as L1.
  pose proof (length_encode_qp_info (loc_qp_info c') ptr') as L2.
  pose proof (length_encode_keys (keys (loc_qp_info c))) as L3.
  pose proof (length_encode_keys (keys (loc_qp_info c'))) as L4.
  assert (decode_qp_info (encode_qp_info (loc_qp_info c') ptr')
    (decode_keys (length (mrs c)) (encode_keys (keys (loc_qp_info c')))) = loc_qp_info c') as Ed.
  { rewrite Hlen, <- Hk'. rewrite decode_encode_keys by apply Hq'. by apply decode_encode_qp_info. }
  unfold exchange_qp_info. destruct server.
  - destruct (recv_bytes_ok sock R Hconn fuel _ _ _ _ sizeof_qp_info HR) as (s1 & -> & H1);
      [by rewrite L2|done|lia|]. rewrite bind_OK. cbn match.
    destruct (send_bytes_ok sock R Hconn fuel (encode_qp_info (loc_qp_info c) ptr) _ _ _ H1) as (s2 & -> & H2);
      [lia|lia|]. rewrite bind_OK.
    destruct (recv_bytes_ok sock R Hconn fuel _ _ _ _ (4 * Z.of_nat (length (mrs c))) H2) as (s3 & -> & H3);
      [lia|lia|lia|]. rewrite bind_OK. cbn match.
    destruct (send_bytes_ok sock R Hconn fuel (encode_keys (keys (loc_qp_info c))) _ _ _ H3) as (s4 & -> & H4);
      [lia|lia|]. rewrite !bind_OK. cbn match. rewrite Ed. exists s4. split; [done|]. by rewrite app_assoc.
  - destruct (send_bytes_ok sock R Hconn fuel (encode_qp_info (loc_qp_info c) ptr) _ _ _ HR) as (s1 & -> & H1);
      [lia|lia|]. rewrite bind_OK.
    destruct (recv_bytes_ok sock R Hconn fuel _ _ _ _ sizeof_qp_info H1) as (s2 & -> & H2);
      [by rewrite L2|done|lia|]. rewrite bind_OK. cbn match.
    destruct (send_bytes_ok sock R Hconn fuel (encode_keys (keys (loc_qp_info c))) _ _ _ H2) as (s3 & -> & H3);
      [lia|lia|]. rewrite bind_OK.
    destruct (recv_bytes_ok sock R Hconn fuel _ _ _ _ (4 * Z.of_nat (length (mrs c))) H3) as (s4 & -> & H4);
      [lia|lia|lia|]. rewrite !bind_OK. cbn match. rewrite Ed. exists s4. split; [done|]. by rewrite app_assoc.
Qed.
End ExchangeOk.

(** *** The regions of the two sides *)

Definition at_host (g : Z) (cs : list mem_chunk) : list mem_chunk := (fun ch => mkchunk (g + ptr ch) (size ch)) <$> cs.
Definition is_region (ch : mem_chunk) (r : mr) : Prop := mr_addr r = ptr ch /\ mr_length r = size ch.

Lemma register_regions v flags cs : forall rs, register_mrs v flags cs = OK rs -> Forall2 is_region cs rs.
Proof.
  induction cs as [|ch cs IH]; intros rs E; cbn [register_mrs] in E; [by injection E as <-|].
  destruct (v_reg_mr v (ptr ch) (size ch) flags) as [[lkey rkey]|]; [|done].
  apply bind_OK_inv in E as (rs' & E & [= <-]). constructor; [done|auto].
Qed.

Lemma init_regions v p g cs c :
  init_com_hndl v p g cs = OK c ->
  Forall2 is_region cs (mrs c) /\ qp_addr (loc_qp_info c) = g /\ keys (loc_qp_info c) = mr_rkey <$> mrs c.
Proof.
  unfold init_com_hndl. intros E. apply bind_OK_inv in E as (devices & _ & E).
  apply bind_OK_inv in E as ([port attr] & _ & E). apply bind_OK_inv in E as (_ & _ & E).
  apply bind_OK_inv in E as (rs & Er & E). do 2 apply bind_OK_inv in E as (_ & _ & E).
  apply bind_OK_inv in E as (qp_num & _ & E). apply bind_OK_inv in E as (_ & _ & E).
  injection E as <-. cbn [mrs loc_qp_info qp_addr keys]. split; [|done]. by eapply register_regions.
Qed.

(** Chunks as [determine_mem_mappings] and the memory regions give them: in
    order, at page boundaries; [g] and [g'] are the host addresses of guest
    memory. *)
Record chunks_ok (g g' : Z) (cs : list mem_chunk) : Prop := {
  ch_order : chunks_ordered 0 cs;
  ch_align : Forall (fun ch => ptr ch mod 4096 = 0) cs;
  ch_host : 0 <= g /\ 0 <= g';
  ch_end : Forall (fun ch => ptr ch + size ch < 2 ^ 63 /\ g + ptr ch + size ch < 2 ^ 64 /\
                             g' + ptr ch + size ch < 2 ^ 64) cs
}.

Lemma ordered_lookup prev cs i ch :
  chunks_ordered prev cs -> cs !! i = Some ch -> prev <= ptr ch /\ 0 < size ch.
Proof.
  revert prev i. induction cs as [|c0 cs IH]; intros prev i H Hi; [done|]. destruct H as (H1 & H2 & H3).
  destruct i as [|i]; cbn in Hi; [by injection Hi as <-|]. destruct (IH _ _ H3 Hi). lia.
Qed.

Lemma ordered_before prev cs i j c1 c2 :
  chunks_ordered prev cs -> cs !! i = Some c1 -> cs !! j = Some c2 -> (i < j)%nat -> ptr c1 + size c1 <= ptr c2.
Proof.
  revert prev i j. induction cs as [|c0 cs IH]; intros prev i j H Hi Hj Hlt; [done|]. destruct H as (H1 & H2 & H3).
  destruct j as [|j]; [lia|]. cbn in Hj. destruct i as [|i]; cbn in Hi.
  - injection Hi as <-. by destruct (ordered_lookup _ _ _ _ H3 Hj).
  - eapply IH; [exact H3|done|done|lia].
Qed.

Lemma regions_mrs_ok g g' cs rs : chunks_ok g g' cs -> Forall2 is_region (at_host g cs) rs -> mrs_ok g rs.
Proof.
  intros [Ho _ [Hg _] He] HF.
  assert (forall i r, rs !! i = Some r -> exists ch, cs !! i = Some ch /\ mr_addr r = g + ptr ch /\ mr_length r = size ch) as Hl.
  { intros i r Hi. destruct (Forall2_lookup_r _ _ _ _ _ HF Hi) as (ch' & Hch & Ha & Hs).
    unfold at_host in Hch. rewrite list_lookup_fmap in Hch. destruct (cs !! i) as [ch|]; [|done]. injection Hch as <-.
    by exists ch. }
  split.
  - intros i r Hi. destruct (Hl i r Hi) as (ch & Hch & Ha & Hs).
    destruct (proj1 (Forall_lookup _ _) He _ _ Hch) as (? & ? & ?).
    destruct (ordered_lookup _ _ _ _ Ho Hch). lia.
  - intros i j r1 r2 Hi Hj Hne. destruct (Hl i r1 Hi) as (c1 & Hc1 & Ha1 & Hs1), (Hl j r2 Hj) as (c2 & Hc2 & Ha2 & Hs2).
    destruct (decide (i < j)%nat).
    + left. pose proof (ordered_before _ _ _ _ _ _ Ho Hc1 Hc2 ltac:(lia)). lia.
    + right. pose proof (ordered_before _ _ _ _ _ _ Ho Hc2 Hc1 ltac:(lia)). lia.
Qed.

Lemma chunks_ok_sym g g' cs : chunks_ok g g' cs -> chunks_ok g' g cs.
Proof.
  intros [H1 H2 H3 H4]. split; [done|done|tauto|]. eapply list.Forall_impl; [exact H4|]. cbn. tauto.
Qed.

(** After the exchange the two sides fit. *)
Lemma connected_ok v1 v2 p gm base cs c1 c2 :
  chunks_ok gm base cs ->
  init_com_hndl v1 p gm (at_host gm cs) = OK c1 -> init_com_hndl v2 p base (at_host base cs) = OK c2 ->
  connected gm base (with_remote c1 c2) (mrs c2).
Proof.
  intros Hcs E1 E2. destruct (init_regions _ _ _ _ _ E1) as (F1 & _ & _).
  destruct (init_regions _ _ _ _ _ E2) as (F2 & Ha & Hk). split; cbn [with_remote mrs rem_qp_info].
  - apply Forall2_same_length_lookup_2.
    { rewrite <- (Forall2_length _ _ _ F1), <- (Forall2_length _ _ _ F2). unfold at_host. by rewrite !length_fmap. }
    intros i r r' Hi Hi'. destruct (Forall2_lookup_r _ _ _ _ _ F1 Hi) as (ch & Hch & Hr1 & Hr2).
    destruct (Forall2_lookup_r _ _ _ _ _ F2 Hi') as (ch' & Hch' & Hr1' & Hr2').
    unfold at_host in *. rewrite list_lookup_fmap in *. destruct (cs !! i) as [c0|]; [|done].
    injection Hch as <-. injection Hch' as <-. cbn [ptr size] in *. unfold paired. lia.
  - done.
  - done.
  - by apply (regions_mrs_ok gm base cs).
  - apply (regions_mrs_ok base gm cs); [by apply chunks_ok_sym|done].
  - by apply ch_host in Hcs.
Qed.

Lemma regions_cover gm cs rs x :
  Forall2 is_region (at_host gm cs) rs -> mrs_cover gm rs x = in_some_chunk cs x.
Proof.
  revert rs. induction cs as [|ch cs IH]; intros rs HF; inversion HF as [|? r ? rs' [Ha Hs] HF']; [done|].
  unfold mrs_cover, in_some_chunk in *. cbn [existsb]. rewrite <- (IH rs' HF'). f_equal.
  unfold mr_covers. rewrite Ha, Hs. cbn [ptr size]. f_equal; [apply Bool.eq_iff_eq_true; rewrite !Z.leb_le; lia|].
  apply Bool.eq_iff_eq_true. rewrite !Z.ltb_lt. lia.
Qed.

Lemma regions_aligned g g' cs rs : chunks_ok g g' cs -> Forall2 is_region (at_host g cs) rs -> Forall (aligned_mr g) rs.
Proof.
  intros [Ho Hal _ He] HF. apply Forall_lookup_2. intros i r Hi.
  destruct (Forall2_lookup_r _ _ _ _ _ HF Hi) as (ch' & Hch & Ha & Hs).
  unfold at_host in Hch. rewrite list_lookup_fmap in Hch. destruct (cs !! i) as [ch|] eqn:Ei; [|done]. injection Hch as <-.
  cbn [ptr size] in *. pose proof (proj1 (Forall_lookup _ _) Hal _ _ Ei). pose proof (proj1 (Forall_lookup _ _) He _ _ Ei).
  cbn beta in *. split; rewrite Ha, ?Hs.
  - replace (g + ptr ch - g) with (ptr ch) by lia. done.
  - lia.
Qed.

(** The calls of libibverbs succeed behind [init_com_hndl]. *)
Record verbs_ok (v : Verbs) (c : com_hndl) : Prop := {
  vb_connect : con_com_buf v c = OK tt;
  vb_destroy : destroy_com_hndl v c = OK tt;
  vb_events : 0 <= v_req_notify_cq v /\ 0 <= v_post_recv v /\ 0 <= v_get_cq_event v
}.

Lemma prefetch_keeps c cs : forall st,
  send_list (prefetch_mem_mappings c cs st) = send_list st /\
  send_list_length (prefetch_mem_mappings c cs st) = send_list_length st.
Proof.
  induction cs as [|ch cs IH]; intros st; [done|]. cbn [prefetch_mem_mappings]. destruct (_ <? 0); [done|].
  by match goal with |- context [prefetch_mem_mappings c cs ?st2] => destruct (IH st2) as [-> ->] end.
Qed.

(** The final transfer of a cold migration. *)
Lemma stop_and_copy_cold v {H} (hca : Hca H) fuel mem set_mem cfg gm base c rmrs p st h
    cap polls alive later queued settled patience :
  connected gm base c rmrs -> Forall (aligned_mr gm) (mrs c) ->
  0 < max_msg_sz c < 2 ^ 32 /\ max_msg_sz c mod 4096 = 0 ->
  reliable hca cap polls (fun _ a b => b = peek (mem h) (a - gm)) base (permitted (mrs c) rmrs)
    alive later queued settled patience -> queue_fits cap (S (list_sum (mr_requests c <$> mrs c))) ->
  (polls < fuel)%nat -> (S (list_sum (mr_requests c <$> mrs c)) < fuel)%nat ->
  mig_type p = MIG_TYPE_COLD -> mig_mode p = MIG_MODE_COMPLETE_DUMP ->
  destroy_com_hndl v c = OK tt -> sender_ok st -> send_list st = [] -> alive h -> queued h = [] ->
  exists st' h', stop_and_copy_phase v hca fuel mem set_mem cfg gm c p st h = OK (st', h') /\
    queued h' = [] /\ send_list st' = [] /\ msize (settled h') = msize (settled h) /\
    forall x, peek (settled h') x = if mrs_cover gm (mrs c) x then peek (mem h) x else peek (settled h) x.
Proof.
  intros Hcn Hal Hmax Hrel Hfits Hpolls Hfuel Ht Hm Hd Hok Hnil Ha Hq. unfold stop_and_copy_phase. rewrite Ht, Hm.
  change (MIG_TYPE_COLD =? MIG_TYPE_COLD) with true. change (MIG_MODE_COMPLETE_DUMP =? MIG_MODE_COMPLETE_DUMP) with true.
  cbn match. destruct (enqueue_all_adds gm base c rmrs p Hcn Hmax st Hal Hok) as (st1 & -> & Hadds).
  rewrite !bind_OK. fold (final_sender st1).
  destruct (final_list gm base c rmrs _ _ _ _ Hnil Hadds) as (Hb & Hne & Hg & Hlen & Hcov).
  apply (queue_fits_le _ _ _ Hlen) in Hfits.
  destruct (process_list_ok hca cap polls _ base _ alive later queued settled patience Hrel
    (queue_fits_pos _ _ Hfits) fuel Hpolls (final_sender st1) h (batched_fits _ _ Hfits Hb) Hne)
    as (h' & -> & _ & _ & Hq' & Hw); [|done|done|lia|].
  { eapply list.Forall_impl; [exact Hg|]. by intros wr [? _]. }
  rewrite bind_OK. cbn match. rewrite Hd, bind_OK. eexists _, h'. split; [reflexivity|]. split; [done|]. split; [done|].
  destruct (written_mirror _ gm base _ _ _ (list.Forall_impl _ _ _ Hg (fun wr H => proj2 H)) Hw) as [Hs Hx].
  split; [done|]. intros x. specialize (Hx x). rewrite Hcov in Hx. destruct (mrs_cover gm (mrs c) x); [|done].
  rewrite Hx. f_equal. lia.
Qed.

(** The pre-copy phase sets up the connection, then it iterates. *)
Lemma precopy_setup {S H} v (sock : Socket S) R (hca : Hca H) fuel mem set_mem cfg gm p guest_chunks chunks c1 c2
    ptr1 ptr2 s rest h :
  connection sock R ->
  init_com_hndl v p gm (if (mig_type p =? MIG_TYPE_LIVE) || (Z.of_nat (length chunks) =? 0)
                        then guest_chunks else chunks) = OK c1 ->
  handle_ok c1 -> handle_ok c2 -> length (mrs c1) = length (mrs c2) ->
  con_com_buf v (with_remote c1 c2) = OK tt -> (4 * length (mrs c1) + 24 < fuel)%nat ->
  R s (qp_stream c2 ptr2 ++ rest) [] ->
  exists p' st s', precopy_phase v sock hca fuel mem set_mem cfg gm guest_chunks chunks ptr1 p initial_sender s h =
      ('(_, st, h) ← precopy_iterations hca fuel mem set_mem cfg gm (with_remote c1 c2) p' 0 st h;
       OK (with_remote c1 c2, p', st, s', h)) /\ R s' rest (qp_stream c1 ptr1) /\
    send_list st = [] /\ sender_ok st /\ mig_type p' = mig_type p /\ mig_mode p' = mig_mode p.
Proof.
  intros Hconn E1 Hh1 Hh2 Hlen Hcon Hf HR.
  destruct (exchange_ok sock R Hconn fuel false ptr1 ptr2 c1 c2 rest [] s) as (s' & X & HR'); try done.
  unfold precopy_phase. rewrite E1, bind_OK. destruct (prefetch_keeps c1 chunks initial_sender) as [Ep En].
  destruct (uses (use_odp p) && uses (prefetch p)); cbn match;
    rewrite X, bind_OK; cbn match; rewrite Hcon, bind_OK; (do 3 eexists; split; [reflexivity|]); (split; [done|]).
  - split; [by rewrite Ep|]. split; [split; rewrite ?En, Ep; done|]. by destruct (mig_mode p =? MIG_MODE_COMPLETE_DUMP), (mig_type p =? MIG_TYPE_COLD).
  - done.
Qed.

(** The pre-copy phase of a cold migration only sets up the connection. *)
Lemma precopy_cold {S H} v (sock : Socket S) R (hca : Hca H) fuel mem set_mem cfg gm p guest_chunks chunks c1 c2
    ptr1 ptr2 s rest h :
  connection sock R -> mig_type p = MIG_TYPE_COLD -> mig_mode p = MIG_MODE_COMPLETE_DUMP -> chunks <> [] ->
  init_com_hndl v p gm chunks = OK c1 -> handle_ok c1 -> handle_ok c2 -> length (mrs c1) = length (mrs c2) ->
  con_com_buf v (with_remote c1 c2) = OK tt -> (4 * length (mrs c1) + 24 < fuel)%nat ->
  R s (qp_stream c2 ptr2 ++ rest) [] ->
  exists p' st s', precopy_phase v sock hca fuel mem set_mem cfg gm guest_chunks chunks ptr1 p initial_sender s h =
      OK (with_remote c1 c2, p', st, s', h) /\ R s' rest (qp_stream c1 ptr1) /\
    send_list st = [] /\ sender_ok st /\ mig_type p' = MIG_TYPE_COLD /\ mig_mode p' = MIG_MODE_COMPLETE_DUMP.
Proof.
  intros Hconn Ht Hm Hne E1 Hh1 Hh2 Hlen Hcon Hf HR.
  destruct (precopy_setup v sock R hca fuel mem set_mem cfg gm p guest_chunks chunks c1 c2 ptr1 ptr2 s rest h)
    as (p' & st & s' & E & HR' & Hnil & Hok & Et & Em); try done.
  { rewrite Ht. destruct chunks; done. }
  exists p', st, s'. rewrite E, Et, Em. split; [|done]. destruct fuel as [|fuel']; [lia|].
  unfold precopy_iterations. by rewrite while_S, Et, Ht.
Qed.

(** C8. A cold migration over RDMA.  When the calls of libibverbs succeed on
    both sides and the adapter is a reliable connection for requests inside
    the registered regions, the two sides exchange their queue pairs and keys,
    and when the stop-and-copy phase of the source has returned, every byte of
    every chunk is at the destination at its offset, no other byte has changed,
    and nothing is left in the send queue; whatever the largest message (a
    multiple of a page), and whatever the socket and the polls return in
    between.  The send queue has room for at least the 8192 requests that were
    asked for; if it has more, the migration must not need more than 8192: then
    the code returns too early ([larger_queue_returns_early]).  If it has room
    for exactly 8192, there may be any number of them. *)
Theorem rdma_cold_migration {S1 S2 H} v1 v2 (sock1 : Socket S1) R1 (sock2 : Socket S2) R2 (hca : Hca H) fuel
    mem set_mem cfg gm base p cs guest_chunks c1 c2 ptr1 ptr2 cap polls alive later queued settled patience s1 s2 rest1 rest2 h :
  connection sock1 R1 -> connection sock2 R2 ->
  mig_type p = MIG_TYPE_COLD -> mig_mode p = MIG_MODE_COMPLETE_DUMP -> cs <> [] -> chunks_ok gm base cs ->
  init_com_hndl v1 p gm (at_host gm cs) = OK c1 -> init_com_hndl v2 p base (at_host base cs) = OK c2 ->
  handle_ok c1 -> handle_ok c2 -> verbs_ok v1 (with_remote c1 c2) -> verbs_ok v2 (with_remote c2 c1) ->
  0 < max_msg_sz c1 < 2 ^ 32 /\ max_msg_sz c1 mod 4096 = 0 ->
  reliable hca cap polls (fun _ a b => b = peek (mem h) (a - gm)) base (permitted (mrs c1) (mrs c2))
    alive later queued settled patience -> queue_fits cap (S (list_sum (mr_requests c1 <$> mrs c1))) ->
  (polls < fuel)%nat -> (S (list_sum (mr_requests c1 <$> mrs c1)) < fuel)%nat -> (4 * length cs + 24 < fuel)%nat ->
  alive h -> queued h = [] -> R1 s1 (qp_stream c2 ptr2 ++ rest1) [] -> R2 s2 (qp_stream c1 ptr1 ++ rest2) [] ->
  (exists c p' st s1',
     precopy_phase v1 sock1 hca fuel mem set_mem cfg gm guest_chunks (at_host gm cs) ptr1 p initial_sender s1 h =
       OK (c, p', st, s1', h) /\ R1 s1' rest1 (qp_stream c1 ptr1) /\
     exists st' h', stop_and_copy_phase v1 hca fuel mem set_mem cfg gm c p' st h = OK (st', h') /\
       queued h' = [] /\ msize (settled h') = msize (settled h) /\
       forall x, peek (settled h') x = if in_some_chunk cs x then peek (mem h) x else peek (settled h) x) /\
  (exists s2', recv_guest_mem v2 sock2 fuel base (at_host base cs) ptr2 p s2 = OK (with_remote c2 c1, s2') /\
     R2 s2' rest2 (qp_stream c2 ptr2)).
Proof.
  intros Hc1 Hc2 Ht Hm Hne Hcs E1 E2 Hh1 Hh2 Hv1 Hv2 Hmax Hrel Hfits Hpolls Hf1 Hf2 Ha Hq HR1 HR2.
  pose proof (init_regions _ _ _ _ _ E1) as (F1 & _). pose proof (init_regions _ _ _ _ _ E2) as (F2 & _).
  pose proof (Forall2_length _ _ _ F1) as L1. pose proof (Forall2_length _ _ _ F2) as L2.
  unfold at_host in L1, L2. rewrite length_fmap in L1, L2.
  destruct (exchange_ok sock2 R2 Hc2 fuel true ptr2 ptr1 c2 c1 rest2 [] s2) as (s2' & X2 & HR2'); [done|done|lia|lia|done|].
  split.
  - assert (at_host gm cs <> []) as Hne' by (by destruct cs).
    destruct (precopy_cold v1 sock1 R1 hca fuel mem set_mem cfg gm p guest_chunks (at_host gm cs) c1 c2 ptr1 ptr2 s1 rest1 h)
      as (p' & st1 & s1' & E & HR1' & Hnil & Hok & Ht' & Hm'); try done; [lia|apply (vb_connect _ _ Hv1)|lia|].
    exists (with_remote c1 c2), p', st1, s1'. split; [done|]. split; [done|].
    apply (stop_and_copy_cold v1 hca fuel mem set_mem cfg gm base (with_remote c1 c2) (mrs c2)
      p' st1 h cap polls alive later queued settled patience) in Hok as (st' & h' & E' & Hq' & _ & Hs & Hx); try done.
    + exists st', h'. split; [done|]. split; [done|]. split; [done|]. intros x. rewrite Hx. cbn [with_remote mrs].
      by rewrite (regions_cover gm cs).
    + by apply (connected_ok v1 v2 p gm base cs).
    + cbn [with_remote mrs]. by apply (regions_aligned gm base cs).
    + apply (vb_destroy _ _ Hv1).
  - exists s2'. split; [|done]. unfold recv_guest_mem. rewrite E2, bind_OK, X2, bind_OK. cbn match.
    rewrite (vb_connect _ _ Hv2), bind_OK. destruct (vb_events _ _ Hv2) as (? & ? & ?).
    unfold exit_if. rewrite (proj2 (Z.ltb_ge _ _)) by done. rewrite bind_OK. cbn [with_remote mrs].
    destruct (mrs c2) eqn:Em; [destruct cs; [done|cbn in L2; lia]|].
    rewrite !(proj2 (Z.ltb_ge _ _)) by done. rewrite !bind_OK. by rewrite (vb_destroy _ _ Hv2).
Qed.

(** C9. Posting the list ends, and with everything transferred.  For a list as
    [append_to_send_list] builds it, whose last request is marked as the last
    page, [process_send_list] returns; the completions it has seen are those of
    the signalled requests, in order and successful, the last one that of the
    last page; every request has been carried out, in order, and the send queue
    is empty.  The list is of any length on a send queue with room for the 8192
    requests that were asked for, and of at most 8192 requests on a larger one
    ([larger_queue_returns_early] is what happens otherwise). *)
Theorem process_send_list_drains {H} (hca : Hca H) cap polls reads base ok alive later queued settled patience fuel st h :
  reliable hca cap polls reads base ok alive later queued settled patience -> (polls < fuel)%nat ->
  queue_fits cap (length (send_list st)) ->
  sender_ok st -> send_list st <> [] -> Forall ok (send_list (update_last last_page st)) -> alive h -> queued h = [] ->
  (length (send_list st) < fuel)%nat ->
  let l := send_list (update_last last_page st) in
  exists ws h', process_send_list hca fuel (update_last last_page st) h =
      OK (ws, mksender (cur_wr_id st) [] 0 (prefetched st), h') /\
    ws = completion <$> filter (fun w => signaled w = true) l /\ wc_wr_id <$> last ws = Some IB_WR_WRITE_LAST_PAGE_ID /\
    queued h' = [] /\ written (reads h') base l (settled h) (settled h').
Proof.
  intros Hrel Hpolls Hfits Hok Hne Hperm Ha Hq Hf. cbn zeta.
  assert (send_list (update_last last_page st) <> []) as Hne'.
  { cbn [update_last send_list]. intros E. apply Hne, length_zero_iff_nil.
    by rewrite <- (length_alter last_page _ (pred (length (send_list st)))), E. }
  destruct (process_list_ok hca cap polls reads base ok alive later queued settled patience Hrel
    (queue_fits_pos _ _ Hfits) fuel Hpolls (update_last last_page st) h)
    as (h' & E & _ & _ & Hq' & Hw); [|done|done|done|done| |].
  { apply batched_fits; [|by apply update_last_batched]. cbn [update_last send_list]. by rewrite length_alter. }
  { cbn [update_last send_list]. by rewrite length_alter. }
  eexists _, h'. split; [exact E|]. split; [done|]. split; [|done].
  destruct (exists_last Hne) as (pre & wr & El). cbn [update_last send_list]. rewrite El, length_app, Nat.add_1_r.
  cbn [pred]. rewrite alter_app_r_alt, Nat.sub_diag by lia. cbn [alter list_alter].
  rewrite filter_app, (filter_cons_True _ (last_page wr) []) by done. cbn [filter list_filter].
  rewrite fmap_app. cbn [fmap list_fmap]. rewrite last_snoc. done.
Qed.

(** ** An adapter *)

(** The source's memory, the requests in the queue, the destination's memory
    and whether the next poll finds nothing. *)
Record adapter := mkadapter { a_source : gmem; a_queue : list send_wr; a_memory : gmem; a_slow : bool }.

Section Adapter.
Context (gm base : Z) (cap : nat).

Definition carry_out (src : gmem) (d : gmem) (wr : send_wr) : gmem :=
  poken d (remote_addr wr - base) (peekn src (sg_addr wr - gm) (Z.to_nat (sg_length wr))).

(** Up to the first signalled request, if there is one. *)
Fixpoint next_batch (q : list send_wr) : option (list send_wr * send_wr * list send_wr) :=
  match q with
  | [] => None
  | wr :: q =>
      if signaled wr then Some ([], wr, q)
      else '(pre, w, post) ← next_batch q; Some (wr :: pre, w, post)
  end.

Definition adapter_hca : Hca adapter := mkhca
  (fun h l =>
     let room := (cap - length (a_queue h))%nat in
     let h' := mkadapter (a_source h) (a_queue h ++ take room l) (a_memory h) true in
     if (length l <=? room)%nat then (0, 0, [], h') else (ENOMEM, ENOMEM, drop room l, h'))
  (fun h =>
     if a_slow h then (0, mkwc 0 0, mkadapter (a_source h) (a_queue h) (a_memory h) false)
     else match next_batch (a_queue h) with
          | None => (0, mkwc 0 0, h)
          | Some (pre, w, post) =>
              (1, completion w, mkadapter (a_source h) post (foldl (carry_out (a_source h)) (a_memory h) (pre ++ [w])) true)
          end).

Lemma next_batch_split pre w post :
  Forall unsignaled pre -> signaled w = true -> next_batch (pre ++ w :: post) = Some (pre, w, post).
Proof.
  intros Hpre Hw. induction Hpre as [|x pre Hx _ IH]; cbn [app next_batch]; [by rewrite Hw|].
  rewrite Hx. rewrite IH. done.
Qed.

Lemma carried_out m wrs : forall d,
  written (fun a b => b = peek m (a - gm)) base wrs d (foldl (carry_out m) d wrs).
Proof.
  induction wrs as [|wr wrs IH]; intros d; [done|]. exists (carry_out m d wr). split; [|apply IH].
  split; [done|]. intros x. unfold carry_out. rewrite peek_poken, length_peekn.
  destruct ((remote_addr wr <=? base + x) && (base + x <? remote_addr wr + sg_length wr)) eqn:E.
  - apply andb_true_iff in E as [E1%Z.leb_le E2%Z.ltb_lt].
    rewrite (proj2 (Z.leb_le _ _)), (proj2 (Z.ltb_lt _ _)) by lia. cbn [andb].
    rewrite lookup_peekn by lia. cbn. f_equal. lia.
  - destruct ((_ <=? x) && _) eqn:E2; [|done]. apply andb_true_iff in E2 as [?%Z.leb_le ?%Z.ltb_lt].
    apply andb_false_iff in E as [?%Z.leb_gt|?%Z.ltb_ge]; lia.
Qed.
End Adapter.

(** Of the adapters with memory [m] at the source: it never changes. *)
Lemma adapter_reliable gm base cap ok m :
  (0 < cap)%nat ->
  reliable (adapter_hca gm base cap) cap 1 (fun _ a b => b = peek m (a - gm)) base ok (fun h => a_source h = m) (fun _ _ => True) a_queue a_memory
    (fun h => if a_slow h then 1 else 0)%nat.
Proof.
  intros Hcap. split; try done.
  - intros h. destruct (a_slow h); lia.
  - intros h l Ha Hq Hl. cbn [adapter_hca ibv_post_send]. rewrite Hq. cbn [length app]. rewrite Nat.sub_0_r.
    eexists. split; [by destruct (length l <=? cap)%nat|]. done.
  - intros h pre wr post Ha Hq Hpre Hwr _. cbn [adapter_hca ibv_poll_cq]. destruct (a_slow h).
    + eexists _, _. split; [|split; [done|]; left; split; [reflexivity|]; cbn; split; [done|]; split; [done|lia]]. done.
    + rewrite Hq, next_batch_split by done. eexists (mkwc 0 0), _. split; [|split; [done|]; right; split; [reflexivity|]].
      * done.
      * split; [done|]. cbn [a_memory]. rewrite Ha. apply carried_out.
Qed.

(** *** A small migration *)

Definition demo_device : device :=
  mkdevice true 0 0 1 (fun port => if port =? 1 then (0, Some (mkport IBV_PORT_ACTIVE 7 0x1000)) else (22, None)) 0.
Definition demo_verbs (qp : Z) : Verbs :=
  mkverbs (Some [demo_device]) true (fun a _ _ => Some (u32 (a / 4096), u32 (a / 4096 + 1))) true true (Some qp)
    (fun _ => 0) 0x123456 0 0 0 (fun _ => 0) 0 0 0 0 0.
Definition demo_chunks : list mem_chunk := [mkchunk 0x1000 0x2800; mkchunk 0x8000 0x1000].
Definition demo_gm : Z := 0x7f0000000000.
Definition demo_base : Z := 0x7e0000000000.
Definition demo_source : gmem := poken (poken (fresh_mem 0x10000) 0x37fe (str "ab")) 0x8000 (str "c").
Definition no_handle : com_hndl := mkhndl [] 0 (mkqp 0 0 0 0 []) (mkqp 0 0 0 0 []) 0.
Definition demo_handle (qp g : Z) : com_hndl :=
  result_of no_handle (init_com_hndl (demo_verbs qp) default_params g (at_host g demo_chunks)).
Definition demo_adapter : adapter := mkadapter demo_source [] (fresh_mem 0x10000) false.
Definition demo_set (m : gmem) (h : adapter) : adapter := mkadapter m (a_queue h) (a_memory h) (a_slow h).

Lemma demo_handle_ok qp g : (qp, g) = (5, demo_gm) \/ (qp, g) = (6, demo_base) -> handle_ok (demo_handle qp g).
Proof.
  intros [[= -> ->]|[= -> ->]];
    (match goal with |- handle_ok ?c => let c' := eval vm_compute in c in change (handle_ok c') end);
    unfold handle_ok, qp_ok, is_u32, is_u64; cbn [loc_qp_info qpn lid psn qp_addr keys mrs length];
    (split; [|split; [done|lia]]); repeat (split; [lia|]); repeat apply Forall_cons_2; try apply Forall_nil_2; lia.
Qed.

Lemma demo_chunks_ok : chunks_ok demo_gm demo_base demo_chunks.
Proof.
  split; [vm_compute; intuition congruence| |vm_compute; intuition congruence|];
    repeat apply Forall_cons_2; try apply Forall_nil_2; vm_compute; intuition congruence.
Qed.

Lemma demo_verbs_ok qp c : length (mrs c) = 2%nat -> verbs_ok (demo_verbs qp) c.
Proof.
  intros Hl. split; [done| |vm_compute; intuition congruence]. unfold destroy_com_hndl. by rewrite Hl.
Qed.

(** The adapter grants a larger queue than was asked for. *)
Definition large_queue : nat := queue_size + 808.

Lemma rdma_cold_migration_witness :
  exists c p' st s1' st' h',
    precopy_phase (demo_verbs 5) slow_socket (adapter_hca demo_gm demo_base large_queue) 100 a_source demo_set
      small_config demo_gm [] (at_host demo_gm demo_chunks) 0x40 default_params initial_sender
      (qp_stream (demo_handle 6 demo_base) 0x80, []) demo_adapter = OK (c, p', st, s1', demo_adapter) /\
    stop_and_copy_phase (demo_verbs 5) (adapter_hca demo_gm demo_base large_queue) 100 a_source demo_set
      small_config demo_gm c p' st demo_adapter = OK (st', h') /\
    peek (a_memory h') 0x37ff = Byte.x62 /\ peek (a_memory h') 0x8000 = Byte.x63.
Proof.
  destruct (rdma_cold_migration (demo_verbs 5) (demo_verbs 6) slow_socket _ slow_socket _
    (adapter_hca demo_gm demo_base large_queue) 100 a_source demo_set small_config demo_gm demo_base default_params
    demo_chunks [] (demo_handle 5 demo_gm) (demo_handle 6 demo_base) 0x40 0x80 large_queue 1 (fun h => a_source h = demo_source)
    (fun _ _ => True) a_queue a_memory (fun h => if a_slow h then 1 else 0)%nat
    (qp_stream (demo_handle 6 demo_base) 0x80, []) (qp_stream (demo_handle 5 demo_gm) 0x40, []) [] [] demo_adapter
    slow_connection slow_connection) as ((c & p' & st & s1' & E & _ & st' & h' & E' & _ & _ & Hx) & _).
  - reflexivity.
  - reflexivity.
  - discriminate.
  - exact demo_chunks_ok.
  - vm_compute. reflexivity.
  - vm_compute. reflexivity.
  - apply demo_handle_ok. by left.
  - apply demo_handle_ok. by right.
  - by apply demo_verbs_ok.
  - by apply demo_verbs_ok.
  - vm_compute. intuition congruence.
  - apply (adapter_reliable demo_gm demo_base large_queue _ demo_source).
    unfold large_queue. pose proof queue_size_Z. unfold IB_MAX_SEND_WR in *. lia.
  - split; [unfold large_queue; lia|right]. vm_compute. lia.
  - lia.
  - vm_compute. lia.
  - vm_compute. lia.
  - reflexivity.
  - reflexivity.
  - by rewrite app_nil_r.
  - by rewrite app_nil_r.
  - exists c, p', st, s1', st', h'. split; [exact E|]. split; [exact E'|]. rewrite !Hx.
    split; vm_compute; reflexivity.
Defined.

(** Three requests, the last marked. *)
Definition demo_sender : sender :=
  result_of initial_sender (enqueue_all_mrs (with_remote (demo_handle 5 demo_gm) (demo_handle 6 demo_base))
    default_params demo_gm initial_sender).

Lemma demo_connected :
  connected demo_gm demo_base (with_remote (demo_handle 5 demo_gm) (demo_handle 6 demo_base)) (mrs (demo_handle 6 demo_base)).
Proof.
  apply (connected_ok (demo_verbs 5) (demo_verbs 6) default_params demo_gm demo_base demo_chunks
    (demo_handle 5 demo_gm) (demo_handle 6 demo_base)); [exact demo_chunks_ok|vm_compute; reflexivity..].
Qed.

Lemma demo_sender_ok : sender_ok demo_sender.
Proof.
  destruct (enqueue_all_adds _ _ _ _ default_params demo_connected) with (st := initial_sender) as (st & E & Ha).
  - vm_compute. intuition congruence.
  - apply (regions_aligned demo_gm demo_base demo_chunks); [exact demo_chunks_ok|].
    assert (init_com_hndl (demo_verbs 5) default_params demo_gm (at_host demo_gm demo_chunks) =
      OK (demo_handle 5 demo_gm)) as E by (vm_compute; reflexivity).
    exact (proj1 (init_regions _ _ _ _ _ E)).
  - exact initial_sender_ok.
  - unfold demo_sender. rewrite E. by destruct Ha as (? & _ & _ & ? & _).
Qed.

Lemma process_send_list_drains_witness :
  exists ws h', process_send_list (adapter_hca demo_gm demo_base large_queue) 20 (update_last last_page demo_sender)
      demo_adapter = OK (ws, mksender (cur_wr_id demo_sender) [] 0 [], h') /\
    a_queue h' = [] /\ wc_wr_id <$> last ws = Some 1.
Proof.
  destruct (process_send_list_drains (adapter_hca demo_gm demo_base large_queue) large_queue 1
    (fun _ a b => b = peek demo_source (a - demo_gm)) demo_base (fun _ => True) (fun h => a_source h = demo_source)
    (fun _ _ => True) a_queue a_memory (fun h => if a_slow h then 1 else 0)%nat 20 demo_sender demo_adapter) as (ws & h' & E & _ & Hl & Hq & _).
  - apply (adapter_reliable demo_gm demo_base large_queue _ demo_source).
    unfold large_queue. pose proof queue_size_Z. unfold IB_MAX_SEND_WR in *. lia.
  - lia.
  - split; [unfold large_queue; lia|right]. vm_compute. lia.
  - exact demo_sender_ok.
  - vm_compute. discriminate.
  - by apply Forall_true.
  - reflexivity.
  - reflexivity.
  - vm_compute. lia.
  - exists ws, h'. split; [exact E|]. split; [exact Hq|exact Hl].
Defined.

(** An adapter whose send queue is larger than was asked for takes a list of
    8193 requests at once; the completion of the 8192nd is the only one that
    is awaited, and the last request is still in the queue. *)
Definition long_list : list send_wr :=
  (fun i => mkwr i IBV_WR_RDMA_WRITE (i mod 8192 =? 0) false 0 0 0 0 0 0) <$> seqZ 1 8192.
Definition long_sender : sender := update_last last_page
  (append_to_send_list (mkwr 8193 IBV_WR_RDMA_WRITE false false 0 0 0 0 0 0) (mksender 8193 long_list 8192 [])).

Lemma larger_queue_returns_early :
  match process_send_list (adapter_hca 0 0 (2 * queue_size)) 20 long_sender demo_adapter with
  | OK (ws, _, h') => wc_wr_id <$> ws = [8192] /\ wr_id <$> a_queue h' = [IB_WR_WRITE_LAST_PAGE_ID]
  | _ => False
  end.
Proof. vm_compute. split; reflexivity. Qed.
