(* ===== verification/RdmaLive.v ===== *)
(** * Live migration over RDMA

    The pre-copy iterations and the last transfer of a live migration
    (src/uhyve-migration-rdma.c): the page-table scan of Checkpoint.v with
    [create_send_list_entry] as its handler; the guest runs between the scans,
    and while the adapter reads its memory. *)

From S2P Require Import Prelude GuestMem Paging MemRegions CLib Config Elf Hypercall Proxy.
From S2P Require Import Checkpoint Incremental Migration Rdma.

Open Scope uhyve_scope.

(** ** Two handlers of the scan *)

(** The scan does the same to memory whatever the handler, and keeps a relation
    between the states of two handlers. *)
Section ScanRel.
Context {S1 S2 : Type} (h1 : gmem -> list byte -> Z -> Z -> S1 -> outcome S1).
Context (h2 : gmem -> list byte -> Z -> Z -> S2 -> outcome S2) (R : S1 -> S2 -> Prop) (full : bool) (no : Z).
Context (Hh : forall m loc s1 s2 s1', R s1 s2 -> is_u64 loc ->
  h1 m (le64 loc) (determine_dest_offset loc) (page_size loc) s1 = OK s1' ->
  exists s2', h2 m (le64 loc) (determine_dest_offset loc) (page_size loc) s2 = OK s2' /\ R s1' s2').

Definition rel (b1 : gmem * S1 -> outcome (gmem * S1)) (b2 : gmem * S2 -> outcome (gmem * S2)) : Prop :=
  forall m s1 s2 m' s1', R s1 s2 -> b1 (m, s1) = OK (m', s1') -> exists s2', b2 (m, s2) = OK (m', s2') /\ R s1' s2'.

Lemma for_upto_rel b1 b2 n : (forall i, rel (b1 i) (b2 i)) -> forall i, rel (for_upto n i b1) (for_upto n i b2).
Proof.
  intros Hb. induction n as [|n IH]; intros i m s1 s2 m' s1' HR E.
  - injection E as <- <-. by exists s2.
  - cbn [for_upto] in *. apply bind_OK_inv in E as ([m1 t1] & E1 & E).
    destruct (Hb i _ _ _ _ _ HR E1) as (t2 & -> & HR1). rewrite bind_OK. by apply (IH _ _ _ _ _ _ HR1).
Qed.

Lemma done_rel : rel (fun s => OK s) (fun s => OK s).
Proof. intros m s1 s2 m' s1' HR [= <- <-]. by exists s2. Qed.

(** The cleared entry is the entry or the entry without flags. *)
Lemma clear_flags_entry m a e m' e' :
  clear_flags full m a e = OK (m', e') -> e' = e \/ e' = strip e.
Proof.
  unfold clear_flags. destruct full; [intros [= <- <-]; by left|].
  intros E. apply bind_OK_inv in E as (m1 & _ & [= <- <-]). by right.
Qed.

Lemma location_u64 k e : is_u64 e -> is_u64 (location k e).
Proof.
  intros He. destruct k; [done|]. cbn [location]. pose proof (land_bounds e (not64 PG_PSE) ltac:(done)).
  assert (not64 PG_PSE < 2 ^ 64) by done. unfold is_u64. lia.
Qed.

Lemma save_rel k a e :
  is_u64 e -> (k = true -> flags_set e PG_PSE = true) ->
  rel (fun '(m, s) =>
         '(m, e) ← clear_flags full m a e;
         s ← h1 m (le64 (location k e)) (determine_dest_offset (location k e)) (page_size (location k e)) s; OK (m, s))
      (fun '(m, s) =>
         '(m, e) ← clear_flags full m a e;
         s ← h2 m (le64 (location k e)) (determine_dest_offset (location k e)) (page_size (location k e)) s; OK (m, s)).
Proof.
  intros He Hk m s1 s2 m' s1' HR E. apply bind_OK_inv in E as ([m1 e1] & Ec & E). rewrite Ec, bind_OK.
  apply bind_OK_inv in E as (t1 & E1 & [= <- <-]).
  assert (is_u64 e1) as He1 by (destruct (clear_flags_entry _ _ _ _ _ Ec) as [->| ->]; [done|by apply strip_u64]).
  destruct (Hh _ _ _ _ _ HR (location_u64 k e1 He1) E1) as (t2 & -> & HR1). rewrite bind_OK. by exists t2.
Qed.

Lemma load64_u64 m a e : load64 m a = OK e -> is_u64 e.
Proof. apply load64_range. Qed.

Lemma scan_pgt_rel pgt : rel (scan_pgt h1 full no pgt) (scan_pgt h2 full no pgt).
Proof.
  apply for_upto_rel. intros l m s1 s2 m' s1' HR E. apply bind_OK_inv in E as (e & El & E). rewrite El, bind_OK.
  destruct (flags_set e (PG_PRESENT .| flag full no)); [|by apply (done_rel _ _ _ _ _ HR)].
  destruct (save_rel false (pgt + 8 * l) e (load64_u64 _ _ _ El) ltac:(done) m s1 s2 m' s1' HR) as (s2' & E2 & HR2).
  - rewrite <- E. destruct (clear_flags full m (pgt + 8 * l) e) as [[m1 e1]| | |]; cbn; [|done..].
    destruct (small_offset e1) as [Eo Es]. cbn [location] in Eo, Es. by rewrite Eo, Es.
  - exists s2'. split; [|done]. rewrite <- E2. destruct (clear_flags full m (pgt + 8 * l) e) as [[m1 e1]| | |]; cbn; [|done..].
    destruct (small_offset e1) as [Eo Es]. cbn [location] in Eo, Es. by rewrite Eo, Es.
Qed.

Lemma scan_pgd_rel pgd : rel (scan_pgd h1 full no pgd) (scan_pgd h2 full no pgd).
Proof.
  apply for_upto_rel. intros k m s1 s2 m' s1' HR E. apply bind_OK_inv in E as (e & El & E). rewrite El, bind_OK.
  destruct (flags_set e PG_PRESENT); cbn [negb] in *; [|by apply (done_rel _ _ _ _ _ HR)].
  destruct (flags_set e PG_PSE) eqn:Ep; cbn [negb] in *; [|by apply (scan_pgt_rel _ _ _ _ _ _ HR)].
  destruct (flags_set e (flag full no)); [|by apply (done_rel _ _ _ _ _ HR)].
  assert (forall m1 e1, clear_flags full m (pgd + 8 * k) e = OK (m1, e1) ->
    determine_dest_offset e1 = e1 .& PAGE_2M_MASK /\ page_size e1 = 1 << PAGE_2M_BITS) as Hoff.
  { intros m1 e1 Ec. apply (large_offset e1). destruct (clear_flags_entry _ _ _ _ _ Ec) as [->| ->]; [done|by rewrite strip_pse]. }
  destruct (save_rel true (pgd + 8 * k) e (load64_u64 _ _ _ El) ltac:(done) m s1 s2 m' s1' HR) as (s2' & E2 & HR2).
  - rewrite <- E. destruct (clear_flags full m (pgd + 8 * k) e) as [[m1 e1]| | |] eqn:Ec; cbn; [|done..].
    destruct (Hoff _ _ eq_refl) as [Eo Es]. by rewrite Eo, Es.
  - exists s2'. split; [|done]. rewrite <- E2. destruct (clear_flags full m (pgd + 8 * k) e) as [[m1 e1]| | |] eqn:Ec; cbn; [|done..].
    destruct (Hoff _ _ eq_refl) as [Eo Es]. by rewrite Eo, Es.
Qed.

Lemma descend_rel table b1 b2 i :
  (forall t, rel (b1 t) (b2 t)) ->
  rel (fun '(m, s) => entry ← load64 m (table + 8 * i);
         if negb (flags_set entry PG_PRESENT) then OK (m, s) else b1 (entry .& PAGE_MASK) (m, s))
      (fun '(m, s) => entry ← load64 m (table + 8 * i);
         if negb (flags_set entry PG_PRESENT) then OK (m, s) else b2 (entry .& PAGE_MASK) (m, s)).
Proof.
  intros Hb m s1 s2 m' s1' HR E. apply bind_OK_inv in E as (e & El & E). rewrite El, bind_OK.
  destruct (flags_set e PG_PRESENT); cbn [negb] in *; [by apply (Hb _ _ _ _ _ _ HR)|by apply (done_rel _ _ _ _ _ HR)].
Qed.

Lemma scan_page_tables_rel : rel (scan_page_tables h1 full no) (scan_page_tables h2 full no).
Proof.
  apply for_upto_rel. intros i. apply (descend_rel BOOT_PML4 (scan_pdpt h1 full no) (scan_pdpt h2 full no)).
  intros pdpt. apply for_upto_rel. intros j. apply (descend_rel pdpt (scan_pgd h1 full no) (scan_pgd h2 full no)).
  exact scan_pgd_rel.
Qed.
End ScanRel.

(** ** The list of a scan *)

Lemma encode_records_inj size rs : forall rs',
  Forall (record_in size) rs -> Forall (fun r => is_u64 r.1 /\ length r.2 = Z.to_nat (page_size r.1)) rs' ->
  encode_records rs = encode_records rs' -> rs = rs'.
Proof.
  assert (forall e p rs, encode_records ((e, p) :: rs) = le64 e ++ (p ++ encode_records rs)) as Hcons.
  { intros e p l. unfold encode_records. rewrite fmap_cons. cbn [concat fst snd]. by rewrite app_assoc. }
  induction rs as [|[e p] rs IH]; intros [|[e' p'] rs'] H1 H2 E; [done|..].
  - rewrite Hcons in E. apply (f_equal length) in E. rewrite length_app in E. unfold le64 in E.
    rewrite length_le_split in E. cbn in E. lia.
  - rewrite Hcons in E. apply (f_equal length) in E. rewrite length_app in E. unfold le64 in E.
    rewrite length_le_split in E. cbn in E. lia.
  - apply Forall_cons in H1 as [(He & _ & _ & Hp) H1]. apply Forall_cons in H2 as [[He' Hp'] H2].
    cbn [fst snd] in *. rewrite !Hcons in E. apply app_inj_1 in E as [E0 E]; [|unfold le64; by rewrite !length_le_split].
    assert (e = e') as <-.
    { apply (f_equal le_combine) in E0. unfold le64 in E0. rewrite !le_combine_split in E0.
      unfold is_u64 in *. rewrite !Z.mod_small in E0 by (change (Z.of_nat 8 * 8) with 64; lia). done. }
    apply app_inj_1 in E as [<- E]; [|by rewrite Hp, Hp']. f_equal. by apply IH.
Qed.

Section Dirty.
Context (gm base : Z) (c : com_hndl) (rmrs : list mr) (p : mig_params) (Hcn : connected gm base c rmrs).

(** A page lies in one region, or touches none of them. *)
Definition fits (loc : Z) : Prop :=
  let o := determine_dest_offset loc in
  (exists i r, mrs c !! i = Some r /\ mr_addr r <= gm + o /\ gm + o + page_size loc <= mr_addr r + mr_length r) \/
  (0 <= gm + o < 2 ^ 64 /\ enclosing_mr (mrs c) (gm + o) = None /\
   forall x, covers loc x = true -> mrs_cover gm (mrs c) x = false).

Definition rdma_handler (m : gmem) (entry : list byte) (page page_size : Z) (st : sender) : outcome sender :=
  create_send_list_entry c p (Some (le_combine entry)) (u64 (gm + page)) page_size st.

Lemma page_size_u32 loc : 0 < page_size loc < 2 ^ 32.
Proof. unfold page_size. by destruct (has loc PG_PSE). Qed.

Lemma le_combine_le64 loc : is_u64 loc -> le_combine (le64 loc) = loc.
Proof. intros H. unfold le64. rewrite le_combine_split. apply Z.mod_small. exact H. Qed.

Lemma mrs_cover_region i r x :
  mrs c !! i = Some r -> mr_addr r <= gm + x < mr_addr r + mr_length r -> mrs_cover gm (mrs c) x = true.
Proof.
  intros Hi Hx. unfold mrs_cover. apply existsb_exists. exists r. split; [apply list_elem_of_In; by eapply list_elem_of_lookup_2|].
  unfold mr_covers. zbool; cbn; done || lia.
Qed.

Lemma handler_adds m loc st :
  fits loc -> is_u64 loc -> sender_ok st ->
  exists st', rdma_handler m (le64 loc) (determine_dest_offset loc) (page_size loc) st = OK st' /\
    adds gm base c rmrs 1 st st' (fun x => covers loc x && mrs_cover gm (mrs c) x).
Proof.
  intros Hfit Hu Hok. unfold rdma_handler. rewrite le_combine_le64 by done. pose proof (page_size_u32 loc) as Hn.
  destruct Hfit as [(i & r & Hi & Hlo & Hhi)|(Hr & Henc & Hout)].
  - destruct (proj1 (cn_local _ _ _ _ Hcn) i r Hi) as (? & ? & ?). pose proof (proj1 (cn_host _ _ _ _ Hcn)).
    rewrite u64_small by (unfold is_u64; lia).
    destruct (entry_adds gm base c rmrs p Hcn i r loc (determine_dest_offset loc) (page_size loc) st Hi Hlo Hn Hhi eq_refl Hok)
      as (st' & E & w & El & Hl & Hok' & Hg & Hc).
    exists st'. split; [done|]. exists w. split; [done|]. split; [done|]. split; [done|]. split; [done|].
    intros x. rewrite Hc. unfold covers. destruct ((determine_dest_offset loc <=? x) && (x <? _)) eqn:Ex; [|done].
    cbn [andb]. apply andb_true_iff in Ex as [?%Z.leb_le ?%Z.ltb_lt]. symmetry.
    apply (mrs_cover_region i r); [done|lia].
  - rewrite u64_small by (unfold is_u64; lia). unfold create_send_list_entry. cbn [prepare_send_list_elem]. rewrite Henc.
    eexists. split; [reflexivity|]. exists []. cbn [send_list]. rewrite app_nil_r.
    split; [done|]. split; [cbn; lia|]. split; [by destruct Hok|]. split; [done|]. intros x.
    destruct (covers loc x) eqn:Ex; [|done]. cbn [andb]. by rewrite Hout.
Qed.

(** In any case the handler returns. *)
Lemma handler_returns m e a n st : exists st', rdma_handler m e a n st = OK st'.
Proof.
  unfold rdma_handler, create_send_list_entry. cbn [prepare_send_list_elem].
  destruct (enclosing_mr (mrs c) _) as [[i r]|] eqn:E; [|by eexists].
  apply list_find_Some in E as (Hi & _). destruct (Forall2_lookup_l _ _ _ _ _ (cn_pairs _ _ _ _ Hcn) Hi) as (r' & Hi' & _).
  rewrite (cn_keys _ _ _ _ Hcn), list_lookup_fmap, Hi'. by eexists.
Qed.

Definition listed (st0 : sender) (f : list byte) (st : sender) : Prop := exists rs,
  f = encode_records rs /\ Forall (fun r => is_u64 r.1 /\ length r.2 = Z.to_nat (page_size r.1)) rs /\
  (Forall fits rs.*1 -> adds gm base c rmrs (length rs) st0 st (fun x => covered rs.*1 x && mrs_cover gm (mrs c) x)).

Lemma handler_listed st0 m loc f st f' :
  listed st0 f st -> is_u64 loc ->
  write_mem_page_to_chk_file m (le64 loc) (determine_dest_offset loc) (page_size loc) f = OK f' ->
  exists st', rdma_handler m (le64 loc) (determine_dest_offset loc) (page_size loc) st = OK st' /\ listed st0 f' st'.
Proof.
  intros (rs & -> & Hwf & Hadds) Hu E. unfold write_mem_page_to_chk_file in E.
  apply bind_OK_inv in E as (page & El & [= <-]).
  apply load_inv in El as (_ & _ & Hp). 
  destruct (handler_returns m (le64 loc) (determine_dest_offset loc) (page_size loc) st) as [st' E]. exists st'.
  split; [done|]. exists (rs ++ [(loc, page)]). split; [|split].
  - unfold encode_records. rewrite fmap_app, concat_app. cbn [fmap list_fmap concat fst snd]. by rewrite app_nil_r.
  - apply Forall_app_2; [done|]. apply Forall_singleton. split; [done|]. cbn [fst snd]. by rewrite Hp, length_peekn.
  - rewrite fmap_app. intros [Hf Hf1]%Forall_app. cbn [fmap list_fmap fst] in Hf1. apply Forall_cons in Hf1 as [Hf1 _].
    specialize (Hadds Hf). assert (sender_ok st) as Hok by (by destruct Hadds as (? & _ & _ & ? & _)).
    destruct (handler_adds m loc st Hf1 Hu Hok) as (st1 & E1 & H1). rewrite E in E1. injection E1 as <-.
    rewrite length_app. apply (adds_trans _ _ _ _ _ _ _ _ _ _ _ _ Hadds H1).
    intros x. unfold covered. rewrite existsb_app. cbn [fmap list_fmap existsb fst]. rewrite orb_false_r.
    by rewrite andb_orb_distrib_l.
Qed.

Lemma fits_same e e' :
  determine_dest_offset e = determine_dest_offset e' -> page_size e = page_size e' -> fits e' -> fits e.
Proof. intros Eo Es. unfold fits, covers. by rewrite Eo, Es. Qed.

(** What [determine_dirty_pages] lists: the bytes of the pages with the flag
    that are in a region.  To memory it does what a checkpoint does. *)
Lemma dirty_list cfg m st :
  let fl := flag false (no_checkpoint cfg) in
  full_checkpoint cfg = false -> tables_in_memory fl m -> unmixed (page_slots fl m) ->
  Forall fits (page_leaves fl m) -> sender_ok st ->
  exists rs m1 st1,
    scan_page_tables write_mem_page_to_chk_file false (no_checkpoint cfg) (m, []) = OK (m1, encode_records rs) /\
    scan_result (no_checkpoint cfg) m rs m1 /\
    determine_dirty_pages c p cfg gm m st = OK (m1, st1) /\
    adds gm base c rmrs (length (page_slots fl m)) st st1
      (fun x => covered (page_leaves fl m) x && mrs_cover gm (mrs c) x).
Proof.
  cbn zeta. intros Hfc Ht Hu Hfit Hok.
  destruct (incremental_scan (no_checkpoint cfg) m [] Ht Hu) as (rs & m1 & E & Hsr). cbn [app] in E.
  destruct (scan_page_tables_rel write_mem_page_to_chk_file rdma_handler (listed st) false (no_checkpoint cfg))
    with (m := m) (s1 := @nil byte) (s2 := st) (m' := m1) (s1' := encode_records rs) as (st1 & E1 & Hl); [| |done|].
  { intros m0 loc f st0 f'. apply handler_listed. }
  { exists []. split; [done|]. split; [done|]. intros _. by apply adds_nothing. }
  exists rs, m1, st1. split; [done|]. split; [done|].
  split; [unfold determine_dirty_pages; by rewrite Hfc|].
  destruct Hl as (rs' & Ef & Hwf & Hadds).
  apply (encode_records_inj _ _ _ (sr_records _ _ _ _ Hsr) Hwf) in Ef as <-.
  destruct Hadds as (wrs & El & Hn & Hok1 & Hg & Hc).
  { apply Forall_fmap, Forall_forall. intros r Hr. destruct (sr_pages _ _ _ _ Hsr r Hr) as (e & He & Eo & Es).
    apply (fits_same _ e Eo Es). exact (proj1 (Forall_forall _ _) Hfit e He). }
  exists wrs. split; [done|]. pose proof (sr_count _ _ _ _ Hsr). split; [lia|]. split; [done|]. split; [done|].
  intros x. by rewrite Hc, (sr_covered _ _ _ _ Hsr).
Qed.
End Dirty.

(** At most 512 pages for each of 512 tables on each of the other levels. *)
Lemma over_entries_length {A} (g : Z -> list A) n :
  (forall j, Z.of_nat (length (g j)) <= n) -> Z.of_nat (length (over_entries g)) <= 512 * n.
Proof.
  intros Hg. unfold over_entries. replace 512 with (Z.of_nat (length (seqZ 0 (Z.of_nat ENTRIES)))) by done.
  induction (seqZ _ _) as [|j l IH]; [cbn; lia|]. cbn [fmap list_fmap concat length].
  rewrite length_app. specialize (Hg j). lia.
Qed.

Lemma page_slots_length flag m : Z.of_nat (length (page_slots flag m)) <= 2 ^ 36.
Proof.
  change (2 ^ 36) with (512 * (512 * (512 * (512 * 1)))). apply over_entries_length. intros i. cbn zeta.
  destruct (negb _); [done|]. apply over_entries_length. intros j. cbn zeta.
  destruct (negb _); [done|]. apply over_entries_length. intros k. cbn zeta.
  destruct (negb _); [done|]. destruct (negb _).
  - apply over_entries_length. intros l. by destruct (flags_set _ _).
  - by destruct (flags_set _ _).
Qed.

(** ** A live migration *)

Section Live.
Context {H : Type} (hca : Hca H) (cap fuel polls : nat) (mem : H -> gmem) (set_mem : gmem -> H -> H) (cfg : config).
Context (gm base : Z) (c : com_hndl) (rmrs : list mr) (queued : H -> list send_wr) (settled : H -> gmem).
Context (patience : H -> nat) (flag_bytes : Z -> Prop) (D : Z -> Prop).
Abbreviation fl := (flag false (no_checkpoint cfg)).
Abbreviation pages m := (page_leaves fl m).

(** The guest's tables are in memory, no page straddles a region's boundary,
    and [flag_bytes] holds of the bytes with the flags. *)
Record migratable (m : gmem) : Prop := {
  mg_tables : tables_in_memory fl m;
  mg_unmixed : unmixed (page_slots fl m);
  mg_fits : Forall (fits gm c) (pages m);
  mg_flags : forall k a, (k, a) ∈ page_slots fl m -> flag_bytes a;
  mg_fuel : (S (length (page_slots fl m)) < fuel)%nat
}.

(** The guest runs from [m] to [m']: the pages with the flag keep it, and the
    bytes of [D] that changed are in such pages. *)
Definition guest_runs (m m' : gmem) : Prop :=
  forall x, D x -> ~ flag_bytes x -> covered (pages m') x = false ->
    covered (pages m) x = false /\ peek m' x = peek m x.

(** A time in which memory changes as [G] says, apart from the scans: the scan
    writes to this memory, in one step, and the adapter is reliable, where it may
    have read a byte at any moment until the completion; its send queue has room
    for what a scan can list. *)
Record epoch (alive : H -> Prop) (G : gmem -> gmem -> Prop) : Prop := {
  ep_migratable : forall h, alive h -> migratable (mem h);
  ep_scan : forall h m1 f, alive h ->
    scan_page_tables write_mem_page_to_chk_file false (no_checkpoint cfg) (mem h, []) = OK (m1, f) ->
    alive (set_mem m1 h) /\ mem (set_mem m1 h) = m1 /\ queued (set_mem m1 h) = queued h /\
    settled (set_mem m1 h) = settled h;
  ep_refl : forall m, G m m;
  ep_queue : forall h, alive h -> queue_fits cap (S (length (page_slots fl (mem h))));
  ep_adapter : forall m, reliable hca cap polls
    (fun h a b => exists m', G m m' /\ G m' (mem h) /\ b = peek m' (a - gm)) base (permitted (mrs c) rmrs)
    (fun h => alive h /\ G m (mem h)) (fun h h' => G (mem h) (mem h')) queued settled patience
}.

Context (p : mig_params) (Hcn : connected gm base c rmrs).
Context (Hfull : full_checkpoint cfg = false) (Hpolls : (polls < fuel)%nat).

Definition to_send (m : gmem) (x : Z) : bool := covered (pages m) x && mrs_cover gm (mrs c) x.

Lemma round_scan alive G st h :
  epoch alive G -> alive h -> sender_ok st ->
  exists m1 st1, scan_dirty mem set_mem cfg gm c p st h = OK (st1, set_mem m1 h) /\
    alive (set_mem m1 h) /\ mem (set_mem m1 h) = m1 /\ queued (set_mem m1 h) = queued h /\
    settled (set_mem m1 h) = settled h /\ (forall x, ~ flag_bytes x -> peek m1 x = peek (mem h) x) /\
    adds gm base c rmrs (length (page_slots fl (mem h))) st st1 (to_send (mem h)).
Proof.
  intros He Ha Hok. destruct (ep_migratable _ _ He h Ha) as [Ht Hu Hfit Hfl _].
  destruct (dirty_list gm base c rmrs p Hcn cfg (mem h) st Hfull Ht Hu Hfit Hok) as (rs & m1 & st1 & E & Hsr & E1 & Hadds).
  destruct (ep_scan _ _ He h m1 _ Ha E) as (? & ? & ? & ?). exists m1, st1. unfold scan_dirty. rewrite E1, bind_OK.
  do 5 (split; [done|]). split; [|done]. intros x Hx. apply (sr_others _ _ _ _ Hsr). intros k Hk. by apply Hx, (Hfl k).
Qed.

(** Posting a list: its bytes are as they were at some moment of the transfer. *)
Lemma round_send alive G st h :
  epoch alive G -> alive h -> queued h = [] -> batched queue_size (send_list st) -> send_list st <> [] ->
  Forall (good gm base c rmrs) (send_list st) -> (length (send_list st) < fuel)%nat ->
  queue_fits cap (length (send_list st)) ->
  exists ws h', process_send_list hca fuel st h = OK (ws, mksender (cur_wr_id st) [] 0 (prefetched st), h') /\
    alive h' /\ queued h' = [] /\ G (mem h) (mem h') /\ forall x,
    if list_covers base (send_list st) x
    then exists m', G (mem h) m' /\ G m' (mem h') /\ peek (settled h') x = peek m' x
    else peek (settled h') x = peek (settled h) x.
Proof.
  intros He Ha Hq Hb Hne Hg Hlen Hfits.
  destruct (process_list_ok hca cap polls _ base _ _ _ queued settled patience (ep_adapter _ _ He (mem h))
    (queue_fits_pos _ _ Hfits) fuel Hpolls st h (batched_fits _ _ Hfits Hb) Hne)
    as (h' & E & [Ha' HG] & _ & Hq' & Hw); [|split; [done|apply (ep_refl _ _ He)]|done|done|].
  { eapply list.Forall_impl; [exact Hg|]. by intros wr [? _]. }
  eexists _, h'. split; [exact E|]. do 3 (split; [done|]).
  destruct (written_mirror _ gm base _ _ _ (list.Forall_impl _ _ _ Hg (fun wr H => proj2 H)) Hw) as [_ Hx].
  intros x. specialize (Hx x). destruct (list_covers base (send_list st) x); [|done].
  destruct Hx as (m' & H1 & H2 & E'). exists m'. split; [done|]. split; [done|]. rewrite E'. f_equal. lia.
Qed.

(** *** The two memories *)

Section Sync.
Context (src0 dst0 : gmem).

(** A byte has its value of the source, or neither side has touched it. *)
Definition mirrored (src dst : gmem) (x : Z) : Prop :=
  peek dst x = peek src x \/
  (peek dst x = peek dst0 x /\ peek src x = peek src0 x /\ covered (pages src0) x = false).

(** What holds while the guest runs: a page without the flag is at the
    destination. *)
Definition in_sync (src dst : gmem) : Prop := forall x,
  if mrs_cover gm (mrs c) x
  then D x -> ~ flag_bytes x -> covered (pages src) x = false -> mirrored src dst x
  else peek dst x = peek dst0 x.

Lemma in_sync_start : in_sync src0 dst0.
Proof. intros x. destruct (mrs_cover _ _ _); [|done]. intros. by right. Qed.

Lemma in_sync_runs src src' dst : guest_runs src src' -> in_sync src dst -> in_sync src' dst.
Proof.
  intros Hg Hs x. specialize (Hs x). destruct (mrs_cover _ _ _); [|done]. intros HD Hx Hc.
  destruct (Hg x HD Hx Hc) as [Hc1 E]. destruct (Hs HD Hx Hc1) as [|(? & ? & ?)]; [left|right]; rewrite E; done.
Qed.

(** A scan and the transfer of what it listed. *)
Lemma in_sync_round (G : gmem -> gmem -> Prop) src m1 src' dst dst' :
  in_sync src dst -> (forall x, ~ flag_bytes x -> peek m1 x = peek src x) ->
  (forall x, if to_send src x then exists m', G m1 m' /\ G m' src' /\ peek dst' x = peek m' x
             else peek dst' x = peek dst x) ->
  G m1 src' -> forall x,
  (forall m, G m src' -> peek src' x = peek m x) ->
  if mrs_cover gm (mrs c) x then D x -> ~ flag_bytes x -> mirrored src' dst' x else peek dst' x = peek dst0 x.
Proof.
  intros Hs Hm1 Hsent HG x Hx'. specialize (Hs x). specialize (Hsent x). unfold to_send in Hsent.
  destruct (mrs_cover gm (mrs c) x); [|by rewrite andb_false_r in Hsent; rewrite Hsent].
  rewrite andb_true_r in Hsent. intros HD Hx. pose proof (Hx' m1 HG) as E1. rewrite (Hm1 x Hx) in E1.
  destruct (covered (pages src) x).
  - destruct Hsent as (m' & _ & H2 & E). left. by rewrite E, (Hx' m' H2).
  - destruct (Hs HD Hx eq_refl) as [|(? & ? & ?)]; [left|right]; rewrite Hsent, E1; done.
Qed.

Lemma in_sync_sent src m1 src' dst dst' :
  in_sync src dst -> (forall x, ~ flag_bytes x -> peek m1 x = peek src x) ->
  (forall x, if to_send src x then exists m', guest_runs m1 m' /\ guest_runs m' src' /\ peek dst' x = peek m' x
             else peek dst' x = peek dst x) ->
  guest_runs m1 src' -> in_sync src' dst'.
Proof.
  intros Hs Hm1 Hsent HG x. pose proof (in_sync_round guest_runs src m1 src' dst dst' Hs Hm1 Hsent HG x) as Hr.
  specialize (Hsent x). unfold to_send in Hsent. specialize (Hs x).
  destruct (mrs_cover gm (mrs c) x); [|by rewrite andb_false_r in Hsent; rewrite Hsent].
  intros HD Hx Hc. apply Hr; [|done|done]. intros m Hm. by apply Hm.
Qed.

Lemma in_sync_scanned src m1 dst :
  in_sync src dst -> (forall x, ~ flag_bytes x -> peek m1 x = peek src x) ->
  (forall x, to_send src x = false) -> in_sync m1 dst.
Proof.
  intros Hs Hm1 Hnone. apply (in_sync_sent src m1 m1 dst dst Hs Hm1); [|by intros x].
  intros x. by rewrite Hnone.
Qed.

(** *** The iterations *)

Context (running : H -> Prop) (Hrun : epoch running guest_runs).

Lemma update_last_empty f st : send_list (update_last f st) = [] -> send_list st = [].
Proof.
  cbn [update_last send_list]. intros E. apply length_zero_iff_nil.
  by rewrite <- (length_alter f _ (pred (length (send_list st)))), E.
Qed.

Definition syncing (st : sender) (h : H) : Prop :=
  sender_ok st /\ send_list st = [] /\ running h /\ queued h = [] /\ in_sync (mem h) (settled h).

Lemma precopy_iterations_sync st h :
  mig_type p = MIG_TYPE_LIVE -> (5 < fuel)%nat -> syncing st h ->
  exists r st' h', precopy_iterations hca fuel mem set_mem cfg gm c p 0 st h = OK (r, st', h') /\ syncing st' h'.
Proof.
  intros Ht Hf Hst. unfold precopy_iterations.
  match goal with |- context [while _ ?b _] => set (body := b) end.
  destruct (while_total body (fun '(r, st, h) => 0 <= r <= MIG_ITERS /\ syncing st h)
    (fun '(r, st, h) => syncing st h) (fun '(r, _, _) => Z.to_nat (MIG_ITERS - r)))
    with (fuel := fuel) (s := (0, st, h)) as ([[r st'] h'] & E & Hs).
  - intros [[r st1] h1] [Hr (Hok & Hnil & Ha & Hq & Hs)]. unfold body. rewrite Ht.
    change (MIG_TYPE_LIVE =? MIG_TYPE_COLD) with false. cbn match.
    destruct (Z.eqb_spec r MIG_ITERS) as [->|Hne]; [by eexists|].
    destruct (round_scan running guest_runs st1 h1 Hrun Ha Hok)
      as (m1 & st2 & -> & Ha2 & Em2 & Eq2 & Es2 & Hm2 & wrs & El & Hlen & Hok2 & Hg & Hc).
    rewrite bind_OK. cbn match. rewrite Hnil in El. cbn [app] in El.
    pose proof (page_slots_length fl (mem h1)).
    destruct (Z.eqb_spec (send_list_length st2) 0) as [E0|E0]; cbn [negb].
    + eexists. split; [reflexivity|]. assert (wrs = []) as ->.
      { apply length_zero_iff_nil. destruct Hok2 as [Hn _]. rewrite E0, El, u64_small in Hn by (unfold is_u64; lia). lia. }
      split; [done|]. split; [done|]. split; [done|]. split; [congruence|]. rewrite Em2, Es2.
      apply (in_sync_scanned (mem h1)); [done|done|]. intros x. by rewrite <- Hc.
    + assert (send_list st2 <> []) as Hne2. { intros E. destruct Hok2 as [Hn _]. rewrite E in Hn. done. }
      rewrite <- El in Hg, Hc, Hlen.
      destruct (update_last_transfers gm base c rmrs last_page st2) as [Hg' Hc']; [done|done|].
      destruct (round_send running guest_runs (update_last last_page st2) (set_mem m1 h1) Hrun Ha2)
        as (ws & h3 & -> & Ha3 & Hq3 & HG & Hx); [congruence|by apply update_last_batched| |done| | |].
      { by intros E%update_last_empty. }
      { cbn [update_last send_list]. rewrite length_alter. pose proof (mg_fuel _ (ep_migratable _ _ Hrun h1 Ha)). lia. }
      { apply (queue_fits_le _ (S (length (page_slots fl (mem h1))))); [|by apply (ep_queue _ _ Hrun)].
        cbn [update_last send_list]. rewrite length_alter. lia. }
      rewrite bind_OK. cbn match. eexists. split; [reflexivity|]. unfold MIG_ITERS in *.
      rewrite u32_small by (unfold is_u32; lia). split; [|lia]. split; [lia|].
      split; [done|]. split; [done|]. split; [done|]. split; [done|]. rewrite Em2, Es2 in *.
      apply (in_sync_sent (mem h1) m1 _ (settled h1)); [done|done| |done]. intros x. rewrite <- Hc, <- Hc'. apply Hx.
  - split; [done|exact Hst].
  - unfold MIG_ITERS. lia.
  - exists r, st', h'. done.
Qed.

(** *** The last transfer *)

Context (stopped : H -> Prop) (Hstop : epoch stopped eq).

Lemma stop_and_copy_sync v st h :
  mig_type p = MIG_TYPE_LIVE -> destroy_com_hndl v c = OK tt -> sender_ok st -> send_list st = [] ->
  stopped h -> queued h = [] -> in_sync (mem h) (settled h) ->
  exists st' h', stop_and_copy_phase v hca fuel mem set_mem cfg gm c p st h = OK (st', h') /\ queued h' = [] /\
    (forall x, ~ flag_bytes x -> peek (mem h') x = peek (mem h) x) /\
    forall x, if mrs_cover gm (mrs c) x
      then D x -> ~ flag_bytes x -> mirrored (mem h') (settled h') x
      else peek (settled h') x = peek dst0 x.
Proof.
  intros Ht Hd Hok Hnil Ha Hq Hs. unfold stop_and_copy_phase. rewrite Ht.
  change (MIG_TYPE_LIVE =? MIG_TYPE_COLD) with false. change (MIG_TYPE_LIVE =? MIG_TYPE_LIVE) with true. cbn match.
  destruct (round_scan stopped eq st h Hstop Ha Hok) as (m1 & st1 & -> & Ha1 & Em1 & Eq1 & Es1 & Hm1 & Hadds).
  rewrite bind_OK. cbn match. fold (final_sender st1).
  destruct (final_list gm base c rmrs _ _ _ _ Hnil Hadds) as (Hb & Hne & Hg & Hlen & Hcov).
  destruct (round_send stopped eq (final_sender st1) (set_mem m1 h) Hstop Ha1)
    as (ws & h' & -> & _ & Hq' & HG & Hx); [congruence|done|done|done| | |].
  { pose proof (mg_fuel _ (ep_migratable _ _ Hstop h Ha)). lia. }
  { apply (queue_fits_le _ (S (length (page_slots fl (mem h))))); [lia|by apply (ep_queue _ _ Hstop)]. }
  rewrite bind_OK. cbn match. rewrite Hd, bind_OK. eexists _, h'. split; [reflexivity|]. split; [done|].
  rewrite Em1, Es1 in *. split; [by rewrite <- HG|].
  intros x. apply (in_sync_round eq (mem h) m1 _ (settled h)); [done|done| |done|by intros m ->].
  intros y. rewrite <- Hcov. apply Hx.
Qed.
End Sync.
End Live.

(** C7. A live migration over RDMA.  The source scans the page tables for pages
    with the flag and transfers them, at most four times while the guest runs,
    and once more after it has stopped.  The guest runs between the scans and
    during the transfers, where the adapter may read a byte at any moment, but
    not during a scan: the scan does not clear the flags atomically, and one that
    the processor sets meanwhile can be lost.  If the pages that change while the guest
    runs get the flag, as those do that the guest writes to through its page
    tables ([D] are the bytes for which this holds), both phases return, and
    then every byte of [D] in the chunks, the flag bytes of page tables
    excepted, has the value at the destination that it has in the stopped
    guest, or was neither changed nor in a flagged page since the start; so the
    destination has the value of the stopped guest if it started with those of
    the pages without the flag, which are zero when the guest has never used
    them.  Memory outside the chunks is untouched.  A send queue larger than was
    asked for needs scans of less than 8192 pages. *)
Theorem rdma_live_migration {S H} v v2 (sock : Socket S) R (hca : Hca H) cap fuel polls mem set_mem cfg gm base p cs
    chunks c1 c2 ptr1 ptr2 queued settled patience flag_bytes D running stopped s rest h :
  let c := with_remote c1 c2 in
  connection sock R -> full_checkpoint cfg = false -> mig_type p = MIG_TYPE_LIVE -> chunks_ok gm base cs ->
  init_com_hndl v p gm (at_host gm cs) = OK c1 -> init_com_hndl v2 p base (at_host base cs) = OK c2 ->
  handle_ok c1 -> handle_ok c2 -> verbs_ok v c ->
  epoch hca cap fuel polls mem set_mem cfg gm base c (mrs c2) queued settled patience flag_bytes
    running (guest_runs cfg flag_bytes D) ->
  epoch hca cap fuel polls mem set_mem cfg gm base c (mrs c2) queued settled patience flag_bytes stopped eq ->
  (polls < fuel)%nat -> (5 < fuel)%nat -> (4 * length cs + 24 < fuel)%nat ->
  running h -> queued h = [] -> R s (qp_stream c2 ptr2 ++ rest) [] ->
  exists p' st s' h1,
    precopy_phase v sock hca fuel mem set_mem cfg gm (at_host gm cs) chunks ptr1 p initial_sender s h =
      OK (c, p', st, s', h1) /\ R s' rest (qp_stream c1 ptr1) /\ running h1 /\ queued h1 = [] /\
    forall h2, stopped h2 -> guest_runs cfg flag_bytes D (mem h1) (mem h2) -> queued h2 = [] ->
      settled h2 = settled h1 ->
    exists st' h', stop_and_copy_phase v hca fuel mem set_mem cfg gm c p' st h2 = OK (st', h') /\ queued h' = [] /\
      (forall x, ~ flag_bytes x -> peek (mem h') x = peek (mem h2) x) /\
      forall x, if in_some_chunk cs x
        then D x -> ~ flag_bytes x -> mirrored cfg (mem h) (settled h) (mem h') (settled h') x /\
          ((covered (page_leaves (flag false (no_checkpoint cfg)) (mem h)) x = false ->
              peek (settled h) x = peek (mem h) x) ->
           peek (settled h') x = peek (mem h2) x)
        else peek (settled h') x = peek (settled h) x.
Proof.
  cbn zeta. intros Hconn Hfc Ht Hcs E1 E2 Hh1 Hh2 Hv Hrun Hstop Hpolls Hf5 Hf Ha Hq HR.
  destruct (init_regions _ _ _ _ _ E1) as (F1 & _). destruct (init_regions _ _ _ _ _ E2) as (F2 & _).
  pose proof (Forall2_length _ _ _ F1) as L1. pose proof (Forall2_length _ _ _ F2) as L2.
  unfold at_host in L1, L2. rewrite length_fmap in L1, L2.
  pose proof (connected_ok v v2 p gm base cs c1 c2 Hcs E1 E2) as Hcn.
  destruct (precopy_setup v sock R hca fuel mem set_mem cfg gm p (at_host gm cs) chunks c1 c2 ptr1 ptr2 s rest h)
    as (p' & st & s' & E & HR' & Hnil & Hok & Et & _); try done; [by rewrite Ht|lia|apply (vb_connect _ _ Hv)|lia|].
  rewrite Ht in Et.
  destruct (precopy_iterations_sync hca cap fuel polls mem set_mem cfg gm base (with_remote c1 c2) (mrs c2) queued settled
    patience flag_bytes D p' Hcn Hfc Hpolls (mem h) (settled h) running Hrun st h Et Hf5)
    as (r & st1 & h1 & Ei & Hok1 & Hnil1 & Ha1 & Hq1 & Hs1).
  { do 4 (split; [done|]). apply in_sync_start. }
  exists p', st1, s', h1. rewrite E, Ei, bind_OK. do 4 (split; [done|]). intros h2 Ha2 Hg2 Hq2 Es2.
  destruct (stop_and_copy_sync hca cap fuel polls mem set_mem cfg gm base (with_remote c1 c2) (mrs c2) queued settled
    patience flag_bytes D p' Hcn Hfc Hpolls (mem h) (settled h) stopped Hstop v st1 h2 Et (vb_destroy _ _ Hv) Hok1 Hnil1 Ha2 Hq2)
    as (st' & h' & E' & Hq' & Hm' & Hx).
  { rewrite Es2. by apply (in_sync_runs _ _ _ _ _ _ _ (mem h1)). }
  exists st', h'. split; [done|]. split; [done|]. split; [done|]. intros x. specialize (Hx x).
  rewrite (regions_cover gm cs) in Hx by done. destruct (in_some_chunk cs x); [|done]. intros HD Hfl.
  specialize (Hx HD Hfl). split; [done|]. intros Hstart. specialize (Hm' x Hfl).
  destruct Hx as [->|(-> & E0 & Hcov)]; [done|]. by rewrite <- Hm', E0, Hstart.
Qed.

(** *** A small live migration *)

Lemma guest_runs_refl cfg flag_bytes D m : guest_runs cfg flag_bytes D m m.
Proof. by intros x. Qed.

Lemma guest_runs_trans cfg flag_bytes D m m1 m2 :
  guest_runs cfg flag_bytes D m m1 -> guest_runs cfg flag_bytes D m1 m2 -> guest_runs cfg flag_bytes D m m2.
Proof.
  intros H1 H2 x HD Hx Hc. destruct (H2 x HD Hx Hc) as [Hc1 E2]. destruct (H1 x HD Hx Hc1) as [Hc0 E1].
  split; [done|congruence].
Qed.

(** The guest of Checkpoint.v as it is when the migration starts, after a scan,
    after it has written to its second page, and so on. *)
Definition scanned_guest (m : gmem) : gmem :=
  (result_of (m, []) (scan_page_tables write_mem_page_to_chk_file false 0 (m, []))).1.
Definition touch (m : gmem) (entry page : Z) (text : list byte) : gmem :=
  poken (poken m entry (le_split 1 0x63)) page text.
Definition live_guest1 : gmem := scanned_guest paged_guest.
Definition live_guest2 : gmem := touch live_guest1 0x13008 0x15000 (str "dirty").
Definition live_guest3 : gmem := scanned_guest live_guest2.
Definition live_guest4 : gmem := touch live_guest3 0x13000 0x14000 (str "written").
Definition live_guest5 : gmem := scanned_guest live_guest4.

Inductive live_phase := Begin | Scanned | Wrote | Rescanned | Frozen | Done.
Definition guest_at (n : live_phase) : gmem :=
  match n with
  | Begin => paged_guest | Scanned => live_guest1 | Wrote => live_guest2
  | Rescanned => live_guest3 | Frozen => live_guest4 | Done => live_guest5
  end.
Definition after_scan (n : live_phase) : live_phase :=
  match n with Begin => Scanned | Wrote => Rescanned | Frozen => Done | n => n end.
(** The guest writes while the adapter works. *)
Definition after_poll (n : live_phase) : live_phase := match n with Scanned => Wrote | n => n end.

(** The adapter of Rdma.v reads the guest's memory of the moment. *)
Section LiveAdapter.
Context (gm base : Z) (cap : nat).
Abbreviation state := (live_phase * adapter)%type.
Definition live_hca : Hca state := mkhca
  (fun h l => let '(r, e, bad, a) := ibv_post_send (adapter_hca gm base cap) (snd h) l in (r, e, bad, (fst h, a)))
  (fun h =>
     let a := mkadapter (guest_at (fst h)) (a_queue (snd h)) (a_memory (snd h)) (a_slow (snd h)) in
     let '(r, w, a) := ibv_poll_cq (adapter_hca gm base cap) a in
     (r, w, (if r =? 0 then after_poll (fst h) else fst h, a))).

Lemma live_reliable ok (alive : live_phase -> Prop) (G : gmem -> gmem -> Prop) m :
  (0 < cap)%nat -> (forall m, G m m) -> (forall m m1 m2, G m m1 -> G m1 m2 -> G m m2) ->
  (forall n, alive n -> alive (after_poll n) /\ G (guest_at n) (guest_at (after_poll n))) ->
  reliable live_hca cap 1 (fun h a b => exists m', G m m' /\ G m' (guest_at (fst h)) /\ b = peek m' (a - gm)) base ok
    (fun h => alive (fst h) /\ G m (guest_at (fst h))) (fun h h' => G (guest_at (fst h)) (guest_at (fst h')))
    (fun h => a_queue (snd h)) (fun h => a_memory (snd h)) (fun h => if a_slow (snd h) then 1 else 0)%nat.
Proof.
  intros Hcap Hrefl Htrans Hpoll. split.
  - intros h. destruct (a_slow h.2); lia.
  - intros h. apply Hrefl.
  - intros h h1 h2. apply Htrans.
  - intros h h1 a b Hl (m' & H1 & H2 & E). exists m'. eauto.
  - intros [n a] l Ha Hq Hl. cbn [fst snd] in *. cbn [live_hca adapter_hca ibv_post_send fst snd]. rewrite Hq.
    cbn [length app]. rewrite Nat.sub_0_r. destruct (length l <=? cap)%nat; eexists; (split; [reflexivity|]); cbn; auto.
  - intros [n a] pre wr post [Ha Hg] Hq Hpre Hwr _. cbn [fst snd] in *.
    cbn [live_hca adapter_hca ibv_poll_cq fst snd a_slow a_queue a_memory a_source].
    destruct (Hpoll n Ha) as [Ha' Hg']. destruct (a_slow a).
    + eexists _, _. split; [|split; [|left; split; [reflexivity|]; cbn; split; [done|]; split; [done|lia]]]; cbn; eauto.
    + rewrite Hq, next_batch_split by done. eexists (mkwc 0 0), _.
      split; [|split; [|right; split; [reflexivity|]]]; cbn [fst snd a_queue a_memory]; [by split|by apply Hrefl|].
      split; [done|]. eapply written_mono; [|apply carried_out]. intros q b ->. exists (guest_at n). auto.
Qed.
End LiveAdapter.

Definition live_params : mig_params := mkparams MIG_TYPE_LIVE MIG_MODE_INCREMENTAL_DUMP 0 0.
Definition live_chunks : list mem_chunk := [mkchunk 0 0x16000].
Definition live_handle (qp g : Z) : com_hndl :=
  result_of no_handle (init_com_hndl (demo_verbs qp) live_params g (at_host g live_chunks)).
Definition live_connection : com_hndl := with_remote (live_handle 5 demo_gm) (live_handle 6 demo_base).
Definition live_start : live_phase * adapter := (Begin, mkadapter paged_guest [] (fresh_mem 0x16000) false).
Definition live_set (m : gmem) (h : live_phase * adapter) : live_phase * adapter := (after_scan (fst h), snd h).
Definition live_running (n : live_phase) : Prop := n = Begin \/ n = Scanned \/ n = Wrote \/ n = Rescanned.
Definition live_stopped (n : live_phase) : Prop := n = Frozen \/ n = Done.

Lemma live_handle_ok qp g : (qp, g) = (5, demo_gm) \/ (qp, g) = (6, demo_base) -> handle_ok (live_handle qp g).
Proof.
  intros [[= -> ->]|[= -> ->]];
    (match goal with |- handle_ok ?c => let c' := eval vm_compute in c in change (handle_ok c') end);
    unfold handle_ok, qp_ok, is_u32, is_u64; cbn [loc_qp_info qpn lid psn qp_addr keys mrs length];
    (split; [|split; [done|lia]]); repeat (split; [lia|]); repeat apply Forall_cons_2; try apply Forall_nil_2; lia.
Qed.

Lemma live_chunks_ok : chunks_ok demo_gm demo_base live_chunks.
Proof.
  split; [vm_compute; intuition congruence| |vm_compute; intuition congruence|];
    repeat apply Forall_cons_2; try apply Forall_nil_2; vm_compute; intuition congruence.
Qed.

(** The test for a guest whose flagged pages are small ones. *)
Lemma migratable_test n :
  tables_inb (flag false 0) (guest_at n) = true ->
  forallb (fun s => negb (fst s) && ((snd s =? 0x13000) || (snd s =? 0x13008))) (page_slots (flag false 0) (guest_at n)) = true ->
  (S (length (page_slots (flag false 0) (guest_at n))) < 100)%nat ->
  forallb (fun e => (0 <=? determine_dest_offset e) && (determine_dest_offset e + page_size e <=? 0x16000))
    (page_leaves (flag false 0) (guest_at n)) = true ->
  migratable 100 small_config demo_gm live_connection small_flag_bytes (guest_at n).
Proof.
  intros Ht Hs Hlen Hf. rewrite forallb_forall in Hs, Hf. split.
  - by apply tables_inb_spec.
  - intros a _ H%list_elem_of_In%Hs. done.
  - apply Forall_forall. intros e He%list_elem_of_In%Hf. apply andb_true_iff in He as [H1%Z.leb_le H2%Z.leb_le].
    left. exists 0%nat, (mkmr demo_gm 0x16000 (u32 (demo_gm / 4096)) (u32 (demo_gm / 4096 + 1))).
    split; [vm_compute; reflexivity|]. cbn [mr_addr mr_length]. lia.
  - intros k a H%list_elem_of_In%Hs. cbn [fst snd] in H. apply andb_true_iff in H as [_ H].
    apply orb_true_iff in H as [H%Z.eqb_eq|H%Z.eqb_eq]; rewrite H; [by left|by right].
  - done.
Qed.

Lemma live_migratable n : migratable 100 small_config demo_gm live_connection small_flag_bytes (guest_at n).
Proof. apply migratable_test; destruct n; vm_compute; reflexivity || lia. Qed.

Lemma live_scan n m1 f :
  scan_page_tables write_mem_page_to_chk_file false 0 (guest_at n, []) = OK (m1, f) -> guest_at (after_scan n) = m1.
Proof.
  assert (is_OK (scan_page_tables write_mem_page_to_chk_file false 0 (guest_at n, [])) = true /\
    scanned_guest (guest_at n) = guest_at (after_scan n)) as [H1 H2] by (destruct n; vm_compute; done).
  intros E. rewrite <- H2. unfold scanned_guest. by rewrite E.
Qed.

(** A guest without flagged pages writes to one page, whose entry gets the flags. *)
Lemma touch_runs m entry page text loc :
  small_flag_bytes entry -> Z.of_nat (length text) <= 0x1000 ->
  page_leaves (flag false 0) m = [] -> page_leaves (flag false 0) (touch m entry page text) = [loc] ->
  determine_dest_offset loc = page -> page_size loc = 0x1000 ->
  guest_runs small_config small_flag_bytes (fun _ => True) m (touch m entry page text).
Proof.
  intros He Ht Em Em' Eo Es x _ Hx Hc. change (no_checkpoint small_config) with 0 in *. rewrite Em. split; [done|].
  rewrite Em' in Hc. unfold covered, covers in Hc. cbn [existsb] in Hc. rewrite orb_false_r, Eo, Es in Hc.
  unfold touch. rewrite !peek_poken_out; [done| |].
  - change (Z.of_nat (length (le_split 1 0x63))) with 1. assert (x <> entry) by (by intros ->). lia.
  - revert Hc. destruct (Z.leb_spec page x), (Z.ltb_spec x (page + 0x1000)); cbn [andb]; lia || done.
Qed.

Lemma live_first_write : guest_runs small_config small_flag_bytes (fun _ => True) live_guest1 live_guest2.
Proof. apply (touch_runs _ _ _ _ 0x15063); [by right|vm_compute; congruence|vm_compute; reflexivity..]. Qed.
Lemma live_second_write : guest_runs small_config small_flag_bytes (fun _ => True) live_guest3 live_guest4.
Proof. apply (touch_runs _ _ _ _ 0x14063); [by left|vm_compute; congruence|vm_compute; reflexivity..]. Qed.

Lemma live_epoch (alive : live_phase -> Prop) G :
  (forall m, G m m) -> (forall m m1 m2, G m m1 -> G m1 m2 -> G m m2) ->
  (forall n, alive n -> alive (after_poll n) /\ G (guest_at n) (guest_at (after_poll n))) ->
  (forall n, alive n -> alive (after_scan n)) ->
  epoch (live_hca demo_gm demo_base queue_size) queue_size 100 1 (fun h => guest_at (fst h)) live_set small_config demo_gm demo_base
    live_connection (mrs (live_handle 6 demo_base)) (fun h => a_queue (snd h)) (fun h => a_memory (snd h))
    (fun h => if a_slow (snd h) then 1 else 0)%nat small_flag_bytes (fun h => alive (fst h)) G.
Proof.
  intros Hrefl Htrans Hpoll Hscan. split.
  - intros h _. apply live_migratable.
  - intros h m1 f Ha E. split; [by apply Hscan|]. split; [by apply live_scan in E|]. done.
  - exact Hrefl.
  - intros h _. split; [done|by left].
  - intros m. apply live_reliable; [|done..]. pose proof queue_size_Z. unfold IB_MAX_SEND_WR in *. lia.
Qed.

(** Where the guest is when the pre-copy phase ends. *)
Definition live_precopy_phase : option live_phase :=
  match precopy_phase (demo_verbs 5) slow_socket (live_hca demo_gm demo_base queue_size) 100 (fun h => guest_at (fst h))
    live_set small_config demo_gm (at_host demo_gm live_chunks) [] 0x40 live_params initial_sender
    (qp_stream (live_handle 6 demo_base) 0x80, []) live_start with
  | OK (_, _, _, _, h) => Some (fst h)
  | _ => None
  end.

Lemma rdma_live_migration_witness :
  exists p' st s' h1 st' h',
    precopy_phase (demo_verbs 5) slow_socket (live_hca demo_gm demo_base queue_size) 100 (fun h => guest_at (fst h))
      live_set small_config demo_gm (at_host demo_gm live_chunks) [] 0x40 live_params initial_sender
      (qp_stream (live_handle 6 demo_base) 0x80, []) live_start = OK (live_connection, p', st, s', h1) /\
    stop_and_copy_phase (demo_verbs 5) (live_hca demo_gm demo_base queue_size) 100 (fun h => guest_at (fst h))
      live_set small_config demo_gm live_connection p' st (Frozen, snd h1) = OK (st', h') /\
    peek (a_memory (snd h')) 0x14000 = Byte.x77 /\ peek (a_memory (snd h')) 0x15000 = Byte.x64.
Proof.
  destruct (rdma_live_migration (demo_verbs 5) (demo_verbs 6) slow_socket
    (fun s pending sent => s = (pending, sent)) (live_hca demo_gm demo_base queue_size) queue_size 100 1
    (fun h => guest_at (fst h)) live_set small_config demo_gm demo_base live_params live_chunks [] (live_handle 5 demo_gm)
    (live_handle 6 demo_base) 0x40 0x80 (fun h => a_queue (snd h)) (fun h => a_memory (snd h))
    (fun h => if a_slow (snd h) then 1 else 0)%nat small_flag_bytes (fun _ => True) (fun h => live_running (fst h))
    (fun h => live_stopped (fst h)) (qp_stream (live_handle 6 demo_base) 0x80, []) [] live_start)
    as (p' & st & s' & h1 & E & _ & Ha1 & Hq1 & Hstop).
  - exact slow_connection.
  - reflexivity.
  - reflexivity.
  - exact live_chunks_ok.
  - vm_compute. reflexivity.
  - vm_compute. reflexivity.
  - apply live_handle_ok. by left.
  - apply live_handle_ok. by right.
  - split; vm_compute; intuition congruence.
  - apply live_epoch; [apply guest_runs_refl|apply guest_runs_trans| |].
    + intros n Hn. split; [unfold live_running in *; destruct n; cbn; intuition congruence|].
      destruct n; [apply guest_runs_refl|exact live_first_write|apply guest_runs_refl..].
    + intros n Hn. unfold live_running in *. destruct n; cbn; intuition congruence.
  - apply live_epoch; [done|congruence| |].
    + intros n [->| ->]; (split; [|done]); [by left|by right].
    + intros n [->| ->]; by right.
  - lia.
  - lia.
  - cbn. lia.
  - by left.
  - reflexivity.
  - by rewrite app_nil_r.
  - destruct h1 as [n a]. destruct (Hstop (Frozen, a)) as (st' & h' & E' & _ & Hm & Hx); [by left| |done|done|].
    { cbn [fst] in *. assert (n = Rescanned) as ->; [|exact live_second_write].
      assert (live_precopy_phase = Some Rescanned) as Ep by (vm_compute; reflexivity).
      unfold live_precopy_phase in Ep. rewrite E in Ep. by injection Ep. }
    exists p', st, s', (n, a), st', h'. split; [exact E|]. split; [exact E'|]. cbn [fst snd] in *.
    split; [pose proof (Hx 0x14000) as H|pose proof (Hx 0x15000) as H];
      (destruct (H I) as [_ ->]; [unfold small_flag_bytes; lia|vm_compute; reflexivity|]).
    + intros Hc. vm_compute in Hc. discriminate Hc.
    + intros _. vm_compute. reflexivity.
Defined.
