(* ===== verification/Queue.v ===== *)
(** * Linked lists

    The list macros of src/queue.h, on a store that has the pointers they
    chase: [SLIST] (singly linked), [LIST] (doubly linked), [SIMPLEQ] and
    [STAILQ] (singly linked with a pointer to the last link), [TAILQ] (both).
    Every assignment of a macro is one write of the store, in the order of the
    source; a dereference of anything but the address of a live object is
    undefined.  [linked_lists_refine] shows that each family implements the
    same operations on plain lists, with the debugging checks on or off. *)

From S2P Require Import Prelude.

Open Scope uhyve_scope.

(** ** Memory *)

(** Addresses of the elements and of the heads. *)
Definition elm : Type := positive.
Definition head : Type := positive.

(** A pointer: NULL, an object's address, or the [(void * )1L] that the
    debugging macros leave behind. *)
Inductive ptr (A : Type) := NULL | At (a : A) | One.
Arguments NULL {A}.
Arguments At {A} a.
Arguments One {A}.

(** The first word of a head ([slh_first], [tqh_first], ...) or of an entry
    ([sle_next], [tqe_next], ...): a [struct type *]. *)
Inductive slot := First (h : head) | Next (e : elm).
(** The second word of a head ([tqh_last], ...) or of an entry ([tqe_prev],
    ...): a [struct type **]. *)
Inductive back := Last (h : head) | Prev (e : elm).

#[export] Instance ptr_eq_dec {A} `{EqDecision A} : EqDecision (ptr A).
Proof. solve_decision. Defined.
#[export] Instance slot_eq_dec : EqDecision slot.
Proof. solve_decision. Defined.
#[export] Instance back_eq_dec : EqDecision back.
Proof. solve_decision. Defined.
#[export] Program Instance slot_countable : Countable slot :=
  inj_countable' (fun s => match s with First h => inl h | Next e => inr e end)
                 (fun s => match s with inl h => First h | inr e => Next e end) _.
Next Obligation. by intros []. Qed.
#[export] Program Instance back_countable : Countable back :=
  inj_countable' (fun s => match s with Last h => inl h | Prev e => inr e end)
                 (fun s => match s with inl h => Last h | inr e => Prev e end) _.
Next Obligation. by intros []. Qed.

(** What is allocated, with its contents. *)
Record mem := mkmem { firsts : gmap slot (ptr elm); backs : gmap back (ptr slot) }.

Definition rd (m : mem) (s : slot) : outcome (ptr elm) :=
  match firsts m !! s with Some p => OK p | None => Undefined end.
Definition wr (m : mem) (s : slot) (p : ptr elm) : outcome mem :=
  match firsts m !! s with
  | Some _ => OK (mkmem (<[s := p]> (firsts m)) (backs m))
  | None => Undefined
  end.
Definition rdb (m : mem) (b : back) : outcome (ptr slot) :=
  match backs m !! b with Some p => OK p | None => Undefined end.
Definition wrb (m : mem) (b : back) (p : ptr slot) : outcome mem :=
  match backs m !! b with
  | Some _ => OK (mkmem (firsts m) (<[b := p]> (backs m)))
  | None => Undefined
  end.
Definition deref {A} (p : ptr A) : outcome A :=
  match p with At a => OK a | _ => Undefined end.

(** ** Declarations *)

(** The structures the declaration macros lay out, with any contents. *)
Definition SLIST_HEAD (h : head) (first : ptr elm) (m : mem) : mem :=
  mkmem (<[First h := first]> (firsts m)) (backs m).
Definition SLIST_ENTRY (e : elm) (next : ptr elm) (m : mem) : mem :=
  mkmem (<[Next e := next]> (firsts m)) (backs m).
Definition LIST_HEAD (h : head) (first : ptr elm) (m : mem) : mem :=
  mkmem (<[First h := first]> (firsts m)) (backs m).
Definition LIST_ENTRY (e : elm) (next : ptr elm) (prev : ptr slot) (m : mem) : mem :=
  mkmem (<[Next e := next]> (firsts m)) (<[Prev e := prev]> (backs m)).
Definition SIMPLEQ_HEAD (h : head) (first : ptr elm) (last : ptr slot) (m : mem) : mem :=
  mkmem (<[First h := first]> (firsts m)) (<[Last h := last]> (backs m)).
Definition SIMPLEQ_ENTRY (e : elm) (next : ptr elm) (m : mem) : mem :=
  mkmem (<[Next e := next]> (firsts m)) (backs m).
Definition TAILQ_HEAD (h : head) (first : ptr elm) (last : ptr slot) (m : mem) : mem :=
  mkmem (<[First h := first]> (firsts m)) (<[Last h := last]> (backs m)).
Definition TAILQ_ENTRY (e : elm) (next : ptr elm) (prev : ptr slot) (m : mem) : mem :=
  mkmem (<[Next e := next]> (firsts m)) (<[Prev e := prev]> (backs m)).
Definition STAILQ_HEAD (h : head) (first : ptr elm) (last : ptr slot) (m : mem) : mem :=
  mkmem (<[First h := first]> (firsts m)) (<[Last h := last]> (backs m)).
Definition STAILQ_ENTRY (e : elm) (next : ptr elm) (m : mem) : mem :=
  mkmem (<[Next e := next]> (firsts m)) (backs m).

(** The static initialisers. *)
Definition SLIST_HEAD_INITIALIZER (h : head) : mem -> mem := SLIST_HEAD h NULL.
Definition LIST_HEAD_INITIALIZER (h : head) : mem -> mem := LIST_HEAD h NULL.
Definition SIMPLEQ_HEAD_INITIALIZER (h : head) : mem -> mem := SIMPLEQ_HEAD h NULL (At (First h)).
Definition TAILQ_HEAD_INITIALIZER (h : head) : mem -> mem := TAILQ_HEAD h NULL (At (First h)).
Definition STAILQ_HEAD_INITIALIZER (h : head) : mem -> mem := STAILQ_HEAD h NULL (At (First h)).

(** [free(elm)] *)
Definition free (m : mem) (e : elm) : mem :=
  mkmem (delete (Next e) (firsts m)) (delete (Prev e) (backs m)).

(** ** Traversals *)

(** [for (var = first; var != NULL; var = next) body]: [FOREACH] reads the
    next pointer after the body, [FOREACH_SAFE] before it. *)
Section Foreach.
Context {A : Type} (next : mem -> elm -> outcome (ptr elm))
        (body : elm -> mem * A -> outcome (mem * A)).

Definition foreach_step (s : ptr elm * (mem * A))
  : outcome (ptr elm * (mem * A) + (mem * A)) :=
  let '(var, ma) := s in
  if decide (var = NULL) then OK (inr ma)
  else
    e ← deref var;
    ma ← body e ma;
    n ← next ma.1 e;
    OK (inl (n, ma)).

Definition foreach_safe_step (s : ptr elm * (mem * A))
  : outcome (ptr elm * (mem * A) + (mem * A)) :=
  let '(var, ma) := s in
  if decide (var = NULL) then OK (inr ma)
  else
    e ← deref var;
    tvar ← next ma.1 e;
    ma ← body e ma;
    OK (inl (tvar, ma)).
End Foreach.

(** ** Singly-linked lists *)

Definition SLIST_FIRST (m : mem) (h : head) : outcome (ptr elm) := rd m (First h).
Definition SLIST_EMPTY (m : mem) (h : head) : outcome bool :=
  p ← rd m (First h); OK (bool_decide (p = NULL)).
Definition SLIST_NEXT (m : mem) (e : elm) : outcome (ptr elm) := rd m (Next e).

Definition SLIST_FOREACH {A} (fuel : nat) (h : head) body (ma : mem * A) : outcome (mem * A) :=
  var ← SLIST_FIRST ma.1 h; while fuel (foreach_step SLIST_NEXT body) (var, ma).
Definition SLIST_FOREACH_SAFE {A} (fuel : nat) (h : head) body (ma : mem * A) : outcome (mem * A) :=
  var ← SLIST_FIRST ma.1 h; while fuel (foreach_safe_step SLIST_NEXT body) (var, ma).

Definition SLIST_INIT (m : mem) (h : head) : outcome mem := wr m (First h) NULL.

Definition SLIST_INSERT_AFTER (m : mem) (slistelm e : elm) : outcome mem :=
  n ← rd m (Next slistelm);
  m ← wr m (Next e) n;
  wr m (Next slistelm) (At e).

Definition SLIST_INSERT_HEAD (m : mem) (h : head) (e : elm) : outcome mem :=
  f ← rd m (First h);
  m ← wr m (Next e) f;
  wr m (First h) (At e).

Definition SLIST_REMOVE_AFTER (m : mem) (slistelm : elm) : outcome mem :=
  n ← SLIST_NEXT m slistelm;
  n ← deref n;
  n ← SLIST_NEXT m n;
  wr m (Next slistelm) n.

Definition SLIST_REMOVE_HEAD (m : mem) (h : head) : outcome mem :=
  f ← rd m (First h);
  f ← deref f;
  n ← rd m (Next f);
  wr m (First h) n.

(** [while (curelm->next != elm) curelm = curelm->next;] *)
Definition find_prev (m : mem) (e : elm) (curelm : ptr elm) : outcome (ptr elm + elm) :=
  c ← deref curelm;
  n ← rd m (Next c);
  if decide (n = At e) then OK (inr c) else OK (inl n).

Definition SLIST_REMOVE (fuel : nat) (m : mem) (h : head) (e : elm) : outcome mem :=
  f ← rd m (First h);
  if decide (f = At e) then SLIST_REMOVE_HEAD m h
  else
    curelm ← while fuel (find_prev m e) f;
    n ← rd m (Next curelm);
    n ← deref n;
    n ← rd m (Next n);
    wr m (Next curelm) n.

(** ** The debugging checks

    With [QUEUEDEBUG] defined, the doubly-linked macros check the links first
    and poison a removed entry.  [QUEUEDEBUG_ABORT] is not defined in the
    header: it is a parameter. *)
Section Macros.
Context (QUEUEDEBUG : bool) (QUEUEDEBUG_ABORT : outcome unit).

Definition check_back (m : mem) (e : elm) (s : slot) : outcome unit :=
  p ← rdb m (Prev e);
  if decide (p = At s) then OK tt else QUEUEDEBUG_ABORT.

Definition QUEUEDEBUG_LIST_INSERT_HEAD (m : mem) (h : head) : outcome unit :=
  if negb QUEUEDEBUG then OK tt
  else
    f ← rd m (First h);
    if decide (f = NULL) then OK tt else f ← deref f; check_back m f (First h).

Definition QUEUEDEBUG_LIST_OP (m : mem) (e : elm) : outcome unit :=
  if negb QUEUEDEBUG then OK tt
  else
    n ← rd m (Next e);
    (if decide (n = NULL) then OK tt else n ← deref n; check_back m n (Next e));;
    p ← rdb m (Prev e);
    p ← deref p;
    v ← rd m p;
    if decide (v = At e) then OK tt else QUEUEDEBUG_ABORT.

Definition QUEUEDEBUG_LIST_POSTREMOVE (m : mem) (e : elm) : outcome mem :=
  if negb QUEUEDEBUG then OK m
  else m ← wr m (Next e) One; wrb m (Prev e) One.

(** ** Lists *)

Definition LIST_FIRST (m : mem) (h : head) : outcome (ptr elm) := rd m (First h).
Definition LIST_EMPTY (m : mem) (h : head) : outcome bool :=
  p ← rd m (First h); OK (bool_decide (p = NULL)).
Definition LIST_NEXT (m : mem) (e : elm) : outcome (ptr elm) := rd m (Next e).

Definition LIST_FOREACH {A} (fuel : nat) (h : head) body (ma : mem * A) : outcome (mem * A) :=
  var ← LIST_FIRST ma.1 h; while fuel (foreach_step LIST_NEXT body) (var, ma).
Definition LIST_FOREACH_SAFE {A} (fuel : nat) (h : head) body (ma : mem * A) : outcome (mem * A) :=
  var ← LIST_FIRST ma.1 h; while fuel (foreach_safe_step LIST_NEXT body) (var, ma).

Definition LIST_INIT (m : mem) (h : head) : outcome mem := wr m (First h) NULL.

Definition LIST_MOVE (m : mem) (head1 head2 : head) : outcome mem :=
  m ← LIST_INIT m head2;
  is_empty ← LIST_EMPTY m head1;
  if (is_empty : bool) then OK m
  else
    f ← rd m (First head1);
    m ← wr m (First head2) f;
    LIST_INIT m head1.

Definition LIST_INSERT_AFTER (m : mem) (listelm e : elm) : outcome mem :=
  QUEUEDEBUG_LIST_OP m listelm;;
  n ← rd m (Next listelm);
  m ← wr m (Next e) n;
  m ← (if decide (n = NULL) then OK m
       else
         n ← rd m (Next listelm);
         n ← deref n;
         wrb m (Prev n) (At (Next e)));
  m ← wr m (Next listelm) (At e);
  wrb m (Prev e) (At (Next listelm)).

Definition LIST_INSERT_BEFORE (m : mem) (listelm e : elm) : outcome mem :=
  QUEUEDEBUG_LIST_OP m listelm;;
  p ← rdb m (Prev listelm);
  m ← wrb m (Prev e) p;
  m ← wr m (Next e) (At listelm);
  p ← rdb m (Prev listelm);
  p ← deref p;
  m ← wr m p (At e);
  wrb m (Prev listelm) (At (Next e)).

Definition LIST_INSERT_HEAD (m : mem) (h : head) (e : elm) : outcome mem :=
  QUEUEDEBUG_LIST_INSERT_HEAD m h;;
  f ← rd m (First h);
  m ← wr m (Next e) f;
  m ← (if decide (f = NULL) then OK m
       else
         f ← rd m (First h);
         f ← deref f;
         wrb m (Prev f) (At (Next e)));
  m ← wr m (First h) (At e);
  wrb m (Prev e) (At (First h)).

Definition LIST_REMOVE (m : mem) (e : elm) : outcome mem :=
  QUEUEDEBUG_LIST_OP m e;;
  n ← rd m (Next e);
  m ← (if decide (n = NULL) then OK m
       else n ← deref n; p ← rdb m (Prev e); wrb m (Prev n) p);
  p ← rdb m (Prev e);
  p ← deref p;
  n ← rd m (Next e);
  m ← wr m p n;
  QUEUEDEBUG_LIST_POSTREMOVE m e.

Definition LIST_REPLACE (m : mem) (e e2 : elm) : outcome mem :=
  n ← rd m (Next e);
  m ← wr m (Next e2) n;
  m ← (if decide (n = NULL) then OK m
       else
         n ← rd m (Next e2);
         n ← deref n;
         wrb m (Prev n) (At (Next e2)));
  p ← rdb m (Prev e);
  m ← wrb m (Prev e2) p;
  p ← rdb m (Prev e2);
  p ← deref p;
  m ← wr m p (At e2);
  QUEUEDEBUG_LIST_POSTREMOVE m e.

(** ** Simple queues *)

Definition SIMPLEQ_FIRST (m : mem) (h : head) : outcome (ptr elm) := rd m (First h).
Definition SIMPLEQ_EMPTY (m : mem) (h : head) : outcome bool :=
  p ← rd m (First h); OK (bool_decide (p = NULL)).
Definition SIMPLEQ_NEXT (m : mem) (e : elm) : outcome (ptr elm) := rd m (Next e).

Definition SIMPLEQ_FOREACH {A} (fuel : nat) (h : head) body (ma : mem * A) : outcome (mem * A) :=
  var ← SIMPLEQ_FIRST ma.1 h; while fuel (foreach_step SIMPLEQ_NEXT body) (var, ma).
Definition SIMPLEQ_FOREACH_SAFE {A} (fuel : nat) (h : head) body (ma : mem * A) : outcome (mem * A) :=
  var ← SIMPLEQ_FIRST ma.1 h; while fuel (foreach_safe_step SIMPLEQ_NEXT body) (var, ma).

Definition SIMPLEQ_INIT (m : mem) (h : head) : outcome mem :=
  m ← wr m (First h) NULL;
  wrb m (Last h) (At (First h)).

Definition SIMPLEQ_INSERT_HEAD (m : mem) (h : head) (e : elm) : outcome mem :=
  f ← rd m (First h);
  m ← wr m (Next e) f;
  m ← (if decide (f = NULL) then wrb m (Last h) (At (Next e)) else OK m);
  wr m (First h) (At e).

Definition SIMPLEQ_INSERT_TAIL (m : mem) (h : head) (e : elm) : outcome mem :=
  m ← wr m (Next e) NULL;
  p ← rdb m (Last h);
  p ← deref p;
  m ← wr m p (At e);
  wrb m (Last h) (At (Next e)).

Definition SIMPLEQ_INSERT_AFTER (m : mem) (h : head) (listelm e : elm) : outcome mem :=
  n ← rd m (Next listelm);
  m ← wr m (Next e) n;
  m ← (if decide (n = NULL) then wrb m (Last h) (At (Next e)) else OK m);
  wr m (Next listelm) (At e).

Definition SIMPLEQ_REMOVE_HEAD (m : mem) (h : head) : outcome mem :=
  f ← rd m (First h);
  f ← deref f;
  n ← rd m (Next f);
  m ← wr m (First h) n;
  if decide (n = NULL) then wrb m (Last h) (At (First h)) else OK m.

Definition SIMPLEQ_REMOVE_AFTER (m : mem) (h : head) (e : elm) : outcome mem :=
  n ← rd m (Next e);
  n ← deref n;
  n ← rd m (Next n);
  m ← wr m (Next e) n;
  if decide (n = NULL) then wrb m (Last h) (At (Next e)) else OK m.

Definition SIMPLEQ_REMOVE (fuel : nat) (m : mem) (h : head) (e : elm) : outcome mem :=
  f ← rd m (First h);
  if decide (f = At e) then SIMPLEQ_REMOVE_HEAD m h
  else
    curelm ← while fuel (find_prev m e) f;
    n ← rd m (Next curelm);
    n ← deref n;
    n ← rd m (Next n);
    m ← wr m (Next curelm) n;
    if decide (n = NULL) then wrb m (Last h) (At (Next curelm)) else OK m.

Definition SIMPLEQ_CONCAT (m : mem) (head1 head2 : head) : outcome mem :=
  is_empty ← SIMPLEQ_EMPTY m head2;
  if (is_empty : bool) then OK m
  else
    f ← rd m (First head2);
    p ← rdb m (Last head1);
    p ← deref p;
    m ← wr m p f;
    l ← rdb m (Last head2);
    m ← wrb m (Last head1) l;
    SIMPLEQ_INIT m head2.

(** The element whose entry starts at an address: the subtraction of the
    entry's offset from the address of a head has no meaning. *)
Definition container (s : slot) : outcome elm :=
  match s with Next e => OK e | First _ => Undefined end.
Definition SIMPLEQ_LAST (m : mem) (h : head) : outcome (ptr elm) :=
  is_empty ← SIMPLEQ_EMPTY m h;
  if (is_empty : bool) then OK NULL
  else p ← rdb m (Last h); p ← deref p; e ← container p; OK (At e).

(** ** Tail queues *)

Definition QUEUEDEBUG_TAILQ_INSERT_HEAD (m : mem) (h : head) : outcome unit :=
  if negb QUEUEDEBUG then OK tt
  else
    f ← rd m (First h);
    if decide (f = NULL) then OK tt else f ← deref f; check_back m f (First h).

Definition QUEUEDEBUG_TAILQ_INSERT_TAIL (m : mem) (h : head) : outcome unit :=
  if negb QUEUEDEBUG then OK tt
  else
    p ← rdb m (Last h);
    p ← deref p;
    v ← rd m p;
    if decide (v = NULL) then OK tt else QUEUEDEBUG_ABORT.

Definition QUEUEDEBUG_TAILQ_OP (m : mem) (e : elm) : outcome unit :=
  if negb QUEUEDEBUG then OK tt
  else
    n ← rd m (Next e);
    (if decide (n = NULL) then OK tt else n ← deref n; check_back m n (Next e));;
    p ← rdb m (Prev e);
    p ← deref p;
    v ← rd m p;
    if decide (v = At e) then OK tt else QUEUEDEBUG_ABORT.

Definition QUEUEDEBUG_TAILQ_PREREMOVE (m : mem) (h : head) (e : elm) : outcome unit :=
  if negb QUEUEDEBUG then OK tt
  else
    n ← rd m (Next e);
    if decide (n = NULL) then
      p ← rdb m (Last h);
      if decide (p = At (Next e)) then OK tt else QUEUEDEBUG_ABORT
    else OK tt.

Definition QUEUEDEBUG_TAILQ_POSTREMOVE (m : mem) (e : elm) : outcome mem :=
  if negb QUEUEDEBUG then OK m
  else m ← wr m (Next e) One; wrb m (Prev e) One.

(** [((struct headname * )p)->tqh_last] for a pointer to a [tqh_first] or a
    [tqe_next]: a head and an entry have the same layout, so the cast reads
    the second word of whichever object [p] points into. *)
Definition second (s : slot) : back :=
  match s with First h => Last h | Next e => Prev e end.

Definition TAILQ_FIRST (m : mem) (h : head) : outcome (ptr elm) := rd m (First h).
Definition TAILQ_NEXT (m : mem) (e : elm) : outcome (ptr elm) := rd m (Next e).
Definition TAILQ_EMPTY (m : mem) (h : head) : outcome bool :=
  p ← TAILQ_FIRST m h; OK (bool_decide (p = NULL)).
Definition TAILQ_LAST (m : mem) (h : head) : outcome (ptr elm) :=
  p ← rdb m (Last h);
  p ← deref p;
  q ← rdb m (second p);
  q ← deref q;
  rd m q.
Definition TAILQ_PREV (m : mem) (e : elm) : outcome (ptr elm) :=
  p ← rdb m (Prev e);
  p ← deref p;
  q ← rdb m (second p);
  q ← deref q;
  rd m q.

Definition TAILQ_FOREACH {A} (fuel : nat) (h : head) body (ma : mem * A) : outcome (mem * A) :=
  var ← TAILQ_FIRST ma.1 h; while fuel (foreach_step TAILQ_NEXT body) (var, ma).
Definition TAILQ_FOREACH_SAFE {A} (fuel : nat) (h : head) body (ma : mem * A) : outcome (mem * A) :=
  var ← TAILQ_FIRST ma.1 h; while fuel (foreach_safe_step TAILQ_NEXT body) (var, ma).
Definition TAILQ_FOREACH_REVERSE {A} (fuel : nat) (h : head) body (ma : mem * A)
  : outcome (mem * A) :=
  var ← TAILQ_LAST ma.1 h; while fuel (foreach_step TAILQ_PREV body) (var, ma).
Definition TAILQ_FOREACH_REVERSE_SAFE {A} (fuel : nat) (h : head) body (ma : mem * A)
  : outcome (mem * A) :=
  var ← TAILQ_LAST ma.1 h; while fuel (foreach_safe_step TAILQ_PREV body) (var, ma).

Definition TAILQ_INIT (m : mem) (h : head) : outcome mem :=
  m ← wr m (First h) NULL;
  wrb m (Last h) (At (First h)).

Definition TAILQ_INSERT_HEAD (m : mem) (h : head) (e : elm) : outcome mem :=
  QUEUEDEBUG_TAILQ_INSERT_HEAD m h;;
  f ← rd m (First h);
  m ← wr m (Next e) f;
  m ← (if decide (f = NULL) then wrb m (Last h) (At (Next e))
       else
         f ← rd m (First h);
         f ← deref f;
         wrb m (Prev f) (At (Next e)));
  m ← wr m (First h) (At e);
  wrb m (Prev e) (At (First h)).

Definition TAILQ_INSERT_TAIL (m : mem) (h : head) (e : elm) : outcome mem :=
  QUEUEDEBUG_TAILQ_INSERT_TAIL m h;;
  m ← wr m (Next e) NULL;
  p ← rdb m (Last h);
  m ← wrb m (Prev e) p;
  p ← rdb m (Last h);
  p ← deref p;
  m ← wr m p (At e);
  wrb m (Last h) (At (Next e)).

Definition TAILQ_INSERT_AFTER (m : mem) (h : head) (listelm e : elm) : outcome mem :=
  QUEUEDEBUG_TAILQ_OP m listelm;;
  n ← rd m (Next listelm);
  m ← wr m (Next e) n;
  m ← (if decide (n = NULL) then wrb m (Last h) (At (Next e))
       else
         n ← rd m (Next e);
         n ← deref n;
         wrb m (Prev n) (At (Next e)));
  m ← wr m (Next listelm) (At e);
  wrb m (Prev e) (At (Next listelm)).

Definition TAILQ_INSERT_BEFORE (m : mem) (listelm e : elm) : outcome mem :=
  QUEUEDEBUG_TAILQ_OP m listelm;;
  p ← rdb m (Prev listelm);
  m ← wrb m (Prev e) p;
  m ← wr m (Next e) (At listelm);
  p ← rdb m (Prev listelm);
  p ← deref p;
  m ← wr m p (At e);
  wrb m (Prev listelm) (At (Next e)).

Definition TAILQ_REMOVE (m : mem) (h : head) (e : elm) : outcome mem :=
  QUEUEDEBUG_TAILQ_PREREMOVE m h e;;
  QUEUEDEBUG_TAILQ_OP m e;;
  n ← rd m (Next e);
  p ← rdb m (Prev e);
  m ← (if decide (n = NULL) then wrb m (Last h) p
       else n ← deref n; wrb m (Prev n) p);
  p ← rdb m (Prev e);
  p ← deref p;
  n ← rd m (Next e);
  m ← wr m p n;
  QUEUEDEBUG_TAILQ_POSTREMOVE m e.

Definition TAILQ_REPLACE (m : mem) (h : head) (e e2 : elm) : outcome mem :=
  n ← rd m (Next e);
  m ← wr m (Next e2) n;
  m ← (if decide (n = NULL) then wrb m (Last h) (At (Next e2))
       else
         n ← rd m (Next e2);
         n ← deref n;
         wrb m (Prev n) (At (Next e2)));
  p ← rdb m (Prev e);
  m ← wrb m (Prev e2) p;
  p ← rdb m (Prev e2);
  p ← deref p;
  m ← wr m p (At e2);
  QUEUEDEBUG_TAILQ_POSTREMOVE m e.

Definition TAILQ_CONCAT (m : mem) (head1 head2 : head) : outcome mem :=
  is_empty ← TAILQ_EMPTY m head2;
  if (is_empty : bool) then OK m
  else
    f ← rd m (First head2);
    p ← rdb m (Last head1);
    p ← deref p;
    m ← wr m p f;
    f ← rd m (First head2);
    f ← deref f;
    p ← rdb m (Last head1);
    m ← wrb m (Prev f) p;
    l ← rdb m (Last head2);
    m ← wrb m (Last head1) l;
    TAILQ_INIT m head2.
End Macros.

(** ** Singly-linked tail queues *)

Definition STAILQ_FIRST (m : mem) (h : head) : outcome (ptr elm) := rd m (First h).
Definition STAILQ_NEXT (m : mem) (e : elm) : outcome (ptr elm) := rd m (Next e).
Definition STAILQ_EMPTY (m : mem) (h : head) : outcome bool :=
  p ← STAILQ_FIRST m h; OK (bool_decide (p = NULL)).

Definition STAILQ_FOREACH {A} (fuel : nat) (h : head) body (ma : mem * A) : outcome (mem * A) :=
  var ← STAILQ_FIRST ma.1 h; while fuel (foreach_step STAILQ_NEXT body) (var, ma).
Definition STAILQ_FOREACH_SAFE {A} (fuel : nat) (h : head) body (ma : mem * A) : outcome (mem * A) :=
  var ← STAILQ_FIRST ma.1 h; while fuel (foreach_safe_step STAILQ_NEXT body) (var, ma).

Definition STAILQ_INIT (m : mem) (h : head) : outcome mem :=
  m ← wr m (First h) NULL;
  wrb m (Last h) (At (First h)).

Definition STAILQ_INSERT_HEAD (m : mem) (h : head) (e : elm) : outcome mem :=
  f ← rd m (First h);
  m ← wr m (Next e) f;
  m ← (if decide (f = NULL) then wrb m (Last h) (At (Next e)) else OK m);
  wr m (First h) (At e).

Definition STAILQ_INSERT_TAIL (m : mem) (h : head) (e : elm) : outcome mem :=
  m ← wr m (Next e) NULL;
  p ← rdb m (Last h);
  p ← deref p;
  m ← wr m p (At e);
  wrb m (Last h) (At (Next e)).

Definition STAILQ_INSERT_AFTER (m : mem) (h : head) (listelm e : elm) : outcome mem :=
  n ← rd m (Next listelm);
  m ← wr m (Next e) n;
  m ← (if decide (n = NULL) then wrb m (Last h) (At (Next e)) else OK m);
  wr m (Next listelm) (At e).

Definition STAILQ_REMOVE_HEAD (m : mem) (h : head) : outcome mem :=
  f ← rd m (First h);
  f ← deref f;
  n ← rd m (Next f);
  m ← wr m (First h) n;
  if decide (n = NULL) then wrb m (Last h) (At (First h)) else OK m.

Definition STAILQ_REMOVE (fuel : nat) (m : mem) (h : head) (e : elm) : outcome mem :=
  f ← rd m (First h);
  if decide (f = At e) then STAILQ_REMOVE_HEAD m h
  else
    curelm ← while fuel (find_prev m e) f;
    n ← rd m (Next curelm);
    n ← deref n;
    n ← rd m (Next n);
    m ← wr m (Next curelm) n;
    if decide (n = NULL) then wrb m (Last h) (At (Next curelm)) else OK m.

Definition STAILQ_CONCAT (m : mem) (head1 head2 : head) : outcome mem :=
  is_empty ← STAILQ_EMPTY m head2;
  if (is_empty : bool) then OK m
  else
    f ← rd m (First head2);
    p ← rdb m (Last head1);
    p ← deref p;
    m ← wr m p f;
    l ← rdb m (Last head2);
    m ← wrb m (Last head1) l;
    STAILQ_INIT m head2.

Definition STAILQ_LAST (m : mem) (h : head) : outcome (ptr elm) :=
  is_empty ← STAILQ_EMPTY m h;
  if (is_empty : bool) then OK NULL
  else p ← rdb m (Last h); p ← deref p; e ← container p; OK (At e).

(** ** What the pointers represent *)

(** [chain P s l]: following [P] from the pointer at [s] visits [l] and ends
    in NULL.  [bseg B s l]: the entry of every element points back at the
    pointer that points at it, [s] for the first. *)
Fixpoint chain (P : gmap slot (ptr elm)) (s : slot) (l : list elm) : Prop :=
  match l with
  | [] => P !! s = Some NULL
  | e :: l => P !! s = Some (At e) /\ chain P (Next e) l
  end.
Fixpoint bseg (B : gmap back (ptr slot)) (s : slot) (l : list elm) : Prop :=
  match l with
  | [] => True
  | e :: l => B !! Prev e = Some (At s) /\ bseg B (Next e) l
  end.
(** The pointer behind the last element. *)
Fixpoint tail_slot (s : slot) (l : list elm) : slot :=
  match l with [] => s | e :: l => tail_slot (Next e) l end.
Definition hdp (l : list elm) : ptr elm := match l with [] => NULL | e :: _ => At e end.

Lemma tail_slot_app s l1 l2 : tail_slot s (l1 ++ l2) = tail_slot (tail_slot s l1) l2.
Proof. revert s. induction l1; cbn; auto. Qed.

Lemma chain_lookup P s l1 l2 : chain P s (l1 ++ l2) -> P !! tail_slot s l1 = Some (hdp l2).
Proof.
  revert s. induction l1 as [|a l1 IH]; intros s H; cbn in *; [|apply IH, H].
  destruct l2; cbn in *; tauto.
Qed.
Lemma chain_lookup_next P s l1 e l2 : chain P s (l1 ++ e :: l2) -> P !! Next e = Some (hdp l2).
Proof.
  intros H. replace (l1 ++ e :: l2) with ((l1 ++ [e]) ++ l2) in H by by rewrite <- app_assoc.
  apply chain_lookup in H. by rewrite tail_slot_app in H.
Qed.
Lemma bseg_lookup B s l1 e l2 : bseg B s (l1 ++ e :: l2) -> B !! Prev e = Some (At (tail_slot s l1)).
Proof. revert s. induction l1 as [|a l1 IH]; intros s H; cbn in *; [tauto|apply IH, H]. Qed.
Lemma bseg_app B s l1 l2 : bseg B s (l1 ++ l2) <-> bseg B s l1 /\ bseg B (tail_slot s l1) l2.
Proof. revert s. induction l1 as [|a l1 IH]; intros s; cbn; [tauto|]. rewrite IH. tauto. Qed.

(** Two chains from the same pointer are the same list, so no element comes
    twice in one. *)
Lemma chain_det P s l l' : chain P s l -> chain P s l' -> l = l'.
Proof.
  revert s l'. induction l as [|a l IH]; intros s [|b l'] H H'; cbn in *; try done.
  - destruct H' as [H' _]. congruence.
  - destruct H as [H _]. congruence.
  - destruct H as [H1 H], H' as [H1' H']. assert (a = b) as <- by congruence.
    f_equal. eauto.
Qed.
Lemma chain_suffix P s l1 l2 : chain P s (l1 ++ l2) -> chain P (tail_slot s l1) l2.
Proof. revert s. induction l1 as [|a l1 IH]; intros s H; cbn in *; [done|apply IH, H]. Qed.

Lemma chain_NoDup P s l : chain P s l -> NoDup l.
Proof.
  revert s. induction l as [|a l IH]; intros s H; cbn in *; constructor; [|eapply IH; apply H].
  intros Ha. apply list_elem_of_split in Ha as (l1 & l2 & ->).
  destruct H as [_ H].
  pose proof (chain_suffix P (Next a) (l1 ++ [a]) l2) as H'.
  rewrite <- app_assoc, tail_slot_app in H'. specialize (H' H). cbn in H'.
  pose proof (chain_det _ _ _ _ H H') as E. apply (f_equal length) in E.
  rewrite length_app in E. cbn in E. lia.
Qed.

(** The first pointer is a head's, or that of an element off the chain. *)
Definition off (s : slot) (l : list elm) : Prop := forall e, e ∈ l -> s <> Next e.
Lemma off_first h l : off (First h) l.
Proof. intros e _. done. Qed.
Lemma off_next e l : e ∉ l -> off (Next e) l.
Proof. intros He a Ha [= ->]. by apply He. Qed.
#[local] Hint Resolve off_first off_next : core.

Lemma off_cons s e l : off s (e :: l) -> s <> Next e /\ off s l.
Proof. intros H. split; [apply H; left|intros a Ha; apply H; by right]. Qed.
Lemma tail_slot_elem s l e : tail_slot s l = Next e -> e ∈ l \/ s = Next e.
Proof.
  revert s. induction l as [|a l IH]; intros s H; cbn in H; [by right|].
  apply IH in H as [H|[= ->]]; left; [by right|left].
Qed.
Lemma tail_slot_off s a l : off s (a :: l) -> s <> tail_slot (Next a) l.
Proof.
  revert a. induction l as [|b l IH]; intros a H; cbn.
  - apply H. left.
  - apply IH. apply off_cons in H. tauto.
Qed.

Lemma chain_move P P' s s' l :
  chain P s l -> P' !! s' = P !! s -> (forall e, e ∈ l -> P' !! Next e = P !! Next e) ->
  chain P' s' l.
Proof.
  revert s s'. induction l as [|a l IH]; intros s s' H Hs Hl; cbn in *; [congruence|].
  destruct H as [H1 H2]. split; [congruence|]. apply (IH (Next a)); [done| |].
  - apply Hl. left.
  - intros e He. apply Hl. by right.
Qed.
Lemma bseg_move B B' s s' l :
  bseg B s l -> (forall e, e ∈ tail l -> B' !! Prev e = B !! Prev e) ->
  (forall e, hd_error l = Some e -> B' !! Prev e = Some (At s')) ->
  bseg B' s' l.
Proof.
  revert s s'. induction l as [|a l IH]; intros s s' H Hl Hs; cbn in *; [done|].
  destruct H as [H1 H2]. split; [by apply Hs|]. apply (IH (Next a)); [done| |].
  - intros e He. apply Hl. destruct l; [done|by right].
  - intros e He. destruct l as [|b l]; [done|]. cbn in He. injection He as ->.
    rewrite Hl by left. cbn in H2. tauto.
Qed.

(** Linking an element in, out, and in the place of another: what the pointers
    have to become, and that nothing else matters. *)
Lemma chain_insert P P' s l1 e l2 :
  chain P s (l1 ++ l2) -> off s (l1 ++ l2) -> s <> Next e -> e ∉ l1 ++ l2 ->
  P' !! tail_slot s l1 = Some (At e) -> P' !! Next e = P !! tail_slot s l1 ->
  (forall y, y <> tail_slot s l1 -> y <> Next e -> P' !! y = P !! y) ->
  chain P' s (l1 ++ e :: l2).
Proof.
  intros H. pose proof (chain_NoDup _ _ _ H) as Hnd. revert s H Hnd.
  induction l1 as [|a l1 IH]; intros s H Hnd Hoff Hse He H1 H2 Hf; cbn in *.
  - split; [done|]. eapply chain_move; [done|done|]. intros b Hb. apply Hf.
    + intros E. by apply (Hoff b).
    + intros [= ->]. by apply He.
  - apply NoDup_cons in Hnd as [Ha Hnd]. apply not_elem_of_cons in He as [Hea He].
    assert (off s (a :: l1)) as Hoff1.
    { intros b Hb. apply Hoff. rewrite elem_of_cons, elem_of_app. apply elem_of_cons in Hb. tauto. }
    destruct H as [H0 H]. split.
    + rewrite Hf; [done|by apply tail_slot_off|done].
    + apply IH; auto. congruence.
Qed.

Lemma chain_remove P P' s l1 e l2 :
  chain P s (l1 ++ e :: l2) -> off s (l1 ++ e :: l2) ->
  P' !! tail_slot s l1 = P !! Next e ->
  (forall y, y <> tail_slot s l1 -> y <> Next e -> P' !! y = P !! y) ->
  chain P' s (l1 ++ l2).
Proof.
  intros H. pose proof (chain_NoDup _ _ _ H) as Hnd. revert s H Hnd.
  induction l1 as [|a l1 IH]; intros s H Hnd Hoff H1 Hf; cbn in *.
  - destruct H as [H0 H]. apply NoDup_cons in Hnd as [He _].
    eapply chain_move; [done|done|]. intros b Hb. apply Hf.
    + intros E. apply (Hoff b); [by right|done].
    + intros [= ->]. by apply He.
  - apply NoDup_cons in Hnd as [Ha Hnd].
    assert (off s (a :: l1)) as Hoff1.
    { intros b Hb. apply Hoff. rewrite elem_of_cons, elem_of_app. apply elem_of_cons in Hb. tauto. }
    destruct H as [H0 H]. split.
    + rewrite Hf; [done|by apply tail_slot_off|]. apply Hoff. rewrite elem_of_cons, elem_of_app. right; right; left.
    + apply IH; auto.
Qed.

Lemma chain_replace P P' s l1 e e2 l2 :
  chain P s (l1 ++ e :: l2) -> off s (l1 ++ e :: l2) -> s <> Next e2 -> e2 ∉ l1 ++ e :: l2 ->
  P' !! tail_slot s l1 = Some (At e2) -> P' !! Next e2 = P !! Next e ->
  (forall y, y <> tail_slot s l1 -> y <> Next e -> y <> Next e2 -> P' !! y = P !! y) ->
  chain P' s (l1 ++ e2 :: l2).
Proof.
  intros H. pose proof (chain_NoDup _ _ _ H) as Hnd. revert s H Hnd.
  induction l1 as [|a l1 IH]; intros s H Hnd Hoff Hse He2 H1 H2 Hf; cbn in *.
  - destruct H as [H0 H]. apply NoDup_cons in Hnd as [He _]. split; [done|].
    eapply chain_move; [done|done|]. intros b Hb. apply Hf.
    + intros E. apply (Hoff b); [by right|done].
    + intros [= ->]. by apply He.
    + intros [= ->]. apply He2. by right.
  - apply NoDup_cons in Hnd as [Ha Hnd]. apply not_elem_of_cons in He2 as [Ha2 He2].
    assert (off s (a :: l1)) as Hoff1.
    { intros b Hb. apply Hoff. rewrite elem_of_cons, elem_of_app. apply elem_of_cons in Hb. tauto. }
    destruct H as [H0 H]. split.
    + rewrite Hf; [done|by apply tail_slot_off| |done].
      apply Hoff. rewrite elem_of_cons, elem_of_app. right; right; left.
    + apply IH; auto. congruence.
Qed.

Lemma bseg_insert B B' s l1 e l2 :
  bseg B s (l1 ++ l2) -> NoDup (l1 ++ l2) -> e ∉ l1 ++ l2 ->
  B' !! Prev e = Some (At (tail_slot s l1)) ->
  (forall n, hd_error l2 = Some n -> B' !! Prev n = Some (At (Next e))) ->
  (forall a, a <> e -> hd_error l2 <> Some a -> B' !! Prev a = B !! Prev a) ->
  bseg B' s (l1 ++ e :: l2).
Proof.
  revert s. induction l1 as [|a l1 IH]; intros s H Hnd He H1 H2 Hf; cbn in *.
  - split; [done|]. eapply bseg_move; [done| |done]. intros b Hb. apply Hf.
    + intros ->. apply He. destruct l2; [done|by right].
    + intros Hn. destruct l2; [done|]. cbn in *. injection Hn as ->.
      apply NoDup_cons in Hnd. tauto.
  - apply NoDup_cons in Hnd as [Ha Hnd]. apply not_elem_of_cons in He as [Hea He].
    destruct H as [H0 H]. split; [|by apply IH].
    rewrite Hf; [done|congruence|]. intros Hn. apply Ha, elem_of_app. right.
    destruct l2; [done|]. cbn in Hn. injection Hn as ->. left.
Qed.

Lemma bseg_remove B B' s l1 e l2 :
  bseg B s (l1 ++ e :: l2) -> NoDup (l1 ++ e :: l2) ->
  (forall n, hd_error l2 = Some n -> B' !! Prev n = Some (At (tail_slot s l1))) ->
  (forall a, a <> e -> hd_error l2 <> Some a -> B' !! Prev a = B !! Prev a) ->
  bseg B' s (l1 ++ l2).
Proof.
  revert s. induction l1 as [|a l1 IH]; intros s H Hnd H2 Hf; cbn in *.
  - destruct H as [_ H]. apply NoDup_cons in Hnd as [He Hnd].
    eapply bseg_move; [done| |done]. intros b Hb. apply Hf.
    + intros ->. apply He. destruct l2; [done|by right].
    + intros Hn. destruct l2; [done|]. cbn in *. injection Hn as ->.
      apply NoDup_cons in Hnd. tauto.
  - apply NoDup_cons in Hnd as [Ha Hnd].
    destruct H as [H0 H]. split; [|by apply IH].
    rewrite Hf; [done| |].
    + intros ->. apply Ha. rewrite elem_of_app. right; left.
    + intros Hn. apply Ha. rewrite elem_of_app, elem_of_cons. do 2 right.
      destruct l2; [done|]. cbn in Hn. injection Hn as ->. left.
Qed.

Lemma bseg_replace B B' s l1 e e2 l2 :
  bseg B s (l1 ++ e :: l2) -> NoDup (l1 ++ e :: l2) -> e2 ∉ l1 ++ e :: l2 ->
  B' !! Prev e2 = Some (At (tail_slot s l1)) ->
  (forall n, hd_error l2 = Some n -> B' !! Prev n = Some (At (Next e2))) ->
  (forall a, a <> e -> a <> e2 -> hd_error l2 <> Some a -> B' !! Prev a = B !! Prev a) ->
  bseg B' s (l1 ++ e2 :: l2).
Proof.
  revert s. induction l1 as [|a l1 IH]; intros s H Hnd He2 H1 H2 Hf; cbn in *.
  - destruct H as [_ H]. apply NoDup_cons in Hnd as [He Hnd]. split; [done|].
    eapply bseg_move; [done| |done]. intros b Hb.
    assert (b ∈ l2) as Hb2 by (destruct l2; [done|by right]). apply Hf.
    + by intros ->.
    + intros ->. apply He2. by right.
    + intros Hn. destruct l2; [done|]. cbn in *. injection Hn as ->.
      apply NoDup_cons in Hnd. tauto.
  - apply NoDup_cons in Hnd as [Ha Hnd]. apply not_elem_of_cons in He2 as [Ha2 He2].
    destruct H as [H0 H]. split; [|by apply IH].
    rewrite Hf; [done| | |].
    + intros ->. apply Ha. rewrite elem_of_app. right; left.
    + congruence.
    + intros Hn. apply Ha. rewrite elem_of_app, elem_of_cons. do 2 right.
      destruct l2; [done|]. cbn in Hn. injection Hn as ->. left.
Qed.

(** ** The representation of each family *)

Inductive kind := SLIST | LIST | SIMPLEQ | TAILQ | STAILQ.

(** Which families keep back pointers, and which a pointer to the end. *)
Definition doubly (k : kind) : bool := match k with LIST | TAILQ => true | _ => false end.
Definition ended (k : kind) : bool := match k with SIMPLEQ | TAILQ | STAILQ => true | _ => false end.

(** The head [h] is that of a list of family [k] with the elements [l]. *)
Definition rep (k : kind) (m : mem) (h : head) (l : list elm) : Prop :=
  chain (firsts m) (First h) l /\
  (if doubly k then bseg (backs m) (First h) l else True) /\
  (if ended k then backs m !! Last h = Some (At (tail_slot (First h) l)) else True).

(** [malloc] has returned the entry, with any contents. *)
Definition allocated (k : kind) (m : mem) (e : elm) : Prop :=
  is_Some (firsts m !! Next e) /\ (if doubly k then is_Some (backs m !! Prev e) else True).

(** ** The operations on plain lists *)

Inductive cmd :=
| InsertHead (e : elm) | InsertTail (e : elm)
| InsertAfter (a e : elm) | InsertBefore (a e : elm)
| RemoveHead | RemoveAfter (a : elm) | Remove (e : elm) | Replace (e e2 : elm).

(** Rewriting the list at an element: [f] is given what follows it. *)
Fixpoint at_elm (a : elm) (f : list elm -> option (list elm)) (l : list elm)
  : option (list elm) :=
  match l with
  | [] => None
  | b :: l => if decide (a = b) then f l else l ← at_elm a f l; Some (b :: l)
  end.

(** The element an insertion adds. *)
Definition inserted (c : cmd) : option elm :=
  match c with
  | InsertHead e | InsertTail e | InsertAfter _ e | InsertBefore _ e | Replace _ e => Some e
  | _ => None
  end.

(** What the header offers for each family. *)
Definition supported (k : kind) (c : cmd) : bool :=
  match c, k with
  | InsertHead _, _ => true
  | InsertTail _, (SIMPLEQ | TAILQ | STAILQ) => true
  | InsertAfter _ _, _ => true
  | InsertBefore _ _, (LIST | TAILQ) => true
  | RemoveHead, (SLIST | SIMPLEQ | STAILQ) => true
  | RemoveAfter _, (SLIST | SIMPLEQ) => true
  | Remove _, _ => true
  | Replace _ _, (LIST | TAILQ) => true
  | _, _ => false
  end.

Definition edit (c : cmd) (l : list elm) : option (list elm) :=
  match c with
  | InsertHead e => Some (e :: l)
  | InsertTail e => Some (l ++ [e])
  | InsertAfter a e => at_elm a (fun l => Some (a :: e :: l)) l
  | InsertBefore a e => at_elm a (fun l => Some (e :: a :: l)) l
  | RemoveHead => match l with [] => None | _ :: l => Some l end
  | RemoveAfter a =>
      at_elm a (fun l => match l with [] => None | _ :: l => Some (a :: l) end) l
  | Remove e => at_elm e Some l
  | Replace e e2 => at_elm e (fun l => Some (e2 :: l)) l
  end.

(** [None]: the family has no such macro, the element named is not in the
    list, or the one to insert already is. *)
Definition spec (k : kind) (c : cmd) (l : list elm) : option (list elm) :=
  if negb (supported k c) then None
  else if bool_decide (Exists (fun e => inserted c = Some e) l) then None
  else edit c l.

Fixpoint spec_all (k : kind) (cs : list cmd) (l : list elm) : option (list elm) :=
  match cs with [] => Some l | c :: cs => l ← spec k c l; spec_all k cs l end.

Lemma at_elm_spec a f l l' :
  at_elm a f l = Some l' -> exists l1 l2 l3, l = l1 ++ a :: l2 /\ f l2 = Some l3 /\ l' = l1 ++ l3.
Proof.
  revert l'. induction l as [|b l IH]; intros l' H; cbn in H; [done|].
  case_decide as E; [subst; by exists [], l, l'|].
  destruct (at_elm a f l) as [l0|]; [|done]. cbn in H. injection H as <-.
  destruct (IH l0 eq_refl) as (l1 & l2 & l3 & -> & Hf & ->). by exists (b :: l1), l2, l3.
Qed.

Section Exec.
Context (QUEUEDEBUG : bool) (QUEUEDEBUG_ABORT : outcome unit) (fuel : nat) (h : head).

(** The macro call behind a command; a call the header does not offer does not
    compile, [spec] excludes it. *)
Definition exec (k : kind) (c : cmd) (m : mem) : outcome mem :=
  match c, k with
  | InsertHead e, SLIST => SLIST_INSERT_HEAD m h e
  | InsertHead e, LIST => LIST_INSERT_HEAD QUEUEDEBUG QUEUEDEBUG_ABORT m h e
  | InsertHead e, SIMPLEQ => SIMPLEQ_INSERT_HEAD m h e
  | InsertHead e, TAILQ => TAILQ_INSERT_HEAD QUEUEDEBUG QUEUEDEBUG_ABORT m h e
  | InsertHead e, STAILQ => STAILQ_INSERT_HEAD m h e
  | InsertTail e, SIMPLEQ => SIMPLEQ_INSERT_TAIL m h e
  | InsertTail e, TAILQ => TAILQ_INSERT_TAIL QUEUEDEBUG QUEUEDEBUG_ABORT m h e
  | InsertTail e, STAILQ => STAILQ_INSERT_TAIL m h e
  | InsertAfter a e, SLIST => SLIST_INSERT_AFTER m a e
  | InsertAfter a e, LIST => LIST_INSERT_AFTER QUEUEDEBUG QUEUEDEBUG_ABORT m a e
  | InsertAfter a e, SIMPLEQ => SIMPLEQ_INSERT_AFTER m h a e
  | InsertAfter a e, TAILQ => TAILQ_INSERT_AFTER QUEUEDEBUG QUEUEDEBUG_ABORT m h a e
  | InsertAfter a e, STAILQ => STAILQ_INSERT_AFTER m h a e
  | InsertBefore a e, LIST => LIST_INSERT_BEFORE QUEUEDEBUG QUEUEDEBUG_ABORT m a e
  | InsertBefore a e, TAILQ => TAILQ_INSERT_BEFORE QUEUEDEBUG QUEUEDEBUG_ABORT m a e
  | RemoveHead, SLIST => SLIST_REMOVE_HEAD m h
  | RemoveHead, SIMPLEQ => SIMPLEQ_REMOVE_HEAD m h
  | RemoveHead, STAILQ => STAILQ_REMOVE_HEAD m h
  | RemoveAfter a, SLIST => SLIST_REMOVE_AFTER m a
  | RemoveAfter a, SIMPLEQ => SIMPLEQ_REMOVE_AFTER m h a
  | Remove e, SLIST => SLIST_REMOVE fuel m h e
  | Remove e, LIST => LIST_REMOVE QUEUEDEBUG QUEUEDEBUG_ABORT m e
  | Remove e, SIMPLEQ => SIMPLEQ_REMOVE fuel m h e
  | Remove e, TAILQ => TAILQ_REMOVE QUEUEDEBUG QUEUEDEBUG_ABORT m h e
  | Remove e, STAILQ => STAILQ_REMOVE fuel m h e
  | Replace e e2, LIST => LIST_REPLACE QUEUEDEBUG m e e2
  | Replace e e2, TAILQ => TAILQ_REPLACE QUEUEDEBUG m h e e2
  | _, _ => Undefined
  end.

Fixpoint exec_all (k : kind) (cs : list cmd) (m : mem) : outcome mem :=
  match cs with [] => OK m | c :: cs => m ← exec k c m; exec_all k cs m end.
End Exec.

(** ** One edit of a represented list *)

Section Edits.
Context (k : kind) (m m' : mem) (h : head) (l1 l2 : list elm) (e : elm).
Let x := tail_slot (First h) l1.

(** What the back pointer of [l2]'s first element and the tail pointer must
    become when the pointer in front of [l2] is now [s]. *)
Definition backs_linked (s : slot) : Prop :=
  (if doubly k then forall n, hd_error l2 = Some n -> backs m' !! Prev n = Some (At s) else True) /\
  (if ended k then
     match l2 with
     | [] => backs m' !! Last h = Some (At s)
     | _ => backs m' !! Last h = backs m !! Last h
     end
   else True).

Lemma rep_insert :
  rep k m h (l1 ++ l2) -> e ∉ l1 ++ l2 ->
  firsts m' !! x = Some (At e) -> firsts m' !! Next e = firsts m !! x ->
  (forall y, y <> x -> y <> Next e -> firsts m' !! y = firsts m !! y) ->
  (if doubly k then backs m' !! Prev e = Some (At x) else True) ->
  backs_linked (Next e) ->
  (forall a, a <> e -> hd_error l2 <> Some a -> backs m' !! Prev a = backs m !! Prev a) ->
  rep k m' h (l1 ++ e :: l2).
Proof.
  intros (Hc & Hb & Hl) He H1 H2 Hf H3 [H4 H5] Hfb. split; [|split].
  - by eapply chain_insert.
  - apply chain_NoDup in Hc. destruct (doubly k); [|done]. by eapply bseg_insert.
  - destruct (ended k); [|done]. rewrite tail_slot_app in *. cbn. by destruct l2; rewrite H5.
Qed.

Lemma rep_remove :
  rep k m h (l1 ++ e :: l2) ->
  firsts m' !! x = firsts m !! Next e ->
  (forall y, y <> x -> y <> Next e -> firsts m' !! y = firsts m !! y) ->
  backs_linked x ->
  (forall a, a <> e -> hd_error l2 <> Some a -> backs m' !! Prev a = backs m !! Prev a) ->
  rep k m' h (l1 ++ l2).
Proof.
  intros (Hc & Hb & Hl) H1 Hf [H4 H5] Hfb. split; [|split].
  - by eapply chain_remove.
  - apply chain_NoDup in Hc. destruct (doubly k); [|done]. by eapply bseg_remove.
  - destruct (ended k); [|done]. rewrite tail_slot_app in *. cbn in Hl. by destruct l2; rewrite H5.
Qed.

Lemma rep_replace e2 :
  rep k m h (l1 ++ e :: l2) -> e2 ∉ l1 ++ e :: l2 ->
  firsts m' !! x = Some (At e2) -> firsts m' !! Next e2 = firsts m !! Next e ->
  (forall y, y <> x -> y <> Next e -> y <> Next e2 -> firsts m' !! y = firsts m !! y) ->
  (if doubly k then backs m' !! Prev e2 = Some (At x) else True) ->
  backs_linked (Next e2) ->
  (forall a, a <> e -> a <> e2 -> hd_error l2 <> Some a -> backs m' !! Prev a = backs m !! Prev a) ->
  rep k m' h (l1 ++ e2 :: l2).
Proof.
  intros (Hc & Hb & Hl) He H1 H2 Hf H3 [H4 H5] Hfb. split; [|split].
  - by eapply chain_replace.
  - apply chain_NoDup in Hc. destruct (doubly k); [|done]. by eapply bseg_replace.
  - destruct (ended k); [|done]. rewrite tail_slot_app in *. cbn in *. by destruct l2; rewrite H5.
Qed.
End Edits.

(** ** Running the macros *)

Lemma rd_at m s p : firsts m !! s = Some p -> rd m s = OK p.
Proof. unfold rd. by intros ->. Qed.
Lemma wr_at m s p : is_Some (firsts m !! s) -> wr m s p = OK (mkmem (<[s := p]> (firsts m)) (backs m)).
Proof. unfold wr. by intros [? ->]. Qed.
Lemma rdb_at m b p : backs m !! b = Some p -> rdb m b = OK p.
Proof. unfold rdb. by intros ->. Qed.
Lemma wrb_at m b p : is_Some (backs m !! b) -> wrb m b p = OK (mkmem (firsts m) (<[b := p]> (backs m))).
Proof. unfold wrb. by intros [? ->]. Qed.

Lemma deref_At {A} (a : A) : deref (At a) = OK a.
Proof. done. Qed.

(** A lookup behind the writes of a run. *)
Ltac look :=
  cbn [firsts backs hdp];
  repeat first [rewrite lookup_insert_eq | rewrite lookup_insert_ne by (done || congruence)];
  first [eassumption | reflexivity | symmetry; eassumption].
Ltac run_step :=
  first
    [ rewrite bind_OK
    | rewrite deref_At
    | erewrite rd_at by look
    | erewrite wr_at by (eexists; look)
    | erewrite rdb_at by look
    | erewrite wrb_at by (eexists; look)
    | rewrite decide_True by (done || congruence)
    | rewrite decide_False by (done || congruence) ].
Ltac run := repeat (cbn [hdp firsts backs]; run_step).

(** The facts about memory that a rewrite needs. *)
Definition same_alloc (k : kind) (m m' : mem) : Prop := forall e, allocated k m e -> allocated k m' e.

Ltac alloc :=
  intros ? []; split; cbn [firsts backs doubly] in *;
  rewrite ?lookup_insert_is_Some'; tauto.

(** What the edit lemmas ask of the memory a run ends in. *)
Ltac edit :=
  unfold backs_linked; cbn [firsts backs doubly ended tail_slot hd_error];
  repeat match goal with
  | |- _ /\ _ => split
  | |- forall _, _ => intro
  | H : Some _ = Some _ |- _ => injection H as H; subst
  end;
  first [done | look | congruence].

(** A run that ends in the edit [L]. *)
Ltac run_edit L :=
  run; eexists; split; [reflexivity|]; split; [apply L; edit | alloc].

(** The debugging checks pass on a well-formed list, whatever a failed one
    would do. *)
Section Checks.
Context (q : bool) (ab : outcome unit) (m : mem) (h : head).

Lemma check_back_ok e s : backs m !! Prev e = Some (At s) -> check_back ab m e s = OK tt.
Proof. intros H. unfold check_back. by run. Qed.

Lemma list_insert_head_check l :
  chain (firsts m) (First h) l -> bseg (backs m) (First h) l ->
  QUEUEDEBUG_LIST_INSERT_HEAD q ab m h = OK tt /\ QUEUEDEBUG_TAILQ_INSERT_HEAD q ab m h = OK tt.
Proof.
  intros Hc Hb. pose proof (chain_lookup _ _ [] l Hc) as Hf. cbn in Hf.
  unfold QUEUEDEBUG_LIST_INSERT_HEAD, QUEUEDEBUG_TAILQ_INSERT_HEAD. destruct q; [|done].
  destruct l as [|n l]; cbn [negb hdp] in *; [split; by run|].
  destruct Hb as [Hn _]. split; run; by apply check_back_ok.
Qed.

Lemma list_op_check l1 e l2 :
  chain (firsts m) (First h) (l1 ++ e :: l2) -> bseg (backs m) (First h) (l1 ++ e :: l2) ->
  QUEUEDEBUG_LIST_OP q ab m e = OK tt /\ QUEUEDEBUG_TAILQ_OP q ab m e = OK tt.
Proof.
  intros Hc Hb. pose proof (chain_lookup _ _ _ _ Hc) as Hx. pose proof (chain_lookup_next _ _ _ _ _ Hc) as Hn.
  pose proof (bseg_lookup _ _ _ _ _ Hb) as He. cbn in Hx.
  unfold QUEUEDEBUG_LIST_OP, QUEUEDEBUG_TAILQ_OP. destruct q; [|done]. cbn [negb].
  destruct l2 as [|n l2]; cbn [hdp] in *; [split; by run|].
  apply bseg_app in Hb as [_ Hb]. cbn in Hb. destruct Hb as (_ & Hn' & _).
  split; run; rewrite check_back_ok by done; by run.
Qed.
End Checks.

(** A new element in front of the list. *)
Lemma exec_InsertHead q ab fuel k m h e l :
  rep k m h l -> e ∉ l -> allocated k m e ->
  exists m', exec q ab fuel h k (InsertHead e) m = OK m' /\ rep k m' h (e :: l) /\ same_alloc k m m'.
Proof.
  intros Hrep He Ha. pose proof Hrep as (Hc & Hb & Hl). destruct Ha as [[p Hp] Hb'].
  pose proof (chain_lookup _ _ [] l Hc) as Hf. cbn in Hf.
  pose proof (rep_insert k m) as E. specialize (fun m' => E m' h [] l e Hrep He).
  destruct k; cbn [doubly ended exec] in *.
  - unfold SLIST_INSERT_HEAD. run_edit E.
  - destruct Hb' as [p' Hp']. destruct (list_insert_head_check q ab m h l Hc Hb) as [Hq _].
    unfold LIST_INSERT_HEAD. rewrite Hq.
    destruct l as [|n l]; [run_edit E|]. apply not_elem_of_cons in He as He'. destruct He', Hb. run_edit E.
  - unfold SIMPLEQ_INSERT_HEAD. destruct l; run_edit E.
  - destruct Hb' as [p' Hp']. destruct (list_insert_head_check q ab m h l Hc Hb) as [_ Hq].
    unfold TAILQ_INSERT_HEAD. rewrite Hq.
    destruct l as [|n l]; [run_edit E|]. apply not_elem_of_cons in He as He'. destruct He', Hb. run_edit E.
  - unfold STAILQ_INSERT_HEAD. destruct l; run_edit E.
Qed.

Lemma tail_slot_ne s l e : e ∉ l -> s <> Next e -> tail_slot s l <> Next e.
Proof. intros He Hs [H|H]%tail_slot_elem; done. Qed.

(** A new element behind the last. *)
Lemma exec_InsertTail q ab fuel k m h e l :
  supported k (InsertTail e) = true ->
  rep k m h l -> e ∉ l -> allocated k m e ->
  exists m', exec q ab fuel h k (InsertTail e) m = OK m' /\ rep k m' h (l ++ [e]) /\ same_alloc k m m'.
Proof.
  intros Hk Hrep He Ha. pose proof Hrep as (Hc & Hb & Hl). destruct Ha as [[p Hp] Hb'].
  rewrite <- (app_nil_r l) in Hrep, Hc, He.
  pose proof (chain_lookup _ _ l [] Hc) as Hf. cbn in Hf.
  pose proof (rep_insert k m) as E. specialize (fun m' => E m' h l [] e Hrep He).
  rewrite app_nil_r in He. pose proof (tail_slot_ne (First h) l e He ltac:(done)) as Hx.
  revert Hf Hx Hl E. generalize (tail_slot (First h) l). intros x Hf Hx Hl E.
  destruct k; try done; cbn [doubly ended exec] in *.
  - unfold SIMPLEQ_INSERT_TAIL. run_edit E.
  - destruct Hb' as [p' Hp'].
    assert (QUEUEDEBUG_TAILQ_INSERT_TAIL q ab m h = OK tt) as Hq.
    { unfold QUEUEDEBUG_TAILQ_INSERT_TAIL. destruct q; [|done]. cbn [negb]. by run. }
    unfold TAILQ_INSERT_TAIL. rewrite Hq. run_edit E.
  - unfold STAILQ_INSERT_TAIL. run_edit E.
Qed.

Lemma snoc_split {A} (l1 l2 : list A) (a : A) : l1 ++ a :: l2 = (l1 ++ [a]) ++ l2.
Proof. by rewrite <- app_assoc. Qed.
Lemma tail_slot_snoc s l a : tail_slot s (l ++ [a]) = Next a.
Proof. by rewrite tail_slot_app. Qed.

(** A new element behind a given one. *)
Lemma exec_InsertAfter q ab fuel k m h a e l1 l2 :
  rep k m h (l1 ++ a :: l2) -> e ∉ l1 ++ a :: l2 -> allocated k m e ->
  exists m', exec q ab fuel h k (InsertAfter a e) m = OK m' /\
    rep k m' h (l1 ++ a :: e :: l2) /\ same_alloc k m m'.
Proof.
  intros Hrep He Ha. pose proof Hrep as (Hc & Hb & Hl). destruct Ha as [[p Hp] Hb'].
  pose proof (chain_lookup_next _ _ _ _ _ Hc) as Hf.
  rewrite (snoc_split l1 (e :: l2)).
  pose proof (rep_insert k m) as E. specialize (fun m' => E m' h (l1 ++ [a]) l2 e).
  rewrite snoc_split in Hrep. specialize (fun m' => E m' Hrep). rewrite snoc_split in He.
  specialize (fun m' => E m' He). rewrite tail_slot_snoc in E.
  assert (e <> a /\ e ∉ l2) as [Hea He2].
  { rewrite <- snoc_split, elem_of_app, elem_of_cons in He. tauto. }
  pose proof (fun D => list_op_check q ab m h l1 a l2 Hc D) as Hq.
  destruct k; cbn [doubly ended exec] in *.
  - unfold SLIST_INSERT_AFTER. run_edit E.
  - destruct Hb' as [p' Hp']. destruct (Hq Hb) as [Hq' _].
    unfold LIST_INSERT_AFTER. rewrite Hq'. clear Hq Hq'.
    apply bseg_app in Hb as [_ [_ Hb]].
    destruct l2 as [|n l2]; [run_edit E|]. apply not_elem_of_cons in He2. destruct He2, Hb. run_edit E.
  - unfold SIMPLEQ_INSERT_AFTER. destruct l2; run_edit E.
  - destruct Hb' as [p' Hp']. destruct (Hq Hb) as [_ Hq'].
    unfold TAILQ_INSERT_AFTER. rewrite Hq'. clear Hq Hq'.
    apply bseg_app in Hb as [_ [_ Hb]].
    destruct l2 as [|n l2]; [run_edit E|]. apply not_elem_of_cons in He2. destruct He2, Hb. run_edit E.
  - unfold STAILQ_INSERT_AFTER. destruct l2; run_edit E.
Qed.

(** A new element in front of a given one. *)
Lemma exec_InsertBefore q ab fuel k m h a e l1 l2 :
  supported k (InsertBefore a e) = true ->
  rep k m h (l1 ++ a :: l2) -> e ∉ l1 ++ a :: l2 -> allocated k m e ->
  exists m', exec q ab fuel h k (InsertBefore a e) m = OK m' /\
    rep k m' h (l1 ++ e :: a :: l2) /\ same_alloc k m m'.
Proof.
  intros Hk Hrep He Ha. pose proof Hrep as (Hc & Hb & Hl). destruct Ha as [[p Hp] Hb'].
  pose proof (chain_lookup _ _ _ _ Hc) as Hf.
  pose proof (rep_insert k m) as E. specialize (fun m' => E m' h l1 (a :: l2) e Hrep He).
  assert (e <> a /\ e ∉ l1) as [Hea He1].
  { rewrite elem_of_app, elem_of_cons in He. tauto. }
  pose proof (tail_slot_ne (First h) l1 e He1 ltac:(done)) as Hx.
  pose proof (fun D => list_op_check q ab m h l1 a l2 Hc D) as Hq.
  destruct k; try done; cbn [doubly ended exec hdp] in *.
  all: destruct Hb' as [p' Hp']; destruct (Hq Hb) as [Hq1 Hq2]; clear Hq.
  all: pose proof (bseg_lookup _ _ _ _ _ Hb) as Hpa.
  all: clear Hc Hb Hrep Hl; revert Hf Hx Hpa E.
  all: generalize (tail_slot (First h) l1); intros x Hf Hx Hpa E.
  - unfold LIST_INSERT_BEFORE. rewrite Hq1. run_edit E.
  - unfold TAILQ_INSERT_BEFORE. rewrite Hq2. run_edit E.
Qed.

(** The search of the singly-linked removals ends at the predecessor. *)
Lemma find_prev_loop fuel m s l1 a e l2 :
  chain (firsts m) s (l1 ++ a :: e :: l2) -> (length l1 < fuel)%nat ->
  while fuel (find_prev m e) (hdp (l1 ++ a :: e :: l2)) = OK a.
Proof.
  intros Hc. pose proof (chain_NoDup _ _ _ Hc) as Hnd. revert s l1 Hc Hnd.
  induction fuel as [|fuel IH]; intros s l1 Hc Hnd Hf; [lia|].
  rewrite while_S. destruct l1 as [|b l1]; cbn in Hc, Hnd, Hf; cbn [hdp app].
  - destruct Hc as (_ & Hn & _).
    assert (find_prev m e (At a) = OK (inr a)) as -> by (unfold find_prev; by run). done.
  - destruct Hc as [_ Hc]. pose proof (chain_lookup _ _ [] _ Hc) as Hb. cbn [tail_slot] in Hb.
    assert (hdp (l1 ++ a :: e :: l2) <> At e) as Hne.
    { apply NoDup_cons in Hnd as [_ Hnd]. destruct l1 as [|c l1]; cbn in *.
      - apply NoDup_cons in Hnd as [Ha _]. intros [= ->]. apply Ha. left.
      - apply NoDup_cons in Hnd as [Ha _]. intros [= ->]. apply Ha.
        rewrite elem_of_app. right; right; left. }
    assert (find_prev m e (At b) = OK (inl (hdp (l1 ++ a :: e :: l2)))) as ->.
    { unfold find_prev. rewrite deref_At, bind_OK, (rd_at _ _ _ Hb), bind_OK. by rewrite decide_False. }
    rewrite bind_OK. apply (IH (Next b)); [done| |lia]. by apply NoDup_cons in Hnd as [_ Hnd].
Qed.

Lemma exec_RemoveHead q ab fuel k m h e l :
  supported k RemoveHead = true -> rep k m h (e :: l) ->
  exists m', exec q ab fuel h k RemoveHead m = OK m' /\ rep k m' h l /\ same_alloc k m m'.
Proof.
  intros Hk Hrep. pose proof Hrep as (Hc & Hb & Hl).
  pose proof (chain_lookup_next _ _ [] _ _ Hc) as Hn. cbn in Hc. destruct Hc as [Hf _].
  pose proof (rep_remove k m) as E. specialize (fun m' => E m' h [] l e Hrep).
  destruct k; try done; cbn [doubly ended exec] in *.
  - unfold SLIST_REMOVE_HEAD. run_edit E.
  - unfold SIMPLEQ_REMOVE_HEAD. destruct l; run_edit E.
  - unfold STAILQ_REMOVE_HEAD. destruct l; run_edit E.
Qed.

Lemma exec_RemoveAfter q ab fuel k m h a e l1 l2 :
  supported k (RemoveAfter a) = true -> rep k m h (l1 ++ a :: e :: l2) ->
  exists m', exec q ab fuel h k (RemoveAfter a) m = OK m' /\ rep k m' h (l1 ++ a :: l2) /\
    same_alloc k m m'.
Proof.
  intros Hk Hrep. pose proof Hrep as (Hc & Hb & Hl).
  pose proof (chain_lookup_next _ _ _ _ _ Hc) as Ha. cbn in Ha.
  assert (e <> a) as Hea.
  { apply chain_NoDup, NoDup_app in Hc as (_ & _ & Hc). apply NoDup_cons in Hc as [Hc _].
    intros ->. apply Hc. left. }
  rewrite (snoc_split l1 l2). rewrite snoc_split in Hrep, Hc.
  pose proof (chain_lookup_next _ _ _ _ _ Hc) as Hn.
  pose proof (rep_remove k m) as E. specialize (fun m' => E m' h (l1 ++ [a]) l2 e Hrep).
  rewrite tail_slot_snoc in E.
  destruct k; try done; cbn [doubly ended exec] in *.
  - unfold SLIST_REMOVE_AFTER, SLIST_NEXT. run_edit E.
  - unfold SIMPLEQ_REMOVE_AFTER. destruct l2; run_edit E.
Qed.

Lemma exec_Remove_single q ab fuel k m h e l1 l2 :
  doubly k = false -> rep k m h (l1 ++ e :: l2) -> (length l1 <= fuel)%nat ->
  exists m', exec q ab fuel h k (Remove e) m = OK m' /\ rep k m' h (l1 ++ l2) /\ same_alloc k m m'.
Proof.
  intros Hk Hrep Hfuel. pose proof Hrep as (Hc & Hb & Hl).
  destruct l1 as [|a l1 _] using rev_ind.
  - pose proof (chain_lookup _ _ [] _ Hc) as Hf. cbn in Hf.
    assert (supported k RemoveHead = true) as Hs by by destruct k.
    destruct (exec_RemoveHead q ab fuel k m h e l2 Hs Hrep) as (m' & E & H).
    exists m'. split; [|exact H].
    destruct k; try done; cbn [exec] in *; [unfold SLIST_REMOVE|unfold SIMPLEQ_REMOVE|unfold STAILQ_REMOVE];
      run; exact E.
  - rewrite length_app in Hfuel. cbn in Hfuel.
    pose proof (rep_remove k m) as E. specialize (fun m' => E m' h _ _ _ Hrep).
    rewrite tail_slot_snoc in E. rewrite <- snoc_split in Hc.
    pose proof (chain_lookup _ _ [] _ Hc) as Hf. cbn [tail_slot] in Hf.
    pose proof (chain_lookup_next _ _ _ _ _ Hc) as Ha. cbn in Ha.
    pose proof (find_prev_loop fuel m _ _ _ _ _ Hc ltac:(lia)) as Hloop.
    assert (hdp (l1 ++ a :: e :: l2) <> At e) as Hne.
    { apply chain_NoDup in Hc. destruct l1 as [|c l1]; cbn in *; apply NoDup_cons in Hc as [Hc _].
      - intros [= ->]. apply Hc. left.
      - intros [= ->]. apply Hc. rewrite elem_of_app. right; right; left. }
    rewrite snoc_split in Hc. pose proof (chain_lookup_next _ _ _ _ _ Hc) as Hn.
    assert (e <> a) as Hea.
    { apply chain_NoDup in Hc. rewrite <- snoc_split in Hc. apply NoDup_app in Hc as (_ & _ & Hc).
      apply NoDup_cons in Hc as [Hc _]. intros ->. apply Hc. left. }
    revert Hf Hloop Hne. generalize (hdp (l1 ++ a :: e :: l2)). intros f Hf Hloop Hne.
    destruct k; try done; cbn [doubly ended exec] in *.
    + unfold SLIST_REMOVE. run. rewrite Hloop. run_edit E.
    + unfold SIMPLEQ_REMOVE. run. rewrite Hloop. destruct l2; run_edit E.
    + unfold STAILQ_REMOVE. run. rewrite Hloop. destruct l2; run_edit E.
Qed.

(** An element of a doubly-linked list, with what surrounds it. *)
Lemma around k m h l1 e l2 :
  doubly k = true -> rep k m h (l1 ++ e :: l2) ->
  let x := tail_slot (First h) l1 in
  firsts m !! x = Some (At e) /\ firsts m !! Next e = Some (hdp l2) /\
  backs m !! Prev e = Some (At x) /\ x <> Next e /\
  (forall n, hd_error l2 = Some n -> backs m !! Prev n = Some (At (Next e)) /\ n <> e) /\
  (ended k = true -> exists p, backs m !! Last h = Some p /\ (l2 = [] -> p = At (Next e))).
Proof.
  intros Hk (Hc & Hb & Hl) x. rewrite Hk in Hb.
  pose proof (chain_lookup _ _ _ _ Hc). pose proof (chain_lookup_next _ _ _ _ _ Hc).
  pose proof (bseg_lookup _ _ _ _ _ Hb). apply chain_NoDup, NoDup_app in Hc as (_ & Hc1 & Hc2).
  split; [done|]. split; [done|]. split; [done|]. split; [|split].
  - apply tail_slot_ne; [|done]. intros H2. apply (Hc1 e H2). left.
  - intros n Hn. apply bseg_app in Hb as [_ Hb]. destruct l2 as [|n' l2]; [done|].
    cbn in Hn. injection Hn as ->. cbn in Hb. split; [tauto|]. intros ->.
    apply NoDup_cons in Hc2 as [Hc2 _]. apply Hc2. left.
  - intros He. rewrite He in Hl. eexists. split; [exact Hl|]. intros ->. by rewrite tail_slot_snoc.
Qed.

Lemma exec_Remove_double q ab fuel k m h e l1 l2 :
  doubly k = true -> rep k m h (l1 ++ e :: l2) ->
  exists m', exec q ab fuel h k (Remove e) m = OK m' /\ rep k m' h (l1 ++ l2) /\ same_alloc k m m'.
Proof.
  intros Hk Hrep. pose proof Hrep as (Hc & Hb & _). rewrite Hk in Hb.
  destruct (list_op_check q ab m h _ _ _ Hc Hb) as [Hq1 Hq2]. clear Hc Hb.
  destruct (around k m h l1 e l2 Hk Hrep) as (Hx & Hn & Hp & Hxe & Hl2 & Hl).
  pose proof (rep_remove k m) as E. specialize (fun m' => E m' h _ _ _ Hrep).
  revert Hx Hp Hxe E. generalize (tail_slot (First h) l1). intros x Hx Hp Hxe E.
  destruct k; try done; cbn [doubly ended exec] in *.
  - unfold LIST_REMOVE, QUEUEDEBUG_LIST_POSTREMOVE. rewrite Hq1.
    destruct l2 as [|n l2]; [|destruct (Hl2 n eq_refl) as [Hn' Hne]];
      destruct q; cbn [negb]; run_edit E.
  - destruct (Hl eq_refl) as (p & Hlast & Hend).
    assert (QUEUEDEBUG_TAILQ_PREREMOVE q ab m h e = OK tt) as Hpre.
    { unfold QUEUEDEBUG_TAILQ_PREREMOVE. destruct q; [|done]. cbn [negb].
      destruct l2; [rewrite (Hend eq_refl) in Hlast|]; by run. }
    unfold TAILQ_REMOVE, QUEUEDEBUG_TAILQ_POSTREMOVE. rewrite Hpre, bind_OK, Hq2.
    destruct l2 as [|n l2]; [|destruct (Hl2 n eq_refl) as [Hn' Hne]];
      destruct q; cbn [negb]; run_edit E.
Qed.

(** A new element in the place of an old one. *)
Lemma exec_Replace q ab fuel k m h e e2 l1 l2 :
  supported k (Replace e e2) = true ->
  rep k m h (l1 ++ e :: l2) -> e2 ∉ l1 ++ e :: l2 -> allocated k m e2 ->
  exists m', exec q ab fuel h k (Replace e e2) m = OK m' /\ rep k m' h (l1 ++ e2 :: l2) /\
    same_alloc k m m'.
Proof.
  intros Hs Hrep He2 Ha. assert (doubly k = true) as Hk by by destruct k.
  destruct (around k m h l1 e l2 Hk Hrep) as (Hx & Hn & Hp & Hxe & Hl2 & Hl).
  pose proof (rep_replace k m) as E. specialize (fun m' => E m' h _ _ _ e2 Hrep He2).
  rewrite elem_of_app, elem_of_cons in He2.
  assert (e2 <> e /\ e2 ∉ l2) as [Hee Hel] by tauto.
  pose proof (tail_slot_ne (First h) l1 e2 ltac:(tauto) ltac:(done)) as Hxe2.
  destruct Ha as [[p2 Hp2] Ha].
  revert Hx Hp Hxe Hxe2 E. generalize (tail_slot (First h) l1). intros x Hx Hp Hxe Hxe2 E.
  destruct k; try done; cbn [doubly ended exec] in *; destruct Ha as [b2 Hb2].
  - unfold LIST_REPLACE, QUEUEDEBUG_LIST_POSTREMOVE.
    destruct l2 as [|n l2]; [|destruct (Hl2 n eq_refl) as [Hn' Hne]; apply not_elem_of_cons in Hel as [Hel _]];
      destruct q; cbn [negb]; run_edit E.
  - destruct (Hl eq_refl) as (p & Hlast & Hend).
    unfold TAILQ_REPLACE, QUEUEDEBUG_TAILQ_POSTREMOVE.
    destruct l2 as [|n l2]; [|destruct (Hl2 n eq_refl) as [Hn' Hne]; apply not_elem_of_cons in Hel as [Hel _]];
      destruct q; cbn [negb]; run_edit E.
Qed.

(** Any command. *)
Lemma exec_refines q ab fuel k m h c l l' :
  rep k m h l -> (forall e, inserted c = Some e -> allocated k m e) ->
  spec k c l = Some l' -> (length l <= fuel)%nat ->
  exists m', exec q ab fuel h k c m = OK m' /\ rep k m' h l' /\ same_alloc k m m'.
Proof.
  intros Hrep Ha H Hf. unfold spec in H.
  destruct (supported k c) eqn:Hs; [|done]. cbn [negb] in H.
  case_bool_decide as Hins; [done|].
  assert (forall e, inserted c = Some e -> e ∉ l) as Hn.
  { intros e He Hel. apply Hins, Exists_exists. by exists e. }
  destruct c as [e|e|a e|a e| |a|e|e e2]; cbn [edit inserted] in *.
  - injection H as <-. apply exec_InsertHead; auto.
  - injection H as <-. apply exec_InsertTail; auto.
  - apply at_elm_spec in H as (l1 & l2 & l3 & -> & [= <-] & ->). apply exec_InsertAfter; auto.
  - apply at_elm_spec in H as (l1 & l2 & l3 & -> & [= <-] & ->). apply exec_InsertBefore; auto.
  - destruct l as [|e l]; [done|]. injection H as <-. by eapply exec_RemoveHead.
  - apply at_elm_spec in H as (l1 & l2 & l3 & -> & H & ->).
    destruct l2 as [|e l2]; [done|]. injection H as <-. by eapply exec_RemoveAfter.
  - apply at_elm_spec in H as (l1 & l2 & l3 & -> & [= <-] & ->).
    rewrite length_app in Hf. destruct (doubly k) eqn:Hk.
    + by apply exec_Remove_double.
    + apply exec_Remove_single; [done|done|lia].
  - apply at_elm_spec in H as (l1 & l2 & l3 & -> & [= <-] & ->). apply exec_Replace; auto.
Qed.

Lemma at_elm_length a f l l' :
  (forall l1 l2, f l1 = Some l2 -> (length l2 <= 2 + length l1)%nat) ->
  at_elm a f l = Some l' -> (length l' <= 1 + length l)%nat.
Proof.
  intros Hf H. apply at_elm_spec in H as (l1 & l2 & l3 & -> & H & ->). apply Hf in H.
  rewrite !length_app. cbn. lia.
Qed.

Lemma spec_length k c l l' : spec k c l = Some l' -> (length l' <= 1 + length l)%nat.
Proof.
  unfold spec. destruct (supported k c); [|done]. cbn [negb]. case_bool_decide; [done|].
  destruct c; cbn [edit]; try (apply at_elm_length; intros l1 l2; destruct l1; intros [= <-]; cbn; lia).
  - intros [= <-]. cbn. lia.
  - intros [= <-]. rewrite length_app. cbn. lia.
  - destruct l; intros [= <-]. cbn. lia.
Qed.

(** C39. Every list family of queue.h implements the operations on plain lists: any
    sequence of the macros that names elements of the list and inserts
    allocated ones runs without undefined behaviour, whatever the debugging
    checks do, and leaves a well-formed list of that family, back and tail
    pointers included, with exactly the elements the same edits of a plain
    list give. *)
Theorem linked_lists_refine q ab fuel k h cs m l l' :
  rep k m h l ->
  (forall c e, c ∈ cs -> inserted c = Some e -> allocated k m e) ->
  spec_all k cs l = Some l' ->
  (length l + length cs <= fuel)%nat ->
  exists m', exec_all q ab fuel h k cs m = OK m' /\ rep k m' h l'.
Proof.
  revert m l. induction cs as [|c cs IH]; intros m l Hrep Ha H Hf; cbn in H, Hf |- *.
  - injection H as <-. by exists m.
  - destruct (spec k c l) as [l1|] eqn:E; [|done]. cbn in H. pose proof (spec_length _ _ _ _ E).
    destruct (exec_refines q ab fuel k m h c l l1) as (m1 & -> & Hrep1 & Hal); [done| |done|lia|].
    { intros e He. apply (Ha c); [left|done]. }
    rewrite bind_OK. apply (IH m1 l1); [done| |done|lia].
    intros c' e Hc He. eapply Hal, Ha; [right|]; done.
Qed.

(** Four allocated entries with arbitrary contents, and an initialised head. *)
Definition witness_mem : mem :=
  (TAILQ_ENTRY 4 NULL NULL (TAILQ_ENTRY 3 One (At (First 1)) (TAILQ_ENTRY 2 (At 2) NULL
    (TAILQ_ENTRY 1 NULL One (TAILQ_HEAD_INITIALIZER 1 (mkmem ∅ ∅))))))%positive.
Definition witness_cmds : list cmd :=
  [InsertTail 1; InsertHead 2; InsertAfter 1 3; Remove 2; InsertBefore 1 4; Replace 3 2]%positive.

Lemma linked_lists_refine_witness :
  exists m', exec_all true Undefined 10 1%positive TAILQ witness_cmds witness_mem = OK m' /\
             rep TAILQ m' 1%positive [4; 1; 2]%positive.
Proof.
  apply (linked_lists_refine true Undefined 10 TAILQ 1%positive witness_cmds witness_mem []).
  - by vm_compute.
  - intros c e Hc He. unfold witness_cmds in Hc.
    repeat (apply elem_of_cons in Hc as [->|Hc]; [injection He as <- || discriminate He; split; eexists; reflexivity|]).
    by apply elem_of_nil in Hc.
  - vm_compute. reflexivity.
  - cbn. lia.
Defined.

(** ** Traversals *)

(** The body run on the elements of a list, in order. *)
Fixpoint visit {A} (body : elm -> mem * A -> outcome (mem * A)) (l : list elm) (ma : mem * A)
  : outcome (mem * A) :=
  match l with [] => OK ma | e :: l => ma ← body e ma; visit body l ma end.

Section Visits.
Context {A : Type} (body : elm -> mem * A -> outcome (mem * A)).

(** The body leaves the links alone. *)
Definition keeps_links : Prop :=
  forall e ma ma', body e ma = OK ma' ->
    firsts ma'.1 = firsts ma.1 /\ backs ma'.1 = backs ma.1.

(** Every element's next pointer. *)
Fixpoint links (m : mem) (l : list elm) : Prop :=
  match l with [] => True | e :: l => firsts m !! Next e = Some (hdp l) /\ links m l end.

(** The body keeps the links of what is still to come, whatever it does to the
    element it is given: [I] is what it needs of the remaining elements. *)
Definition keeps_rest (I : mem -> list elm -> Prop) : Prop :=
  (forall m l, I m l -> links m l) /\
  (forall e l ma ma', I ma.1 (e :: l) -> body e ma = OK ma' -> I ma'.1 l).

(** A traversal whose next pointers follow [l] whatever the body does. *)
Lemma foreach_visits next (ok : mem -> list elm -> Prop) :
  (forall m e l, ok m (e :: l) -> next m e = OK (hdp l)) ->
  (forall e l ma ma', ok ma.1 (e :: l) -> body e ma = OK ma' -> ok ma'.1 (e :: l) /\ ok ma'.1 l) ->
  forall fuel l ma, ok ma.1 l -> (length l < fuel)%nat ->
  while fuel (foreach_step next body) (hdp l, ma) = visit body l ma.
Proof.
  intros Hn Hb fuel. induction fuel as [|fuel IH]; intros l ma Hok Hf; [lia|].
  rewrite while_S. destruct l as [|e l]; cbn [hdp visit foreach_step]; [by rewrite decide_True|].
  rewrite decide_False, deref_At, bind_OK by done. destruct (body e ma) as [ma'| | |] eqn:E; try done.
  rewrite !bind_OK. destruct (Hb _ _ _ _ Hok E) as [H1 H2]. rewrite (Hn _ _ _ H1), !bind_OK.
  cbn in Hf. apply IH; [done|lia].
Qed.

Lemma foreach_safe_visits next (ok : mem -> list elm -> Prop) :
  (forall m e l, ok m (e :: l) -> next m e = OK (hdp l)) ->
  (forall e l ma ma', ok ma.1 (e :: l) -> body e ma = OK ma' -> ok ma'.1 l) ->
  forall fuel l ma, ok ma.1 l -> (length l < fuel)%nat ->
  while fuel (foreach_safe_step next body) (hdp l, ma) = visit body l ma.
Proof.
  intros Hn Hb fuel. induction fuel as [|fuel IH]; intros l ma Hok Hf; [lia|].
  rewrite while_S. destruct l as [|e l]; cbn [hdp visit foreach_safe_step]; [by rewrite decide_True|].
  rewrite decide_False, deref_At, bind_OK by done. rewrite (Hn _ _ _ Hok), bind_OK.
  destruct (body e ma) as [ma'| | |] eqn:E; try done. rewrite !bind_OK.
  cbn in Hf. apply IH; [by eapply Hb|lia].
Qed.


Lemma links_chain m s l : chain (firsts m) s l -> firsts m !! s = Some (hdp l) /\ links m l.
Proof.
  revert s. induction l as [|e l IH]; intros s H; cbn in *; [done|].
  destruct H as [H0 H]. split; [done|]. by apply IH.
Qed.

Lemma links_others m m' l :
  (forall a, a ∈ l -> firsts m' !! Next a = firsts m !! Next a) -> links m l -> links m' l.
Proof.
  induction l as [|e l IH]; cbn; [done|]. intros Hf [H0 H]. split.
  - rewrite Hf; [done|left].
  - apply IH; [|done]. intros a Ha. apply Hf. by right.
Qed.

(** The forward traversals, those of [SAFE] with a body that may free what it
    is given. *)
Lemma forward_visits fuel l ma :
  keeps_links -> links ma.1 l -> (length l < fuel)%nat ->
  while fuel (foreach_step SLIST_NEXT body) (hdp l, ma) = visit body l ma.
Proof.
  intros Hk Hl Hf. apply (foreach_visits _ links); [| |done|done].
  - intros m e l' [H _]. by apply rd_at.
  - intros e l' ma0 ma' H Hb. apply Hk in Hb as [E _].
    assert (links ma'.1 (e :: l')) as H' by (eapply links_others; [|done]; by rewrite E).
    split; [done|apply H'].
Qed.

Lemma forward_safe_visits I fuel l ma :
  keeps_rest I -> I ma.1 l -> (length l < fuel)%nat ->
  while fuel (foreach_safe_step SLIST_NEXT body) (hdp l, ma) = visit body l ma.
Proof.
  intros [Hl Hk] Hi Hf. apply (foreach_safe_visits _ I); [|done|done|done].
  intros m e l' H. apply Hl in H as [H _]. by apply rd_at.
Qed.

(** The backward traversal of a tail queue, through the cast. *)
Definition before (h : head) (m : mem) (l' : list elm) : Prop :=
  exists l, rep TAILQ m h (rev l' ++ l).

Lemma second_word m h l1 l2 :
  rep TAILQ m h (l1 ++ l2) ->
  (p ← rdb m (second (tail_slot (First h) l1)); p ← deref p; rd m p) = OK (hdp (rev l1)).
Proof.
  intros (Hc & Hb & Hl). cbn in Hb, Hl. destruct l1 as [|a l1 _] using rev_ind.
  - cbn [tail_slot second]. rewrite (rdb_at _ _ _ Hl), bind_OK, deref_At, bind_OK.
    cbn [app] in *. rewrite <- (app_nil_r l2) in Hc. pose proof (chain_lookup _ _ l2 [] Hc) as H.
    by rewrite (rd_at _ _ _ H).
  - rewrite tail_slot_snoc, rev_unit. cbn [second hdp]. rewrite <- snoc_split in Hb, Hc.
    rewrite (rdb_at _ _ _ (bseg_lookup _ _ _ _ _ Hb)), bind_OK, deref_At, bind_OK.
    apply chain_lookup in Hc. by rewrite (rd_at _ _ _ Hc).
Qed.

Lemma TAILQ_LAST_spec m h l : rep TAILQ m h l -> TAILQ_LAST m h = OK (hdp (rev l)).
Proof.
  intros H. pose proof H as (_ & _ & Hl). cbn in Hl. unfold TAILQ_LAST.
  rewrite (rdb_at _ _ _ Hl), bind_OK, deref_At, bind_OK. apply (second_word m h l []).
  by rewrite app_nil_r.
Qed.
Lemma TAILQ_PREV_spec m h l1 e l2 :
  rep TAILQ m h (l1 ++ e :: l2) -> TAILQ_PREV m e = OK (hdp (rev l1)).
Proof.
  intros H. pose proof H as (_ & Hb & _). cbn in Hb. unfold TAILQ_PREV.
  rewrite (rdb_at _ _ _ (bseg_lookup _ _ _ _ _ Hb)), bind_OK, deref_At, bind_OK.
  by apply (second_word m h l1 (e :: l2)).
Qed.

Lemma rep_links k m m' h l :
  firsts m' = firsts m -> backs m' = backs m -> rep k m h l -> rep k m' h l.
Proof. unfold rep. by intros -> ->. Qed.

Lemma backward_visits fuel h l ma :
  keeps_links -> rep TAILQ ma.1 h l -> (length l < fuel)%nat ->
  while fuel (foreach_step TAILQ_PREV body) (hdp (rev l), ma) = visit body (rev l) ma.
Proof.
  intros Hk Hrep Hf. apply (foreach_visits _ (before h)).
  - intros m e l' [l2 H]. rewrite <- (rev_involutive l'). eapply (TAILQ_PREV_spec m h _ e l2).
    cbn in H. by rewrite <- app_assoc in H.
  - intros e l' ma0 ma' [l2 H] Hb. apply Hk in Hb as [E1 E2]. split.
    + exists l2. by eapply rep_links.
    + exists (e :: l2). cbn in H. rewrite <- app_assoc in H. by eapply rep_links.
  - exists []. by rewrite rev_involutive, app_nil_r.
  - by rewrite length_rev.
Qed.

(** The traversals of a tail queue run their body on exactly its elements:
    [TAILQ_FOREACH] from the first to the last, [TAILQ_FOREACH_REVERSE],
    which finds each predecessor by casting a pointer into an entry (or the
    head) to a head, from the last to the first, and [TAILQ_FOREACH_SAFE]
    forward even with a body that unlinks and frees the element it is given
    ([drain_frees_all] is that instance).
    With a body that fails, so does the traversal, at that element. *)
Theorem tailq_traversals fuel h l ma :
  rep TAILQ ma.1 h l -> (length l < fuel)%nat ->
  (keeps_links ->
     TAILQ_FOREACH fuel h body ma = visit body l ma /\
     TAILQ_FOREACH_REVERSE fuel h body ma = visit body (rev l) ma) /\
  (forall I, keeps_rest I -> I ma.1 l -> TAILQ_FOREACH_SAFE fuel h body ma = visit body l ma).
Proof.
  intros Hrep Hf. pose proof Hrep as (Hc & _ & _). apply links_chain in Hc as [H0 Hl].
  unfold TAILQ_FOREACH, TAILQ_FOREACH_REVERSE, TAILQ_FOREACH_SAFE, TAILQ_FIRST.
  rewrite (rd_at _ _ _ H0), (TAILQ_LAST_spec _ _ _ Hrep), !bind_OK. split; [intros Hk; split|intros I Hk Hi].
  - by apply forward_visits.
  - by eapply backward_visits.
  - by eapply forward_safe_visits.
Qed.
End Visits.

(** Collecting the elements; freeing them. *)
Definition collect (e : elm) (ma : mem * list elm) : outcome (mem * list elm) := OK (ma.1, ma.2 ++ [e]).
Definition unlink_free (h : head) (e : elm) (ma : mem * list elm) : outcome (mem * list elm) :=
  m ← TAILQ_REMOVE false (OK tt) ma.1 h e; OK (free m e, ma.2 ++ [e]).

(** A tail queue of two elements, as its macros build it. *)
Definition two_queue : mem :=
  default (mkmem ∅ ∅)
    (match exec_all false (OK tt) 10 1%positive TAILQ [InsertTail 1; InsertTail 2]%positive witness_mem with
     | OK m => Some m | _ => None end).

Lemma tailq_traversals_witness :
  TAILQ_FOREACH_REVERSE 3 1%positive collect (two_queue, []) = OK (two_queue, [2; 1]%positive) /\
  rep TAILQ two_queue 1%positive [1; 2]%positive.
Proof.
  assert (rep TAILQ two_queue 1%positive [1; 2]%positive) as H by (vm_compute; auto).
  split; [|exact H].
  refine (proj2 (proj1 (tailq_traversals collect 3 1%positive [1; 2]%positive (two_queue, []) H _) _)).
  - cbn. lia.
  - intros e [m a] ma' [= <-]. done.
Defined.

(** Freeing the elements while traversing, which the [SAFE] form is for: the
    queue is empty at the end and every element was visited. *)
Lemma rep_free k m h l e : rep k m h l -> e ∉ l -> rep k (free m e) h l.
Proof.
  intros (Hc & Hb & Hl) He. split; [|split]; cbn [free firsts backs].
  - eapply chain_move; [done|by rewrite lookup_delete_ne|].
    intros a Ha. rewrite lookup_delete_ne; [done|]. intros [= ->]. done.
  - destruct (doubly k); [|done]. eapply bseg_move; [done|..].
    + intros a Ha. rewrite lookup_delete_ne; [done|]. intros [= ->]. apply He.
      destruct l; [done|by right].
    + intros a Ha. destruct l as [|b l]; [done|]. injection Ha as ->. cbn in Hb.
      rewrite lookup_delete_ne; [tauto|]. intros [= ->]. apply He. left.
  - destruct (ended k); [|done]. by rewrite lookup_delete_ne.
Qed.

Lemma unlink_free_spec h e l ma :
  rep TAILQ ma.1 h (e :: l) ->
  exists m', unlink_free h e ma = OK (m', ma.2 ++ [e]) /\ rep TAILQ m' h l.
Proof.
  intros H. pose proof (chain_NoDup _ _ _ (proj1 H)) as Hnd. apply NoDup_cons in Hnd as [He _].
  destruct (exec_Remove_double false (OK tt) 0 TAILQ ma.1 h e [] l eq_refl H) as (m' & E & Hr & _).
  unfold unlink_free. cbn [exec] in E. rewrite E, bind_OK. eexists. split; [done|]. by apply rep_free.
Qed.

Lemma drain_frees_all fuel h l m :
  rep TAILQ m h l -> (length l < fuel)%nat ->
  exists m', TAILQ_FOREACH_SAFE fuel h (unlink_free h) (m, []) = OK (m', l) /\ rep TAILQ m' h [].
Proof.
  intros Hrep Hf. pose proof (links_chain _ _ _ (proj1 Hrep)) as [H0 _].
  unfold TAILQ_FOREACH_SAFE, TAILQ_FIRST. cbn [fst]. rewrite (rd_at _ _ _ H0), bind_OK.
  rewrite (forward_safe_visits _ (fun m l => rep TAILQ m h l)); [|split|done|done].
  - enough (forall acc, exists m', visit (unlink_free h) l (m, acc) = OK (m', acc ++ l) /\ rep TAILQ m' h [])
      as H by apply (H []).
    clear Hf H0. revert m Hrep. induction l as [|e l IH]; intros m Hrep acc; cbn [visit].
    + exists m. by rewrite app_nil_r.
    + destruct (unlink_free_spec h e l (m, acc) Hrep) as (m1 & -> & H1). rewrite bind_OK. cbn [snd].
      rewrite (snoc_split acc l e). by apply IH.
  - intros m' l' H. by apply (links_chain _ _ _ (proj1 H)).
  - intros e l' ma ma' H E. destruct (unlink_free_spec h e l' ma H) as (m' & E' & H').
    rewrite E in E'. by injection E' as ->.
Qed.

(** The plain form reads the next pointer of an element that is gone. *)
Example foreach_after_free :
  TAILQ_FOREACH 3 1%positive (unlink_free 1%positive) (two_queue, []) = Undefined.
Proof. reflexivity. Qed.

(** ** Concatenation *)

Lemma chain_concat P P' s s2 l1 l2 :
  chain P s l1 -> chain P s2 l2 -> NoDup (l1 ++ l2) -> off s (l1 ++ l2) -> off s2 (l1 ++ l2) ->
  P' !! tail_slot s l1 = P !! s2 ->
  (forall y, y <> tail_slot s l1 -> y <> s2 -> P' !! y = P !! y) -> s <> s2 ->
  chain P' s (l1 ++ l2).
Proof.
  revert s. induction l1 as [|a l1 IH]; intros s H1 H2 Hnd Hs Hs2 Ht Hf Hne; cbn in *.
  - eapply chain_move; [done|done|]. intros b Hb. apply Hf; [intros E; by apply (Hs b)|intros E; by apply (Hs2 b)].
  - destruct H1 as [H0 H1]. apply NoDup_cons in Hnd as [Ha Hnd].
    apply off_cons in Hs as [Hsa Hs]. apply off_cons in Hs2 as [Hsa2 Hs2]. split.
    + rewrite Hf; [done| |done]. apply tail_slot_off. intros b Hb. apply elem_of_cons in Hb as [->|Hb]; [done|].
      apply Hs, elem_of_app. by left.
    + apply IH; auto.
Qed.

Section Concat.
Context (m : mem) (h1 h2 : head) (l1 l2 : list elm).
Hypothesis (Hne : h1 <> h2) (Hnd : NoDup (l1 ++ l2)).

Lemma tail_slot_heads l : tail_slot (First h1) l <> First h2.
Proof. revert Hne. destruct l as [|a l _] using rev_ind; [cbn; congruence|by rewrite tail_slot_snoc]. Qed.

(** The memory after the first head has taken over the elements of the
    second: what has to hold of it. *)
Lemma rep_concat k m' :
  ended k = true -> rep k m h1 l1 -> rep k m h2 l2 -> l2 <> [] ->
  firsts m' = <[First h2 := NULL]> (<[tail_slot (First h1) l1 := hdp l2]> (firsts m)) ->
  backs m' !! Last h1 = backs m !! Last h2 -> backs m' !! Last h2 = Some (At (First h2)) ->
  (doubly k = true -> forall a, backs m' !! Prev a =
     if decide (hd_error l2 = Some a) then Some (At (tail_slot (First h1) l1)) else backs m !! Prev a) ->
  rep k m' h1 (l1 ++ l2) /\ rep k m' h2 [].
Proof.
  intros Hk (Hc1 & Hb1 & He1) (Hc2 & Hb2 & He2) Hl2 Hf H1 H2 Hp. rewrite Hk in He1, He2.
  pose proof (chain_lookup _ _ [] _ Hc2) as H0. cbn in H0.
  pose proof (tail_slot_heads l1) as Hx. unfold rep. rewrite Hk, Hf. split; split.
  - eapply chain_concat; [exact Hc1|exact Hc2|done|auto|auto|..].
    + by rewrite lookup_insert_ne, lookup_insert_eq.
    + intros y Hy1 Hy2. by rewrite !lookup_insert_ne.
    + congruence.
  - split.
    + destruct (doubly k); [|done]. specialize (Hp eq_refl). apply bseg_app.
      apply NoDup_app in Hnd as (_ & Hd & Hnd2). split.
      * destruct l1 as [|a l]; [done|]. eapply bseg_move; [exact Hb1|..].
        -- intros b Hb. rewrite Hp, decide_False; [done|]. intros E. destruct l2; [done|].
           injection E as ->. apply (Hd b); [by right|left].
        -- intros b Hb. cbn in Hb. injection Hb as ->. rewrite Hp, decide_False; [apply Hb1|].
           intros E. destruct l2; [done|]. injection E as ->. apply (Hd b); left.
      * eapply bseg_move; [exact Hb2|..].
        -- intros b Hb. rewrite Hp, decide_False; [done|]. intros E. destruct l2; [done|].
           injection E as ->. apply NoDup_cons in Hnd2 as [Hnd2 _]. done.
        -- intros b Hb. by rewrite Hp, decide_True.
    + rewrite H1, He2, tail_slot_app. f_equal. f_equal. by destruct l2.
  - cbn. by rewrite lookup_insert_eq.
  - split; [by destruct (doubly k)|done].
Qed.

Lemma concat_spec k :
  ended k = true -> rep k m h1 l1 -> rep k m h2 l2 ->
  exists m', (match k with
              | SIMPLEQ => SIMPLEQ_CONCAT m h1 h2
              | TAILQ => TAILQ_CONCAT m h1 h2
              | _ => STAILQ_CONCAT m h1 h2
              end) = OK m' /\
    rep k m' h1 (l1 ++ l2) /\ rep k m' h2 [].
Proof.
  intros Hk Hr1 Hr2. pose proof (rep_concat k) as E.
  specialize (fun m' => E m' Hk Hr1 Hr2).
  destruct Hr1 as (Hc1 & Hb1 & He1), Hr2 as (Hc2 & Hb2 & He2). rewrite Hk in He1, He2.
  pose proof (chain_lookup _ _ [] _ Hc2) as H0. cbn in H0.
  pose proof (tail_slot_heads l1) as Hx.
  rewrite <- (app_nil_r l1) in Hc1. pose proof (chain_lookup _ _ l1 [] Hc1) as Ht.
  rewrite app_nil_r in Hc1. cbn in Ht.
  destruct l2 as [|b l]; cbn [hdp] in H0.
  { exists m. rewrite app_nil_r. split; [|unfold rep; rewrite Hk; by split].
    destruct k; try done; unfold SIMPLEQ_CONCAT, SIMPLEQ_EMPTY, TAILQ_CONCAT, TAILQ_EMPTY, TAILQ_FIRST,
      STAILQ_CONCAT, STAILQ_EMPTY, STAILQ_FIRST; run; done. }
  specialize (fun m' => E m' ltac:(done)).
  revert He1 Hx Ht E. generalize (tail_slot (First h1) l1). intros x He1 Hx Ht E.
  destruct k; try done; cbn [doubly] in *.
  - unfold SIMPLEQ_CONCAT, SIMPLEQ_EMPTY, SIMPLEQ_INIT. run.
    rewrite bool_decide_eq_false_2 by done. run. eexists. split; [reflexivity|].
    apply E; cbn [firsts backs]; [done|look..|done].
  - unfold TAILQ_CONCAT, TAILQ_EMPTY, TAILQ_FIRST, TAILQ_INIT. run.
    rewrite bool_decide_eq_false_2 by done. cbn in Hb2. destruct Hb2 as [Hb2 _]. run.
    eexists. split; [reflexivity|].
    apply E; cbn [firsts backs]; [done|look..|].
    intros _ a. case_decide as D; cbn in D; [injection D as <-; look|look].
  - unfold STAILQ_CONCAT, STAILQ_EMPTY, STAILQ_FIRST, STAILQ_INIT. run.
    rewrite bool_decide_eq_false_2 by done. run. eexists. split; [reflexivity|].
    apply E; cbn [firsts backs]; [done|look..|done].
Qed.
End Concat.

(** ** What LIST_MOVE leaves behind

    The first element still points back at the old head: removing it through
    the new list changes the old head, and the new one keeps the element. *)
Lemma list_move_stale m h1 h2 e l p :
  h1 <> h2 -> rep LIST m h1 (e :: l) -> firsts m !! First h2 = Some p ->
  exists m1 m2, LIST_MOVE m h1 h2 = OK m1 /\
    chain (firsts m1) (First h2) (e :: l) /\ ~ rep LIST m1 h2 (e :: l) /\
    LIST_REMOVE false (OK tt) m1 e = OK m2 /\
    firsts m2 !! First h2 = Some (At e) /\ firsts m2 !! First h1 = Some (hdp l).
Proof.
  intros Hne (Hc & Hb & _) Hp. cbn in Hb. destruct Hb as [Hb0 Hb].
  pose proof (chain_NoDup _ _ _ Hc) as Hnd. apply NoDup_cons in Hnd as [He _].
  pose proof (chain_lookup_next _ _ [] _ _ Hc) as Hn. cbn in Hc. destruct Hc as [H0 Hc].
  assert (forall P, P !! Next e = firsts m !! Next e ->
    (forall a, a ∈ l -> P !! Next a = firsts m !! Next a) -> chain P (Next e) l) as Hc'.
  { intros P H1 H2. by eapply chain_move. }
  unfold LIST_MOVE, LIST_INIT, LIST_EMPTY. run. rewrite bool_decide_eq_false_2 by done. run.
  unfold LIST_REMOVE, QUEUEDEBUG_LIST_OP, QUEUEDEBUG_LIST_POSTREMOVE.
  destruct l as [|n l]; [|cbn in Hb; destruct Hb as [Hb _]]; eexists _, _.
  all: split; [reflexivity|]; split; [split; [look|apply Hc'; [look|intros a Ha; look]]|].
  all: split; [intros (_ & [Hb' _] & _); cbn [backs] in Hb'; congruence|].
  all: cbn [negb]; run; split; [reflexivity|split; look].
Qed.

(** ** What the two macros of the debugger stub write *)

Lemma slist_insert_head_run m h e l :
  rep SLIST m h l -> is_Some (firsts m !! Next e) ->
  SLIST_INSERT_HEAD m h e = OK (mkmem (<[First h := At e]> (<[Next e := hdp l]> (firsts m))) (backs m)).
Proof.
  intros (Hc & _) [p Hp]. pose proof (chain_lookup _ _ [] _ Hc) as H0. cbn in H0.
  unfold SLIST_INSERT_HEAD. by run.
Qed.

Lemma slist_remove_run fuel m h l1 e l2 :
  rep SLIST m h (l1 ++ e :: l2) -> (length l1 <= fuel)%nat ->
  SLIST_REMOVE fuel m h e =
  OK (mkmem (<[tail_slot (First h) l1 := hdp l2]> (firsts m)) (backs m)).
Proof.
  intros (Hc & _) Hf. unfold SLIST_REMOVE. pose proof (chain_lookup _ _ [] _ Hc) as H0. cbn [tail_slot] in H0.
  pose proof (chain_lookup_next _ _ _ _ _ Hc) as Hn.
  destruct l1 as [|a l1 _] using rev_ind.
  - unfold SLIST_REMOVE_HEAD. cbn [app tail_slot] in *. by run.
  - rewrite <- snoc_split in Hc, H0. rewrite length_app in Hf. cbn in Hf.
    pose proof (find_prev_loop fuel m _ _ _ _ _ Hc ltac:(lia)) as Hloop.
    pose proof (chain_lookup_next _ _ _ _ _ Hc) as Ha. cbn in Ha.
    rewrite tail_slot_snoc, (rd_at _ _ _ H0), bind_OK, decide_False.
    + rewrite Hloop. by run.
    + apply chain_NoDup in Hc. destruct l1 as [|c l1]; cbn in *; apply NoDup_cons in Hc as [Hc _].
      * intros [= ->]. apply Hc. left.
      * intros [= ->]. apply Hc. rewrite elem_of_app. right; right; left.
Qed.
