(* ===== verification/GdbList.v ===== *)
(** * The debugger's breakpoints in memory

    The breakpoint functions of src/uhyve-gdb.c as they run on the heap: a
    breakpoint is a malloc'ed structure linked into one of two lists by the
    macros of queue.h (Queue.v), found by following pointers, changed through
    them and freed.  [breakpoint_lists_refine] shows that they do what the
    functions of GdbBreak.v do on plain lists. *)

From S2P Require Import Prelude GuestMem Queue GdbBreak.

Open Scope uhyve_scope.

(** The static heads [sw_breakpoints] and [hw_breakpoints]. *)
Definition sw_head : head := 1%positive.
Definition hw_head : head := 2%positive.

(** The stub's static variables with the heap behind them: the [entries] of
    the breakpoints and the heads are in [links], the other fields in
    [nodes]. *)
Record hstub := mkhstub {
  hgm : gmem;
  links : mem;
  nodes : gmap elm breakpoint;
  hnr : Z;
  hstepping : bool;
  hdebug : guest_debug
}.

Definition with_links (s : hstub) (m : mem) (n : gmap elm breakpoint) : hstub :=
  mkhstub (hgm s) m n (hnr s) (hstepping s) (hdebug s).
Definition with_hnr (s : hstub) (nr : Z) : hstub :=
  mkhstub (hgm s) (links s) (nodes s) nr (hstepping s) (hdebug s).
Definition with_hgm (s : hstub) (m : gmem) : hstub :=
  mkhstub m (links s) (nodes s) (hnr s) (hstepping s) (hdebug s).
Definition with_hdebug (s : hstub) (d : guest_debug) : hstub :=
  mkhstub (hgm s) (links s) (nodes s) (hnr s) (hstepping s) d.
Definition with_saved (g : Z) (bp : breakpoint) : breakpoint :=
  mkbp (type bp) (addr bp) (len bp) (refcount bp) g.

(** The fields behind a pointer to a breakpoint. *)
Definition node (s : hstub) (e : elm) : outcome breakpoint :=
  match nodes s !! e with Some bp => OK bp | None => Undefined end.
Definition set_node (s : hstub) (e : elm) (bp : breakpoint) : hstub :=
  with_links s (links s) (<[e := bp]> (nodes s)).

Definition is_hw (type : Z) : bool :=
  (type =? GDB_BREAKPOINT_HW) || (type =? GDB_WATCHPOINT_WRITE)
  || (type =? GDB_WATCHPOINT_READ) || (type =? GDB_WATCHPOINT_ACCESS).

(** A traversal visits each node once. *)
Definition fuel (s : hstub) : nat := S (size (nodes s)).

(** [SLIST_FOREACH(bp, head, entries) if (...) return bp;], then [return NULL]. *)
Definition find_body (s : hstub) (addr len : Z) (var : ptr elm) : outcome (ptr elm + ptr elm) :=
  if decide (var = NULL) then OK (inr NULL)
  else
    e ← deref var;
    bp ← node s e;
    if matches addr len bp then OK (inr (At e))
    else n ← SLIST_NEXT (links s) e; OK (inl n).
Definition find_in (s : hstub) (h : head) (addr len : Z) : outcome (ptr elm) :=
  var ← SLIST_FIRST (links s) h; while (fuel s) (find_body s addr len) var.

Definition bp_list_find (s : hstub) (type addr len : Z) : outcome (ptr elm) :=
  if type =? GDB_BREAKPOINT_SW then find_in s sw_head addr len
  else if is_hw type then find_in s hw_head addr len
  else Exited SIGABRT_STATUS.

(** ** Debug registers *)

(** The body of the loop over the hardware breakpoints. *)
Definition debugreg_body (s : hstub) (e : elm) (ma : mem * (nat * gmap nat Z))
  : outcome (mem * (nat * gmap nat Z)) :=
  let '(m, (n, dr)) := ma in
  bp ← node s e;
  assert_ (negb (type bp =? GDB_BREAKPOINT_SW));;
  if (8 <=? n)%nat then Undefined
  else
    let dr := <[n := addr bp]> dr in
    t ← type_code (type bp);
    l ← len_code (len bp);
    let dr := <[7%nat := dr7_entry (default 0 (dr !! 7%nat)) (Z.of_nat n) t l]> dr in
    OK (m, (S n, dr)).

Definition uhyve_gdb_update_guest_debug (s : hstub) : outcome hstub :=
  let control := if hstepping s then KVM_GUESTDBG_ENABLE .| KVM_GUESTDBG_SINGLESTEP else 0 in
  no_sw ← SLIST_EMPTY (links s) sw_head;
  let control :=
    if (no_sw : bool) then control
    else control .| KVM_GUESTDBG_ENABLE .| KVM_GUESTDBG_USE_SW_BP in
  no_hw ← SLIST_EMPTY (links s) hw_head;
  dbg ←
    (if (no_hw : bool) then OK (mkdebug control ∅)
     else
       let control := control .| KVM_GUESTDBG_ENABLE .| KVM_GUESTDBG_USE_HW_BP in
       let dr7 := (1 << 9) .| (1 << 10) in
       r ← SLIST_FOREACH (fuel s) hw_head (debugreg_body s) (links s, (O, {[7%nat := dr7]}));
       OK (mkdebug control r.2.2));
  OK (with_hdebug s dbg).

(** ** Patching the guest *)

Definition kvm_arch_insert_sw_breakpoint (s : hstub) (e : elm) : outcome hstub :=
  bp ← node s e;
  insn ← load8 (hgm s) (addr bp);
  m ← store8 (hgm s) (addr bp) int3;
  OK (with_hgm (set_node s e (with_saved insn bp)) m).

Definition kvm_arch_remove_sw_breakpoint (s : hstub) (e : elm) : outcome hstub :=
  bp ← node s e;
  insn ← load8 (hgm s) (addr bp);
  assert_ (insn =? int3);;
  m ← store8 (hgm s) (addr bp) (saved_insn bp);
  OK (with_hgm s m).

(** ** The lists *)

Section Malloc.
(** [malloc(sizeof(struct breakpoint_t))]: NULL, or an address with whatever
    the fields hold that nobody initialises. *)
Context (malloc : hstub -> option (elm * Z * ptr elm)).

(** The pointer returned, NULL for failure. *)
Definition bp_list_insert (s : hstub) (type addr len : Z) : outcome (ptr elm * hstub) :=
  bp ← bp_list_find s type addr len;
  if decide (bp <> NULL) then
    e ← deref bp;
    b ← node s e;
    OK (bp, set_node s e (with_refcount (fun r => u32 (r + 1)) b))
  else
    match malloc s with
    | None => OK (NULL, s)
    | Some (e, saved, next) =>
        let s := with_links s (SLIST_ENTRY e next (links s)) (<[e := mkbp type addr len 1 saved]> (nodes s)) in
        if type =? GDB_BREAKPOINT_SW then
          m ← SLIST_INSERT_HEAD (links s) sw_head e;
          OK (At e, with_links s m (nodes s))
        else if is_hw type then
          if hnr s =? MAX_HW_BREAKPOINTS then OK (NULL, s)
          else
            let s := with_hnr s (u32 (hnr s + 1)) in
            m ← SLIST_INSERT_HEAD (links s) hw_head e;
            OK (At e, with_links s m (nodes s))
        else Exited SIGABRT_STATUS
    end.

(** [false]: the result -1. *)
Definition bp_list_remove (s : hstub) (type addr len : Z) : outcome (bool * hstub) :=
  bp ← bp_list_find s type addr len;
  if decide (bp = NULL) then OK (false, s)
  else
    e ← deref bp;
    b ← node s e;
    let s := set_node s e (with_refcount (fun r => u32 (r - 1)) b) in
    b ← node s e;
    if 0 <? refcount b then OK (true, s)
    else
      s ← (if type =? GDB_BREAKPOINT_SW then
             m ← SLIST_REMOVE (fuel s) (links s) sw_head e;
             OK (with_links s m (nodes s))
           else if is_hw type then
             m ← SLIST_REMOVE (fuel s) (links s) hw_head e;
             OK (with_hnr (with_links s m (nodes s)) (u32 (hnr s - 1)))
           else Exited SIGABRT_STATUS);
      OK (true, with_links s (free (links s) e) (delete e (nodes s))).

Definition uhyve_gdb_add_breakpoint (s : hstub) (type addr len : Z) : outcome (bool * hstub) :=
  assert_ (type <? GDB_BREAKPOINT_MAX);;
  bp ← bp_list_find s type addr len;
  if decide (bp <> NULL) then OK (true, s)
  else
    '(bp, s) ← bp_list_insert s type addr len;
    if decide (bp = NULL) then OK (false, s)
    else
      s ← (if type =? GDB_BREAKPOINT_SW then
             e ← deref bp; kvm_arch_insert_sw_breakpoint s e
           else OK s);
      s ← uhyve_gdb_update_guest_debug s;
      OK (true, s).

Definition uhyve_gdb_remove_breakpoint (s : hstub) (type addr len : Z) : outcome (bool * hstub) :=
  assert_ (type <? GDB_BREAKPOINT_MAX);;
  s ←
    (if type =? GDB_BREAKPOINT_SW then
       bp ← bp_list_find s type addr len;
       if decide (bp <> NULL) then e ← deref bp; kvm_arch_remove_sw_breakpoint s e
       else OK s
     else OK s);
  '(ok, s) ← bp_list_remove s type addr len;
  if negb ok then OK (false, s)
  else s ← uhyve_gdb_update_guest_debug s; OK (true, s).

(** What the command loop of the stub does to the breakpoints. *)
Inductive request :=
| AddBp (type addr len : Z) | RemoveBp (type addr len : Z) | EnableSs | DisableSs.

Definition with_hstepping (s : hstub) (b : bool) : hstub :=
  mkhstub (hgm s) (links s) (nodes s) (hnr s) b (hdebug s).
Definition uhyve_gdb_enable_ss (s : hstub) : outcome hstub :=
  uhyve_gdb_update_guest_debug (with_hstepping s true).
Definition uhyve_gdb_disable_ss (s : hstub) : outcome hstub :=
  uhyve_gdb_update_guest_debug (with_hstepping s false).

(** A sequence of requests, with the answers. *)
Fixpoint serve (rs : list request) (s : hstub) : outcome (list bool * hstub) :=
  match rs with
  | [] => OK ([], s)
  | r :: rs =>
      '(b, s) ← (match r with
                 | AddBp t a l => uhyve_gdb_add_breakpoint s t a l
                 | RemoveBp t a l => uhyve_gdb_remove_breakpoint s t a l
                 | EnableSs => s ← uhyve_gdb_enable_ss s; OK (true, s)
                 | DisableSs => s ← uhyve_gdb_disable_ss s; OK (true, s)
                 end);
      '(bs, s) ← serve rs s;
      OK (b :: bs, s)
  end.
End Malloc.

(** The same requests on plain lists. *)
Fixpoint list_serve (rs : list request) (s : stub) : outcome (list bool * stub) :=
  match rs with
  | [] => OK ([], s)
  | r :: rs =>
      '(b, s) ← (match r with
                 | AddBp t a l => GdbBreak.uhyve_gdb_add_breakpoint s t a l
                 | RemoveBp t a l => GdbBreak.uhyve_gdb_remove_breakpoint s t a l
                 | EnableSs => s ← GdbBreak.uhyve_gdb_enable_ss s; OK (true, s)
                 | DisableSs => s ← GdbBreak.uhyve_gdb_disable_ss s; OK (true, s)
                 end);
      '(bs, s) ← list_serve rs s;
      OK (b :: bs, s)
  end.

(** ** The simulation *)

(** Two runs end the same way, with related results. *)
Definition outcome_rel {A B} (R : A -> B -> Prop) (o : outcome A) (o' : outcome B) : Prop :=
  match o, o' with
  | OK a, OK b => R a b
  | Undefined, Undefined => True
  | Exited s, Exited s' => s = s'
  | OutOfFuel, OutOfFuel => True
  | _, _ => False
  end.

Lemma outcome_rel_bind {A B A' B'} (R : A -> A' -> Prop) (T : B -> B' -> Prop) o o'
    (f : A -> outcome B) (f' : A' -> outcome B') :
  outcome_rel R o o' -> (forall a a', R a a' -> outcome_rel T (f a) (f' a')) ->
  outcome_rel T (o ≫= f) (o' ≫= f').
Proof. destruct o, o'; cbn; try done. eauto. Qed.
Lemma outcome_rel_eq {A B B'} (T : B -> B' -> Prop) (o : outcome A) (f : A -> outcome B)
    (f' : A -> outcome B') :
  (forall a, outcome_rel T (f a) (f' a)) -> outcome_rel T (o ≫= f) (o ≫= f').
Proof. intros H. eapply (outcome_rel_bind eq); [by destruct o|]. by intros a ? <-. Qed.

(** The node at an address holds a breakpoint; [saved_insn], which nobody
    initialises for a hardware breakpoint, counts only in an [exact] list. *)
Definition holds (exact : bool) (n : gmap elm breakpoint) (e : elm) (bp : breakpoint) : Prop :=
  exists g, n !! e = Some (with_saved g bp) /\ (exact = true -> g = saved_insn bp).

(** One of the two lists: [h] heads the nodes [l], which hold [bps]. *)
Definition list_sim (ex : bool) (m : mem) (n : gmap elm breakpoint) (h : head) (l : list elm)
    (bps : list breakpoint) : Prop :=
  rep SLIST m h l /\ Forall2 (holds ex n) l bps.

Record sim (s : hstub) (a : stub) (swl hwl : list elm) : Prop := {
  sim_gm : hgm s = gm a;
  sim_nr : hnr s = nr_hw_breakpoints a;
  sim_ss : hstepping s = stepping a;
  sim_dbg : hdebug s = debug a;
  sim_sw : list_sim true (links s) (nodes s) sw_head swl (sw_breakpoints a);
  sim_hw : list_sim false (links s) (nodes s) hw_head hwl (hw_breakpoints a);
  sim_nodup : NoDup (swl ++ hwl)
}.
Definition similar (s : hstub) (a : stub) : Prop := exists swl hwl, sim s a swl hwl.

Lemma length_nodes (n : gmap elm breakpoint) l :
  NoDup l -> (forall e, e ∈ l -> is_Some (n !! e)) -> (length l <= size n)%nat.
Proof.
  intros Hnd Hl. rewrite <- size_dom, <- (size_list_to_set (C := gset elm)) by done.
  apply subseteq_size. intros e He%elem_of_list_to_set. by apply elem_of_dom, Hl.
Qed.

Lemma holds_length ex n l bps :
  NoDup l -> Forall2 (holds ex n) l bps -> (length l <= size n)%nat.
Proof.
  intros Hnd H. apply length_nodes; [done|]. intros e He.
  apply list_elem_of_lookup in He as [i Hi].
  destruct (Forall2_lookup_l _ _ _ _ _ H Hi) as (bp & _ & g & Hg & _). by eexists.
Qed.

Lemma matches_saved a l g bp : matches a l (with_saved g bp) = matches a l bp.
Proof. done. Qed.

(** The search of a list by pointers is the search of the list. *)
Lemma find_loop s ad ln ex l : forall bps sl fuel,
  chain (firsts (links s)) sl l -> Forall2 (holds ex (nodes s)) l bps -> (length l < fuel)%nat ->
  match List.find (matches ad ln) bps with
  | None => while fuel (find_body s ad ln) (hdp l) = OK NULL
  | Some bp => exists l1 e l2 b1 b2,
      l = l1 ++ e :: l2 /\ bps = b1 ++ bp :: b2 /\ length l1 = length b1 /\
      Forall (fun b => matches ad ln b = false) b1 /\ matches ad ln bp = true /\
      while fuel (find_body s ad ln) (hdp l) = OK (At e)
  end.
Proof.
  induction l as [|e l IH]; intros bps sl fuel Hc H Hf; destruct fuel as [|fuel]; try (cbn in Hf; lia).
  - apply Forall2_nil_inv_l in H as ->. done.
  - apply Forall2_cons_inv_l in H as (bp & bps' & (g & Hg & _) & H & ->).
    destruct Hc as [_ Hc]. cbn [List.find]. rewrite while_S. cbn [hdp].
    assert (find_body s ad ln (At e) =
            OK (if matches ad ln bp then inr (At e) else inl (hdp l))) as ->.
    { unfold find_body, node. rewrite decide_False, deref_At, bind_OK, Hg, bind_OK, matches_saved by done.
      destruct (matches ad ln bp); [done|]. unfold SLIST_NEXT.
      pose proof (chain_lookup _ _ [] _ Hc) as Hn. cbn [tail_slot] in Hn. by rewrite (rd_at _ _ _ Hn). }
    rewrite bind_OK. destruct (matches ad ln bp) eqn:Em.
    + by exists [], e, l, [], bps'.
    + cbn in Hf. specialize (IH bps' (Next e) fuel Hc H ltac:(lia)).
      destruct (List.find (matches ad ln) bps') as [bp'|]; [|done].
      destruct IH as (l1 & e' & l2 & b1 & b2 & -> & -> & Hl & Hb & Hm & Hw).
      exists (e :: l1), e', l2, (bp :: b1), b2. cbn. repeat split; auto.
Qed.

Lemma find_in_spec s h ad ln ex l bps :
  list_sim ex (links s) (nodes s) h l bps ->
  match List.find (matches ad ln) bps with
  | None => find_in s h ad ln = OK NULL
  | Some bp => exists l1 e l2 b1 b2,
      l = l1 ++ e :: l2 /\ bps = b1 ++ bp :: b2 /\ length l1 = length b1 /\
      Forall (fun b => matches ad ln b = false) b1 /\ matches ad ln bp = true /\
      find_in s h ad ln = OK (At e)
  end.
Proof.
  intros [(Hc & _) H]. unfold find_in, SLIST_FIRST.
  pose proof (chain_lookup _ _ [] _ Hc) as H0. cbn [tail_slot] in H0. rewrite (rd_at _ _ _ H0), bind_OK.
  eapply find_loop; [exact Hc|exact H|]. unfold fuel.
  pose proof (holds_length _ _ _ _ (chain_NoDup _ _ _ Hc) H). lia.
Qed.

(** The debug registers. *)
Lemma debugreg_visit s ex l : forall bps m n dr,
  Forall2 (holds ex (nodes s)) l bps ->
  outcome_rel (fun r d => r.2.2 = d) (visit (debugreg_body s) l (m, (n, dr))) (set_debugregs bps n dr).
Proof.
  induction l as [|e l IH]; intros bps m n dr H.
  - by apply Forall2_nil_inv_l in H as ->.
  - apply Forall2_cons_inv_l in H as (bp & bps' & (g & Hg & _) & H & ->).
    cbn [visit set_debugregs]. set (v := visit (debugreg_body s) l) in *.
    unfold debugreg_body, node. rewrite Hg, bind_OK. cbn [type len addr with_saved].
    destruct (assert_ _) as [[]| | |]; try done. rewrite !bind_OK.
    destruct (8 <=? n)%nat; [done|].
    destruct (type_code (type bp)) as [t| | |]; try done. rewrite !bind_OK.
    destruct (len_code (len bp)) as [c| | |]; try done. rewrite !bind_OK. by apply IH.
Qed.

Lemma debugreg_keeps s : keeps_links (debugreg_body s).
Proof.
  intros e [m [n dr]] ma' H. unfold debugreg_body in H. outcome_inv.
  destruct (8 <=? n)%nat; [done|]. outcome_inv. done.
Qed.

Lemma empty_spec s h l :
  rep SLIST (links s) h l -> SLIST_EMPTY (links s) h = OK (bool_decide (l = [])).
Proof.
  intros (Hc & _). pose proof (chain_lookup _ _ [] _ Hc) as H0. cbn [tail_slot] in H0.
  unfold SLIST_EMPTY. rewrite (rd_at _ _ _ H0), bind_OK. by destruct l.
Qed.

Lemma with_hdebug_sim s a d swl hwl :
  sim s a swl hwl ->
  sim (with_hdebug s d) (mkstub (gm a) (sw_breakpoints a) (hw_breakpoints a) (nr_hw_breakpoints a)
                           (stepping a) d) swl hwl.
Proof. by intros []. Qed.

Lemma update_sim s a :
  similar s a ->
  outcome_rel similar (uhyve_gdb_update_guest_debug s) (GdbBreak.uhyve_gdb_update_guest_debug a).
Proof.
  intros (swl & hwl & Hs). pose proof Hs as [Hgm Hnr Hss Hdbg [Hsw Hswn] [Hhw Hhwn] Hnd].
  unfold uhyve_gdb_update_guest_debug, GdbBreak.uhyve_gdb_update_guest_debug.
  rewrite (empty_spec _ _ _ Hsw), bind_OK, (empty_spec _ _ _ Hhw), bind_OK, Hss.
  assert (bool_decide (sw_breakpoints a = []) = bool_decide (swl = [])) as ->.
  { apply bool_decide_ext. pose proof (Forall2_length _ _ _ Hswn) as E.
    by destruct swl, (sw_breakpoints a). }
  eapply (outcome_rel_bind eq); [|intros d ? <-; do 2 eexists; by apply with_hdebug_sim].
  destruct hwl as [|e hwl].
  { apply Forall2_nil_inv_l in Hhwn as ->. by destruct (stepping a), (bool_decide (swl = [])). }
  rewrite bool_decide_eq_false_2 by done.
  destruct (hw_breakpoints a) as [|bp bps] eqn:Ebps; [by apply Forall2_cons_nil_inv in Hhwn|].
  rewrite <- Ebps in *. clear Ebps bp bps.
  eapply (outcome_rel_bind (fun r d => r.2.2 = d)).
  - unfold SLIST_FOREACH, SLIST_FIRST. cbn [fst]. pose proof (proj1 Hhw) as Hc.
    destruct (links_chain _ _ _ Hc) as [H0 Hl]. rewrite (rd_at _ _ _ H0), bind_OK.
    rewrite forward_visits; [by eapply debugreg_visit|apply debugreg_keeps|done|].
    unfold fuel. pose proof (holds_length _ _ _ _ (chain_NoDup _ _ _ Hc) Hhwn). lia.
  - intros r d <-. done.
Qed.

(** ** Changes to the heap *)

Lemma rep_frame m m' h l :
  rep SLIST m h l -> firsts m' !! First h = firsts m !! First h ->
  (forall e, e ∈ l -> firsts m' !! Next e = firsts m !! Next e) -> rep SLIST m' h l.
Proof. intros (Hc & _) H0 Hl. split; [|done]. by eapply chain_move. Qed.

Lemma holds_frame ex n n' l bps :
  Forall2 (holds ex n) l bps -> (forall e, e ∈ l -> n' !! e = n !! e) -> Forall2 (holds ex n') l bps.
Proof.
  intros H. induction H as [|e bp l bps [g Hg] H IH]; intros Hf; constructor.
  - exists g. rewrite Hf by left. done.
  - apply IH. intros e' He'. apply Hf. by right.
Qed.

Lemma holds_node ex n l bps e : Forall2 (holds ex n) l bps -> e ∈ l -> is_Some (n !! e).
Proof.
  intros H He. apply list_elem_of_lookup in He as [i Hi].
  destruct (Forall2_lookup_l _ _ _ _ _ H Hi) as (bp & _ & g & Hg & _). by eexists.
Qed.

Lemma list_sim_frame ex m m' n n' h l bps :
  list_sim ex m n h l bps -> firsts m' !! First h = firsts m !! First h ->
  (forall e, e ∈ l -> firsts m' !! Next e = firsts m !! Next e /\ n' !! e = n !! e) ->
  list_sim ex m' n' h l bps.
Proof.
  intros [Hr Hn] H0 Hl. split.
  - eapply rep_frame; [done|done|]. intros e He. by apply Hl.
  - eapply holds_frame; [done|]. intros e He. by apply Hl.
Qed.

(** A node the heap did not have. *)
Lemma list_sim_fresh ex m n h l bps e : list_sim ex m n h l bps -> n !! e = None -> e ∉ l.
Proof. intros [_ H] He Hel. destruct (holds_node _ _ _ _ _ H Hel). congruence. Qed.

(** The memory after linking the new node [e] in front of [l]. *)
Definition inserted_at (h : head) (l : list elm) (e : elm) (next : ptr elm) (m : mem) : mem :=
  mkmem (<[First h := At e]> (<[Next e := hdp l]> (<[Next e := next]> (firsts m)))) (backs m).

Lemma insert_run ex m n h l bps e next :
  list_sim ex m n h l bps -> e ∉ l ->
  SLIST_INSERT_HEAD (SLIST_ENTRY e next m) h e = OK (inserted_at h l e next m).
Proof.
  intros [Hr _] He. rewrite (slist_insert_head_run _ h e l); [done| |].
  - eapply rep_frame; [done|cbn; by rewrite lookup_insert_ne|].
    intros a Ha. cbn. rewrite lookup_insert_ne; [done|]. intros [= ->]. done.
  - cbn. rewrite lookup_insert_eq. by eexists.
Qed.

Lemma insert_list_sim ex m n h l bps e next bp bp' :
  list_sim ex m n h l bps -> n !! e = None -> holds ex (<[e := bp']> n) e bp ->
  list_sim ex (inserted_at h l e next m) (<[e := bp']> n) h (e :: l) (bp :: bps).
Proof.
  intros Hs He Hb. pose proof (list_sim_fresh _ _ _ _ _ _ _ Hs He) as Hel. destruct Hs as [Hr Hn]. split.
  - pose proof (chain_lookup _ _ [] _ (proj1 Hr)) as H0. cbn in H0.
    apply (rep_insert SLIST m _ h [] l e Hr Hel); unfold inserted_at; edit.
  - constructor; [done|]. eapply holds_frame; [done|]. intros a Ha. rewrite lookup_insert_ne; [done|].
    by intros ->.
Qed.

Lemma insert_other ex m n h h' l l' bps e next bp :
  h <> h' -> list_sim ex m n h l bps -> e ∉ l ->
  list_sim ex (inserted_at h' l' e next m) (<[e := bp]> n) h l bps.
Proof.
  intros Hh Hs He. eapply list_sim_frame; [done|..]; cbn.
  - rewrite lookup_insert_ne by congruence. by rewrite !lookup_insert_ne.
  - intros a Ha. assert (a <> e) by (by intros ->). split; [|by rewrite lookup_insert_ne].
    rewrite lookup_insert_ne by done. by rewrite !lookup_insert_ne by congruence.
Qed.

(** The memory after unlinking and freeing [e]. *)
Definition removed_at (h : head) (l1 l2 : list elm) (e : elm) (m : mem) : mem :=
  free (mkmem (<[tail_slot (First h) l1 := hdp l2]> (firsts m)) (backs m)) e.

Lemma remove_list_sim ex m n h l1 e l2 b1 bp b2 bp' :
  list_sim ex m n h (l1 ++ e :: l2) (b1 ++ bp :: b2) -> length l1 = length b1 ->
  list_sim ex (removed_at h l1 l2 e m) (delete e (<[e := bp']> n)) h (l1 ++ l2) (b1 ++ b2).
Proof.
  intros [Hr Hn] Hlen. pose proof (chain_NoDup _ _ _ (proj1 Hr)) as Hnd.
  assert (e ∉ l1 ++ l2) as He.
  { apply NoDup_app in Hnd as (_ & H1 & H2). apply NoDup_cons in H2 as [H2 _].
    rewrite elem_of_app. intros [H|H]; [|done]. apply (H1 e H). left. }
  assert (tail_slot (First h) l1 <> Next e) as Hx.
  { apply tail_slot_ne; [|done]. rewrite elem_of_app in He. tauto. }
  pose proof (chain_lookup_next _ _ _ _ _ (proj1 Hr)) as Hne.
  split.
  - apply rep_free; [|done]. apply (rep_remove SLIST m _ h l1 l2 e Hr); edit.
  - rewrite delete_insert_eq. apply Forall2_app_inv in Hn as [H1 H2]; [|done].
    apply Forall2_cons in H2 as [_ H2].
    eapply holds_frame; [by apply Forall2_app|]. intros a Ha. rewrite lookup_delete_ne; [done|].
    by intros ->.
Qed.

Lemma remove_other ex m n h h' l l1 e l2 bps bp' :
  h <> h' -> list_sim ex m n h l bps -> NoDup (l ++ (l1 ++ e :: l2)) ->
  list_sim ex (removed_at h' l1 l2 e m) (delete e (<[e := bp']> n)) h l bps.
Proof.
  intros Hh Hs Hnd. apply NoDup_app in Hnd as (_ & Hd & _). eapply list_sim_frame; [done|..]; cbn.
  - rewrite lookup_delete_ne, lookup_insert_ne; [done| |done].
    intros E. destruct l1 as [|a l1 _] using rev_ind; [cbn in E; congruence|].
    by rewrite tail_slot_snoc in E.
  - intros a Ha. assert (a <> e) as Hne.
    { intros ->. apply (Hd e Ha). rewrite elem_of_app. right; left. }
    split; [|by rewrite lookup_delete_ne, lookup_insert_ne].
    rewrite lookup_delete_ne by congruence. rewrite lookup_insert_ne; [done|].
    intros [E|E]%tail_slot_elem; [|done]. apply (Hd a Ha). rewrite elem_of_app. by left.
Qed.

(** The memory after writing to the node [e]. *)
Lemma update_list_sim ex m n h l1 e l2 b1 bp b2 bp' c :
  list_sim ex m n h (l1 ++ e :: l2) (b1 ++ bp :: b2) -> length l1 = length b1 ->
  holds ex (<[e := c]> n) e bp' ->
  list_sim ex m (<[e := c]> n) h (l1 ++ e :: l2) (b1 ++ bp' :: b2).
Proof.
  intros [Hr Hn] Hlen Hb. split; [done|]. pose proof (chain_NoDup _ _ _ (proj1 Hr)) as Hnd.
  apply NoDup_app in Hnd as (_ & H1 & H2). apply NoDup_cons in H2 as [H2 _].
  apply Forall2_app_inv in Hn as [Hn1 Hn2]; [|done]. apply Forall2_cons in Hn2 as [_ Hn2].
  apply Forall2_app; [|constructor; [done|]]; (eapply holds_frame; [done|]); intros a Ha;
    rewrite lookup_insert_ne; try done; intros ->; [|done]. apply (H1 a Ha). left.
Qed.
Lemma update_other ex m n h l bps e c :
  list_sim ex m n h l bps -> e ∉ l -> list_sim ex m (<[e := c]> n) h l bps.
Proof.
  intros [Hr Hn] He. split; [done|]. eapply holds_frame; [done|]. intros a Ha.
  rewrite lookup_insert_ne; [done|]. by intros ->.
Qed.

(** ** The operations *)

Lemma update_first_split f ad ln b1 bp b2 :
  Forall (fun b => matches ad ln b = false) b1 -> matches ad ln bp = true ->
  update_first f ad ln (b1 ++ bp :: b2) = b1 ++ f bp :: b2.
Proof. intros H Hm. induction H as [|b b1 Hb H IH]; cbn; [by rewrite Hm|by rewrite Hb, IH]. Qed.
Lemma remove_first_app ad ln b1 bp b2 :
  Forall (fun b => matches ad ln b = false) b1 -> matches ad ln bp = true ->
  remove_first ad ln (b1 ++ bp :: b2) = b1 ++ b2.
Proof. intros H Hm. induction H as [|b b1 Hb H IH]; cbn; [by rewrite Hm|by rewrite Hb, IH]. Qed.

(** The answers of two operations. *)
Definition same_answer (r : bool * hstub) (r' : bool * stub) : Prop :=
  r.1 = r'.1 /\ similar r.2 r'.2.

Lemma answer_after_update s a :
  similar s a ->
  outcome_rel same_answer (s ← uhyve_gdb_update_guest_debug s; OK (true, s))
    (s ← GdbBreak.uhyve_gdb_update_guest_debug a; OK (true, s)).
Proof. intros H. eapply outcome_rel_bind; [by apply update_sim|]. by intros s' a' H'. Qed.

Section Simulation.
Context (malloc : hstub -> option (elm * Z * ptr elm)).
(** [malloc] succeeds with an address that is not in use. *)
Hypothesis malloc_fresh : forall s, exists e g p, malloc s = Some (e, g, p) /\ nodes s !! e = None.

Lemma add_sw_sim s a ad ln :
  similar s a ->
  outcome_rel same_answer (uhyve_gdb_add_breakpoint malloc s GDB_BREAKPOINT_SW ad ln)
    (GdbBreak.uhyve_gdb_add_breakpoint a GDB_BREAKPOINT_SW ad ln).
Proof.
  intros Hsim. pose proof Hsim as (swl & hwl & Hs). pose proof Hs as [Hgm Hnr Hss Hdbg Hsw Hhw Hnd].
  unfold uhyve_gdb_add_breakpoint, GdbBreak.uhyve_gdb_add_breakpoint, bp_list_insert, GdbBreak.bp_list_insert,
    bp_list_find, GdbBreak.bp_list_find, bp_list.
  cbn [Z.ltb GDB_BREAKPOINT_SW GDB_BREAKPOINT_MAX Z.compare assert_ Z.eqb]. rewrite !bind_OK.
  pose proof (find_in_spec s sw_head ad ln _ _ _ Hsw) as Hf.
  destruct (List.find (matches ad ln) (sw_breakpoints a)) as [bp|] eqn:Ef.
  { destruct Hf as (l1 & e & l2 & b1 & b2 & _ & _ & _ & _ & _ & ->).
    rewrite bind_OK, decide_True by done. done. }
  rewrite Hf, !bind_OK, !decide_False by (intros H; by apply H).
  destruct (malloc_fresh s) as (e & g & p & -> & He). cbn [negb].
  pose proof (list_sim_fresh _ _ _ _ _ _ _ Hsw He) as Hesw.
  pose proof (list_sim_fresh _ _ _ _ _ _ _ Hhw He) as Hehw.
  cbn [with_links links]. rewrite (insert_run _ _ _ _ _ _ _ p Hsw Hesw), !bind_OK.
  rewrite decide_False, deref_At, bind_OK by done.
  unfold kvm_arch_insert_sw_breakpoint, GdbBreak.kvm_arch_insert_sw_breakpoint, node.
  cbn [with_links nodes hgm links set_node gm with_sw sw_breakpoints]. rewrite lookup_insert_eq, bind_OK, Hgm.
  cbn [addr]. destruct (load8 (gm a) ad) as [insn| | |]; try done. rewrite !bind_OK.
  destruct (store8 (gm a) ad int3) as [m'| | |]; try done. rewrite !bind_OK.
  cbn [update_first]. unfold matches at 1. cbn [addr len]. rewrite !Z.eqb_refl. cbn [andb].
  apply answer_after_update. exists (e :: swl), hwl. split; cbn; try done.
  - rewrite insert_insert_eq. eapply insert_list_sim; [exact Hsw|done|].
    exists insn. rewrite lookup_insert_eq. done.
  - rewrite insert_insert_eq. by eapply insert_other.
  - rewrite NoDup_cons. split; [|done]. rewrite elem_of_app. tauto.
Qed.

Lemma add_hw_sim s a type ad ln :
  type <> GDB_BREAKPOINT_SW -> is_hw type = true -> similar s a ->
  outcome_rel same_answer (uhyve_gdb_add_breakpoint malloc s type ad ln)
    (GdbBreak.uhyve_gdb_add_breakpoint a type ad ln).
Proof.
  intros Hty Hhwt Hsim. pose proof Hsim as (swl & hwl & Hs). pose proof Hs as [Hgm Hnr Hss Hdbg Hsw Hhw Hnd].
  apply Z.eqb_neq in Hty. unfold is_hw in Hhwt.
  unfold uhyve_gdb_add_breakpoint, GdbBreak.uhyve_gdb_add_breakpoint, bp_list_insert, GdbBreak.bp_list_insert,
    bp_list_find, GdbBreak.bp_list_find, bp_list, is_hw.
  rewrite Hty, Hhwt. apply outcome_rel_eq. intros _.
  pose proof (find_in_spec s hw_head ad ln _ _ _ Hhw) as Hf. rewrite !bind_OK.
  destruct (List.find (matches ad ln) (hw_breakpoints a)) as [bp|] eqn:Ef.
  { destruct Hf as (l1 & e & l2 & b1 & b2 & _ & _ & _ & _ & _ & ->).
    rewrite bind_OK, decide_True by done. done. }
  rewrite Hf, !bind_OK, !decide_False by (intros H; by apply H).
  destruct (malloc_fresh s) as (e & g & p & -> & He).
  pose proof (list_sim_fresh _ _ _ _ _ _ _ Hsw He) as Hesw.
  pose proof (list_sim_fresh _ _ _ _ _ _ _ Hhw He) as Hehw.
  cbn [with_links hnr]. rewrite Hnr. destruct (nr_hw_breakpoints a =? MAX_HW_BREAKPOINTS).
  - cbn [negb]. rewrite !bind_OK, decide_True by done. split; [done|]. exists swl, hwl. cbn.
    assert (forall ex h l bps, list_sim ex (links s) (nodes s) h l bps -> e ∉ l ->
      list_sim ex (SLIST_ENTRY e p (links s)) (<[e := mkbp type ad ln 1 g]> (nodes s)) h l bps) as Hleak.
    { intros ex h l bps H Hel. eapply list_sim_frame; [done|cbn; by rewrite lookup_insert_ne|].
      intros b Hb. assert (b <> e) by (by intros ->). cbn. by rewrite !lookup_insert_ne by congruence. }
    split; cbn; auto.
  - cbn [with_links with_hnr links]. rewrite (insert_run _ _ _ _ _ _ _ p Hhw Hehw), !bind_OK.
    rewrite decide_False by done. cbn [negb].
    apply answer_after_update. exists swl, (e :: hwl). split; cbn; try done.
    + by eapply insert_other.
    + eapply insert_list_sim; [exact Hhw|done|]. exists g. by rewrite lookup_insert_eq.
    + apply NoDup_app in Hnd as (H1 & H2 & H3). apply NoDup_app. split; [done|]. split.
      * intros b Hb [->|Hb']%elem_of_cons; [done|]. by apply (H2 b).
      * by constructor.
Qed.

Lemma NoDup_middle_l (l1 l2 hwl : list elm) (e : elm) :
  NoDup ((l1 ++ e :: l2) ++ hwl) -> NoDup ((l1 ++ l2) ++ hwl) /\ e ∉ hwl.
Proof.
  rewrite <- Permutation_middle. cbn. rewrite NoDup_cons, elem_of_app. tauto.
Qed.
Lemma NoDup_middle_r (swl l1 l2 : list elm) (e : elm) :
  NoDup (swl ++ (l1 ++ e :: l2)) -> NoDup (swl ++ (l1 ++ l2)) /\ e ∉ swl.
Proof.
  rewrite (Permutation_app_comm swl), (Permutation_app_comm swl (l1 ++ l2)). apply NoDup_middle_l.
Qed.

Lemma node_at s e bp : nodes s !! e = Some bp -> node s e = OK bp.
Proof. unfold node. by intros ->. Qed.

(** Removing from the list the type lives in. *)
Lemma remove_list_sw s a ad ln :
  similar s a ->
  outcome_rel same_answer (bp_list_remove s GDB_BREAKPOINT_SW ad ln)
    (GdbBreak.bp_list_remove a GDB_BREAKPOINT_SW ad ln).
Proof.
  intros Hsim. pose proof Hsim as (swl & hwl & Hs). pose proof Hs as [Hgm Hnr Hss Hdbg Hsw Hhw Hnd].
  unfold bp_list_remove, GdbBreak.bp_list_remove, bp_list_find, GdbBreak.bp_list_find, bp_list.
  cbn [GDB_BREAKPOINT_SW Z.eqb]. rewrite !bind_OK.
  pose proof (find_in_spec s sw_head ad ln _ _ _ Hsw) as Hf.
  destruct (List.find (matches ad ln) (sw_breakpoints a)) as [bp|] eqn:Ef.
  2:{ rewrite Hf, bind_OK, decide_True by done. done. }
  destruct Hf as (l1 & e & l2 & b1 & b2 & -> & Hb & Hlen & Hb1 & Hm & ->). rewrite Hb in *.
  pose proof (proj2 Hsw) as Hn.
  apply Forall2_app_inv in Hn as [_ Hn]; [|done]. apply Forall2_cons in Hn as [(g & Hg & Hg') _].
  destruct (NoDup_middle_l _ _ _ _ Hnd) as [Hnd' Heh].
  rewrite bind_OK, decide_False, deref_At, bind_OK by done. rewrite (node_at _ _ _ Hg), bind_OK.
  unfold node, set_node. cbn [with_links nodes links]. rewrite lookup_insert_eq, bind_OK.
  cbn [refcount with_refcount with_saved].
  destruct (0 <? u32 (refcount bp - 1)).
  - split; [done|]. exists (l1 ++ e :: l2), hwl. split; cbn; try done.
    + rewrite update_first_split by done. eapply update_list_sim; [exact Hsw|done|].
      exists g. by rewrite lookup_insert_eq.
    + by apply update_other.
  - rewrite (slist_remove_run _ _ _ _ _ _ (proj1 Hsw)), !bind_OK.
    + split; [done|]. exists (l1 ++ l2), hwl. split; cbn; try done.
      * rewrite remove_first_app by done. by eapply remove_list_sim.
      * eapply remove_other; [done|exact Hhw|]. by rewrite (Permutation_app_comm hwl).
    + unfold fuel. cbn [nodes with_links].
      pose proof (holds_length _ _ _ _ (chain_NoDup _ _ _ (proj1 (proj1 Hsw))) (proj2 Hsw)) as Hle.
      rewrite length_app in Hle. cbn in Hle. rewrite map_size_insert_Some by (by eexists). lia.
Qed.

Lemma remove_list_hw s a type ad ln :
  type <> GDB_BREAKPOINT_SW -> is_hw type = true -> similar s a ->
  outcome_rel same_answer (bp_list_remove s type ad ln) (GdbBreak.bp_list_remove a type ad ln).
Proof.
  intros Hty Hhwt Hsim. pose proof Hsim as (swl & hwl & Hs). pose proof Hs as [Hgm Hnr Hss Hdbg Hsw Hhw Hnd].
  apply Z.eqb_neq in Hty. unfold is_hw in Hhwt.
  unfold bp_list_remove, GdbBreak.bp_list_remove, bp_list_find, GdbBreak.bp_list_find, bp_list, is_hw.
  rewrite Hty, Hhwt, !bind_OK.
  pose proof (find_in_spec s hw_head ad ln _ _ _ Hhw) as Hf.
  destruct (List.find (matches ad ln) (hw_breakpoints a)) as [bp|] eqn:Ef.
  2:{ rewrite Hf, bind_OK, decide_True by done. done. }
  destruct Hf as (l1 & e & l2 & b1 & b2 & -> & Hb & Hlen & Hb1 & Hm & ->). rewrite Hb in *.
  pose proof (proj2 Hhw) as Hn.
  apply Forall2_app_inv in Hn as [_ Hn]; [|done]. apply Forall2_cons in Hn as [(g & Hg & Hg') _].
  destruct (NoDup_middle_r _ _ _ _ Hnd) as [Hnd' Heh].
  rewrite bind_OK, decide_False, deref_At, bind_OK by done. rewrite (node_at _ _ _ Hg), bind_OK.
  unfold node, set_node. cbn [with_links nodes links]. rewrite lookup_insert_eq, bind_OK.
  cbn [refcount with_refcount with_saved].
  destruct (0 <? u32 (refcount bp - 1)).
  - split; [done|]. exists swl, (l1 ++ e :: l2). unfold with_list. rewrite Hty. split; cbn; try done.
    + by apply update_other.
    + rewrite update_first_split by done. eapply update_list_sim; [exact Hhw|done|].
      exists g. by rewrite lookup_insert_eq.
  - rewrite (slist_remove_run _ _ _ _ _ _ (proj1 Hhw)), !bind_OK.
    + split; [done|]. exists swl, (l1 ++ l2). split; cbn; try done.
      * by rewrite Hnr.
      * by eapply remove_other.
      * rewrite remove_first_app by done. by eapply remove_list_sim.
    + unfold fuel. cbn [nodes with_links].
      pose proof (holds_length _ _ _ _ (chain_NoDup _ _ _ (proj1 (proj1 Hhw))) (proj2 Hhw)) as Hle.
      rewrite length_app in Hle. cbn in Hle. rewrite map_size_insert_Some by (by eexists). lia.
Qed.

Lemma with_hgm_sim s a m : similar s a -> similar (with_hgm s m) (with_gm a m).
Proof. intros (swl & hwl & []). by exists swl, hwl. Qed.

(** Restoring the byte a breakpoint replaced. *)
Lemma restore_sim s a ad ln :
  similar s a ->
  outcome_rel similar
    (bp ← bp_list_find s GDB_BREAKPOINT_SW ad ln;
     if decide (bp <> NULL) then e ← deref bp; kvm_arch_remove_sw_breakpoint s e else OK s)
    (bp ← GdbBreak.bp_list_find a GDB_BREAKPOINT_SW ad ln;
     match bp with
     | Some bp => GdbBreak.kvm_arch_remove_sw_breakpoint a bp
     | None => OK a
     end).
Proof.
  intros Hsim. pose proof Hsim as (swl & hwl & Hs). pose proof Hs as [Hgm Hnr Hss Hdbg Hsw Hhw Hnd].
  unfold bp_list_find, GdbBreak.bp_list_find, bp_list. cbn [GDB_BREAKPOINT_SW Z.eqb]. rewrite !bind_OK.
  pose proof (find_in_spec s sw_head ad ln _ _ _ Hsw) as Hf.
  destruct (List.find (matches ad ln) (sw_breakpoints a)) as [bp|].
  2:{ rewrite Hf, bind_OK, decide_False by (intros H; by apply H). exact Hsim. }
  destruct Hf as (l1 & e & l2 & b1 & b2 & -> & Hb & Hlen & _ & _ & ->). rewrite Hb in Hsw.
  apply proj2, Forall2_app_inv in Hsw as [_ Hn]; [|done].
  apply Forall2_cons in Hn as [(g & Hg & Hg') _]. specialize (Hg' eq_refl) as ->.
  rewrite bind_OK, decide_True, deref_At, bind_OK by done.
  unfold kvm_arch_remove_sw_breakpoint, GdbBreak.kvm_arch_remove_sw_breakpoint.
  rewrite (node_at _ _ _ Hg), bind_OK, Hgm. cbn [addr with_saved saved_insn].
  do 2 (apply outcome_rel_eq; intros ?). apply outcome_rel_eq. intros m. by apply with_hgm_sim.
Qed.

Lemma remove_sim s a type ad ln :
  similar s a ->
  outcome_rel same_answer (uhyve_gdb_remove_breakpoint s type ad ln)
    (GdbBreak.uhyve_gdb_remove_breakpoint a type ad ln).
Proof.
  intros Hsim. unfold uhyve_gdb_remove_breakpoint, GdbBreak.uhyve_gdb_remove_breakpoint.
  apply outcome_rel_eq. intros _.
  eapply (outcome_rel_bind similar).
  { destruct (Z.eqb_spec type GDB_BREAKPOINT_SW) as [->|]; [by apply restore_sim|exact Hsim]. }
  clear s a Hsim. intros s a Hsim. eapply (outcome_rel_bind same_answer).
  - destruct (Z.eqb_spec type GDB_BREAKPOINT_SW) as [->|Hne]; [by apply remove_list_sw|].
    destruct (is_hw type) eqn:Eh; [by apply remove_list_hw|].
    unfold bp_list_remove, GdbBreak.bp_list_remove, bp_list_find, GdbBreak.bp_list_find, bp_list.
    apply Z.eqb_neq in Hne. rewrite Hne, Eh. unfold is_hw in Eh. by rewrite Eh.
  - intros [ok s'] [ok' a'] [Hok Hs']. cbn [fst snd] in *. subst ok'.
    destruct ok; cbn [negb]; [by apply answer_after_update|done].
Qed.

Lemma add_sim s a type ad ln :
  similar s a ->
  outcome_rel same_answer (uhyve_gdb_add_breakpoint malloc s type ad ln)
    (GdbBreak.uhyve_gdb_add_breakpoint a type ad ln).
Proof.
  intros Hsim. destruct (Z.eqb_spec type GDB_BREAKPOINT_SW) as [->|Hne]; [by apply add_sw_sim|].
  destruct (is_hw type) eqn:Eh; [by apply add_hw_sim|].
  unfold uhyve_gdb_add_breakpoint, GdbBreak.uhyve_gdb_add_breakpoint, bp_list_find, GdbBreak.bp_list_find, bp_list.
  apply outcome_rel_eq. intros _. apply Z.eqb_neq in Hne. rewrite Hne, Eh. unfold is_hw in Eh. by rewrite Eh.
Qed.

Lemma stepping_sim s a b :
  similar s a ->
  outcome_rel similar (uhyve_gdb_update_guest_debug (with_hstepping s b))
    (GdbBreak.uhyve_gdb_update_guest_debug (with_stepping a b)).
Proof. intros (swl & hwl & []). apply update_sim. by exists swl, hwl. Qed.

(** C21. The breakpoint functions as they run on the heap, following and changing
    the pointers of the two lists and freeing the nodes, do exactly what they
    do on plain lists: for every sequence of requests of the debugger both
    give the same answers and end in corresponding states, and they fail an
    assertion or leave defined behaviour together; no node is used after it
    was freed, and what [malloc] leaves in an uninitialised field never
    shows. *)
Theorem breakpoint_lists_refine rs : forall s a,
  similar s a ->
  outcome_rel (fun r r' => r.1 = r'.1 /\ similar r.2 r'.2) (serve malloc rs s) (list_serve rs a).
Proof.
  induction rs as [|r rs IH]; intros s a Hsim; cbn [serve list_serve]; [done|].
  eapply (outcome_rel_bind same_answer).
  - destruct r as [t ad ln|t ad ln| |]; [by apply add_sim|by apply remove_sim|..].
    all: eapply outcome_rel_bind; [by apply stepping_sim|]; by intros.
  - intros [b s1] [b' a1] [Hb H1]. cbn [fst snd] in *. subst b'.
    eapply outcome_rel_bind; [by apply IH|].
    intros [bs s2] [bs' a2] [Hbs H2]. cbn [fst snd] in *. by subst bs'.
Qed.
End Simulation.

(** Nodes handed out in order, with remains of earlier uses in them. *)
Definition bump (s : hstub) : option (elm * Z * ptr elm) :=
  Some (fresh (dom (nodes s)), 0xee, One).

Definition start (m : gmem) : hstub :=
  mkhstub m (SLIST_HEAD_INITIALIZER sw_head (SLIST_HEAD_INITIALIZER hw_head (mkmem ∅ ∅))) ∅ 0 false
    (mkdebug 0 ∅).

Definition witness_requests : list request :=
  [AddBp 0 0x100 1; AddBp 1 0x200 4; AddBp 0 0x104 1; RemoveBp 0 0x100 1; AddBp 2 0x208 8;
   RemoveBp 1 0x200 4; RemoveBp 0 0x300 1; EnableSs].

Lemma breakpoint_lists_refine_witness :
  let m := fresh_mem 0x1000 in
  outcome_rel (fun r r' => r.1 = r'.1 /\ similar r.2 r'.2) (serve bump witness_requests (start m))
    (list_serve witness_requests (mkstub m [] [] 0 false (mkdebug 0 ∅))) /\
  match serve bump witness_requests (start m) with
  | OK (bs, s) => bs = [true; true; true; true; true; true; false; true] /\ size (nodes s) = 2%nat
  | _ => False
  end.
Proof.
  intros m. split; [|vm_compute; auto].
  apply (breakpoint_lists_refine bump).
  - intros s. exists (fresh (dom (nodes s))), 0xee, One. split; [done|].
    apply not_elem_of_dom, is_fresh.
  - exists [], []. repeat split; by constructor.
Defined.

(** A fifth hardware breakpoint is refused, and its node is lost: it is in no
    list and nobody frees it. *)
Example fifth_hw_breakpoint_leaks :
  match serve bump [AddBp 1 1 1; AddBp 1 2 1; AddBp 1 3 1; AddBp 1 4 1; AddBp 1 5 1; RemoveBp 1 1 1;
                    RemoveBp 1 2 1; RemoveBp 1 3 1; RemoveBp 1 4 1] (start (fresh_mem 0x1000)) with
  | OK (bs, s) => bs = [true; true; true; true; false; true; true; true; true] /\
      SLIST_EMPTY (links s) hw_head = OK true /\ size (nodes s) = 1%nat
  | _ => False
  end.
Proof. vm_compute. auto. Qed.
