(* ===== verification/Shutdown.v ===== *)
(** * The end of the process

    How uhyve ends: [uhyve_exit], [uhyve_atexit], [close_fd] and
    [sigterm_handler] (src/uhyve.c) as steps of the vCPU threads, the two
    network threads and the migration thread.  A thread leaves its loop when
    the guest exits or halts: the main thread through [exit], which runs
    [uhyve_atexit], any other through the cleanup handler [uhyve_exit] of
    [uhyve_thread].  An error ([err], [exit(EXIT_FAILURE)]) is a call of [exit]
    on any core.  After a migration its thread calls [exit].  The first of
    them takes [kvm_lock] and sends SIGTERM to the cores and the network
    threads. *)

From stdpp Require Import functions.
From S2P Require Import Prelude Freeze.

Open Scope nat_scope.

(** ** State *)

(** Who called [uhyve_exit]: the thread's cleanup handler or [exit]. *)
Inductive caller := Cleanup | AtExit.

(** Where a thread is: in its loop; in [uhyve_exit], about to try the lock, to
    signal thread [i], to signal the network threads, to close [vcpufd]; in
    the loop of [uhyve_atexit] that joins thread [i], or behind it; gone. *)
Inductive thread_pc :=
| InLoop
| TryLock (c : caller)
| Kill (c : caller) (i : nat)
| KillNet (c : caller)
| CloseVcpu (c : caller)
| Join (i : nat)
| CloseVm
| Gone.

Inductive descriptor := VcpuFd (i : nat) | VmFd | KvmFd.

(** The process: running, ended with a status, or beyond what POSIX defines. *)
Inductive process := Alive | Ended (status : Z) | Broken.

#[export] Instance caller_eq_dec : EqDecision caller.
Proof. solve_decision. Defined.
#[export] Instance thread_pc_eq_dec : EqDecision thread_pc.
Proof. solve_decision. Defined.
#[export] Instance descriptor_eq_dec : EqDecision descriptor.
Proof. solve_decision. Defined.
#[export] Instance process_eq_dec : EqDecision process.
Proof. solve_decision. Defined.

(** [kvm_lock] is taken; the threads, with the SIGTERMs pending; the
    descriptors that are not -1 and those closed so far; what [exit] was
    called with. *)
Record proc_state := mkproc {
  kvm_lock : bool;
  at_ : nat -> thread_pc;
  pending : nat -> bool;
  is_open : descriptor -> bool;
  closed : list descriptor;
  status : option Z;
  process_state : process
}.

Definition at_pc (i : nat) (p : thread_pc) (s : proc_state) : proc_state :=
  mkproc (kvm_lock s) (<[i := p]> (at_ s)) (pending s) (is_open s) (closed s) (status s) (process_state s).
Definition set_pending (i : nat) (b : bool) (s : proc_state) : proc_state :=
  mkproc (kvm_lock s) (at_ s) (<[i := b]> (pending s)) (is_open s) (closed s) (status s) (process_state s).
Definition take_lock (s : proc_state) : proc_state :=
  mkproc true (at_ s) (pending s) (is_open s) (closed s) (status s) (process_state s).
Definition exit_with (c : Z) (s : proc_state) : proc_state :=
  mkproc (kvm_lock s) (at_ s) (pending s) (is_open s) (closed s) (Some c) (process_state s).
Definition set_process (p : process) (s : proc_state) : proc_state :=
  mkproc (kvm_lock s) (at_ s) (pending s) (is_open s) (closed s) (status s) p.

(** [close_fd]: close the descriptor unless that has been done. *)
Definition close_fd (d : descriptor) (s : proc_state) : proc_state :=
  if is_open s d then
    mkproc (kvm_lock s) (at_ s) (pending s) (fun d' => if decide (d' = d) then false else is_open s d')
      (closed s ++ [d]) (status s) (process_state s)
  else s.

(** What a shell reports for a process that SIGTERM has ended. *)
Definition SIGNALLED : Z := 143.

Section Shutdown.
(** The number of vCPUs; whether there is a network device ([netfd > 0]) and
    whether the guest has configured it, which starts the network threads
    ([check_network]); whether there is a migration thread
    ([HERMIT_MIGRATION_SUPPORT]).  Threads [ncores] and [ncores + 1] are the
    network threads, the last one is the migration thread. *)
Context (ncores : nat) (netfd net_started migration : bool).
(** The cores whose loop ends with an error, if they leave it. *)
Context (fails : nat -> bool).

(** The threads that a shutdown signals, all threads. *)
Definition ntargets : nat := if net_started then ncores + 2 else ncores.
Definition nthreads : nat := if migration then S ntargets else ntargets.

(** The threads that end in [exit]: the main thread, the failing cores and the
    migration thread. *)
Definition exits (i : nat) : bool := (i =? 0) || ((i <? ncores) && fails i) || (migration && (i =? ntargets)).

Definition all_gone (s : proc_state) : bool :=
  forallb (fun i => bool_decide (at_ s i = Gone)) (seq 0 nthreads).

(** A thread terminates.  When the last one does, the process behaves as if
    that thread called [exit(0)]; a second call of [exit] is undefined. *)
Definition thread_end (i : nat) (s : proc_state) : proc_state :=
  let s' := at_pc i Gone s in
  if all_gone s' then
    match status s with
    | None => at_pc i (TryLock AtExit) (exit_with 0 s)
    | Some _ => set_process Broken s'
    end
  else s'.

(** A thread leaves its loop: a hypercall [UHYVE_PORT_EXIT], or a halt.  Its
    [pthread_exit] or return runs the cleanup handler; the main thread and a
    failing core call [exit] with [c], or [c] is returned from [main].  The migration thread calls
    [exit] at the end of [migration_handler]. *)
Definition leave (i : nat) (c : Z) (s : proc_state) : proc_state :=
  if exits i then at_pc i (TryLock AtExit) (exit_with c s) else at_pc i (TryLock Cleanup) s.

(** The calling thread's next statement in [uhyve_exit], [uhyve_atexit] and the
    end of [exit]; [None] while a join waits. *)
Definition uhyve_exit_step (i : nat) (s : proc_state) : option proc_state :=
  match at_ s i with
  | TryLock c =>
      if kvm_lock s then Some (at_pc i (CloseVcpu c) s)
      else Some (at_pc i (Kill c 0) (take_lock s))
  | Kill c j =>
      if j =? ncores then Some (at_pc i (KillNet c) s)
      else if j =? i then Some (at_pc i (Kill c (S j)) s)
      else Some (at_pc i (Kill c (S j)) (set_pending j true s))
  | KillNet c =>
      if negb netfd then Some (at_pc i (CloseVcpu c) s)
      else if net_started then
        Some (at_pc i (CloseVcpu c) (set_pending ncores true (set_pending (ncores + 1) true s)))
      else Some (set_process Broken s)
  | CloseVcpu c =>
      let s := close_fd (VcpuFd i) s in
      Some (match c with Cleanup => thread_end i s | AtExit => at_pc i (Join 0) s end)
  | _ => None
  end.

Definition uhyve_atexit_step (i : nat) (s : proc_state) : option proc_state :=
  match at_ s i with
  | Join j =>
      if j =? ncores then Some (at_pc i CloseVm s)
      else if (j =? i) || bool_decide (at_ s j = Gone) then Some (at_pc i (Join (S j)) s)
      else None
  | CloseVm =>
      let s := close_fd KvmFd (close_fd VmFd s) in
      Some (set_process (Ended (default 0%Z (status s))) s)
  | _ => uhyve_exit_step i s
  end.

(** The handler runs [pthread_exit]: in the loop of a vCPU thread that calls
    the cleanup handler, which only the main and the network threads do not
    have; anywhere else it ends the thread, in a call of [exit] too. *)
Definition sigterm_handler (i : nat) (s : proc_state) : proc_state :=
  let s := set_pending i false s in
  match at_ s i with
  | InLoop => if (i =? 0) || (ncores <=? i) then thread_end i s else at_pc i (TryLock Cleanup) s
  | _ => thread_end i s
  end.

(** The actions of the signals that end the process from outside: [env_init]
    (main.c) installs [exit_handler], which calls [exit(0)], for both, then
    [uhyve_init] installs [sigterm_handler]. *)
Inductive signal := SIGINT | SIGTERM.
Inductive sig_action := SIG_DFL | ExitHandler | SigtermHandler.
#[export] Instance signal_eq_dec : EqDecision signal.
Proof. solve_decision. Defined.

Definition sigaction (sg : signal) (h : sig_action) (a : signal -> sig_action) : signal -> sig_action :=
  fun sg' => if decide (sg' = sg) then h else a sg'.
Definition env_init (a : signal -> sig_action) : signal -> sig_action :=
  sigaction SIGTERM ExitHandler (sigaction SIGINT ExitHandler a).
Definition uhyve_init (a : signal -> sig_action) : signal -> sig_action := sigaction SIGTERM SigtermHandler a.
Definition actions : signal -> sig_action := uhyve_init (env_init (fun _ => SIG_DFL)).

(** A signal for the process, which the kernel gives to the main thread. *)
Definition from_outside (sg : signal) (s : proc_state) : proc_state :=
  match actions sg with
  | SIG_DFL => set_process (Ended SIGNALLED) s
  | ExitHandler => leave 0 0 s
  | SigtermHandler => sigterm_handler 0 s
  end.

Inductive event := Leave (i : nat) (c : Z) | Sigterm (i : nat) | Go (i : nat).

(** A pending signal is handled before the thread's next statement. *)
Definition step (e : event) (s : proc_state) : option proc_state :=
  if decide (process_state s <> Alive) then None
  else
    match e with
    | Leave i c =>
        if ((i <? ncores) || exits i) && bool_decide (at_ s i = InLoop) && negb (pending s i)
        then Some (leave i c s) else None
    | Sigterm i =>
        if (i <? nthreads) && pending s i && negb (bool_decide (at_ s i = Gone))
        then Some (sigterm_handler i s) else None
    | Go i => if (i <? nthreads) && negb (pending s i) then uhyve_atexit_step i s else None
    end.

Fixpoint run (es : list event) (s : proc_state) : option proc_state :=
  match es with [] => Some s | e :: es => s ← step e s; run es s end.

(** All threads run. *)
Definition running : proc_state :=
  mkproc false (fun i => if i <? nthreads then InLoop else Gone) (fun _ => false)
    (fun d => match d with VcpuFd i => i <? ncores | _ => true end) [] None Alive.

(** ** The descriptors *)

(** What is open has not been closed, nothing was closed twice. *)
Record fds_inv (s : proc_state) : Prop := {
  fds_once : NoDup (closed s);
  fds_open : forall d, is_open s d = true -> d ∉ closed s;
  fds_vm : forall d, d = VmFd \/ d = KvmFd -> is_open s d = false -> d ∈ closed s;
  fds_end : forall c, process_state s = Ended c -> is_open s VmFd = false /\ is_open s KvmFd = false
}.

Lemma close_fd_inv d s : process_state s = Alive -> fds_inv s -> fds_inv (close_fd d s).
Proof.
  intros Hp [H1 H2 H3 H4]. unfold close_fd. destruct (is_open s d) eqn:E; [|done].
  split; cbn.
  - apply NoDup_app. split; [done|]. split; [|apply NoDup_singleton].
    intros d' Hd' ->%list_elem_of_singleton. by apply (H2 d).
  - intros d' Hd'. case_decide as Ed; [done|]. intros [H|H%list_elem_of_singleton]%elem_of_app; [|done].
    by apply (H2 d').
  - intros d' Hd' Ho. apply elem_of_app. case_decide as Ed; [right; subst; left|left; auto].
  - intros c Hc. congruence.
Qed.

(** Steps that touch neither the descriptors nor the process. *)
Definition same_fds (s s' : proc_state) : Prop :=
  is_open s' = is_open s /\ closed s' = closed s /\ forall c, process_state s' <> Ended c.
Lemma same_fds_inv s s' : fds_inv s -> same_fds s s' -> fds_inv s'.
Proof.
  intros [H1 H2 H3 H4] (E1 & E2 & E3). split; rewrite ?E1, ?E2; auto. intros c Hc. by destruct (E3 c).
Qed.

Lemma thread_end_fds i s : process_state s = Alive -> same_fds s (thread_end i s).
Proof.
  intros Hp. unfold thread_end, same_fds. destruct (all_gone _); [destruct (status s)|]; cbn; rewrite ?Hp; done.
Qed.

Lemma close_fd_process d s : process_state (close_fd d s) = process_state s.
Proof. unfold close_fd. by destruct (is_open s d). Qed.

Lemma close_fd_closes d s : is_open (close_fd d s) d = false.
Proof. unfold close_fd. destruct (is_open s d) eqn:E; cbn; [by rewrite decide_True|done]. Qed.
Lemma close_fd_keeps d d' s : is_open s d = false -> is_open (close_fd d' s) d = false.
Proof. unfold close_fd. destruct (is_open s d') eqn:E; cbn; [|done]. intros H. by case_decide. Qed.

Lemma step_fds e s s' : step e s = Some s' -> fds_inv s -> fds_inv s'.
Proof.
  intros H Hi. unfold step in H. case_decide as Hp; [done|].
  assert (forall t, same_fds s t -> fds_inv t) as Hsame by (intros t; by apply same_fds_inv).
  assert (forall f : proc_state -> proc_state, (forall t, is_open (f t) = is_open t) ->
    (forall t, closed (f t) = closed t) -> (forall t, process_state (f t) = process_state t) ->
    same_fds s (f s)) as Hf.
  { intros f H1 H2 H3. split; [done|]. split; [done|]. intros c. by rewrite H3, Hp. }
  destruct e as [i c|i|i]; cbn in H.
  - destruct ((_ && _) && _)%bool; [|done]. injection H as <-. apply Hsame, (Hf (leave i c)); intros t; unfold leave;
      by destruct (exits i).
  - destruct ((_ && _) && _)%bool; [|done]. injection H as <-. unfold sigterm_handler.
    assert (fds_inv (set_pending i false s)) as Hi' by (by apply Hsame, (Hf (set_pending i false))).
    pose proof (thread_end_fds i (set_pending i false s) Hp) as Ht.
    destruct (at_ _ i); try (by eapply same_fds_inv).
    destruct ((i =? 0) || (ncores <=? i))%bool; [by eapply same_fds_inv|].
    apply Hsame, (Hf (fun t => at_pc i (TryLock Cleanup) (set_pending i false t))); done.
  - destruct (_ && _)%bool; [|done].
    unfold uhyve_atexit_step, uhyve_exit_step in H. destruct (at_ s i) as [|c|c j|c|c|j| |] eqn:Ea; try done.
    + destruct (kvm_lock s); injection H as <-; apply Hsame.
      * by apply (Hf (at_pc i (CloseVcpu c))).
      * by apply (Hf (fun t => at_pc i (Kill c 0) (take_lock t))).
    + destruct (j =? ncores); [|destruct (j =? i)]; injection H as <-; apply Hsame.
      * by apply (Hf (at_pc i (KillNet c))).
      * by apply (Hf (at_pc i (Kill c (S j)))).
      * by apply (Hf (fun t => at_pc i (Kill c (S j)) (set_pending j true t))).
    + destruct (negb netfd); [|destruct net_started]; injection H as <-; apply Hsame.
      * by apply (Hf (at_pc i (CloseVcpu c))).
      * by apply (Hf (fun t => at_pc i (CloseVcpu c) (set_pending ncores true (set_pending (ncores + 1) true t)))).
      * by split.
    + pose proof (close_fd_inv (VcpuFd i) s Hp Hi) as Hc.
      assert (process_state (close_fd (VcpuFd i) s) = Alive) as Hp' by by rewrite close_fd_process.
      destruct c; injection H as <-.
      * eapply same_fds_inv; [exact Hc|by apply thread_end_fds].
      * eapply same_fds_inv; [exact Hc|]. split; [done|]. split; [done|]. intros c. cbn. by rewrite Hp'.
    + destruct (j =? ncores); [|destruct (_ || _)%bool; [|done]]; injection H as <-; apply Hsame.
      * by apply (Hf (at_pc i CloseVm)).
      * by apply (Hf (at_pc i (Join (S j)))).
    + injection H as <-.
      assert (process_state (close_fd VmFd s) = Alive) as Hp' by by rewrite close_fd_process.
      destruct (close_fd_inv KvmFd _ Hp' (close_fd_inv VmFd s Hp Hi)) as [H1 H2 H3 _].
      split; cbn; auto. intros _ _. split; [apply close_fd_keeps|]; apply close_fd_closes.
Qed.

(** ** Who does what *)

(** The thread that has taken the lock: its caller, and its way. *)
Definition leader_caller (L : nat) : caller := if exits L then AtExit else Cleanup.
Definition leader_pc (L : nat) (p : thread_pc) : Prop :=
  match p with
  | Kill c j => c = leader_caller L /\ j <= ncores
  | KillNet c | CloseVcpu c => c = leader_caller L
  | Join j => exits L = true /\ j <= ncores
  | CloseVm => exits L = true
  | Gone => exits L = false
  | _ => False
  end.
(** Any other thread meanwhile. *)
Definition follower_pc (i : nat) (p : thread_pc) : Prop :=
  match p with
  | InLoop | Gone => True
  | TryLock Cleanup | CloseVcpu Cleanup => i <> 0 /\ i < ncores
  | _ => False
  end.
(** The leader has signalled thread [j]. *)
Definition signalled (p : thread_pc) (j : nat) : Prop :=
  match p with Kill _ i => j < i | KillNet _ => j < ncores | _ => True end.

(** While the leader [L] shuts the others down; [c] is what the main thread
    called [exit] with, if that is the leader. *)
Record leading (c : Z) (L : nat) (s : proc_state) : Prop := {
  ld_lock : kvm_lock s = true;
  ld_core : L < ncores \/ L = ntargets;
  ld_thread : L < nthreads;
  ld_waits : exits L = true \/ migration = false;
  ld_pending : pending s L = false;
  ld_pc : leader_pc L (at_ s L);
  ld_status : status s = if exits L then Some c else None;
  ld_others : forall i, i < nthreads -> i <> L -> follower_pc i (at_ s i);
  ld_signalled : forall i, i < ntargets -> i <> L -> signalled (at_ s L) i -> at_ s i = InLoop ->
    pending s i = true;
  ld_alive : exists i, i < nthreads /\ at_ s i <> Gone
}.

(** After a leader other than the main thread: the last thread [f] is in
    [exit(0)]. *)
Record finishing (f : nat) (s : proc_state) : Prop := {
  fn_lock : kvm_lock s = true;
  fn_thread : f < nthreads;
  fn_pending : pending s f = false;
  fn_pc : match at_ s f with
          | TryLock AtExit | CloseVcpu AtExit | CloseVm => True
          | Join j => j <= ncores
          | _ => False
          end;
  fn_status : status s = Some 0%Z;
  fn_others : forall i, i < nthreads -> i <> f -> at_ s i = Gone
}.

Definition shutting (c : Z) (L : nat) (s : proc_state) : Prop :=
  leading c L s \/ (exits L = false /\ exists f, finishing f s).

Lemma ntargets_le : ncores <= ntargets.
Proof. unfold ntargets. destruct net_started; lia. Qed.
Lemma nthreads_le : ntargets <= nthreads.
Proof. unfold nthreads. destruct migration; lia. Qed.
Lemma exits_main i : exits i = false -> i <> 0.
Proof. intros H ->. unfold exits in H. done. Qed.

Lemma all_gone_spec s : all_gone s = true <-> forall i, i < nthreads -> at_ s i = Gone.
Proof.
  unfold all_gone. rewrite forallb_forall. split; intros H i Hi.
  - apply (bool_decide_eq_true_1 _), H, in_seq. lia.
  - apply bool_decide_eq_true_2, H. apply in_seq in Hi. lia.
Qed.

Lemma leader_not_gone L s : leader_pc L (at_ s L) -> exits L = true -> at_ s L <> Gone.
Proof. intros H Hx E. rewrite E in H. cbn in H. congruence. Qed.

(** A thread that is not the main leader ends, in a state [t] that is [s] up to
    its own signal. *)
Lemma thread_end_shutting c L i s t :
  leading c L s -> i < nthreads -> (i = L -> exits L = false /\ signalled (at_ s L) (S ncores)) ->
  kvm_lock t = kvm_lock s -> at_ t = at_ s -> status t = status s ->
  (forall j, j <> i -> pending t j = pending s j) -> pending t i = false ->
  shutting c L (thread_end i t) /\ process_state (thread_end i t) = process_state t.
Proof.
  intros [Hlock Hcore Hthr Hmw Hpend Hpc Hst Hoth Hsig Hal] Hi HL El Ea Es Ep Hp. unfold thread_end.
  destruct (all_gone (at_pc i Gone t)) eqn:Eg.
  - rewrite all_gone_spec in Eg. cbn in Eg. rewrite Ea in Eg.
    assert (exits L = false) as HL0.
    { apply not_true_iff_false. intros E. destruct (decide (i = L)) as [->|Hne]; [destruct (HL eq_refl); congruence|].
      specialize (Eg L Hthr). rewrite fn_lookup_insert_ne in Eg by done.
      by apply (leader_not_gone L s). }
    rewrite Es, Hst. rewrite HL0.
    split; [|done]. right. split; [done|]. exists i. split; cbn; auto; [by rewrite El|..].
    + by rewrite fn_lookup_insert.
    + intros j Hj Hji. specialize (Eg j Hj). rewrite Ea. by rewrite !fn_lookup_insert_ne in * by done.
  - split; [|done]. left.
    assert (exists j, j < nthreads /\ at_ (at_pc i Gone t) j <> Gone) as Hex.
    { destruct (decide (Exists (fun j => at_ (at_pc i Gone t) j <> Gone) (seq 0 nthreads))) as [E|E].
      - apply Exists_exists in E as (j & Hj%elem_of_seq & E). exists j. split; [lia|done].
      - exfalso. apply not_true_iff_false in Eg. apply Eg, all_gone_spec. intros j Hj.
        destruct (decide (at_ (at_pc i Gone t) j = Gone)) as [|N]; [done|]. destruct E. apply Exists_exists.
        exists j. split; [apply elem_of_seq; lia|done]. }
    split; cbn in *; rewrite ?El, ?Es; auto; rewrite ?Ea in *.
    + destruct (decide (i = L)) as [->|Hne]; [done|]. by rewrite Ep by done.
    + destruct (decide (i = L)) as [->|Hne]; [rewrite fn_lookup_insert; by apply HL|].
      by rewrite fn_lookup_insert_ne.
    + intros j Hj Hne. destruct (decide (i = j)) as [->|Hne2]; [by rewrite fn_lookup_insert|].
      rewrite fn_lookup_insert_ne by done. auto.
    + intros j Hj Hne Hs Hin. destruct (decide (i = j)) as [->|Hne2].
      * by rewrite fn_lookup_insert in Hin.
      * rewrite fn_lookup_insert_ne in Hin by done. rewrite Ep by done. apply Hsig; try done.
        destruct (decide (i = L)) as [->|HiL].
        -- destruct (HL eq_refl) as [_ Hs2]. destruct (at_ s L); cbn in *; try done; lia.
        -- by rewrite fn_lookup_insert_ne in Hs by done.
Qed.

(** A follower moves within [uhyve_exit], or into it. *)
Lemma follower_moves c L i p s :
  leading c L s -> i <> L -> follower_pc i p -> p <> InLoop -> p <> Gone -> i < nthreads ->
  leading c L (at_pc i p s).
Proof.
  intros [Hlock Hcore Hthr Hmw Hpend Hpc Hst Hoth Hsig Hal] HiL Hp Hin Hg Hi. split; cbn; auto.
  - by rewrite fn_lookup_insert_ne.
  - intros j Hj Hne. destruct (decide (i = j)) as [->|Hij]; [by rewrite fn_lookup_insert|].
    rewrite fn_lookup_insert_ne by done. auto.
  - intros j Hj Hne. rewrite fn_lookup_insert_ne by done. intros Hs Hl.
    destruct (decide (i = j)) as [->|Hij]; [by rewrite fn_lookup_insert in Hl|].
    rewrite fn_lookup_insert_ne in Hl by done. auto.
  - exists i. by rewrite fn_lookup_insert.
Qed.

(** The leader moves on, with the signals [P] sent. *)
Lemma leader_moves c L p (P : nat -> bool) s :
  leading c L s -> leader_pc L p -> p <> Gone ->
  (forall i, i <> L -> i < ntargets -> pending s i = true -> P i = true) -> P L = false ->
  (forall i, i <> L -> i < ntargets -> signalled p i -> ~ signalled (at_ s L) i -> P i = true) ->
  leading c L (mkproc (kvm_lock s) (<[L := p]> (at_ s)) P (is_open s) (closed s) (status s) (process_state s)).
Proof.
  intros [Hlock Hcore Hthr Hmw Hpend Hpc Hst Hoth Hsig Hal] Hp Hg HP HPL Hs. split; cbn; auto.
  - by rewrite fn_lookup_insert.
  - intros j Hj Hne. rewrite fn_lookup_insert_ne by done. auto.
  - intros j Hj Hne. rewrite fn_lookup_insert, fn_lookup_insert_ne by done. intros Hsj Hl.
    assert (signalled (at_ s L) j \/ ~ signalled (at_ s L) j) as [|] by (destruct (at_ s L); cbn; lia || tauto).
    + by apply HP, Hsig.
    + by apply Hs.
  - exists L. by rewrite fn_lookup_insert.
Qed.

Lemma set_pending_leading c L i s :
  leading c L s -> i <> L -> at_ s i <> InLoop -> leading c L (set_pending i false s).
Proof.
  intros [Hlock Hcore Hthr Hmw Hpend Hpc Hst Hoth Hsig Hal] HiL Hin. split; cbn; auto.
  - by rewrite fn_lookup_insert_ne.
  - intros j Hj Hne Hs Hl. rewrite fn_lookup_insert_ne by congruence. auto.
Qed.

Lemma close_fd_leading c L d s : leading c L s -> leading c L (close_fd d s).
Proof. intros []. unfold close_fd. destruct (is_open s d); [|done]. by split. Qed.

(** Where the process can be after a step. *)
Definition proceeds (c : Z) (L : nat) (s : proc_state) : Prop :=
  shutting c L s /\
  (process_state s = Alive \/ process_state s = Ended (if exits L then c else 0%Z)).

Lemma leave_shutting c L i x s :
  leading c L s -> process_state s = Alive -> exits i = false -> i < ncores -> at_ s i = InLoop ->
  proceeds c L (leave i x s).
Proof.
  intros Hl Hp Hi Hic Hin. unfold leave. rewrite Hi.
  apply exits_main in Hi.
  split; [|by left]. left. pose proof nthreads_le. pose proof ntargets_le. apply follower_moves; auto; [|done|lia].
  intros ->. pose proof (ld_pc _ _ _ Hl) as H'. by rewrite Hin in H'.
Qed.

Lemma thread_end_proceeds c L i s t :
  leading c L s -> process_state t = Alive -> i < nthreads ->
  (i = L -> exits L = false /\ signalled (at_ s L) (S ncores)) ->
  kvm_lock t = kvm_lock s -> at_ t = at_ s -> status t = status s ->
  (forall j, j <> i -> pending t j = pending s j) -> pending t i = false ->
  proceeds c L (thread_end i t).
Proof.
  intros Hl Hp Hi HL El Ea Es Ep Hpi.
  destruct (thread_end_shutting c L i s t Hl Hi HL El Ea Es Ep Hpi) as [H E].
  split; [done|]. rewrite E. by left.
Qed.

Lemma sigterm_shutting c L i s :
  leading c L s -> process_state s = Alive -> i < nthreads -> pending s i = true -> at_ s i <> Gone ->
  proceeds c L (sigterm_handler i s).
Proof.
  intros Hl Hp Hi Hpe Hg.
  assert (i <> L) as HiL by (intros ->; pose proof (ld_pending _ _ _ Hl); congruence).
  assert (proceeds c L (thread_end i (set_pending i false s))) as Hend.
  { apply (thread_end_proceeds c L i s); try done; cbn.
    - intros j Hj. by rewrite fn_lookup_insert_ne.
    - by rewrite fn_lookup_insert. }
  unfold sigterm_handler. cbn [at_ set_pending]. destruct (at_ s i) eqn:Ea; try exact Hend.
  destruct ((i =? 0) || (ncores <=? i))%bool eqn:Eb; [exact Hend|].
  apply orb_false_iff in Eb as [Eb1 Eb2%Nat.leb_gt].
  apply Nat.eqb_neq in Eb1. split; [|by left]. left.
  assert (leading c L (at_pc i (TryLock Cleanup) s)) as H by (by apply follower_moves).
  apply (set_pending_leading c L i) in H; [|done|cbn; by rewrite fn_lookup_insert]. exact H.
Qed.

Lemma follower_goes c L i s s' :
  leading c L s -> process_state s = Alive -> i < nthreads -> i <> L -> pending s i = false ->
  uhyve_atexit_step i s = Some s' -> proceeds c L s'.
Proof.
  intros Hl Hp Hi HiL Hpe H. pose proof (ld_others _ _ _ Hl i Hi HiL) as Hf.
  unfold uhyve_atexit_step, uhyve_exit_step in H.
  destruct (at_ s i) as [|[]|x j|x|[]|j| |] eqn:Ea; try done; cbn in Hf.
  - rewrite (ld_lock _ _ _ Hl) in H. injection H as <-. split; [|by left]. left. by apply follower_moves.
  - injection H as <-. pose proof (close_fd_leading c L (VcpuFd i) s Hl) as Hl'.
    apply (thread_end_proceeds c L i (close_fd (VcpuFd i) s)); try done; [by rewrite close_fd_process|].
    unfold close_fd. by destruct (is_open _ _).
Qed.

(** What remains is the same after [close_fd]. *)
Lemma close_fd_frame d s :
  at_ (close_fd d s) = at_ s /\ pending (close_fd d s) = pending s /\ kvm_lock (close_fd d s) = kvm_lock s /\
  status (close_fd d s) = status s.
Proof. unfold close_fd. by destruct (is_open s d). Qed.

Lemma leader_goes c L s s' :
  netfd = net_started -> leading c L s -> process_state s = Alive ->
  uhyve_atexit_step L s = Some s' -> proceeds c L s'.
Proof.
  intros Hnet Hl Hp H. pose proof Hl as [Hlock Hcore Hthr Hmw Hpend Hpc Hst Hoth Hsig Hal].
  unfold uhyve_atexit_step, uhyve_exit_step in H.
  destruct (at_ s L) as [|x|x j|x|x|j| |] eqn:Ea; cbn in Hpc; try done; try discriminate H.
  - destruct Hpc as [-> Hj]. destruct (Nat.eqb_spec j ncores) as [Ej|Hjn];
      [|destruct (Nat.eqb_spec j L) as [Ej|HjL]]; injection H as <-.
    + split; [|by left]. left. apply leader_moves; auto; try done.
      intros i HiL Hi. rewrite Ea. cbn. lia.
    + split; [|by left]. left. apply leader_moves; auto; try (cbn; split; [done|lia]); try done.
      intros i HiL Hi. rewrite Ea. cbn. lia.
    + split; [|by left]. left. unfold at_pc, set_pending. cbn. apply leader_moves; auto; try (cbn; split; [done|lia]); try done.
      * intros i HiL Hi Hpi. destruct (decide (i = j)) as [->|]; [by rewrite fn_lookup_insert|by rewrite fn_lookup_insert_ne].
      * by rewrite fn_lookup_insert_ne.
      * intros i HiL Hi. rewrite Ea. cbn. intros H1 H2. replace i with j by lia. by rewrite fn_lookup_insert.
  - subst x. destruct netfd; cbn in H.
    + rewrite <- Hnet in H. injection H as <-. split; [|by left]. left. unfold at_pc, set_pending. cbn.
      apply leader_moves; auto; try done.
      * intros i HiL Hi Hpi. destruct (decide (i = ncores)) as [->|]; [by rewrite fn_lookup_insert|].
        rewrite fn_lookup_insert_ne by done.
        destruct (decide (i = ncores + 1)) as [->|]; [by rewrite fn_lookup_insert|by rewrite fn_lookup_insert_ne].
      * unfold ntargets in Hcore. rewrite <- Hnet in Hcore. rewrite !fn_lookup_insert_ne by lia. done.
      * intros i HiL Hi. rewrite Ea. cbn. intros _ Hn. unfold ntargets in Hi. rewrite <- Hnet in Hi.
        destruct (decide (i = ncores)) as [->|]; [by rewrite fn_lookup_insert|].
        rewrite fn_lookup_insert_ne by done. replace i with (ncores + 1) by lia. by rewrite fn_lookup_insert.
    + injection H as <-. split; [|by left]. left. apply leader_moves; auto; try done.
      intros i HiL Hi. rewrite Ea. cbn. intros _ Hn. unfold ntargets in Hi. rewrite <- Hnet in Hi. lia.
  - subst x. destruct (close_fd_frame (VcpuFd L) s) as (E1 & E2 & E3 & E4).
    pose proof (close_fd_leading c L (VcpuFd L) s Hl) as Hl'.
    unfold leader_caller in H. destruct (exits L) eqn:HL; injection H as <-.
    + split; [|left; cbn; by rewrite close_fd_process]. left.
      apply leader_moves; auto; try (cbn; split; [done|lia]); try done; try (by rewrite E2).
      intros i HiL Hi. rewrite E1, Ea. cbn. done.
    + apply (thread_end_proceeds c L L (close_fd (VcpuFd L) s)); auto.
      * by rewrite close_fd_process.
      * rewrite E1, Ea. done.
      * by rewrite E2.
  - destruct Hpc as [HL Hj]. destruct (Nat.eqb_spec j ncores) as [Ej|Hjn]; [|destruct (_ || _)%bool; [|done]];
      injection H as <-; (split; [|by left]); left; apply leader_moves; auto; try done; try (cbn; split; [done|lia]);
      intros i HiL Hi; rewrite Ea; done.
  - injection H as <-. split; [|right; cbn; by rewrite !(proj2 (proj2 (proj2 (close_fd_frame _ _)))), Hst, Hpc].
    left. pose proof (close_fd_leading c L KvmFd _ (close_fd_leading c L VmFd s Hl)) as Hl'. by destruct Hl'.
Qed.

Lemma finishing_goes c L f i s s' :
  exits L = false -> finishing f s -> process_state s = Alive -> i < nthreads -> uhyve_atexit_step i s = Some s' ->
  proceeds c L s'.
Proof.
  intros HL [Hlock Hf Hpend Hpc Hst Hoth] Hp Hi H. unfold uhyve_atexit_step, uhyve_exit_step in H.
  destruct (decide (i = f)) as [->|Hne]; [|by rewrite (Hoth i Hi Hne) in H].
  assert (forall p t, match p with TryLock AtExit | CloseVcpu AtExit | CloseVm => True
            | Join j => j <= ncores | _ => False end -> at_ t = at_ s -> pending t = pending s ->
            kvm_lock t = kvm_lock s -> status t = status s -> process_state t = process_state s ->
            proceeds c L (at_pc f p t)) as Hmove.
  { intros p t Hp1 E1 E2 E3 E4 E5. split; [|left; cbn; congruence]. right. split; [done|]. exists f.
    split; cbn; rewrite ?E1, ?E2, ?E3, ?E4; auto; [by rewrite fn_lookup_insert|].
    intros j Hj Hjf. rewrite fn_lookup_insert_ne by done. auto. }
  destruct (at_ s f) as [|[]|x j|x|[]|j| |] eqn:Ea; try done.
  - rewrite Hlock in H. injection H as <-. by apply Hmove.
  - injection H as <-. destruct (close_fd_frame (VcpuFd f) s) as (E1 & E2 & E3 & E4).
    apply Hmove; auto; [lia|by rewrite close_fd_process].
  - destruct (Nat.eqb_spec j ncores) as [Ej|Hjn]; [|destruct (_ || _)%bool; [|done]]; injection H as <-; apply Hmove; auto.
    lia.
  - injection H as <-. destruct (close_fd_frame VmFd s) as (E1 & E2 & E3 & E4).
    destruct (close_fd_frame KvmFd (close_fd VmFd s)) as (F1 & F2 & F3 & F4).
    split; [|right; cbn; by rewrite F4, E4, Hst, HL].
    right. split; [done|]. exists f. split; cbn; rewrite ?F1, ?F2, ?F3, ?F4, ?E1, ?E2, ?E3, ?E4; auto. by rewrite Ea.
Qed.

Lemma shutting_step c L e s s' :
  netfd = net_started -> shutting c L s -> (forall i x, exits i = true -> e <> Leave i x) -> step e s = Some s' ->
  proceeds c L s'.
Proof.
  intros Hnet Hsh He H. unfold step in H. case_decide as Hp; [done|].
  destruct e as [i x|i|i]; cbn match in H.
  - destruct (_ && _)%bool eqn:Eb; [|done]. injection H as <-.
    apply andb_true_iff in Eb as [[Hi Hin%bool_decide_eq_true]%andb_true_iff _].
    assert (exits i = false) as Hi0 by (apply not_true_iff_false; intros E; by apply (He i x)).
    rewrite Hi0, orb_false_r in Hi. apply Nat.ltb_lt in Hi.
    destruct Hsh as [Hl|(HL & f & Hf)]; [by apply leave_shutting|].
    exfalso. pose proof nthreads_le. pose proof ntargets_le. pose proof (fn_pc _ _ Hf) as Hpc. destruct (decide (i = f)) as [->|Hne].
    + by rewrite Hin in Hpc.
    + rewrite (fn_others _ _ Hf i ltac:(lia) Hne) in Hin. done.
  - destruct (_ && _)%bool eqn:Eb; [|done]. injection H as <-.
    apply andb_true_iff in Eb as [[Hi%Nat.ltb_lt Hpe]%andb_true_iff Hg%negb_true_iff%bool_decide_eq_false].
    destruct Hsh as [Hl|(HL & f & Hf)]; [by apply sigterm_shutting|].
    exfalso. destruct (decide (i = f)) as [->|Hne].
    + rewrite (fn_pending _ _ Hf) in Hpe. done.
    + by apply Hg, (fn_others _ _ Hf).
  - destruct (_ && _)%bool eqn:Eb; [|done].
    apply andb_true_iff in Eb as [Hi%Nat.ltb_lt Hpe%negb_true_iff].
    destruct Hsh as [Hl|(HL & f & Hf)]; [|by eapply finishing_goes].
    destruct (decide (i = L)) as [->|Hne]; [by eapply leader_goes|by eapply follower_goes].
Qed.

(** ** Progress *)

(** A step of the shutdown itself, not a decision of the guest. *)
Definition own_step (e : event) : Prop := forall i x, e <> Leave i x.

Lemma alive_step e s : process_state s = Alive ->
  step e s = match e with
    | Leave i c =>
        if ((i <? ncores) || exits i) && bool_decide (at_ s i = InLoop) && negb (pending s i)
        then Some (leave i c s) else None
    | Sigterm i =>
        if (i <? nthreads) && pending s i && negb (bool_decide (at_ s i = Gone))
        then Some (sigterm_handler i s) else None
    | Go i => if (i <? nthreads) && negb (pending s i) then uhyve_atexit_step i s else None
    end%bool.
Proof. intros H. unfold step. rewrite decide_False; [done|]. by intros N. Qed.

Lemma go_enabled i s :
  process_state s = Alive -> i < nthreads -> pending s i = false -> is_Some (uhyve_atexit_step i s) ->
  exists e, own_step e /\ is_Some (step e s).
Proof.
  intros Hp Hi Hpe H. exists (Go i). split; [done|]. rewrite alive_step by done.
  by rewrite (proj2 (Nat.ltb_lt _ _) Hi), Hpe.
Qed.

(** A thread that has been signalled, or is on its way out, goes on. *)
Lemma follower_progress c L i s :
  leading c L s -> process_state s = Alive -> i < ntargets -> i <> L -> at_ s i <> Gone ->
  signalled (at_ s L) i -> exists e, own_step e /\ is_Some (step e s).
Proof.
  intros Hl Hp Hit HiL Hg Hs. assert (i < nthreads) as Hi by (pose proof nthreads_le; lia). destruct (pending s i) eqn:Hpe.
  - exists (Sigterm i). split; [done|]. rewrite alive_step by done.
    rewrite (proj2 (Nat.ltb_lt _ _) Hi), Hpe, bool_decide_eq_false_2 by done. by eexists.
  - apply (go_enabled i); [done|done|done|]. pose proof (ld_others _ _ _ Hl i Hi HiL) as Hf.
    unfold uhyve_atexit_step, uhyve_exit_step.
    destruct (at_ s i) as [|[]|x j|x|[]|j| |] eqn:Ea; try done; cbn in Hf.
    + rewrite (ld_signalled _ _ _ Hl i Hit HiL Hs Ea) in Hpe. done.
    + rewrite (ld_lock _ _ _ Hl). by eexists.
Qed.

Lemma shutting_progress c L s :
  shutting c L s -> process_state s = Alive -> exists e, own_step e /\ is_Some (step e s).
Proof.
  pose proof nthreads_le as Hle. pose proof ntargets_le as Hlt. intros [Hl|(HL & f & [Hlock Hf Hpend Hpc Hst Hoth])] Hp.
  - pose proof Hl as [Hlock Hcore Hthr Hmw Hpend Hpc Hst Hoth Hsig (g & Hg & Hgg)].
    pose proof (go_enabled L s Hp Hthr Hpend) as Hgo. unfold uhyve_atexit_step, uhyve_exit_step in Hgo.
    destruct (at_ s L) as [|x|x j|x|x|j| |] eqn:Ea; cbn in Hpc; try done.
    + apply Hgo. destruct (j =? ncores); [by eexists|]. destruct (j =? L); by eexists.
    + apply Hgo. destruct (negb netfd); [by eexists|]. destruct net_started; by eexists.
    + apply Hgo. by eexists.
    + destruct (decide (j = ncores \/ j = L \/ at_ s j = Gone)) as [D|D].
      * apply Hgo. destruct (j =? ncores) eqn:E1; [by eexists|]. destruct (j =? L) eqn:E2; [by eexists|].
        rewrite bool_decide_eq_true_2; [by eexists|]. apply Nat.eqb_neq in E1, E2. tauto.
      * apply (follower_progress c L j); [done|done|lia|tauto|tauto|by rewrite Ea].
    + apply Hgo. by eexists.
    + destruct (decide (g = L)) as [->|Hne]; [congruence|].
      assert (nthreads = ntargets) as En by (unfold nthreads; destruct Hmw as [E| ->]; [congruence|done]).
      apply (follower_progress c L g); [done|done|lia|done|done|by rewrite Ea].
  - apply (go_enabled f); [done|done|done|]. unfold uhyve_atexit_step, uhyve_exit_step.
    destruct (at_ s f) as [|[]|x j|x|[]|j| |] eqn:Ea; try done.
    + rewrite Hlock. by eexists.
    + destruct (Nat.eqb_spec j ncores); [by eexists|]. destruct (Nat.eqb_spec j f); [by eexists|].
      rewrite bool_decide_eq_true_2; [by eexists|]. apply Hoth; [lia|done].
Qed.

(** ** Termination *)

Definition after_kill (c : caller) : nat := match c with Cleanup => 1 | AtExit => ncores + 3 end.
Definition weight (p : thread_pc) : nat :=
  match p with
  | Gone => 0
  | CloseVm => 1
  | Join j => 2 + (ncores - j)
  | CloseVcpu c => after_kill c
  | KillNet c => 3 + after_kill c
  | Kill c j => 4 + after_kill c + 2 * (ncores - j)
  | TryLock c => 5 + after_kill c + 2 * ncores
  | InLoop => 7 + 2 * ncores
  end.

(** The statements left: a bound on the length of the shutdown. *)
Definition rank (s : proc_state) : nat :=
  total nthreads (fun i => weight (at_ s i)) + total nthreads (fun i => Nat.b2n (pending s i)) +
  match status s with None => 1 + weight (TryLock AtExit) | Some _ => 0 end +
  match process_state s with Alive => 1 | _ => 0 end.

Lemma total_at (w : thread_pc -> nat) (f : nat -> thread_pc) i p :
  i < nthreads ->
  total nthreads (fun j => w (<[i := p]> f j)) + w (f i) = total nthreads (fun j => w (f j)) + w p.
Proof.
  intros Hi. rewrite (total_change nthreads (fun j => w (f j)) (fun j => w (<[i := p]> f j)) i Hi).
  - by rewrite fn_lookup_insert.
  - intros j Hj. by rewrite fn_lookup_insert_ne.
Qed.
Lemma total_pending f i b :
  total nthreads (fun j => Nat.b2n (<[i := b]> f j)) <= total nthreads (fun j => Nat.b2n (f j)) + Nat.b2n b.
Proof.
  destruct (decide (i < nthreads)) as [Hi|Hi].
  - pose proof (total_change nthreads (fun j => Nat.b2n (f j)) (fun j => Nat.b2n (<[i := b]> f j)) i Hi) as H.
    cbn in H. rewrite fn_lookup_insert in H. assert (forall j, j <> i -> Nat.b2n (<[i:=b]> f j) = Nat.b2n (f j)) as Hne.
    { intros j Hj. by rewrite fn_lookup_insert_ne. }
    specialize (H Hne). lia.
  - rewrite (total_ext nthreads (fun j => Nat.b2n (f j))); [lia|].
    intros j Hj. rewrite fn_lookup_insert_ne; [done|lia].
Qed.
Lemma total_clear f i :
  i < nthreads -> f i = true ->
  total nthreads (fun j => Nat.b2n (<[i := false]> f j)) + 1 = total nthreads (fun j => Nat.b2n (f j)).
Proof.
  intros Hi Hf. pose proof (total_change nthreads (fun j => Nat.b2n (f j)) (fun j => Nat.b2n (<[i := false]> f j)) i Hi) as H.
  cbn in H. rewrite fn_lookup_insert, Hf in H. cbn in H. rewrite H; [lia|].
  intros j Hj. by rewrite fn_lookup_insert_ne.
Qed.

Lemma rank_at i p s : i < nthreads -> rank (at_pc i p s) + weight (at_ s i) = rank s + weight p.
Proof. intros Hi. unfold rank. cbn [at_pc at_ pending status process_state]. pose proof (total_at weight (at_ s) i p Hi). lia. Qed.

Lemma rank_thread_end i s : process_state s = Alive -> i < nthreads -> rank (thread_end i s) + weight (at_ s i) <= rank s.
Proof.
  intros Hp Hi. unfold thread_end. destruct (all_gone _); [destruct (status s) eqn:Es|].
  - pose proof (rank_at i Gone s Hi). unfold rank in *. cbn in *. rewrite ?Hp in *. lia.
  - pose proof (rank_at i (TryLock AtExit) (exit_with 0 s) Hi). unfold rank in *.
    cbn [exit_with at_pc at_ pending status process_state] in *. rewrite Es. lia.
  - pose proof (rank_at i Gone s Hi). cbn [weight] in *. lia.
Qed.

Lemma rank_close_fd d s : rank (close_fd d s) = rank s.
Proof. unfold close_fd. by destruct (is_open s d). Qed.
Lemma rank_set_pending i b s : rank (set_pending i b s) <= rank s + Nat.b2n b.
Proof. unfold rank. cbn [set_pending at_ pending status process_state]. pose proof (total_pending (pending s) i b). lia. Qed.
Lemma rank_clear i s : i < nthreads -> pending s i = true -> rank (set_pending i false s) + 1 = rank s.
Proof. intros Hi Hp. unfold rank. cbn [set_pending at_ pending status process_state]. pose proof (total_clear (pending s) i Hi Hp). lia. Qed.

Lemma step_rank c L e s s' :
  shutting c L s -> (forall i x, exits i = true -> e <> Leave i x) -> step e s = Some s' -> rank s' < rank s.
Proof.
  pose proof nthreads_le as Hle.
  intros Hsh He H. unfold step in H. case_decide as Hp; [done|]. destruct e as [i x|i|i]; cbn match in H.
  - destruct (_ && _)%bool eqn:Eb; [|done]. injection H as <-.
    apply andb_true_iff in Eb as [[Hi Hin%bool_decide_eq_true]%andb_true_iff _].
    assert (exits i = false) as Hi0 by (apply not_true_iff_false; intros E; by apply (He i x)).
    rewrite Hi0, orb_false_r in Hi. apply Nat.ltb_lt in Hi. unfold leave. rewrite Hi0.
    pose proof ntargets_le. pose proof (rank_at i (TryLock Cleanup) s ltac:(lia)) as R. rewrite Hin in R. cbn in R. lia.
  - destruct (_ && _)%bool eqn:Eb; [|done]. injection H as <-.
    apply andb_true_iff in Eb as [[Hi%Nat.ltb_lt Hpe]%andb_true_iff _].
    pose proof (rank_clear i s Hi Hpe) as R.
    pose proof (rank_thread_end i (set_pending i false s) Hp Hi) as R2.
    unfold sigterm_handler. cbn [set_pending at_] in *. destruct (at_ s i) eqn:Ea; try lia.
    destruct (_ || _)%bool; [lia|].
    pose proof (rank_at i (TryLock Cleanup) (set_pending i false s) Hi) as R3. cbn [set_pending at_] in R3.
    rewrite Ea in R3. cbn in R3. lia.
  - destruct (_ && _)%bool eqn:Eb; [|done]. apply andb_true_iff in Eb as [Hi%Nat.ltb_lt _].
    assert (forall j, (exists x, at_ s i = Kill x j) \/ at_ s i = Join j -> j <= ncores) as Hj.
    { intros j Hj. destruct Hsh as [Hl|(HL & f & Hf)].
      - destruct (decide (i = L)) as [->|Hne].
        + pose proof (ld_pc _ _ _ Hl) as Hpc. destruct Hj as [[x Hj]|Hj]; rewrite Hj in Hpc; cbn in Hpc; lia.
        + pose proof (ld_others _ _ _ Hl i Hi Hne) as Hf. destruct Hj as [[x Hj]|Hj]; by rewrite Hj in Hf.
      - destruct (decide (i = f)) as [->|Hne].
        + pose proof (fn_pc _ _ Hf) as Hpc. destruct Hj as [[x Hj]|Hj]; by rewrite Hj in Hpc.
        + pose proof (fn_others _ _ Hf i Hi Hne). destruct Hj as [[x Hj]|Hj]; congruence. }
    unfold uhyve_atexit_step, uhyve_exit_step in H. destruct (at_ s i) as [|x|x j|x|x|j| |] eqn:Ea; try done.
    + destruct (kvm_lock s); injection H as <-.
      * pose proof (rank_at i (CloseVcpu x) s Hi) as R. rewrite Ea in R. cbn in R. lia.
      * pose proof (rank_at i (Kill x 0) (take_lock s) Hi) as R. cbn [take_lock at_] in R. rewrite Ea in R.
        change (rank (take_lock s)) with (rank s) in R. cbn in R. lia.
    + specialize (Hj j ltac:(left; by exists x)). destruct (Nat.eqb_spec j ncores); [|destruct (j =? i)]; injection H as <-.
      * pose proof (rank_at i (KillNet x) s Hi) as R. rewrite Ea in R. cbn in R. lia.
      * pose proof (rank_at i (Kill x (S j)) s Hi) as R. rewrite Ea in R. cbn [weight] in R. lia.
      * pose proof (rank_at i (Kill x (S j)) (set_pending j true s) Hi) as R. cbn [set_pending at_] in R. rewrite Ea in R.
        pose proof (rank_set_pending j true s) as R2. cbn [weight Nat.b2n] in *. lia.
    + destruct (negb netfd); [|destruct net_started eqn:En]; injection H as <-.
      * pose proof (rank_at i (CloseVcpu x) s Hi) as R. rewrite Ea in R. cbn in R. lia.
      * pose proof (rank_at i (CloseVcpu x) (set_pending ncores true (set_pending (ncores + 1) true s)) Hi) as R.
        cbn [set_pending at_] in R. rewrite Ea in R.
        pose proof (rank_set_pending ncores true (set_pending (ncores + 1) true s)) as R2.
        pose proof (rank_set_pending (ncores + 1) true s) as R3. cbn [weight Nat.b2n] in *. lia.
      * unfold rank. cbn. rewrite Hp. lia.
    + destruct (close_fd_frame (VcpuFd i) s) as (E1 & _). pose proof (rank_close_fd (VcpuFd i) s) as R0.
      destruct x; injection H as <-.
      * assert (process_state (close_fd (VcpuFd i) s) = Alive) as Hp' by by rewrite close_fd_process.
        pose proof (rank_thread_end i _ Hp' Hi) as R. rewrite E1, Ea in R. cbn in R. lia.
      * pose proof (rank_at i (Join 0) (close_fd (VcpuFd i) s) Hi) as R. rewrite E1, Ea in R. cbn in R. lia.
    + specialize (Hj j ltac:(by right)). destruct (Nat.eqb_spec j ncores); [|destruct (_ || _)%bool; [|done]]; injection H as <-.
      * pose proof (rank_at i CloseVm s Hi) as R. rewrite Ea in R. cbn in R. lia.
      * pose proof (rank_at i (Join (S j)) s Hi) as R. rewrite Ea in R. cbn in R. lia.
    + injection H as <-. assert (rank (close_fd KvmFd (close_fd VmFd s)) = rank s) as R by by rewrite !rank_close_fd.
      assert (process_state (close_fd KvmFd (close_fd VmFd s)) = Alive) as Hp' by by rewrite !close_fd_process.
      revert R. unfold rank at 1 3. cbn [set_process at_ pending status process_state]. rewrite Hp'. lia.
Qed.

(** ** Before the lock is taken *)

Record unlocked (s : proc_state) : Prop := {
  un_lock : kvm_lock s = false;
  un_pending : forall i, pending s i = false;
  un_pc : forall i, i < nthreads -> at_ s i = InLoop \/ (i < ncores \/ exits i = true) /\ at_ s i = TryLock (leader_caller i);
  un_status : status s = None <-> forall i, i < nthreads -> exits i = true -> at_ s i = InLoop
}.

Lemma thread_end_lock i s : kvm_lock (thread_end i s) = kvm_lock s.
Proof. unfold thread_end. destruct (all_gone _); [by destruct (status s)|done]. Qed.

Lemma step_lock e s s' : step e s = Some s' -> kvm_lock s = true -> kvm_lock s' = true.
Proof.
  intros H Hl. unfold step in H. case_decide; [done|].
  destruct e as [i x|i|i]; cbn in H; (destruct (_ && _)%bool; [|done]).
  - injection H as <-. unfold leave. destruct (exits i); exact Hl.
  - injection H as <-. unfold sigterm_handler. destruct (at_ _ i); try (rewrite thread_end_lock; exact Hl).
    destruct (_ || _)%bool; [rewrite thread_end_lock|]; exact Hl.
  - destruct (close_fd_frame (VcpuFd i) s) as (_ & _ & E3 & _).
    destruct (close_fd_frame KvmFd (close_fd VmFd s)) as (_ & _ & F3 & _).
    destruct (close_fd_frame VmFd s) as (_ & _ & G3 & _).
    unfold uhyve_atexit_step, uhyve_exit_step in H. destruct (at_ s i) as [|c|c j|c|c|j| |]; try done.
    + rewrite Hl in H. injection H as <-. exact Hl.
    + destruct (j =? ncores); [|destruct (j =? i)]; injection H as <-; exact Hl.
    + destruct (negb netfd); [|destruct net_started]; injection H as <-; exact Hl.
    + destruct c; injection H as <-; [rewrite thread_end_lock|cbn]; congruence.
    + destruct (j =? ncores); [|destruct (_ || _)%bool; [|done]]; injection H as <-; exact Hl.
    + injection H as <-. cbn. congruence.
Qed.

Lemma exits_thread i : 0 < ncores -> exits i = true -> i < nthreads /\ (i < ncores \/ i = ntargets).
Proof.
  intros Hn H. pose proof ntargets_le. pose proof nthreads_le. unfold exits in H.
  apply orb_true_iff in H as [[->%Nat.eqb_eq|[Hi%Nat.ltb_lt _]%andb_true_iff]%orb_true_iff|[Hm ->%Nat.eqb_eq]%andb_true_iff];
    [lia|lia|]. unfold nthreads. rewrite Hm. lia.
Qed.

Lemma unlocked_step e s s' :
  0 < ncores -> unlocked s -> step e s = Some s' -> unlocked s' \/ kvm_lock s' = true.
Proof.
  pose proof nthreads_le as Hle. intros Hn [Hl Hp Hpc Hst] H. unfold step in H. case_decide; [done|].
  destruct e as [i x|i|i]; cbn match in H; (destruct (_ && _)%bool eqn:Eb; [|done]).
  - injection H as <-. left. apply andb_true_iff in Eb as [[Hi Hin%bool_decide_eq_true]%andb_true_iff _].
    assert (i < ncores \/ exits i = true) as Hi' by (apply orb_true_iff in Hi as [Hi%Nat.ltb_lt|]; tauto).
    assert (forall j, j < nthreads -> <[i := TryLock (leader_caller i)]> (at_ s) j = InLoop \/
      (j < ncores \/ exits j = true) /\ <[i := TryLock (leader_caller i)]> (at_ s) j = TryLock (leader_caller j)) as Hat.
    { intros j Hj. destruct (decide (j = i)) as [->|Hne]; [rewrite fn_lookup_insert; by right|].
      rewrite fn_lookup_insert_ne by done. auto. }
    unfold leave, leader_caller in *. destruct (exits i) eqn:Ex; split; cbn; auto.
    + split; [done|]. intros Hall. specialize (Hall i (proj1 (exits_thread i Hn Ex)) Ex). by rewrite fn_lookup_insert in Hall.
    + rewrite Hst. split; intros Hall j Hj Exj; specialize (Hall j Hj Exj); rewrite fn_lookup_insert_ne in * by congruence; done.
  - by rewrite Hp, andb_false_r in Eb.
  - apply andb_true_iff in Eb as [Hi%Nat.ltb_lt _]. right.
    unfold uhyve_atexit_step, uhyve_exit_step in H. destruct (Hpc i Hi) as [E|[_ E]]; rewrite E in H; [done|].
    rewrite Hl in H. injection H as <-. done.
Qed.

Lemma run_unlocked es s :
  0 < ncores -> run es running = Some s -> kvm_lock s = false -> unlocked s.
Proof.
  intros Hn H Hl. pose proof nthreads_le as Hle.
  assert (unlocked running \/ kvm_lock running = true) as Hs.
  { left. split; cbn [running kvm_lock pending at_ status]; auto.
    - intros i Hi. left. by rewrite (proj2 (Nat.ltb_lt _ _) Hi).
    - split; [|done]. intros _ i Hi _. by rewrite (proj2 (Nat.ltb_lt _ _) Hi). }
  revert Hs H. generalize running. induction es as [|e es IH]; intros t Ht H; cbn in H.
  - injection H as <-. destruct Ht; [done|congruence].
  - destruct (step e t) as [t'|] eqn:E; [|done]. apply (IH t'); [|done].
    destruct Ht as [Ht|Ht]; [by eapply unlocked_step|right; by eapply step_lock].
Qed.

(** The first thread past the lock. *)
Lemma lock_leading L s s' :
  0 < ncores -> unlocked s -> step (Go L) s = Some s' -> kvm_lock s' = true ->
  (forall i, i < nthreads -> exits i = true -> i <> L -> at_ s i = InLoop) ->
  exits L = true \/ migration = false ->
  leading (default 0%Z (status s)) L s' /\ process_state s' = Alive.
Proof.
  intros Hn [Hl Hp Hpc Hst] H Hk HL Hm. unfold step in H. case_decide as Ha; [done|].
  destruct (_ && _)%bool eqn:Eb; [|done]. apply andb_true_iff in Eb as [Hi%Nat.ltb_lt _].
  unfold uhyve_atexit_step, uhyve_exit_step in H. destruct (Hpc L Hi) as [E|[Hc E]]; rewrite E in H; [done|].
  rewrite Hl in H. injection H as <-. split; [|done]. split; cbn; auto.
  - destruct Hc as [|Hc]; [by left|]. by apply exits_thread.
  - rewrite fn_lookup_insert. cbn. split; [done|lia].
  - destruct (exits L) eqn:Ex.
    + destruct (status s) eqn:Es; [done|]. by rewrite (proj1 Hst eq_refl L Hi Ex) in E.
    + apply Hst. intros i Hi2 Exi. apply HL; [done|done|congruence].
  - intros i Hi2 Hne. rewrite fn_lookup_insert_ne by done. unfold follower_pc.
    destruct (Hpc i Hi2) as [->|[Hic Ei]]; [done|]. rewrite Ei. unfold leader_caller.
    destruct (exits i) eqn:Ex; [by rewrite (HL i Hi2 Ex Hne) in Ei|]. split; [by apply exits_main|]. by destruct Hic.
  - intros i Hi2 Hne. rewrite fn_lookup_insert. cbn. lia.
  - exists L. by rewrite fn_lookup_insert.
Qed.

Lemma run_shutting c L es s s' :
  netfd = net_started -> shutting c L s ->
  (process_state s = Alive \/ process_state s = Ended (if exits L then c else 0%Z)) ->
  (forall i x, exits i = true -> Leave i x ∉ es) -> run es s = Some s' ->
  proceeds c L s' /\ length es + rank s' <= rank s.
Proof.
  intros Hnet. revert s. induction es as [|e es IH]; intros s Hsh Hp He H; cbn in H.
  - injection H as <-. split; [by split|cbn; lia].
  - destruct (step e s) as [t|] eqn:E; [|done].
    assert (forall i x, exits i = true -> e <> Leave i x) as Hne by (intros i x Ex ->; apply (He i x Ex); left).
    pose proof (step_rank c L e s t Hsh Hne E) as Hr. destruct (shutting_step c L e s t Hnet Hsh Hne E) as [H1 H2].
    destruct (IH t H1 H2) as [H3 H4]; [|done|split; [done|cbn; lia]].
    intros i x Ex Hx. apply (He i x Ex). by right.
Qed.

Lemma run_fds es s s' : run es s = Some s' -> fds_inv s -> fds_inv s'.
Proof.
  revert s. induction es as [|e es IH]; intros s H Hi; cbn in H; [by injection H as <-|].
  destruct (step e s) as [t|] eqn:E; [|done]. eapply IH; [exact H|]. by eapply step_fds.
Qed.
Lemma running_fds : fds_inv running.
Proof.
  split; cbn; [by apply NoDup_nil_2| |by intros d [-> | ->]|done].
  intros d _ H. by apply elem_of_nil in H.
Qed.

(** C16. Once a thread has taken [kvm_lock], the shutdown completes: whatever the
    interleaving, and whatever the guest still does on the other cores, it
    takes a bounded number of steps and never waits for ever; the process
    ends with the status that was passed to [exit], by the main thread, by a
    core with an error or by the migration thread after a migration, or with 0
    when another core ended first; every descriptor is closed at most once and those of the machine are
    closed.  It is assumed that only one thread calls [exit], that the guest
    has configured its network device if there is one, and that no migration
    thread waits for a request when a core other than the first ends the
    process without an error. *)
Theorem shutdown_completes es0 s0 L s es s' :
  0 < ncores -> netfd = net_started ->
  run es0 running = Some s0 -> kvm_lock s0 = false ->
  step (Go L) s0 = Some s -> kvm_lock s = true ->
  (forall i, i < nthreads -> exits i = true -> i <> L -> at_ s0 i = InLoop) ->
  exits L = true \/ migration = false -> (forall i x, exits i = true -> Leave i x ∉ es) ->
  run es s = Some s' ->
  length es <= rank s /\ process_state s' <> Broken /\
  (process_state s' = Alive -> exists e, own_step e /\ is_Some (step e s')) /\
  (forall c, process_state s' = Ended c ->
     c = (if exits L then default 0%Z (status s0) else 0%Z) /\
     NoDup (closed s') /\ VmFd ∈ closed s' /\ KvmFd ∈ closed s').
Proof.
  intros Hn Hnet H0 Hl0 Hs Hl HL Hm He H.
  destruct (lock_leading L s0 s Hn (run_unlocked es0 s0 Hn H0 Hl0) Hs Hl HL Hm) as [Hld Hp].
  destruct (run_shutting _ L es s s' Hnet (or_introl Hld) (or_introl Hp) He H) as [[Hsh Hps] Hr].
  assert (fds_inv s') as [F1 F2 F3 F4].
  { eapply run_fds; [exact H|]. eapply step_fds; [exact Hs|]. eapply run_fds; [exact H0|]. apply running_fds. }
  split; [lia|]. split; [by destruct Hps as [-> | ->]|]. split; [by apply (shutting_progress _ _ _ Hsh)|].
  intros c Hc. split; [|split; [done|]].
  - destruct Hps as [Hps|Hps]; [congruence|]. rewrite Hc in Hps. by injection Hps.
  - destruct (F4 c Hc). auto.
Qed.
End Shutdown.

(** Two cores, the network threads and a migration thread that waits for a
    request; core 1 ends with an error. *)
Definition core_one (i : nat) : bool := i =? 1.
Definition two_shutdown : list event :=
  [Go 1; Go 1; Sigterm 0; Go 1; Go 1; Go 1; Sigterm 2; Sigterm 3; Go 1; Go 1; Go 1; Go 1].

Lemma shutdown_completes_witness :
  exists s0 s s',
    run 2 true true true core_one [Leave 1 1] (running 2 true true) = Some s0 /\
    step 2 true true true core_one (Go 1) s0 = Some s /\
    run 2 true true true core_one two_shutdown s = Some s' /\ process_state s' = Ended 1 /\
    length two_shutdown <= rank 2 true true s.
Proof.
  destruct (run 2 true true true core_one [Leave 1 1] (running 2 true true)) as [s0|] eqn:E0; [|discriminate E0].
  destruct (step 2 true true true core_one (Go 1) s0) as [s|] eqn:E1;
    [|vm_compute in E0; injection E0 as <-; discriminate E1].
  destruct (run 2 true true true core_one two_shutdown s) as [s'|] eqn:E2.
  2:{ vm_compute in E0. injection E0 as <-. vm_compute in E1. injection E1 as <-. discriminate E2. }
  exists s0, s, s'. do 3 (split; [done|]).
  assert (process_state s' = Ended 1) as Hp.
  { vm_compute in E0. injection E0 as <-. vm_compute in E1. injection E1 as <-. vm_compute in E2. by injection E2 as <-. }
  split; [exact Hp|].
  refine (proj1 (shutdown_completes 2 true true true core_one [Leave 1 1] s0 1 s two_shutdown s' _ _ E0 _ E1 _ _ _ _ E2));
    auto.
  - vm_compute in E0. by injection E0 as <-.
  - vm_compute in E0. injection E0 as <-. vm_compute in E1. by injection E1 as <-.
  - intros i Hi Hx Hne. vm_compute in E0. injection E0 as <-. destruct i as [|[|[|[|[|i]]]]]; done.
  - intros i x Hx H. unfold two_shutdown in H. repeat (apply elem_of_cons in H as [H|H]; [discriminate H|]).
    by apply elem_of_nil in H.
Defined.

Definition none_fails (i : nat) : bool := false.

(** Core 1 takes the lock, then the guest exits with 7 on core 0: the signal
    ends the main thread inside [exit], and [exit] is called a second time. *)
Definition lost_exit : list event :=
  [Leave 1 0; Go 1; Leave 0 7; Go 0; Go 0; Go 1; Sigterm 0; Go 1; Go 1; Go 1; Go 1].
Example exit_status_lost :
  (process_state <$> run 2 false false false none_fails lost_exit (running 2 false false)) = Some Broken.
Proof. reflexivity. Qed.

(** With a network device the guest never configured there are no network
    threads, but they are signalled. *)
Example unstarted_network_killed :
  (process_state <$> run 1 true false false none_fails [Leave 0 0; Go 0; Go 0; Go 0; Go 0] (running 1 false false)) = Some Broken.
Proof. reflexivity. Qed.

(** When core 1 ends the process, nobody signals the thread that waits for a
    migration request: the process stays without a core. *)
Definition core_exit : list event := [Leave 1 0; Go 1; Go 1; Sigterm 0; Go 1; Go 1; Go 1; Go 1].
Example migration_thread_left :
  (s ← run 2 false false true none_fails core_exit (running 2 false true);
   Some (process_state s, at_ s 0, at_ s 1, at_ s 2, pending s 2)) = Some (Alive, Gone, Gone, InLoop, false).
Proof. reflexivity. Qed.

(** SIGINT on the terminal ends the process as the exit of core 0 does; SIGTERM
    from outside ends the main thread alone, and the other cores run on. *)
Definition after_sigint : list event :=
  [Go 0; Go 0; Go 0; Go 0; Sigterm 1; Go 1; Go 0; Go 0; Go 0; Go 1; Go 0; Go 0; Go 0].
Example external_sigint_ends_process :
  (s ← run 2 false false false none_fails after_sigint (from_outside 2 false false none_fails SIGINT (running 2 false false));
   Some (process_state s)) = Some (Ended 0).
Proof. reflexivity. Qed.
Example external_sigterm_ends_one_thread :
  let s := from_outside 2 false false none_fails SIGTERM (running 2 false false) in
  (process_state s, at_ s 0, at_ s 1, pending s 1) = (Alive, Gone, InLoop, false).
Proof. reflexivity. Qed.
