(* ===== verification/Launch.v ===== *)
(** * From [uhyve_loop] to the guest

    How the cores start: [uhyve_loop] on the main thread prepares for
    migrations, creates the threads of the other cores ([uhyve_thread]) and
    arms the timer of the checkpoints, and all of them go through the barriers
    at the beginning of [vcpu_loop] (src/uhyve.c): the vCPUs exist and the
    kernel header is complete before a core sets its registers, the states of
    an incoming migration are freed after the last core has taken its own, the
    debugger is ready before a core runs, and the handlers are installed before
    the signals that need them can come.  At a normal start the cores go
    through the loop of [init_cpu_state] (src/uhyve-x86_64.c) one after the
    other, as the guest counts them.  No signal arrives meanwhile, and the
    calls of the system succeed; the actions of signals belong to the process,
    the signal mask to a thread, which passes it on to those it creates. *)

From stdpp Require Import functions.
From S2P Require Import Prelude Freeze.

Open Scope nat_scope.

(** ** Statements *)

(** The statements that the cores share something through, in the order of
    the source. *)
Inductive stmt :=
| VcpuInit                 (* vcpu_init() *)
| SigactionChkp            (* sigaction(SIGTHRCHKP, ...) *)
| SigactionMig             (* sigaction(SIGTHRMIG, ...) *)
| SigmaskBlock             (* pthread_sigmask(SIG_BLOCK, {SIGUSR1}, NULL) *)
| CreateMigThread          (* pthread_create(..., migration_handler, ...) *)
| Eventfd                  (* mig_efd = eventfd(0, 0); KVM_IRQFD *)
| SemInit                  (* sem_init(&mig_sem, 0, 0) *)
| SetSelf                  (* vcpu_threads[0] = pthread_self() *)
| PthreadCreate (i : nat)  (* pthread_create(&vcpu_threads[i], ...) *)
| BarrierWait              (* pthread_barrier_wait(&barrier) *)
| SetPossibleCpus          (* kheader->possible_cpus = ncores *)
| SigactionAlrm            (* sigaction(SIGALRM, ...) *)
| SetItimer                (* setitimer(...) *)
| IfRestart                (* the branches at the beginning of vcpu_loop *)
| RestoreCheckpoint        (* restore_cpu_state(read_cpu_state()) *)
| IncCheckpoint            (* no_checkpoint++ *)
| RestoreMigrated          (* restore_cpu_state(vcpu_thread_states[cpuid]) *)
| FreeStates               (* free(vcpu_thread_states); vcpu_thread_states = NULL *)
| InitCpuState             (* init_cpu_state(elf_entry) *)
| GdbInit                  (* uhyve_gdb_init(vcpufd) *)
| KvmRun                   (* ioctl(vcpufd, KVM_RUN, NULL) *)
| GuestStart.              (* the guest: its startup code counts the core *)

#[export] Instance stmt_eq_dec : EqDecision stmt.
Proof. solve_decision. Defined.

(** What the signals need: the actions of the process, which threads block
    SIGUSR1, the migration thread with its mask ([None] before it is created),
    the event descriptor and the semaphore of migrations, whose entry of
    [vcpu_threads] is set. *)
Record setup := mksetup {
  chkp_handler : bool;
  mig_handler : bool;
  alrm_handler : bool;
  usr1_blocked : nat -> bool;
  mig_thread : option bool;
  mig_efd : bool;
  mig_sem : bool;
  vcpu_threads : nat -> bool
}.

(** The program's global variables that the statements touch: which vCPUs and
    threads exist, [possible_cpus], [vcpu_thread_states != NULL], whose
    registers are set, [no_checkpoint], the timer, the debugger, who has
    entered the guest, and [kheader->cpu_online]. *)
Record shared := mkshared {
  vcpu_created : nat -> bool;
  born : nat -> bool;
  possible_cpus : option nat;
  thread_states : bool;
  loaded : nat -> bool;
  no_checkpoint : nat;
  timer : bool;
  gdb_ready : bool;
  entered : nat -> bool;
  cpu_online : nat;
  su : setup
}.

Section Launch.
(** [restart], [uhyve_gdb_enabled], whether [HERMIT_CHECKPOINT] asks for a
    timer and [HERMIT_MIGRATION_SUPPORT] is set; [incoming]: [load_migration_data] has left the states of the vCPUs
    in [vcpu_thread_states]. *)
Context (ncores : nat) (restart incoming gdb checkpoints support : bool).

(** The first branch taken in [vcpu_loop], given what
    [vcpu_thread_states != NULL] says. *)
Definition restore_branch (cpuid : nat) (states : bool) : list stmt :=
  if restart then RestoreCheckpoint :: (if cpuid =? 0 then [IncCheckpoint] else [])
  else if states then RestoreMigrated :: BarrierWait :: (if cpuid =? 0 then [FreeStates] else [])
  else [InitCpuState].

(** [vcpu_loop] up to the first entry of the guest, and the guest's start. *)
Definition vcpu_loop (cpuid : nat) : list stmt :=
  [BarrierWait; IfRestart] ++
  (if gdb then (if cpuid =? 0 then [GdbInit] else []) ++ [BarrierWait] else []) ++
  [KvmRun; GuestStart].

Definition uhyve_thread (cpuid : nat) : list stmt :=
  [SigactionChkp; SigactionMig; VcpuInit; BarrierWait] ++ vcpu_loop cpuid.

(** The branch on [hermit_mig_support]. *)
Definition mig_setup : list stmt :=
  if support then [SigmaskBlock; CreateMigThread; SigactionMig; Eventfd; SemInit] else [].
(** The branch on the interval of the checkpoints. *)
Definition set_timer : list stmt := if checkpoints then [SigactionAlrm; SetItimer] else [].

(** The main thread, from [vcpu_init] in [uhyve_init] on. *)
Definition uhyve_loop : list stmt :=
  [VcpuInit] ++ mig_setup ++ [SetSelf] ++ (PthreadCreate <$> seq 1 (ncores - 1)) ++ [BarrierWait] ++
  [SetPossibleCpus] ++ set_timer ++ vcpu_loop 0.

Definition thread (cpuid : nat) : list stmt := if cpuid =? 0 then uhyve_loop else uhyve_thread cpuid.

Definition prepare (i : nat) (x : stmt) (u : setup) : setup :=
  let '(mksetup c m a k th ef se vt) := u in
  match x with
  | SigactionChkp => mksetup true m a k th ef se vt
  | SigactionMig => mksetup c true a k th ef se vt
  | SigactionAlrm => mksetup c m true k th ef se vt
  | SigmaskBlock => mksetup c m a (<[i := true]> k) th ef se vt
  | CreateMigThread => mksetup c m a k (Some (k i)) ef se vt
  | Eventfd => mksetup c m a k th true se vt
  | SemInit => mksetup c m a k th ef true vt
  | SetSelf => mksetup c m a k th ef se (<[i := true]> vt)
  | PthreadCreate j => mksetup c m a (<[j := k i]> k) th ef se (<[j := true]> vt)
  | _ => u
  end.

(** The guest of a checkpoint or of a migration is past its startup code. *)
Definition exec (i : nat) (x : stmt) (s : shared) : outcome shared :=
  let '(mkshared v b p t l n ti g e c u) := s in
  let u := prepare i x u in
  match x with
  | VcpuInit => OK (mkshared (<[i := true]> v) b p t l n ti g e c u)
  | PthreadCreate j => OK (mkshared v (<[j := true]> b) p t l n ti g e c u)
  | SetPossibleCpus => OK (mkshared v b (Some ncores) t l n ti g e c u)
  | SetItimer => OK (mkshared v b p t l n true g e c u)
  | RestoreCheckpoint | InitCpuState => OK (mkshared v b p t (<[i := true]> l) n ti g e c u)
  | IncCheckpoint => OK (mkshared v b p t l (S n) ti g e c u)
  | RestoreMigrated => if t then OK (mkshared v b p t (<[i := true]> l) n ti g e c u) else Undefined
  | FreeStates => if t then OK (mkshared v b p false l n ti g e c u) else Undefined
  | GdbInit => OK (mkshared v b p t l n ti true e c u)
  | KvmRun => OK (mkshared v b p t l n ti g (<[i := true]> e) c u)
  | GuestStart => OK (mkshared v b p t l n ti g e (if restart || incoming then c else S c) u)
  | _ => OK (mkshared v b p t l n ti g e c u)
  end.

(** ** Interleaving *)

(** What each thread has left to do, who waits at the barrier. *)
Record machine := mkmachine { rest : nat -> list stmt; blocked : nat -> bool; sh : shared }.

Definition others_wait (i : nat) (s : machine) : bool :=
  forallb (fun j => (j =? i) || blocked s j) (seq 0 ncores).

(** The loop in [init_cpu_state], [while (kheader->cpu_online < cpuid)
    pthread_yield()]: the thread spins, and changes nothing, until the guest
    has counted the cores before it. *)
Definition spins (i : nat) (s : machine) : bool :=
  match rest s i with InitCpuState :: _ => cpu_online (sh s) <? i | _ => false end.

(** Thread [i] executes its next statement; [None] when it cannot: it does not
    exist yet, waits, spins, or is in the guest for good.  The last thread to arrive at the
    barrier opens it for all. *)
Definition step (i : nat) (s : machine) : option (outcome machine) :=
  if negb ((i <? ncores) && born (sh s) i && negb (blocked s i) && negb (spins i s)) then None
  else
    match rest s i with
    | [] => None
    | BarrierWait :: r =>
        if others_wait i s
        then Some (OK (mkmachine (fun j => tail (rest s j)) (fun _ => false) (sh s)))
        else Some (OK (mkmachine (rest s) (<[i := true]> (blocked s)) (sh s)))
    | IfRestart :: r =>
        Some (OK (mkmachine (<[i := restore_branch i (thread_states (sh s)) ++ r]> (rest s)) (blocked s) (sh s)))
    | x :: r =>
        Some (s' ← exec i x (sh s); OK (mkmachine (<[i := r]> (rest s)) (blocked s) s'))
    end.

(** The state [uhyve_init] leaves. *)
Definition launch : machine :=
  mkmachine thread (fun _ => false)
    (mkshared (fun _ => false) (fun i => i =? 0) None incoming (fun _ => false) 0 false false (fun _ => false) 0
       (mksetup false false false (fun _ => false) None false false (fun _ => false))).

Fixpoint run (ts : list nat) (s : machine) : option (outcome machine) :=
  match ts with
  | [] => Some (OK s)
  | i :: ts =>
      match step i s with
      | Some (OK s) => run ts s
      | r => r
      end
  end.

(** ** Programs with the branch resolved *)

Definition expand (i : nat) (x : stmt) : list stmt :=
  match x with IfRestart => IfRestart :: restore_branch i incoming | _ => [x] end.
Definition resolve (i : nat) (l : list stmt) : list stmt := flat_map (expand i) l.
Definition waits (l : list stmt) : nat := length (filter (fun x => x = BarrierWait) l).

Lemma waits_app l l' : waits (l ++ l') = waits l + waits l'.
Proof. unfold waits. by rewrite filter_app, length_app. Qed.
Lemma waits_cons x l : waits (x :: l) = (if decide (x = BarrierWait) then 1 else 0) + waits l.
Proof. unfold waits. rewrite filter_cons. by destruct (decide (x = BarrierWait)). Qed.
Lemma resolve_app i l l' : resolve i (l ++ l') = resolve i l ++ resolve i l'.
Proof. apply flat_map_app. Qed.

Lemma resolve_plain i l : IfRestart ∉ l -> resolve i l = l.
Proof.
  induction l as [|x l IH]; [done|]. intros [Hx Hl]%not_elem_of_cons. unfold resolve in *. cbn. rewrite IH by done.
  by destruct x.
Qed.
Lemma branch_plain i b : IfRestart ∉ restore_branch i b.
Proof.
  unfold restore_branch. destruct restart, b, (i =? 0); rewrite ?elem_of_cons, ?elem_of_nil; intros H;
    repeat destruct H as [H|H]; done.
Qed.

(** Two ways to cut a list: the one with fewer barriers left is behind. *)
Lemma cut_passed (l A B pre suf : list stmt) :
  l = A ++ BarrierWait :: B -> l = pre ++ suf -> waits suf <= waits B -> forall x, x ∈ A -> x ∈ pre.
Proof.
  intros -> E Hw x Hx. apply app_eq_app in E as [m [[-> Es]|[-> Es]]].
  - exfalso. rewrite Es, waits_app, waits_cons, decide_True in Hw by done. lia.
  - apply elem_of_app. by left.
Qed.

(** A statement that occurs once. *)
Lemma cut_once (x : stmt) (A B pre r : list stmt) :
  x ∉ A -> x ∉ B -> A ++ x :: B = pre ++ x :: r -> pre = A /\ r = B.
Proof.
  intros HA HB E. apply app_eq_app in E as [m [[-> Es]|[-> Es]]].
  - destruct m as [|y m]; cbn in Es; [injection Es as ->; by rewrite app_nil_r|].
    injection Es as -> ->. destruct HA. apply elem_of_app. right. left.
  - destruct m as [|y m]; cbn in Es; [injection Es as ->; by rewrite app_nil_r|].
    injection Es as -> ->. destruct HB. apply elem_of_app. right. left.
Qed.

(** What is done has been passed: a statement behind [A] in [pre] means that
    at most the barriers behind [A] are left. *)
Lemma cut_beyond (x : stmt) (A B pre suf : list stmt) :
  A ++ B = pre ++ suf -> x ∈ pre -> x ∉ A -> waits suf <= waits B.
Proof.
  intros E Hx HA. apply app_eq_app in E as [m [[-> Es]|[-> Es]]].
  - destruct HA. apply elem_of_app. by left.
  - subst B. rewrite waits_app. lia.
Qed.

(** The programs, barrier by barrier. *)
Definition seg_a (i : nat) : list stmt :=
  if i =? 0 then VcpuInit :: mig_setup ++ SetSelf :: (PthreadCreate <$> seq 1 (ncores - 1))
  else [SigactionChkp; SigactionMig; VcpuInit].
Definition seg_b (i : nat) : list stmt :=
  if i =? 0 then SetPossibleCpus :: set_timer else [].
Definition seg_c (i : nat) : list stmt :=
  IfRestart :: restore_branch i incoming ++
  (if gdb then (if i =? 0 then [GdbInit] else []) ++ [BarrierWait] else []) ++ [KvmRun; GuestStart].
Definition full (i : nat) : list stmt := seg_a i ++ BarrierWait :: seg_b i ++ BarrierWait :: seg_c i.

Lemma resolve_thread i : resolve i (thread i) = full i.
Proof.
  assert (forall l, resolve i (PthreadCreate <$> l) = PthreadCreate <$> l) as Hc.
  { intros l. apply resolve_plain. intros H. apply list_elem_of_fmap in H as (j & H & _). done. }
  unfold thread, full, seg_a, seg_b, seg_c, uhyve_loop, uhyve_thread, vcpu_loop, set_timer, mig_setup.
  destruct (Nat.eqb_spec i 0) as [->|Hi]; rewrite !resolve_app, ?Hc; cbn [resolve flat_map expand app];
    destruct checkpoints, gdb, support; cbn [resolve flat_map expand app]; rewrite <- ?app_assoc; cbn [app];
    rewrite ?app_nil_r, <- ?app_assoc; try done.
Qed.

Definition gdb_waits : nat := if gdb then 1 else 0.
Definition branch_waits : nat := if restart then 0 else if incoming then 1 else 0.

Ltac count :=
  rewrite ?waits_app, ?waits_cons; repeat first [rewrite decide_True by done | rewrite decide_False by done];
  change (waits []) with 0; rewrite ?Nat.add_0_r, ?Nat.add_0_l.

Lemma waits_seg_a i : waits (seg_a i) = 0.
Proof.
  unfold seg_a, mig_setup. destruct (i =? 0); [|done]. count.
  transitivity (waits (PthreadCreate <$> seq 1 (ncores - 1))); [by destruct support|].
  induction (seq 1 (ncores - 1)) as [|j l IH]; [done|]. cbn [fmap list_fmap]. by count.
Qed.
Lemma waits_branch i : waits (restore_branch i incoming) = branch_waits.
Proof. unfold restore_branch, branch_waits. by destruct restart, incoming, (i =? 0). Qed.
Lemma waits_seg_c i : waits (seg_c i) = branch_waits + gdb_waits.
Proof.
  unfold seg_c, gdb_waits. rewrite waits_cons, !waits_app, waits_branch.
  destruct gdb, (i =? 0); by count.
Qed.
Lemma waits_full i : waits (full i) = 2 + branch_waits + gdb_waits.
Proof.
  unfold full. rewrite waits_app, waits_cons, waits_app, waits_cons, waits_seg_a, waits_seg_c.
  unfold seg_b, set_timer. destruct (i =? 0), checkpoints; count; lia.
Qed.

(** ** Where each statement stands *)

Ltac elem_cases :=
  repeat match goal with
  | H : _ \/ _ |- _ => destruct H
  | H : _ /\ _ |- _ => destruct H
  | H : exists _, _ |- _ => destruct H
  end; subst; first [contradiction | congruence | discriminate].

(** In front of the first barrier; on the main thread only. *)
Definition early (x : stmt) : bool :=
  match x with
  | VcpuInit | SigactionChkp | SigactionMig | SigmaskBlock | CreateMigThread | Eventfd | SemInit | SetSelf
  | PthreadCreate _ => true
  | _ => false
  end.
Definition main_only (x : stmt) : bool :=
  match x with
  | SigmaskBlock | CreateMigThread | Eventfd | SemInit | SetSelf | PthreadCreate _
  | SetPossibleCpus | SigactionAlrm | SetItimer | FreeStates => true
  | _ => false
  end.

Lemma seg_a_elem i x : x ∈ seg_a i -> early x = true /\ (main_only x = true -> i = 0).
Proof.
  unfold seg_a, mig_setup. destruct (Nat.eqb_spec i 0).
  - intros [->|[H|[->|(j & -> & _)%list_elem_of_fmap]%elem_of_cons]%elem_of_app]%elem_of_cons; try done.
    destruct support; rewrite ?elem_of_cons, ?elem_of_nil in H; by repeat destruct H as [->|H].
  - rewrite !elem_of_cons, elem_of_nil. by intros [->|[->|[->|]]].
Qed.
Lemma seg_b_elem i x : x ∈ seg_b i ->
  i = 0 /\ (x = SetPossibleCpus \/ checkpoints = true /\ (x = SigactionAlrm \/ x = SetItimer)).
Proof.
  unfold seg_b, set_timer. destruct (Nat.eqb_spec i 0), checkpoints; rewrite ?elem_of_cons, ?elem_of_nil; tauto.
Qed.

(** In front of the branch. *)
Definition prefix (i : nat) : list stmt := seg_a i ++ BarrierWait :: seg_b i ++ [BarrierWait; IfRestart].
Lemma prefix_elem i x : x ∈ prefix i ->
  early x = true /\ (main_only x = true -> i = 0) \/ x = BarrierWait \/
  i = 0 /\ (x = SetPossibleCpus \/ x = SigactionAlrm \/ x = SetItimer) \/ x = IfRestart.
Proof.
  unfold prefix. rewrite elem_of_app, elem_of_cons, elem_of_app, !elem_of_cons, elem_of_nil.
  intros [H|[H|[H|[H|[H|H]]]]]; [| | | | |done].
  1: apply seg_a_elem in H. 3: apply seg_b_elem in H. all: tauto.
Qed.

(** Behind it. *)
Definition gdb_part (i : nat) : list stmt :=
  (if gdb then (if i =? 0 then [GdbInit] else []) ++ [BarrierWait] else []) ++ [KvmRun; GuestStart].
Lemma full_prefix i : full i = prefix i ++ restore_branch i incoming ++ gdb_part i.
Proof. unfold full, prefix, seg_c, gdb_part. rewrite <- !app_assoc. cbn. by rewrite <- app_assoc. Qed.

Lemma gdb_part_elem i x : x ∈ gdb_part i -> (x = GdbInit /\ gdb = true /\ i = 0) \/ x = BarrierWait \/ x = KvmRun \/ x = GuestStart.
Proof.
  unfold gdb_part. destruct gdb; [destruct (Nat.eqb_spec i 0)|];
    cbn; rewrite ?elem_of_cons, ?elem_of_nil; tauto.
Qed.
Lemma branch_elem i x : x ∈ restore_branch i incoming ->
  x = RestoreCheckpoint \/ x = IncCheckpoint \/ (x = RestoreMigrated /\ restart = false /\ incoming = true) \/
  x = BarrierWait \/ (x = FreeStates /\ i = 0 /\ restart = false /\ incoming = true) \/
  (x = InitCpuState /\ restart = false /\ incoming = false).
Proof.
  unfold restore_branch. destruct restart, incoming; destruct (Nat.eqb_spec i 0);
    rewrite ?elem_of_cons, ?elem_of_nil; tauto.
Qed.
Lemma waits_gdb_part i : waits (gdb_part i) = gdb_waits.
Proof. unfold gdb_part, gdb_waits. destruct gdb; [destruct (i =? 0)|]; cbn [app]; by count. Qed.

(** Statements of the main thread only. *)
Lemma full_main i x : x ∈ full i -> main_only x = true -> i = 0.
Proof.
  rewrite full_prefix, !elem_of_app. intros [H|[H|H]] Hx.
  - apply prefix_elem in H as [[_ H]|[->|[[H _]| ->]]]; auto; done.
  - apply branch_elem in H. elem_cases.
  - apply gdb_part_elem in H. elem_cases.
Qed.

Lemma mig_thread_support i : CreateMigThread ∈ full i -> support = true.
Proof.
  rewrite full_prefix. unfold prefix, seg_a, mig_setup. rewrite !elem_of_app, elem_of_cons, elem_of_app.
  destruct support; [done|]. intros [[H|[H|[H|H]]]|[H|H]].
  - destruct (i =? 0); cbn in H; rewrite !elem_of_cons in H.
    + destruct H as [H|[H|(j & H & _)%list_elem_of_fmap]]; done.
    + rewrite elem_of_nil in H. elem_cases.
  - done.
  - apply seg_b_elem in H. elem_cases.
  - rewrite !elem_of_cons, elem_of_nil in H. elem_cases.
  - apply branch_elem in H. elem_cases.
  - apply gdb_part_elem in H. elem_cases.
Qed.

(** The mask is set before a thread is created. *)
Lemma at_create pre x r :
  support = true -> full 0 = pre ++ x :: r -> x <> VcpuInit -> x <> SigmaskBlock -> SigmaskBlock ∈ pre.
Proof.
  intros Hs E H1 H2. assert (exists B, full 0 = [VcpuInit; SigmaskBlock] ++ B) as [B EB].
  { unfold full, seg_a, mig_setup. rewrite Hs. by eexists. }
  rewrite EB in E. destruct pre as [|y pre]; [by injection E as <- _|]. injection E as <- E.
  destruct pre as [|y pre]; [by injection E as <- _|]. injection E as <- E. right. left.
Qed.

Lemma at_branch pre i r : full i = pre ++ IfRestart :: r -> waits r = branch_waits + gdb_waits.
Proof.
  assert (full i = (seg_a i ++ BarrierWait :: seg_b i ++ [BarrierWait]) ++
    IfRestart :: (restore_branch i incoming ++ gdb_part i)) as ->.
  { rewrite full_prefix. unfold prefix. rewrite <- !app_assoc. cbn [app]. by rewrite <- !app_assoc. }
  intros E. apply cut_once in E as [_ ->].
  - by rewrite waits_app, waits_branch, waits_gdb_part.
  - rewrite elem_of_app, elem_of_cons, elem_of_app, list_elem_of_singleton.
    intros [H|[H|[H|H]]]; try done; [apply seg_a_elem in H|apply seg_b_elem in H]; elem_cases.
  - rewrite elem_of_app. intros [H|H]; [by apply branch_plain in H|].
    apply gdb_part_elem in H. elem_cases.
Qed.
Lemma not_in_prefix i x :
  x = RestoreMigrated \/ x = FreeStates \/ x = InitCpuState \/ x = RestoreCheckpoint \/ x = KvmRun \/ x = GuestStart -> x ∉ prefix i.
Proof. intros Hx H. apply prefix_elem in H. elem_cases. Qed.
Lemma not_in_gdb_part i x :
  x = RestoreMigrated \/ x = FreeStates \/ x = InitCpuState \/ x = RestoreCheckpoint -> x ∉ gdb_part i.
Proof. intros Hx H. apply gdb_part_elem in H. elem_cases. Qed.

(** With an incoming migration. *)
Section Incoming.
Hypothesis (Hr : restart = false) (Hin : incoming = true).
Definition free_part (i : nat) : list stmt := (if i =? 0 then [FreeStates] else []) ++ gdb_part i.
Lemma full_incoming i :
  full i = (prefix i ++ [RestoreMigrated; BarrierWait]) ++ free_part i.
Proof.
  rewrite full_prefix. unfold restore_branch, free_part. rewrite Hr, Hin.
  rewrite <- !app_assoc. by destruct (i =? 0).
Qed.

(** While a thread has more than [gdb_waits] barriers ahead, the states are
    not freed. *)
Lemma not_freed pre suf :
  full 0 = pre ++ suf -> gdb_waits < waits suf -> FreeStates ∉ pre.
Proof.
  rewrite full_incoming. intros E Hw HF.
  assert (waits suf <= waits (free_part 0)) as H.
  { eapply cut_beyond; [exact E|exact HF|]. rewrite elem_of_app, !elem_of_cons, elem_of_nil.
    intros [H|[H|[H|H]]]; try done. apply prefix_elem in H. elem_cases. }
  unfold free_part in H. cbn [Nat.eqb app] in H. rewrite waits_cons, waits_gdb_part, decide_False in H by done. lia.
Qed.

Lemma at_restore pre i r : full i = pre ++ RestoreMigrated :: r -> waits r = 1 + gdb_waits.
Proof.
  rewrite full_incoming. rewrite <- app_assoc. cbn [app]. intros E. apply cut_once in E as [_ ->].
  - unfold free_part. rewrite waits_cons, waits_app, waits_gdb_part, decide_True by done.
    destruct (i =? 0); by count.
  - apply not_in_prefix. tauto.
  - unfold free_part. rewrite elem_of_cons, elem_of_app. intros [H|[H|H]]; [done| |].
    + destruct (i =? 0); [apply elem_of_cons in H as [H|H]; [done|]|]; by apply elem_of_nil in H.
    + apply not_in_gdb_part in H; tauto.
Qed.

Lemma at_free pre r : full 0 = pre ++ FreeStates :: r -> FreeStates ∉ pre.
Proof.
  rewrite full_incoming. unfold free_part. cbn [Nat.eqb app]. intros E.
  assert (FreeStates ∉ prefix 0 ++ [RestoreMigrated; BarrierWait]) as HA.
  { rewrite elem_of_app, !elem_of_cons, elem_of_nil. intros [H|[H|[H|H]]]; try done.
    apply prefix_elem in H. elem_cases. }
  apply cut_once in E as [-> _]; [done|done|]. apply not_in_gdb_part. tauto.
Qed.
End Incoming.

(** ** The invariant *)

(** [done_ i]: what thread [i] has executed. *)
Definition loads (done_ : list stmt) : Prop :=
  RestoreCheckpoint ∈ done_ \/ RestoreMigrated ∈ done_ \/ InitCpuState ∈ done_.

(** How often the startup code has run on the cores. *)
Definition counted (done_ : nat -> list stmt) : nat :=
  Freeze.total ncores (fun j => length (filter (fun x => x = GuestStart) (done_ j))).

Record setup_inv (done_ : nat -> list stmt) (u : setup) : Prop := {
  su_chkp : forall j, SigactionChkp ∈ done_ j -> chkp_handler u = true;
  su_mig : forall j, SigactionMig ∈ done_ j -> mig_handler u = true;
  su_alrm : SigactionAlrm ∈ done_ 0 -> alrm_handler u = true;
  su_mask : SigmaskBlock ∈ done_ 0 -> usr1_blocked u 0 = true;
  su_child : support = true -> forall j, PthreadCreate j ∈ done_ 0 -> usr1_blocked u j = true;
  su_thread : CreateMigThread ∈ done_ 0 -> mig_thread u = Some true;
  su_efd : Eventfd ∈ done_ 0 -> mig_efd u = true;
  su_sem : SemInit ∈ done_ 0 -> mig_sem u = true;
  su_self : SetSelf ∈ done_ 0 -> vcpu_threads u 0 = true;
  su_handle : forall j, PthreadCreate j ∈ done_ 0 -> vcpu_threads u j = true
}.

(** What the globals say, given what has been executed. *)
Record shared_inv (done_ : nat -> list stmt) (g : shared) : Prop := {
  sv_created : forall j, VcpuInit ∈ done_ j -> vcpu_created g j = true;
  sv_born : forall j, born g j = true <-> j = 0 \/ PthreadCreate j ∈ done_ 0;
  sv_possible : SetPossibleCpus ∈ done_ 0 -> possible_cpus g = Some ncores;
  sv_states : thread_states g = true <-> incoming = true /\ FreeStates ∉ done_ 0;
  sv_loaded : forall j, loads (done_ j) -> loaded g j = true;
  sv_gdb : GdbInit ∈ done_ 0 -> gdb_ready g = true;
  sv_entered : forall j, entered g j = true <-> KvmRun ∈ done_ j;
  sv_timer : timer g = true <-> SetItimer ∈ done_ 0;
  sv_online : restart = false -> incoming = false -> cpu_online g = counted done_;
  sv_setup : setup_inv done_ (su g)
}.

Record launch_inv (done_ : nat -> list stmt) (w : nat) (s : machine) : Prop := {
  iv_cut : forall i, i < ncores -> full i = done_ i ++ resolve i (rest s i);
  iv_waits : forall i, i < ncores -> waits (resolve i (rest s i)) = w;
  iv_blocked : forall i, i < ncores -> blocked s i = true -> exists r, rest s i = BarrierWait :: r;
  iv_free : exists i, i < ncores /\ blocked s i = false;
  iv_unborn : forall i, i < ncores -> born (sh s) i = false -> done_ i = [] /\ blocked s i = false;
  iv_shared : shared_inv done_ (sh s)
}.

Lemma elem_insert (done_ : nat -> list stmt) i x y j :
  y ∈ <[i := done_ i ++ [x]]> done_ j <-> y ∈ done_ j \/ (i = j /\ y = x).
Proof.
  destruct (decide (i = j)) as [->|Hne].
  - rewrite fn_lookup_insert, elem_of_app, list_elem_of_singleton. tauto.
  - rewrite fn_lookup_insert_ne by done. tauto.
Qed.
Lemma elem_insert_ne (done_ : nat -> list stmt) i x y j :
  y <> x -> y ∈ <[i := done_ i ++ [x]]> done_ j <-> y ∈ done_ j.
Proof. rewrite elem_insert. tauto. Qed.
Lemma insert_true (f : nat -> bool) i j : f j = true \/ i = j -> <[i := true]> f j = true.
Proof.
  destruct (decide (i = j)) as [->|Hne]; [by rewrite fn_lookup_insert|].
  rewrite fn_lookup_insert_ne by done. tauto.
Qed.
Lemma insert_true_inv (f : nat -> bool) i j : <[i := true]> f j = true -> f j = true \/ i = j.
Proof. destruct (decide (i = j)) as [->|Hne]; [tauto|]. rewrite fn_lookup_insert_ne by done. tauto. Qed.

Lemma insert_true_iff (f : nat -> bool) i j : <[i := true]> f j = true <-> f j = true \/ i = j.
Proof. split; [apply insert_true_inv|apply insert_true]. Qed.

Lemma prepare_inv done_ i x u :
  setup_inv done_ u -> (main_only x = true -> i = 0) ->
  (x = CreateMigThread \/ (support = true /\ exists j, x = PthreadCreate j) -> SigmaskBlock ∈ done_ 0) ->
  setup_inv (<[i := done_ i ++ [x]]> done_) (prepare i x u).
Proof.
  intros [H1 H2 H3 H4 H5 H6 H7 H8 H9 H10] Hmain Hmask. destruct u as [c m a k th ef se vt].
  split; cbn [chkp_handler mig_handler alrm_handler usr1_blocked mig_thread mig_efd mig_sem vcpu_threads] in *.
  - intros j [Hy|[<- <-]]%elem_insert; [apply H1 in Hy as ->; by destruct x|done].
  - intros j [Hy|[<- <-]]%elem_insert; [apply H2 in Hy as ->; by destruct x|done].
  - intros [Hy|[-> <-]]%elem_insert; [apply H3 in Hy as ->; by destruct x|done].
  - intros [Hy|[-> <-]]%elem_insert.
    + apply H4 in Hy. destruct x; try done; cbn.
      * apply insert_true. by left.
      * destruct (decide (i0 = 0)) as [->|]; [|by rewrite fn_lookup_insert_ne].
        by rewrite fn_lookup_insert, Hmain.
    + apply insert_true. by right.
  - intros Hs j [Hy|[-> <-]]%elem_insert.
    + apply (H5 Hs) in Hy. destruct x as [| | | | | | | |j'| | | | | | | | | | | | |]; try done; cbn.
      * apply insert_true. by left.
      * destruct (decide (j' = j)) as [->|]; [|by rewrite fn_lookup_insert_ne].
        rewrite fn_lookup_insert, (Hmain eq_refl). apply H4, Hmask; eauto.
    + cbn. rewrite fn_lookup_insert. apply H4, Hmask; eauto.
  - intros [Hy|[-> <-]]%elem_insert.
    + pose proof (H6 Hy) as ->. destruct x; try done. cbn. rewrite (Hmain eq_refl).
      by rewrite H4 by (apply Hmask; tauto).
    + cbn. by rewrite H4 by (apply Hmask; tauto).
  - intros [Hy|[-> <-]]%elem_insert; [apply H7 in Hy as ->; by destruct x|done].
  - intros [Hy|[-> <-]]%elem_insert; [apply H8 in Hy as ->; by destruct x|done].
  - intros [Hy|[-> <-]]%elem_insert; [apply H9 in Hy|by apply insert_true; right].
    destruct x; try done; apply insert_true; by left.
  - intros j [Hy|[-> <-]]%elem_insert; [apply H10 in Hy|by apply insert_true; right].
    destruct x; try done; apply insert_true; by left.
Qed.

Lemma counted_nil : counted (fun _ => []) = 0.
Proof. unfold counted, Freeze.total. induction (seq 0 ncores) as [|j l IH]; [done|]. cbn. exact IH. Qed.
(** A statement counts once. *)
Lemma counted_snoc done_ i x :
  i < ncores -> counted (<[i := done_ i ++ [x]]> done_) =
    (if decide (x = GuestStart) then S (counted done_) else counted done_).
Proof.
  intros Hi. unfold counted.
  match goal with |- Freeze.total _ ?w' = _ => pose proof (Freeze.total_change ncores
    (fun j => length (filter (fun x => x = GuestStart) (done_ j))) w' i Hi) as T end.
  cbv beta in T. rewrite fn_lookup_insert, filter_app, length_app, filter_cons in T.
  specialize (T ltac:(intros j Hj; by rewrite fn_lookup_insert_ne by done)).
  destruct (decide (x = GuestStart)); cbn in T |- *; lia.
Qed.

(** A statement's effect on the globals. *)
Lemma exec_shared done_ i x g :
  i < ncores -> shared_inv done_ g ->
  (main_only x = true -> i = 0) ->
  (x = RestoreMigrated \/ x = FreeStates -> thread_states g = true) ->
  (x = CreateMigThread \/ (support = true /\ exists j, x = PthreadCreate j) -> SigmaskBlock ∈ done_ 0) ->
  exists g', exec i x g = OK g' /\ shared_inv (<[i := done_ i ++ [x]]> done_) g' /\
    (forall j, born g j = true -> born g' j = true).
Proof.
  intros Hi [H1 H2 H3 H4 H5 H6 H7 H8 H10 H9] Hmain Hstates Hmask. apply (prepare_inv _ i x) in H9; [|done|done].
  destruct g as [v b p t l n ti gd e c u]; cbn in *.
  assert (restart = false -> incoming = false ->
    (match x with GuestStart => if restart || incoming then c else S c | _ => c end) =
    counted (<[i := done_ i ++ [x]]> done_)) as Hc.
  { intros Hr Hin. rewrite counted_snoc, <- H10 by done. rewrite Hr, Hin. by destruct x. }
  clear H10.
  assert (forall j, loads (<[i := done_ i ++ [x]]> done_ j) -> loads (done_ j) \/
    (i = j /\ (x = RestoreCheckpoint \/ x = RestoreMigrated \/ x = InitCpuState))) as Hl.
  { intros j. unfold loads. rewrite !elem_insert. intuition congruence. }
  remember (prepare i x u) as u' eqn:Eu. clear Eu Hmask.
  destruct x; cbn in Hmain |- *; try (assert (t = true) as -> by (apply Hstates; tauto));
    eexists; (split; [reflexivity|]).
  all: split; [split; cbn; first [exact H9|exact Hc|clear Hc]|cbn; try done; intros; by try (apply insert_true; left)]; clear H9.
  all: intros; repeat match goal with
    | H : loads _ |- _ => apply Hl in H; destruct H as [H|H]
    | H : <[_ := true]> _ _ = true |- _ => apply insert_true_inv in H
    end; rewrite ?elem_insert in *; auto.
  all: try (apply insert_true).
  all: try solve [rewrite ?H2, ?H7, ?H8; intuition congruence | intuition (congruence || auto)].
  - rewrite (Hmain eq_refl), insert_true_iff, H2. intuition congruence.
  - rewrite insert_true_iff, H7. intuition congruence.
Qed.

Lemma resolve_cons i x l : resolve i (x :: l) = expand i x ++ resolve i l.
Proof. done. Qed.
Lemma expand_plain i x : x <> IfRestart -> expand i x = [x].
Proof. by destruct x. Qed.

(** A thread moves from [rest] to [r], having executed [x]. *)
Lemma moves_inv done_ w s i x r g :
  launch_inv done_ w s -> i < ncores -> blocked s i = false -> x <> BarrierWait ->
  resolve i (rest s i) = x :: resolve i r -> shared_inv (<[i := done_ i ++ [x]]> done_) g ->
  (forall j, born (sh s) j = true -> born g j = true) -> born (sh s) i = true ->
  launch_inv (<[i := done_ i ++ [x]]> done_) w (mkmachine (<[i := r]> (rest s)) (blocked s) g).
Proof.
  intros [Hcut Hw Hbl Hfree Hub Hsh] Hi Hb Hx Hr Hg Hborn Hbi. split; cbn [rest blocked sh]; auto.
  - intros j Hj. destruct (decide (i = j)) as [<-|Hne].
    + rewrite !fn_lookup_insert, <- app_assoc. cbn [app]. rewrite <- Hr. auto.
    + rewrite !fn_lookup_insert_ne by done. auto.
  - intros j Hj. destruct (decide (i = j)) as [<-|Hne].
    + rewrite fn_lookup_insert. specialize (Hw i Hi). rewrite Hr, waits_cons, decide_False in Hw by done. done.
    + rewrite fn_lookup_insert_ne by done. auto.
  - intros j Hj Hbj. rewrite fn_lookup_insert_ne by congruence. auto.
  - intros j Hj Hbj. rewrite fn_lookup_insert_ne.
    + apply Hub; [done|]. destruct (born (sh s) j) eqn:E; [|done]. apply Hborn in E. congruence.
    + intros <-. apply Hborn in Hbi. congruence.
Qed.

(** The states of a migration are there when a thread reaches a statement that
    uses them. *)
Lemma states_there done_ w s i r x :
  launch_inv done_ w s -> 0 < ncores -> i < ncores -> rest s i = x :: r ->
  x = RestoreMigrated \/ x = FreeStates -> thread_states (sh s) = true.
Proof.
  intros [Hcut Hw _ _ _ Hsh] Hn Hi Hr Hx. pose proof (Hcut i Hi) as E. pose proof (Hw i Hi) as Ew.
  rewrite Hr, resolve_cons, expand_plain in E, Ew by (by destruct Hx as [-> | ->]). cbn [app] in E, Ew.
  assert (x ∈ full i) as Hin by (rewrite E, elem_of_app; right; left).
  assert (restart = false /\ incoming = true) as [Hre Hinc].
  { rewrite full_prefix, !elem_of_app in Hin. destruct Hin as [H|[H|H]].
    - exfalso. apply (not_in_prefix i x); [tauto|done].
    - apply branch_elem in H. split; destruct Hx as [-> | ->]; elem_cases.
    - exfalso. apply (not_in_gdb_part i x); [tauto|done]. }
  apply (sv_states _ _ Hsh). split; [done|]. destruct Hx as [-> | ->].
  - apply (not_freed Hre Hinc _ _ (Hcut 0 Hn)). rewrite (Hw 0 Hn), <- Ew.
    apply (at_restore Hre Hinc) in E. rewrite waits_cons, decide_False, E by done. lia.
  - assert (i = 0) as -> by (apply (full_main i FreeStates); tauto). by apply (at_free Hre Hinc _ _ E).
Qed.

(** The branch a thread takes is the one the program started with. *)
Lemma branch_there done_ w s i r :
  launch_inv done_ w s -> 0 < ncores -> i < ncores -> rest s i = IfRestart :: r ->
  restore_branch i (thread_states (sh s)) = restore_branch i incoming.
Proof.
  intros [Hcut Hw _ _ _ Hsh] Hn Hi Hr. pose proof (Hcut i Hi) as E. pose proof (Hw i Hi) as Ew.
  rewrite Hr, resolve_cons in E, Ew. cbn [expand app] in E, Ew.
  unfold restore_branch at 1 2. destruct restart eqn:Hre; [done|]. destruct incoming eqn:Hinc.
  - replace (thread_states (sh s)) with true; [done|]. symmetry.
    apply (sv_states _ _ Hsh). split; [done|]. apply (not_freed Hre Hinc _ _ (Hcut 0 Hn)). rewrite (Hw 0 Hn), <- Ew.
    apply at_branch in E. rewrite waits_cons, decide_False, E by done. unfold branch_waits. rewrite Hre, Hinc. lia.
  - destruct (thread_states (sh s)) eqn:Et; [|done]. apply (sv_states _ _ Hsh) in Et. destruct Et. congruence.
Qed.

(** ** Steps *)

Lemma launch_step done_ w s i o :
  0 < ncores -> launch_inv done_ w s -> step i s = Some o ->
  exists s' done' w', o = OK s' /\ launch_inv done' w' s'.
Proof.
  intros Hn Hinv H. pose proof Hinv as [Hcut Hw Hbl Hfree Hub Hsh]. unfold step in H.
  destruct (negb _) eqn:Eb; [done|]. apply negb_false_iff in Eb.
  apply andb_true_iff in Eb as [[[Hi%Nat.ltb_lt Hborn]%andb_true_iff Hb%negb_true_iff]%andb_true_iff Hsp%negb_true_iff].
  destruct (rest s i) as [|x r] eqn:Er; [done|].
  destruct (decide (x = BarrierWait)) as [->|Hxw].
  - destruct (others_wait i s) eqn:Eo; injection H as <-.
    + (* the barrier opens *)
      eexists _, (fun j => done_ j ++ [BarrierWait]), (w - 1). split; [done|].
      assert (forall j, j < ncores -> exists r', rest s j = BarrierWait :: r') as Hall.
      { intros j Hj. unfold others_wait in Eo. rewrite forallb_forall in Eo.
        specialize (Eo j ltac:(apply in_seq; lia)). apply orb_true_iff in Eo as [->%Nat.eqb_eq|Eo]; [by exists r|auto]. }
      split; cbn [rest blocked sh].
      * intros j Hj. destruct (Hall j Hj) as [r' E]. rewrite (Hcut j Hj), E, <- app_assoc. done.
      * intros j Hj. destruct (Hall j Hj) as [r' E]. specialize (Hw j Hj).
        rewrite E, resolve_cons in Hw. cbn [expand app] in Hw. rewrite waits_cons, decide_True in Hw by done.
        rewrite E. cbn [tail]. lia.
      * done.
      * exists i. auto.
      * intros j Hj Hbj. destruct (Hub j Hj Hbj) as [_ Hbb]. exfalso.
        unfold others_wait in Eo. rewrite forallb_forall in Eo.
        specialize (Eo j ltac:(apply in_seq; lia)). apply orb_true_iff in Eo as [->%Nat.eqb_eq|Eo]; congruence.
      * destruct Hsh as [H1 H2 H3 H4 H5 H6 H7 H8 Hct [S1 S2 S3 S4 S5 S6 S7 S8 S9 S10]].
        assert (forall j y, y <> BarrierWait -> y ∈ done_ j ++ [BarrierWait] <-> y ∈ done_ j) as He.
        { intros j y Hy. rewrite elem_of_app, list_elem_of_singleton. tauto. }
        assert (counted (fun j => done_ j ++ [BarrierWait]) = counted done_) as Hcc.
        { unfold counted, Freeze.total. f_equal. apply list_fmap_ext. intros k j _.
          by rewrite filter_app, length_app, Nat.add_0_r. }
        split; unfold loads; rewrite ?Hcc; intros *; rewrite ?He by done; auto; try by apply H5.
        split; intros *; rewrite ?He by done; eauto. intros Hs j. rewrite He by done. auto.
    + (* the thread waits *)
      eexists _, done_, w. split; [done|]. split; cbn [rest blocked sh]; auto.
      * intros j Hj. destruct (decide (i = j)) as [<-|Hne]; [rewrite fn_lookup_insert; eauto|].
        rewrite fn_lookup_insert_ne by done. auto.
      * assert (exists j, j < ncores /\ j <> i /\ blocked s j = false) as (j & Hj & Hji & Hbj).
        { destruct (decide (Exists (fun j => j <> i /\ blocked s j = false) (seq 0 ncores))) as [E|E].
          - apply Exists_exists in E as (j & Hj%elem_of_seq & E). exists j. split; [lia|done].
          - exfalso. apply not_true_iff_false in Eo. apply Eo. unfold others_wait. apply forallb_forall.
            intros j Hj%in_seq. apply orb_true_iff. destruct (Nat.eqb_spec j i); [by left|]. right.
            destruct (blocked s j) eqn:Ej; [done|]. destruct E. apply Exists_exists. exists j.
            split; [apply elem_of_seq; lia|done]. }
        exists j. by rewrite fn_lookup_insert_ne by done.
      * intros j Hj Hbj. rewrite fn_lookup_insert_ne by congruence. auto.
  - destruct (decide (x = IfRestart)) as [->|Hxr].
    + injection H as <-. eexists _, (<[i := done_ i ++ [IfRestart]]> done_), w. split; [done|].
      rewrite (branch_there _ _ _ _ _ Hinv Hn Hi Er).
      apply (moves_inv _ _ s i IfRestart); auto.
      * by rewrite Er, resolve_cons, resolve_app, (resolve_plain i (restore_branch i incoming)) by apply branch_plain.
      * destruct (exec_shared done_ i IfRestart (sh s) Hi Hsh) as (g & E & Hg & _).
        -- done.
        -- intros [Hj|Hj]; done.
        -- intros [Hj|[_ [j Hj]]]; done.
        -- cbn in E. destruct (sh s) as [? ? ? ? ? ? ? ? ? ? []]. by injection E as <-.
    + assert (x ∈ full i) as Hxf.
      { rewrite (Hcut i Hi), Er, resolve_cons, expand_plain by done. rewrite elem_of_app. right. left. }
      assert (exists g, exec i x (sh s) = OK g /\ shared_inv (<[i := done_ i ++ [x]]> done_) g /\
        (forall j, born (sh s) j = true -> born g j = true)) as (g & Eg & Hg & Hgb).
      { apply exec_shared; [done|done|..].
        - by apply full_main.
        - by apply (states_there _ _ _ _ _ _ Hinv Hn Hi Er).
        - intros Hx. assert (i = 0) as -> by (apply (full_main i x); [done|]; by destruct Hx as [->|[_ [j ->]]]).
          apply (at_create (done_ 0) x (resolve 0 r)); [| |by destruct Hx as [->|[_ [j ->]]]..].
          + destruct Hx as [->|[Hs _]]; [|done]. by apply (mig_thread_support 0).
          + by rewrite (Hcut 0 Hi), Er, resolve_cons, expand_plain. }
      assert (o = OK (mkmachine (<[i := r]> (rest s)) (blocked s) g)) as ->.
      { destruct x; try done; rewrite Eg in H; by injection H as <-. }
      eexists _, (<[i := done_ i ++ [x]]> done_), w. split; [done|]. apply (moves_inv _ _ s i x); auto.
      by rewrite Er, resolve_cons, expand_plain.
Qed.

Lemma launch_start : 0 < ncores -> launch_inv (fun _ => []) (2 + branch_waits + gdb_waits) launch.
Proof.
  intros Hn. split; cbn [rest blocked sh launch]; auto.
  - intros i _. by rewrite resolve_thread.
  - intros i _. by rewrite resolve_thread, waits_full.
  - done.
  - eauto.
  - split; cbn [vcpu_created born possible_cpus thread_states loaded gdb_ready entered]; unfold loads;
      repeat match goal with |- nat -> _ => intros ? | |- forall _ : nat, _ => intros ? end;
      rewrite ?elem_of_nil, ?Nat.eqb_eq, ?counted_nil; try first [done | tauto].
    split; intros; match goal with H : _ ∈ [] |- _ => by apply elem_of_nil in H end.
Qed.

Lemma launch_run ts s done_ w o :
  0 < ncores -> launch_inv done_ w s -> run ts s = Some o ->
  exists s' done' w', o = OK s' /\ launch_inv done' w' s'.
Proof.
  intros Hn. revert s done_ w. induction ts as [|i ts IH]; intros s done_ w Hinv H; cbn in H.
  - injection H as <-. eauto.
  - destruct (step i s) as [o'|] eqn:E; [|done].
    destruct (launch_step _ _ _ _ _ Hn Hinv E) as (s1 & d1 & w1 & -> & H1). by eapply IH.
Qed.

(** ** Progress and termination *)

(** Everything in front of the statement a thread is at has been executed. *)
Lemma cut_at (x y : stmt) (A B pre r : list stmt) :
  A ++ x :: B = pre ++ x :: r -> x ∉ A -> y ∈ A -> y ∈ pre.
Proof.
  intros E HA Hy. apply app_eq_app in E as [m [[-> Es]|[-> Es]]].
  - destruct m as [|z m]; [by rewrite app_nil_r in Hy|]. injection Es as <- _.
    destruct HA. rewrite elem_of_app. right; left.
  - apply elem_of_app. by left.
Qed.
Lemma cut_all (x y : stmt) (A B pre suf : list stmt) :
  A ++ B = pre ++ suf -> x ∈ pre -> x ∉ A -> y ∈ A -> y ∈ pre.
Proof.
  intros E Hx HA Hy. apply app_eq_app in E as [m [[-> Es]|[-> Es]]].
  - destruct HA. apply elem_of_app. by left.
  - apply elem_of_app. by left.
Qed.

Lemma create_in_seg_a j : 0 < j < ncores -> PthreadCreate j ∈ seg_a 0.
Proof.
  intros Hj. unfold seg_a. cbn [Nat.eqb]. right. apply elem_of_app. right; right.
  apply list_elem_of_fmap. exists j. split; [done|]. apply elem_of_seq. lia.
Qed.
Lemma init_in_seg_a j : VcpuInit ∈ seg_a j.
Proof. unfold seg_a. destruct (j =? 0); [left|right; right; left]. Qed.

Lemma all_born done_ w s :
  launch_inv done_ w s -> (forall j, 0 < j < ncores -> PthreadCreate j ∈ done_ 0) ->
  forall j, j < ncores -> born (sh s) j = true.
Proof.
  intros Hinv H j Hj. apply (sv_born _ _ (iv_shared _ _ _ Hinv)). destruct (decide (j = 0)) as [->|]; [by left|].
  right. apply H. lia.
Qed.

(** Who is counted: at least the cores whose startup code has run, and every
    core once when all have run to the end. *)
Lemma counted_ge done_ i :
  i <= ncores -> (forall j, j < i -> GuestStart ∈ done_ j) -> i <= counted done_.
Proof.
  intros Hi H. unfold counted, Freeze.total. replace ncores with (i + (ncores - i)) by lia.
  rewrite seq_app, fmap_app, list_sum_app.
  enough (forall l, (forall j, j ∈ l -> GuestStart ∈ done_ j) -> length l <=
    list_sum ((fun j => length (filter (fun x => x = GuestStart) (done_ j))) <$> l)) as He.
  { specialize (He (seq 0 i)). rewrite length_seq in He. etransitivity; [apply He|lia].
    intros j Hj%elem_of_seq. apply H. lia. }
  induction l as [|j l IH]; intros Hl; [done|]. cbn. specialize (IH ltac:(intros; apply Hl; by right)).
  assert (GuestStart ∈ filter (fun x => x = GuestStart) (done_ j)) as Hin
    by (apply list_elem_of_filter; split; [done|apply Hl; left]).
  destruct (filter _ (done_ j)) as [|y t]; [by apply elem_of_nil in Hin|]. cbn. unfold list_sum in IH. lia.
Qed.

Lemma filter_none (l : list stmt) : GuestStart ∉ l -> filter (fun x => x = GuestStart) l = [].
Proof.
  induction l as [|x l IH]; [done|]. intros [Hx Hl]%not_elem_of_cons. rewrite filter_cons, decide_False by done. auto.
Qed.
Lemma guest_start_full i : filter (fun x => x = GuestStart) (full i) = [GuestStart].
Proof.
  rewrite full_prefix, !filter_app, (filter_none (prefix i)), (filter_none (restore_branch i incoming)).
  2: intros H; apply branch_elem in H; elem_cases.
  2: apply not_in_prefix; tauto.
  unfold gdb_part. rewrite filter_app, filter_none; [done|].
  destruct gdb; [destruct (i =? 0)|]; cbn; rewrite ?elem_of_cons, ?elem_of_nil; intros H; elem_cases.
Qed.
Lemma counted_full done_ : (forall j, j < ncores -> done_ j = full j) -> counted done_ = ncores.
Proof.
  intros H. unfold counted, Freeze.total. rewrite <- (length_seq ncores 0) at 2.
  assert (forall j, j ∈ seq 0 ncores -> done_ j = full j) as Hl by (intros j Hj%elem_of_seq; apply H; lia).
  revert Hl. generalize (seq 0 ncores). clear H. induction l as [|j l IH]; intros Hl; [done|].
  cbn. rewrite Hl, guest_start_full by left. cbn. f_equal. apply IH. intros; apply Hl; by right.
Qed.

(** What a barrier that has been passed says about every thread. *)
Lemma passed_barrier done_ s A B j y :
  launch_inv done_ 0 s -> j < ncores -> full j = A ++ BarrierWait :: B -> y ∈ A -> y ∈ done_ j.
Proof.
  intros [Hcut Hw _ _ _ _] Hj E Hy. eapply cut_passed; [exact E|by apply Hcut| |exact Hy].
  rewrite (Hw j Hj). lia.
Qed.
Lemma born_behind done_ s j : 0 < ncores -> launch_inv done_ 0 s -> j < ncores -> born (sh s) j = true.
Proof.
  intros Hn Hinv. apply (all_born _ _ _ Hinv). intros k Hk.
  apply (passed_barrier _ _ (seg_a 0) _ _ _ Hinv Hn eq_refl), create_in_seg_a, Hk.
Qed.

(** A thread that spins: the start is a normal one, and only the debugger's
    barrier may be ahead. *)
Lemma spins_normal done_ w s i :
  launch_inv done_ w s -> i < ncores -> spins i s = true ->
  restart = false /\ incoming = false /\ w = gdb_waits /\ cpu_online (sh s) = counted done_ /\ counted done_ < i.
Proof.
  intros [Hcut Hw _ _ _ Hsh] Hi H. unfold spins in H. destruct (rest s i) as [|[] r] eqn:Er; try done.
  apply Nat.ltb_lt in H. pose proof (Hcut i Hi) as E. pose proof (Hw i Hi) as Ew.
  rewrite Er, resolve_cons in E, Ew. cbn [expand app] in E, Ew.
  assert (restart = false /\ incoming = false) as [Hr Hin].
  { assert (InitCpuState ∈ full i) as Hf by (rewrite E, elem_of_app; right; left).
    rewrite full_prefix, !elem_of_app in Hf. destruct Hf as [Hf|[Hf|Hf]].
    - exfalso. by apply not_in_prefix in Hf; [|tauto].
    - apply branch_elem in Hf. elem_cases || (destruct_or? Hf; destruct_and? Hf; done || tauto).
    - exfalso. by apply not_in_gdb_part in Hf; [|tauto]. }
  pose proof (sv_online _ _ Hsh Hr Hin) as Ho. repeat split; try done; [|lia].
  rewrite <- Ew, waits_cons, decide_False by done. cbn [Nat.add].
  rewrite full_prefix in E. unfold restore_branch in E. rewrite Hr, Hin in E.
  apply cut_once in E as [_ ->]; [by rewrite waits_gdb_part| |]; [apply not_in_prefix|apply not_in_gdb_part]; tauto.
Qed.

(** The starts in which no core waits for one that waits for it. *)
Definition can_start : Prop := restart = true \/ incoming = true \/ gdb = false \/ ncores = 1.

(** When nobody else can go on, nobody spins: the cores before one that spins
    are in the guest, and counted. *)
Lemma nobody_spins done_ w s :
  can_start -> 0 < ncores -> launch_inv done_ w s ->
  (forall i, i < ncores -> born (sh s) i = true -> blocked s i = true \/ rest s i = [] \/ spins i s = true) ->
  forall i, i < ncores -> spins i s = false.
Proof.
  intros Hc Hn Hinv Hall i. pose proof Hinv as [Hcut Hw Hbl _ _ _].
  induction (lt_wf i) as [i _ IH]. intros Hi. apply not_true_is_false. intros Hs.
  destruct (spins_normal _ _ _ _ Hinv Hi Hs) as (Hr & Hin & -> & Ho & Hlt).
  assert (gdb = false) as Hg by (destruct Hc as [Hc|[Hc|[Hc|Hc]]]; [congruence..|done|lia]).
  assert (gdb_waits = 0) as Hg0 by (unfold gdb_waits; by rewrite Hg). rewrite Hg0 in *.
  assert (i <= counted done_); [|lia]. apply counted_ge; [lia|]. intros j Hj.
  destruct (Hall j ltac:(lia) (born_behind _ _ j Hn Hinv ltac:(lia))) as [Hb|[Hb|Hb]].
  - exfalso. destruct (Hbl j ltac:(lia) Hb) as [r Er]. pose proof (Hw j ltac:(lia)) as Ew.
    rewrite Er, resolve_cons in Ew. cbn [expand app] in Ew. rewrite waits_cons, decide_True in Ew by done. lia.
  - pose proof (Hcut j ltac:(lia)) as E. rewrite Hb in E. change (resolve j []) with (@nil stmt) in E.
    rewrite app_nil_r in E. rewrite <- E, full_prefix, !elem_of_app. right; right.
    unfold gdb_part. rewrite elem_of_app. right. right; left.
  - rewrite IH in Hb by lia. done.
Qed.

Lemma launch_progress done_ w s :
  can_start -> 0 < ncores -> launch_inv done_ w s ->
  (exists i, is_Some (step i s)) \/ forall i, i < ncores -> rest s i = [].
Proof.
  intros Hc Hn Hinv. pose proof Hinv as [Hcut Hw Hbl (f & Hf & Hff) Hub Hsh].
  destruct (decide (Exists (fun i => born (sh s) i = true /\ blocked s i = false /\ rest s i <> [] /\ spins i s = false)
    (seq 0 ncores))) as [E|E].
  - left. apply Exists_exists in E as (i & Hi%elem_of_seq & Hb & Hbk & Hr & Hsp). exists i. unfold step.
    rewrite (proj2 (Nat.ltb_lt _ _)), Hb, Hbk, Hsp by lia. cbn [negb andb].
    destruct (rest s i) as [|[] r]; try done; try (by eexists). destruct (others_wait i s); by eexists.
  - right. assert (forall i, i < ncores -> born (sh s) i = true ->
      blocked s i = true \/ rest s i = [] \/ spins i s = true) as Hall'.
    { intros i Hi Hb. destruct (blocked s i) eqn:Eb; [by left|]. right.
      destruct (decide (rest s i = [])) as [|Hr]; [by left|]. right. destruct (spins i s) eqn:Es; [done|].
      destruct E. apply Exists_exists. exists i. split; [apply elem_of_seq; lia|done]. }
    assert (forall i, i < ncores -> born (sh s) i = true -> blocked s i = true \/ rest s i = []) as Hall.
    { intros i Hi Hb. destruct (Hall' i Hi Hb) as [H|[H|H]]; [by left|by right|].
      by rewrite (nobody_spins _ _ _ Hc Hn Hinv Hall' i Hi) in H. }
    assert (born (sh s) 0 = true) as H0 by (apply (sv_born _ _ Hsh); by left).
    destruct (Hall 0 Hn H0) as [Hb0|Hr0].
    + exfalso. destruct (Hbl 0 Hn Hb0) as [r Hr]. pose proof (Hcut 0 Hn) as E0.
      rewrite Hr, resolve_cons in E0. cbn [expand app] in E0. unfold full in E0.
      assert (forall j, j < ncores -> born (sh s) j = true) as Hborn.
      { apply (all_born _ _ _ Hinv). intros j Hj. eapply (cut_at _ _ _ _ _ _ E0); [|by apply create_in_seg_a].
        intros H%seg_a_elem. elem_cases. }
      pose proof (Hw 0 Hn) as Ew0. rewrite Hr, resolve_cons in Ew0. cbn [expand app] in Ew0.
      rewrite waits_cons, decide_True in Ew0 by done.
      destruct (Hall f Hf (Hborn f Hf)) as [H|H]; [congruence|].
      pose proof (Hw f Hf) as Ew. rewrite H in Ew. unfold resolve, waits in Ew. cbn in Ew. lia.
    + pose proof (Hw 0 Hn) as Ew0. rewrite Hr0 in Ew0. change (waits (resolve 0 [])) with 0 in Ew0. subst w.
      assert (forall j, j < ncores -> born (sh s) j = true) as Hborn.
      { apply (all_born _ _ _ Hinv). intros j Hj. pose proof (Hcut 0 Hn) as E0. rewrite Hr0 in E0.
        change (resolve 0 []) with (@nil stmt) in E0. rewrite app_nil_r in E0. rewrite <- E0. unfold full.
        apply elem_of_app. left. by apply create_in_seg_a. }
      intros i Hi. destruct (Hall i Hi (Hborn i Hi)) as [H|H]; [|done]. exfalso.
      destruct (Hbl i Hi H) as [r Hr]. pose proof (Hw i Hi) as Ew. rewrite Hr, resolve_cons in Ew.
      cbn [expand app] in Ew. rewrite waits_cons, decide_True in Ew by done. lia.
Qed.

(** The statements left, twice, and who does not wait. *)
Definition launch_rank (s : machine) : nat :=
  Freeze.total ncores (fun i => 2 * length (resolve i (rest s i)) + Nat.b2n (negb (blocked s i))).

Lemma total_below (w w' : nat -> nat) :
  (forall j, j < ncores -> w' j < w j) -> Freeze.total ncores w' + ncores <= Freeze.total ncores w.
Proof.
  intros H. unfold Freeze.total. assert (forall l, (forall j, j ∈ l -> w' j < w j) ->
    list_sum (w' <$> l) + length l <= list_sum (w <$> l)) as Hl.
  { induction l as [|j l IH]; intros Hl; [done|]. cbn. specialize (IH ltac:(intros; apply Hl; by right)).
    specialize (Hl j ltac:(left)). unfold list_sum in *. lia. }
  specialize (Hl (seq 0 ncores)). rewrite length_seq in Hl. apply Hl. intros j Hj%elem_of_seq. apply H. lia.
Qed.

Lemma total_one (w w' : nat -> nat) i :
  i < ncores -> (forall j, j <> i -> w' j = w j) -> w' i < w i ->
  Freeze.total ncores w' < Freeze.total ncores w.
Proof. intros Hi Hne Hlt. pose proof (Freeze.total_change ncores w w' i Hi Hne). lia. Qed.

Lemma launch_step_rank done_ w s i s' :
  0 < ncores -> launch_inv done_ w s -> step i s = Some (OK s') -> launch_rank s' < launch_rank s.
Proof.
  intros Hn Hinv H. pose proof Hinv as [Hcut Hw Hbl Hfree Hub Hsh]. unfold step in H.
  destruct (negb _) eqn:Eb; [done|]. apply negb_false_iff in Eb.
  apply andb_true_iff in Eb as [[[Hi%Nat.ltb_lt Hborn]%andb_true_iff Hb%negb_true_iff]%andb_true_iff Hsp%negb_true_iff].
  destruct (rest s i) as [|x r] eqn:Er; [done|]. unfold launch_rank.
  destruct (decide (x = BarrierWait)) as [->|Hxw]; [destruct (others_wait i s) eqn:Eo; injection H as <-; cbn [rest blocked]|].
  - assert (forall j, j < ncores -> exists r', rest s j = BarrierWait :: r') as Hall.
    { intros j Hj. unfold others_wait in Eo. rewrite forallb_forall in Eo.
      specialize (Eo j ltac:(apply in_seq; lia)). apply orb_true_iff in Eo as [->%Nat.eqb_eq|Eo]; [by exists r|auto]. }
    match goal with |- Freeze.total _ ?w' < Freeze.total _ ?w => pose proof (total_below w w') as T end.
    cbv beta in T. assert (forall a b, a + ncores <= b -> a < b) as Hlt by lia. apply Hlt, T.
    intros j Hj. destruct (Hall j Hj) as [r' E]. rewrite E, resolve_cons. cbn [tail expand app length negb Nat.b2n]. lia.
  - apply (total_one _ _ i Hi).
    + intros j Hj. by rewrite fn_lookup_insert_ne.
    + rewrite fn_lookup_insert, Hb. cbn. lia.
  - assert (exists l g, s' = mkmachine (<[i := l]> (rest s)) (blocked s) g /\
      length (resolve i (rest s i)) = S (length (resolve i l))) as (l & g & -> & Hl).
    { destruct (decide (x = IfRestart)) as [->|Hxr].
      - injection H as <-. eexists _, _. split; [done|]. rewrite (branch_there _ _ _ _ _ Hinv Hn Hi Er).
        by rewrite Er, resolve_cons, resolve_app, (resolve_plain i (restore_branch i incoming)) by apply branch_plain.
      - exists r. rewrite Er, resolve_cons, expand_plain by done.
        destruct x; try done; (destruct (exec i _ (sh s)) as [g| | |] eqn:Eg; try done);
          exists g; cbn in H; by injection H as <-. }
    cbn [rest blocked]. apply (total_one _ _ i Hi).
    + intros j Hj. by rewrite fn_lookup_insert_ne.
    + rewrite fn_lookup_insert, Hl. lia.
Qed.

Lemma launch_run_rank ts s done_ w s' :
  0 < ncores -> launch_inv done_ w s -> run ts s = Some (OK s') -> length ts + launch_rank s' <= launch_rank s.
Proof.
  intros Hn. revert s done_ w. induction ts as [|i ts IH]; intros s done_ w Hinv H; cbn in H.
  - injection H as ->. done.
  - destruct (step i s) as [o'|] eqn:E; [|done].
    destruct (launch_step _ _ _ _ _ Hn Hinv E) as (s1 & d1 & w1 & -> & H1).
    pose proof (launch_step_rank _ _ _ _ _ Hn Hinv E). specialize (IH _ _ _ H1 H). cbn. lia.
Qed.

(** ** A core in the guest *)

Lemma entered_waits done_ w s i :
  launch_inv done_ w s -> i < ncores -> entered (sh s) i = true ->
  w = 0 /\ forall y, y ∈ full i -> y <> KvmRun -> y <> GuestStart -> y ∈ done_ i.
Proof.
  intros [Hcut Hw _ _ _ Hsh] Hi He. apply (sv_entered _ _ Hsh) in He. pose proof (Hcut i Hi) as E.
  assert (exists A, full i = A ++ [KvmRun; GuestStart] /\ KvmRun ∉ A) as (A & EA & HA).
  { exists (prefix i ++ restore_branch i incoming ++
      (if gdb then (if i =? 0 then [GdbInit] else []) ++ [BarrierWait] else [])).
    split; [rewrite full_prefix; unfold gdb_part; by rewrite <- !app_assoc|].
    rewrite !elem_of_app. intros [H|[H|H]].
    - apply prefix_elem in H. elem_cases.
    - apply branch_elem in H. elem_cases.
    - destruct gdb; [|by apply elem_of_nil in H].
      destruct (i =? 0); cbn in H; rewrite ?elem_of_cons, ?elem_of_nil in H; elem_cases. }
  rewrite EA in *. split.
  - assert (waits (resolve i (rest s i)) <= waits [KvmRun; GuestStart]) as H by (by eapply cut_beyond).
    rewrite (Hw i Hi) in H. revert H. count. lia.
  - intros y [Hy|Hy]%elem_of_app Hne Hng; [by eapply cut_all|].
    rewrite !elem_of_cons, elem_of_nil in Hy. elem_cases.
Qed.

Lemma branch_loads j : exists y, y ∈ restore_branch j incoming /\ y <> KvmRun /\
  (y = RestoreCheckpoint \/ y = RestoreMigrated \/ y = InitCpuState).
Proof.
  unfold restore_branch. destruct restart, incoming.
  - exists RestoreCheckpoint. repeat split; [left|done|tauto].
  - exists RestoreCheckpoint. repeat split; [left|done|tauto].
  - exists RestoreMigrated. repeat split; [left|done|tauto].
  - exists InitCpuState. repeat split; [left|done|tauto].
Qed.

Lemma loads_in y done_ : y ∈ done_ -> (y = RestoreCheckpoint \/ y = RestoreMigrated \/ y = InitCpuState) -> loads done_.
Proof. intros H [-> |[-> | ->]]; unfold loads; tauto. Qed.

(** What core [i] finds when it enters the guest. *)
Definition guest_ready (g : shared) (i : nat) : Prop :=
  (forall j, j < ncores -> vcpu_created g j = true) /\ possible_cpus g = Some ncores /\
  loaded g i = true /\
  (gdb = true -> gdb_ready g = true) /\
  (gdb = true \/ restart = false /\ incoming = true -> forall j, j < ncores -> loaded g j = true).

(** What a request for a migration needs, and the expiry of the timer. *)
Definition migration_ready (u : setup) : Prop :=
  mig_thread u = Some true /\ mig_handler u = true /\ mig_efd u = true /\ mig_sem u = true /\
  (forall j, j < ncores -> usr1_blocked u j = true /\ vcpu_threads u j = true).
Definition checkpoints_ready (u : setup) : Prop :=
  alrm_handler u = true /\ (1 < ncores -> chkp_handler u = true) /\
  (forall j, j < ncores -> vcpu_threads u j = true).

Lemma entered_safe done_ w s i :
  0 < ncores -> launch_inv done_ w s -> i < ncores -> entered (sh s) i = true ->
  guest_ready (sh s) i.
Proof.
  intros Hn Hinv Hi He. destruct (entered_waits _ _ _ _ Hinv Hi He) as [-> Hown].
  pose proof (iv_shared _ _ _ Hinv) as Hsh. split; [|split; [|split; [|split]]].
  - intros j Hj. apply (sv_created _ _ Hsh). apply (passed_barrier _ _ (seg_a j) _ _ _ Hinv Hj eq_refl), init_in_seg_a.
  - apply (sv_possible _ _ Hsh).
    apply (passed_barrier _ _ (seg_a 0 ++ BarrierWait :: seg_b 0) (seg_c 0) _ _ Hinv Hn).
    + unfold full. by rewrite <- app_assoc.
    + rewrite elem_of_app, elem_of_cons. right; right. unfold seg_b. left.
  - apply (sv_loaded _ _ Hsh). destruct (branch_loads i) as (y & Hy & Hne & Hl).
    apply (loads_in y); [|done]. apply Hown; [|done|by destruct Hl as [->|[->| ->]]]. rewrite full_prefix, !elem_of_app. tauto.
  - intros Hg. apply (sv_gdb _ _ Hsh).
    apply (passed_barrier _ _ (prefix 0 ++ restore_branch 0 incoming ++ [GdbInit]) [KvmRun; GuestStart] _ _ Hinv Hn).
    + rewrite full_prefix. unfold gdb_part. rewrite Hg. cbn [Nat.eqb]. by rewrite <- !app_assoc.
    + rewrite !elem_of_app. right; right. left.
  - intros Hmode j Hj. apply (sv_loaded _ _ Hsh). destruct (branch_loads j) as (y & Hy & Hne & Hl).
    apply (loads_in y); [|done]. destruct (decide (gdb = true)) as [Hg|Hg].
    + apply (passed_barrier _ _ (prefix j ++ restore_branch j incoming ++ (if j =? 0 then [GdbInit] else []))
        [KvmRun; GuestStart] _ _ Hinv Hj).
      * rewrite full_prefix. unfold gdb_part. rewrite Hg. by rewrite <- !app_assoc.
      * rewrite !elem_of_app. tauto.
    + destruct Hmode as [Hm|[Hr Hinc]]; [done|].
      assert (y = RestoreMigrated) as ->.
      { revert Hy. unfold restore_branch. rewrite Hr, Hinc.
        destruct (j =? 0); rewrite ?elem_of_cons, ?elem_of_nil; intros Hy; elem_cases. }
      apply (passed_barrier _ _ (prefix j ++ [RestoreMigrated]) (free_part j) _ _ Hinv Hj).
      * rewrite (full_incoming Hr Hinc). by rewrite <- !app_assoc.
      * rewrite elem_of_app. right. left.
Qed.

Lemma handles_set done_ u :
  setup_inv done_ u -> (forall y, y ∈ seg_a 0 -> y ∈ done_ 0) -> forall j, j < ncores -> vcpu_threads u j = true.
Proof.
  intros Hu Hall j Hj. destruct (decide (j = 0)) as [->|].
  - apply (su_self _ _ Hu), Hall. unfold seg_a. cbn [Nat.eqb]. right. apply elem_of_app. right; left.
  - apply (su_handle _ _ Hu), Hall, create_in_seg_a. lia.
Qed.

Lemma entered_migration_ready done_ w s i :
  0 < ncores -> launch_inv done_ w s -> i < ncores -> entered (sh s) i = true -> support = true ->
  migration_ready (su (sh s)).
Proof.
  intros Hn Hinv Hi He Hs. destruct (entered_waits _ _ _ _ Hinv Hi He) as [-> _].
  pose proof (sv_setup _ _ (iv_shared _ _ _ Hinv)) as Hu.
  assert (forall y, y ∈ seg_a 0 -> y ∈ done_ 0) as Hall by (intros y; exact (passed_barrier _ _ (seg_a 0) _ _ y Hinv Hn eq_refl)).
  assert (forall y, y ∈ mig_setup -> y ∈ done_ 0) as Hset.
  { intros y Hy. apply Hall. unfold seg_a. cbn [Nat.eqb]. right. apply elem_of_app. by left. }
  unfold mig_setup in Hset. rewrite Hs in Hset. split; [|split; [|split; [|split]]].
  - apply (su_thread _ _ Hu), Hset. right; left.
  - apply (su_mig _ _ Hu 0), Hset. right; right; left.
  - apply (su_efd _ _ Hu), Hset. do 3 right; left.
  - apply (su_sem _ _ Hu), Hset. do 4 right; left.
  - intros j Hj. split; [|by apply (handles_set done_)]. destruct (decide (j = 0)) as [->|].
    + apply (su_mask _ _ Hu), Hset. left.
    + apply (su_child _ _ Hu Hs), Hall, create_in_seg_a. lia.
Qed.

(** Behind the first barrier every thread has done what is in front of it. *)
Lemma timer_passed done_ w s :
  0 < ncores -> launch_inv done_ w s -> SetItimer ∈ done_ 0 ->
  SigactionAlrm ∈ done_ 0 /\ forall j y, j < ncores -> y ∈ seg_a j -> y ∈ done_ j.
Proof.
  intros Hn [Hcut Hw _ _ _ _] Ht. split.
  - assert (exists B, full 0 = (seg_a 0 ++ BarrierWait :: [SetPossibleCpus; SigactionAlrm]) ++ B) as [B E].
    { assert (checkpoints = true) as Hc.
      { assert (SetItimer ∈ full 0) as H by (rewrite (Hcut 0 Hn), elem_of_app; by left).
        rewrite full_prefix in H. unfold prefix in H.
        rewrite !elem_of_app, elem_of_cons, elem_of_app, !elem_of_cons, elem_of_nil in H.
        destruct H as [[H|[H|[H|[H|[H|H]]]]]|[H|H]]; try done;
          [apply seg_a_elem in H|by apply seg_b_elem in H as (_ & [H|[H _]])|
           apply branch_elem in H|apply gdb_part_elem in H]; elem_cases. }
      unfold full, seg_b, set_timer. rewrite Hc. cbn [Nat.eqb]. eexists. rewrite <- app_assoc. reflexivity. }
    rewrite (Hcut 0 Hn) in E. eapply cut_all; [symmetry; exact E|exact Ht| |].
    + rewrite elem_of_app, !elem_of_cons, elem_of_nil. intros [H|H]; [apply seg_a_elem in H|]; elem_cases.
    + rewrite elem_of_app. right; right; right; left.
  - intros j y Hj Hy. pose proof (waits_full j) as Wj. pose proof (waits_full 0) as W0.
    unfold full in Wj, W0. rewrite waits_app, waits_cons, waits_seg_a, decide_True in Wj, W0 by done.
    eapply cut_passed; [reflexivity|by apply Hcut| |exact Hy]. rewrite (Hw j Hj), <- (Hw 0 Hn).
    enough (waits (resolve 0 (rest s 0)) <= waits (seg_b 0 ++ BarrierWait :: seg_c 0)) by lia.
    eapply (cut_beyond _ (seg_a 0 ++ [BarrierWait])); [rewrite <- app_assoc; by apply Hcut|exact Ht|].
    rewrite elem_of_app, list_elem_of_singleton. intros [H|H]; [apply seg_a_elem in H|]; elem_cases.
Qed.

Lemma timer_safe done_ w s :
  0 < ncores -> launch_inv done_ w s -> timer (sh s) = true -> checkpoints_ready (su (sh s)).
Proof.
  intros Hn Hinv Ht. pose proof (iv_shared _ _ _ Hinv) as Hsh. apply (sv_timer _ _ Hsh) in Ht.
  pose proof (sv_setup _ _ Hsh) as Hu. destruct (timer_passed _ _ _ Hn Hinv Ht) as [Ha Hall]. split; [|split].
  - by apply (su_alrm _ _ Hu).
  - intros H1. apply (su_chkp _ _ Hu 1), Hall; [done|]. left.
  - apply (handles_set done_); auto.
Qed.

Lemma entered_timer done_ w s :
  0 < ncores -> launch_inv done_ w s -> entered (sh s) 0 = true -> checkpoints = true -> timer (sh s) = true.
Proof.
  intros Hn Hinv He Hc. destruct (entered_waits _ _ _ _ Hinv Hn He) as [_ Hown].
  apply (sv_timer _ _ (iv_shared _ _ _ Hinv)), Hown; [|done|done]. unfold full, seg_b, set_timer. rewrite Hc. cbn [Nat.eqb].
  rewrite elem_of_app, elem_of_cons. right; right. right; right; left.
Qed.

(** With a debugger, at a normal start with several cores: the other cores spin
    until the guest counts core 0, which waits for them at the debugger's
    barrier. *)
Section Deadlock.
Hypothesis (Hr : restart = false) (Hin : incoming = false) (Hg : gdb = true) (Hmany : 1 < ncores).

Definition stuck_start (s : machine) : Prop := loaded (sh s) 1 = false.

Lemma stuck_not_entered done_ w s j :
  launch_inv done_ w s -> stuck_start s -> j < ncores -> entered (sh s) j = false.
Proof.
  intros Hinv Hl Hj. apply not_true_is_false. intros He.
  destruct (entered_safe _ _ _ _ ltac:(lia) Hinv Hj He) as (_ & _ & _ & _ & H).
  unfold stuck_start in Hl. rewrite (H (or_introl Hg) 1 Hmany) in Hl. done.
Qed.

Lemma stuck_not_counted done_ w s :
  launch_inv done_ w s -> stuck_start s -> cpu_online (sh s) = 0.
Proof.
  intros Hinv Hl. pose proof (iv_shared _ _ _ Hinv) as Hsh. rewrite (sv_online _ _ Hsh Hr Hin).
  transitivity (counted (fun _ => [])); [|apply counted_nil].
  unfold counted. apply Freeze.total_ext. intros j Hj. rewrite filter_none; [done|]. intros Hc.
  assert (KvmRun ∈ done_ j) as Hk.
  { pose proof (iv_cut _ _ _ Hinv j Hj) as E.
    assert (full j = (prefix j ++ restore_branch j incoming ++ (if j =? 0 then [GdbInit] else []) ++
      [BarrierWait; KvmRun]) ++ [GuestStart]) as Ef.
    { rewrite full_prefix. unfold gdb_part. rewrite Hg, <- !app_assoc. done. }
    rewrite Ef in E. eapply cut_all; [exact E|exact Hc| |].
    - rewrite !elem_of_app, !elem_of_cons, elem_of_nil. intros [H|[H|[H|H]]].
      + apply not_in_prefix in H; tauto.
      + apply branch_elem in H. elem_cases.
      + destruct (j =? 0); rewrite ?elem_of_cons, ?elem_of_nil in H; elem_cases.
      + elem_cases.
    - rewrite !elem_of_app. right; right; right. right; left. }
  apply (sv_entered _ _ Hsh) in Hk. by rewrite (stuck_not_entered _ _ _ _ Hinv Hl Hj) in Hk.
Qed.

Lemma stuck_step done_ w s i s' :
  launch_inv done_ w s -> stuck_start s -> step i s = Some (OK s') -> stuck_start s'.
Proof.
  intros Hinv Hl H. pose proof (stuck_not_counted _ _ _ Hinv Hl) as H0. unfold step in H.
  destruct (negb _) eqn:Eb; [done|]. apply negb_false_iff in Eb.
  apply andb_true_iff in Eb as [[[Hi%Nat.ltb_lt _]%andb_true_iff _]%andb_true_iff Hsp%negb_true_iff].
  unfold stuck_start in *. destruct (rest s i) as [|x r] eqn:Er; [done|].
  assert (x = RestoreCheckpoint \/ x = RestoreMigrated -> False) as Hno.
  { intros Hx. assert (x ∈ full i) as Hf.
    { rewrite (iv_cut _ _ _ Hinv i Hi), Er, resolve_cons, expand_plain by (by destruct Hx as [-> | ->]).
      rewrite elem_of_app. right; left. }
    rewrite full_prefix, !elem_of_app in Hf. destruct Hf as [Hf|[Hf|Hf]].
    - apply not_in_prefix in Hf; tauto.
    - revert Hf. unfold restore_branch. rewrite Hr, Hin, list_elem_of_singleton. elem_cases.
    - apply not_in_gdb_part in Hf; tauto. }
  unfold spins in Hsp. rewrite Er in Hsp. destruct (sh s) as [v b p t l n ti gd e c u] eqn:Es. cbn in Hl, H0. subst c.
  destruct x; try (destruct Hno; tauto);
    try (destruct (others_wait i s)); cbn in H; repeat (destruct t; cbn in H); simplify_eq; cbn; rewrite ?Es; try exact Hl.
  all: cbn in Hsp; destruct i as [|i]; [by rewrite fn_lookup_insert_ne|done].
Qed.
End Deadlock.

(** C14. The cores start in order, whatever the interleaving of the threads, in
    all three ways uhyve starts: no thread uses the states of an incoming
    migration after they are freed; a core enters the guest only when all
    vCPUs exist, the kernel header says how many there are, its own registers
    are set, the debugger (if there is one) is ready and the cores of a
    migration have all been restored, and, when migrations are supported, with
    the migration thread, its handler, event descriptor and semaphore in place
    and SIGUSR1 blocked in all threads; the timer of the checkpoints is armed
    only when the handlers of both signals are installed and the threads to
    signal are known, and before core 0 runs.  Every run is bounded; and, unless
    several cores start normally with a debugger, it ends with every core in
    the guest, each counted once in the kernel header if the start is a normal
    one: no thread is left at a barrier or in the loop of [init_cpu_state].  The
    guest's startup code is taken to count each core once. *)
Theorem launch_completes ts o :
  0 < ncores -> run ts launch = Some o ->
  exists s, o = OK s /\ length ts <= launch_rank launch /\
    (restart = true \/ incoming = true \/ gdb = false \/ ncores = 1 ->
       (exists i, is_Some (step i s)) \/
       (forall i, i < ncores -> entered (sh s) i = true) /\
       (restart = false -> incoming = false -> cpu_online (sh s) = ncores)) /\
    (forall i, i < ncores -> entered (sh s) i = true ->
       guest_ready (sh s) i /\ (support = true -> migration_ready (su (sh s)))) /\
    (timer (sh s) = true -> checkpoints_ready (su (sh s))) /\
    (entered (sh s) 0 = true -> checkpoints = true -> timer (sh s) = true).
Proof.
  intros Hn H. destruct (launch_run _ _ _ _ _ Hn (launch_start Hn) H) as (s & d & w & -> & Hinv).
  exists s. split; [done|]. split; [|split; [|split; [|split]]].
  - pose proof (launch_run_rank _ _ _ _ _ Hn (launch_start Hn) H). lia.
  - intros Hc. destruct (launch_progress _ _ _ Hc Hn Hinv) as [|Hrest]; [by left|right].
    assert (forall i, i < ncores -> d i = full i) as Hd.
    { intros i Hi. pose proof (iv_cut _ _ _ Hinv i Hi) as E. rewrite Hrest in E by done.
      change (resolve i []) with (@nil stmt) in E. by rewrite app_nil_r in E. }
    split.
    + intros i Hi. apply (sv_entered _ _ (iv_shared _ _ _ Hinv)). rewrite Hd by done.
      rewrite full_prefix, !elem_of_app. right; right. unfold gdb_part. rewrite elem_of_app. right. left.
    + intros Hr Hin. rewrite (sv_online _ _ (iv_shared _ _ _ Hinv) Hr Hin). by apply counted_full.
  - intros i Hi He. split; [by apply (entered_safe d w s i)|by apply (entered_migration_ready d w s i)].
  - by apply (timer_safe d w).
  - by apply (entered_timer d w).
Qed.

(** C15. With a debugger and several cores a normal start never gets anywhere:
    however the threads interleave, no core ever enters the guest, and the
    run ends after a bounded number of steps.  Core 0 waits at the debugger's
    barrier for the others, which spin in [init_cpu_state] until the guest has
    counted core 0. *)
Theorem debugger_deadlocks ts o :
  restart = false -> incoming = false -> gdb = true -> 1 < ncores -> run ts launch = Some o ->
  exists s, o = OK s /\ length ts <= launch_rank launch /\
    (forall i, i < ncores -> entered (sh s) i = false) /\
    cpu_online (sh s) = 0 /\ loaded (sh s) 1 = false.
Proof.
  intros Hr Hin Hg Hm H. assert (0 < ncores) as Hn by lia.
  destruct (launch_run _ _ _ _ _ Hn (launch_start Hn) H) as (s & d & w & -> & Hinv).
  exists s. split; [done|]. split; [pose proof (launch_run_rank _ _ _ _ _ Hn (launch_start Hn) H); lia|].
  assert (stuck_start s) as Hl.
  { assert (stuck_start launch) as H0 by done. pose proof (launch_start Hn) as Hs. revert H H0 Hs. clear d w Hinv.
    generalize launch, (fun _ : nat => @nil stmt), (2 + branch_waits + gdb_waits).
    induction ts as [|i ts IH]; intros s0 d w H H0 Hs; cbn in H; [by injection H as ->|].
    destruct (step i s0) as [o'|] eqn:E; [|done].
    destruct (launch_step _ _ _ _ _ Hn Hs E) as (s1 & d1 & w1 & -> & H1).
    eapply IH; [exact H| |exact H1]. exact (stuck_step Hr Hin Hg Hm _ _ _ _ _ Hs H0 E). }
  split; [|split; [by apply (stuck_not_counted Hr Hin Hg Hm _ _ _ Hinv)|exact Hl]].
  intros i Hi. by apply (stuck_not_entered Hg Hm _ _ _ _ Hinv).
Qed.
End Launch.

(** Two cores of an incoming migration, with the debugger, the timer and
    support for migrations. *)
Definition two_launch : list nat :=
  [0; 0; 0; 0; 0; 0; 0; 0; 1; 1; 1; 1; 0; 0; 0; 0; 0; 1; 1; 0; 1; 0; 0; 1; 0; 0; 0; 1; 1; 0]%nat.
Lemma launch_completes_witness :
  exists s, run 2 false true two_launch (launch 2 true true true true) = Some (OK s) /\
    entered (sh s) 1 = true /\ loaded (sh s) 0 = true /\ thread_states (sh s) = false /\
    usr1_blocked (su (sh s)) 1 = true /\ chkp_handler (su (sh s)) = true.
Proof.
  assert (0 < 2)%nat as H2 by lia. assert (1 < 2)%nat as H12 by lia.
  assert (match run 2 false true two_launch (launch 2 true true true true) with
          | Some (OK s) => entered (sh s) 1 && negb (thread_states (sh s)) && timer (sh s)
          | _ => false
          end = true) as Hc by (vm_compute; reflexivity).
  destruct (run 2 false true two_launch (launch 2 true true true true)) as [o|] eqn:E; [|discriminate Hc].
  pose proof (launch_completes 2 false true true true true two_launch o H2 E) as HH.
  destruct HH as (s & Eo & _ & _ & H & Ht & _).
  subst o. apply andb_true_iff in Hc as [[He Hs]%andb_true_iff Hti]. apply negb_true_iff in Hs.
  destruct (H 1%nat H12 He) as [(_ & _ & _ & _ & Hall) Hm].
  exists s. split; [reflexivity|]. split; [exact He|]. split; [apply Hall; [by left|exact H2]|]. split; [exact Hs|].
  split; [apply (Hm eq_refl); exact H12|]. by apply (Ht Hti).
Defined.

(** Two cores at a normal start with the debugger, as far as they get. *)
Definition debug_launch : list nat := [0; 0; 0; 1; 1; 1; 1; 0; 0; 1; 0; 1; 0; 0; 0; 0]%nat.
Lemma debugger_deadlocks_witness :
  exists s, run 2 false false debug_launch (launch 2 false true false false) = Some (OK s) /\
    (step 2 false false 0 s = None /\ step 2 false false 1 s = None) /\
    entered (sh s) 0 = false /\ entered (sh s) 1 = false.
Proof.
  assert (match run 2 false false debug_launch (launch 2 false true false false) with
          | Some (OK s) => bool_decide (step 2 false false 0 s = None) && bool_decide (step 2 false false 1 s = None)
          | _ => false
          end = true) as Hc by (vm_compute; reflexivity).
  destruct (run 2 false false debug_launch (launch 2 false true false false)) as [o|] eqn:E; [|discriminate Hc].
  destruct (debugger_deadlocks 2 false false true false false debug_launch o) as (s & Eo & _ & He & _);
    [reflexivity|reflexivity|reflexivity|lia|exact E|].
  subst o. apply andb_true_iff in Hc as [H0%bool_decide_eq_true H1%bool_decide_eq_true].
  exists s. split; [reflexivity|]. split; [split; [exact H0|exact H1]|]. split; apply He; lia.
Defined.

(** Without the debugger core 1 spins until the guest has counted core 0. *)
Lemma second_core_spins :
  match run 2 false false [0; 0; 0; 1; 1; 1; 1; 0; 0; 1; 0; 1; 0; 0; 0]%nat (launch 2 false false false false) with
  | Some (OK s) => entered (sh s) 0 = true /\ spins 1 s = true /\ step 2 false false 1 s = None /\
      match run 2 false false [0; 1; 1; 1]%nat s with
      | Some (OK s) => entered (sh s) 1 = true /\ cpu_online (sh s) = 2%nat
      | _ => False
      end
  | _ => False
  end.
Proof. vm_compute. by repeat split. Qed.

(** The migration thread takes requests before what it needs is in place: the
    event descriptor, the handler and the threads to signal. *)
Lemma early_request :
  match run 2 false false [0; 0; 0]%nat (launch 2 false false false true) with
  | Some (OK s) => mig_thread (su (sh s)) = Some true /\ mig_efd (su (sh s)) = false /\
      mig_handler (su (sh s)) = false /\ vcpu_threads (su (sh s)) 0 = false
  | _ => False
  end.
Proof. vm_compute. by repeat split. Qed.
