(* ===== verification/Connections.v ===== *)
(** * Opening and closing connections

    The descriptors behind the byte streams of the other files: the channel of
    a migration (src/uhyve-migration.c), from the address in
    [HERMIT_MIGRATION_SUPPORT] to [close_migration_channel], with the loop of
    [migration_handler] (src/uhyve-x86_64.c) that waits for a request; and the
    debugger's connection ([wait_for_connect], src/uhyve-gdb.c). *)

From S2P Require Import Prelude GuestMem CLib Proxy Migration MigParams.

Open Scope uhyve_scope.

(** ** Addresses *)

Definition AF_INET : Z := 2.
Definition INADDR_ANY : list Z := [0; 0; 0; 0].
Definition MIGRATION_PORT : Z := 1337.

(** A [struct sockaddr_in]; the address in network order. *)
Record sockaddr := mksockaddr { sin_family : Z; sin_port : Z; sin_addr : list Z }.

Definition htons (port : Z) : Z := Z.lor (Z.shiftl (Z.land port 255) 8) (Z.land (Z.shiftr port 8) 255).

(** [inet_pton(AF_INET, ...)] of the C library: four decimal numbers up to 255,
    none with a leading zero; [cur] is the number being read, [saw] whether it
    has a digit yet. *)
Fixpoint pton (s : list byte) (octets : list Z) (cur : Z) (saw : bool) : option (list Z) :=
  match s with
  | [] => if Z.of_nat (length octets) + Z.b2z saw <? 4 then None else Some (octets ++ [cur])
  | c :: s =>
      if isdigit c then
        let new := cur * 10 + (char c - 48) in
        if saw && (cur =? 0) then None
        else if 255 <? new then None
        else if negb saw && (4 <=? Z.of_nat (length octets)) then None
        else pton s octets new true
      else if (char c =? 46) && saw then
        if 4 <=? Z.of_nat (length octets) + 1 then None else pton s (octets ++ [cur]) 0 false
      else None
  end.
Definition inet_pton (s : list byte) : option (list Z) := pton s [] 0 false.

(** [inet_ntop(AF_INET, ...)] *)
Definition inet_ntop (addr : list Z) : list byte :=
  match addr with
  | [a; b; c; d] => print_u a ++ [Byte.x2e] ++ print_u b ++ [Byte.x2e] ++ print_u c ++ [Byte.x2e] ++ print_u d
  | _ => []
  end.

(** ** Descriptors *)

Inductive endpoint :=
| File                         (* a file or device *)
| Fresh                        (* from socket() *)
| Bound (local : sockaddr)
| Listening (local : sockaddr)
| Connected (peer : sockaddr).

Abbreviation fd_table := (gmap Z endpoint).

(** The kernel gives out the lowest unused number. *)
Definition lowest_free (t : fd_table) : Z :=
  default 0 (head (filter (fun n => t !! n = None) (seqZ 0 (Z.of_nat (size t) + 1)))).
Definition open_fd (e : endpoint) (t : fd_table) : Z * fd_table := (lowest_free t, <[lowest_free t := e]> t).

(** The process: its descriptors, and the globals [com_sock], [listen_sock],
    [mig_server] and [mig_params]. *)
Record process := mkprocess {
  fds : fd_table;
  com_sock : Z;
  listen_sock : Z;
  mig_server : sockaddr;
  params : mig_params
}.

Definition set_fds (t : fd_table) (p : process) : process :=
  mkprocess t (com_sock p) (listen_sock p) (mig_server p) (params p).
Definition set_com_sock (fd : Z) (p : process) : process :=
  mkprocess (fds p) fd (listen_sock p) (mig_server p) (params p).
Definition set_listen_sock (fd : Z) (p : process) : process :=
  mkprocess (fds p) (com_sock p) fd (mig_server p) (params p).
Definition set_params (ps : mig_params) (p : process) : process :=
  mkprocess (fds p) (com_sock p) (listen_sock p) (mig_server p) ps.

(** [close_sock]: closing what is not open ends the process. *)
Definition close_sock (sock : Z) (p : process) : outcome process :=
  match fds p !! sock with
  | Some _ => OK (set_fds (delete sock (fds p)) p)
  | None => Exited 1
  end.

Definition close_migration_channel (p : process) : outcome process :=
  p ← (if listen_sock p =? 0 then OK p else close_sock (listen_sock p) p);
  close_sock (com_sock p) p.

(** The struct is filled with the character ['0'] first; [inet_pton] stores the
    address only if it is valid, else there is a message. *)
Definition set_migration_target (ip_str : list byte) (port : Z) (p : process) : process :=
  let mig_server := mksockaddr AF_INET (htons port) [48; 48; 48; 48] in
  let mig_server :=
    match inet_pton ip_str with
    | Some a => mksockaddr (sin_family mig_server) (sin_port mig_server) a
    | None => mig_server
    end in
  mkprocess (fds p) (com_sock p) (listen_sock p) mig_server (params p).

(** [print_migration_params]: the names are looked up in the tables; the text
    is in Dump.v. *)
Definition print_migration_params (ps : mig_params) : outcome unit :=
  _ ← get_migration_mode_str (mig_mode ps);
  _ ← get_migration_type_str (mig_type ps);
  OK ().

Section Streams.
Context {S : Type} (sock : Socket S) (fuel : nat).

(** How the system answers a request: no socket, no connection, or a
    connection with its stream. *)
Inductive attempt := NoSocket | Refused | Accepted (s : S).

Definition connect_to_server (a : attempt) (p : process) : outcome (Z * process * option S) :=
  match a with
  | NoSocket => OK (-1, set_com_sock (-1) p, None)
  | Refused =>
      let '(fd, t) := open_fd Fresh (fds p) in
      OK (-1, set_com_sock fd (set_fds t p), None)
  | Accepted s =>
      let '(fd, t) := open_fd (Connected (mig_server p)) (fds p) in
      s ← send_bytes sock fuel (encode_params (params p)) s;
      _ ← print_migration_params (params p);
      OK (0, set_com_sock fd (set_fds t p), Some s)
  end.

(** The loop at the beginning of [migration_handler]: an attempt for each
    SIGUSR1; [None] while it waits for the next. *)
Fixpoint await_migration (requests : list attempt) (p : process) : outcome (process * option (S * list attempt)) :=
  match requests with
  | [] => OK (p, None)
  | a :: requests =>
      '(ret, p, s) ← connect_to_server a p;
      match s with
      | Some s => if ret <? 0 then await_migration requests p else OK (p, Some (s, requests))
      | None => await_migration requests p
      end
  end.

(** [wait_for_client]: the results of [bind] ([ephemeral] is the port [listen]
    takes when it failed) and of [accept] are given; [socket] and [listen]
    succeed. *)
Definition wait_for_client (listen_portno : Z) (bind_ok : bool) (ephemeral : Z) (accepted : option (sockaddr * S))
    (p : process) : outcome (process * S) :=
  let '(fd, t) := open_fd Fresh (fds p) in
  let p := set_listen_sock fd (set_fds t p) in
  let serv_addr := mksockaddr AF_INET (htons listen_portno) INADDR_ANY in
  let local := if bind_ok then serv_addr else mksockaddr AF_INET ephemeral INADDR_ANY in
  let p := set_fds (<[listen_sock p := Listening local]> (fds p)) p in
  match accepted with
  | None => Exited 1
  | Some (client_addr, s) =>
      let '(fd, t) := open_fd (Connected client_addr) (fds p) in
      let p := set_com_sock fd (set_fds t p) in
      '(bs, s) ← recv_bytes sock fuel sizeof_mig_params s;
      _ ← print_migration_params (decode_params bs);
      OK (set_params (decode_params bs) p, s)
  end.
End Streams.
Arguments NoSocket {S}.
Arguments Refused {S}.
Arguments Accepted {S} s.

(** ** The debugger *)

(** What the system answers to the calls of [wait_for_connect], in order. *)
Record answers := mkanswers {
  socket_ok : bool; reuseaddr_ok : bool; bind_ok : bool; listen_ok : bool;
  accepted : option sockaddr; getprotobyname_ok : bool; nodelay_ok : bool
}.

(** The descriptors and [socket_fd]; each failure is an [err(1, ...)]. *)
Definition wait_for_connect (portno : Z) (a : answers) (t : fd_table) : outcome (fd_table * Z) :=
  if negb (socket_ok a) then Exited 1 else
  let '(listen_socket_fd, t) := open_fd Fresh t in
  if negb (reuseaddr_ok a) then Exited 1 else
  let server_addr := mksockaddr AF_INET (htons portno) INADDR_ANY in
  if negb (bind_ok a) then Exited 1 else
  let t := <[listen_socket_fd := Bound server_addr]> t in
  if negb (listen_ok a) then Exited 1 else
  let t := <[listen_socket_fd := Listening server_addr]> t in
  match accepted a with
  | None => Exited 1
  | Some client_addr =>
      let '(socket_fd, t) := open_fd (Connected client_addr) t in
      let t := delete listen_socket_fd t in
      if negb (getprotobyname_ok a) then Exited 1
      else if negb (nodelay_ok a) then Exited 1
      else OK (t, socket_fd)
  end.

(** ** Addresses survive printing *)

Definition is_address (addr : list Z) : Prop := length addr = 4%nat /\ Forall (fun z => 0 <= z < 256) addr.

Definition octet_digits (z : Z) : list byte :=
  if z <? 10 then [digit_char z]
  else if z <? 100 then [digit_char (z / 10); digit_char (z mod 10)]
  else [digit_char (z / 100); digit_char (z / 10 mod 10); digit_char (z mod 10)].

Lemma print_octet z : 0 <= z < 256 -> print_u z = octet_digits z.
Proof.
  intros Hz. assert (forallb (fun z => bool_decide (print_u z = octet_digits z)) (seqZ 0 256) = true) as H
    by (vm_compute; reflexivity).
  rewrite forallb_forall in H. apply (bool_decide_eq_true_1 _), H, list_elem_of_In, elem_of_seqZ. lia.
Qed.

Lemma pton_digit d s octets cur saw :
  0 <= d < 10 -> (saw = true -> cur <> 0) -> cur * 10 + d <= 255 -> (length octets < 4)%nat ->
  pton (digit_char d :: s) octets cur saw = pton s octets (cur * 10 + d) true.
Proof.
  intros Hd Hc Hn Hl. cbn [pton]. unfold isdigit. rewrite digit_char_char by lia.
  rewrite (proj2 (Z.ltb_lt d 10)) by lia.
  rewrite (proj2 (Z.leb_le 48 (48 + d))), (proj2 (Z.leb_le (48 + d) 57)) by lia. cbn [andb].
  replace (48 + d - 48) with d by lia. rewrite (proj2 (Z.ltb_ge 255 _)) by lia.
  rewrite (proj2 (Z.leb_gt 4 (Z.of_nat (length octets)))) by lia.
  assert (saw && (cur =? 0) = false) as ->; [|by destruct saw].
  destruct saw; [|done]. by apply Z.eqb_neq, Hc.
Qed.

Lemma pton_octet z s octets :
  0 <= z < 256 -> (length octets < 4)%nat -> pton (print_u z ++ s) octets 0 false = pton s octets z true.
Proof.
  intros Hz Hl. rewrite print_octet by done. unfold octet_digits.
  destruct (Z.ltb_spec z 10); [|destruct (Z.ltb_spec z 100)]; cbn [app].
  - rewrite pton_digit by first [done | intros; Z.div_mod_to_equations; lia]. done.
  - rewrite !pton_digit by first [done | intros; Z.div_mod_to_equations; lia]. f_equal. Z.div_mod_to_equations; lia.
  - rewrite !pton_digit by first [done | intros; Z.div_mod_to_equations; lia]. f_equal. Z.div_mod_to_equations; lia.
Qed.

Lemma pton_dot s octets cur :
  (length octets < 3)%nat -> pton (Byte.x2e :: s) octets cur true = pton s (octets ++ [cur]) 0 false.
Proof. intros H. cbn [pton]. by rewrite (proj2 (Z.leb_gt 4 (Z.of_nat (length octets) + 1))) by lia. Qed.

Lemma inet_pton_ntop addr : is_address addr -> inet_pton (inet_ntop addr) = Some addr.
Proof.
  intros [Hl Ha]. destruct addr as [|a [|b [|c [|d [|]]]]]; try done.
  repeat (apply Forall_cons in Ha as [? Ha]). unfold inet_pton, inet_ntop.
  do 3 (rewrite pton_octet by (try done; cbn; lia); cbn [app]; rewrite pton_dot by (cbn; lia); cbn [app]).
  rewrite <- (app_nil_r (print_u d)), pton_octet by (try done; cbn; lia). done.
Qed.

(** ** The descriptor table *)

Lemma lowest_free_unused t : t !! lowest_free t = None.
Proof.
  unfold lowest_free. destruct (filter _ _) as [|n l] eqn:E; cbn.
  - exfalso. assert (list_to_set (seqZ 0 (Z.of_nat (size t) + 1)) ⊆ dom t) as Hsub.
    { intros n Hn%elem_of_list_to_set. apply elem_of_dom. destruct (t !! n) eqn:En; [done|].
      assert (n ∈ filter (fun n => t !! n = None) (seqZ 0 (Z.of_nat (size t) + 1))) as H
        by by apply list_elem_of_filter.
      rewrite E in H. by apply elem_of_nil in H. }
    apply subseteq_size in Hsub. rewrite size_list_to_set, length_seqZ, size_dom in Hsub by apply NoDup_seqZ. lia.
  - assert (n ∈ filter (fun n => t !! n = None) (seqZ 0 (Z.of_nat (size t) + 1))) as H by (rewrite E; left).
    by apply list_elem_of_filter in H as [? _].
Qed.

Lemma lowest_free_pos t : is_Some (t !! 0) -> lowest_free t <> 0.
Proof. intros [e He] E. pose proof (lowest_free_unused t) as H. by rewrite E, He in H. Qed.

(** [t'] is [t] with [n] sockets that nobody uses any more. *)
Definition leaked (t : fd_table) (n : nat) (t' : fd_table) : Prop :=
  t ⊆ t' /\ size t' = (size t + n)%nat /\ forall fd e, t' !! fd = Some e -> t !! fd = Some e \/ e = Fresh.

Lemma leaked_refl t : leaked t 0 t.
Proof. split; [done|]. split; [lia|]. by left. Qed.
Lemma leaked_step t n t' :
  leaked (<[lowest_free t := Fresh]> t) n t' -> leaked t (S n) t'.
Proof.
  intros (Hs & Hn & Hf). split; [|split].
  - etransitivity; [|exact Hs]. apply insert_subseteq, lowest_free_unused.
  - rewrite Hn, map_size_insert_None by apply lowest_free_unused. lia.
  - intros fd e He. destruct (Hf fd e He) as [H|]; [|by right].
    destruct (decide (fd = lowest_free t)) as [->|]; [|left; by rewrite lookup_insert_ne in H].
    rewrite lookup_insert_eq in H. right. congruence.
Qed.

(** ** The channel of a migration *)

(** Parameters with names. *)
Definition params_named (ps : mig_params) : Prop :=
  params_ok ps /\ 0 <= mig_mode ps < 2 /\ 0 <= mig_type ps < 2.
Lemma print_params_ok ps : params_named ps -> print_migration_params ps = OK ().
Proof.
  intros (_ & Hm & Ht). unfold print_migration_params, get_migration_mode_str, get_migration_type_str.
  assert (mig_mode ps = 0 \/ mig_mode ps = 1) as [-> | ->] by lia;
    assert (mig_type ps = 0 \/ mig_type ps = 1) as [-> | ->] by lia; done.
Qed.

Section Channel.
Context {S : Type} (sock : Socket S) (R : S -> list byte -> list byte -> Prop).
Context (Hsock : connection sock R) (fuel : nat) (Hfuel : (12 < fuel)%nat).

Definition refused (a : attempt (S:=S)) : Prop := match a with Accepted _ => False | _ => True end.
Definition sockets_of (a : attempt (S:=S)) : nat := match a with Refused => 1 | _ => 0 end.

(** What stays the same until a connection stands. *)
Definition same_target (p p' : process) : Prop :=
  mig_server p' = mig_server p /\ params p' = params p /\ listen_sock p' = listen_sock p.

Lemma await_refused tried requests p :
  Forall refused tried ->
  exists p', await_migration sock fuel (tried ++ requests) p = await_migration sock fuel requests p' /\
    same_target p p' /\ leaked (fds p) (list_sum (sockets_of <$> tried)) (fds p').
Proof.
  intros Ht. revert p. induction Ht as [|a tried Ha _ IH]; intros p.
  - exists p. split; [done|]. split; [done|]. apply leaked_refl.
  - destruct a as [| |s]; [| |done]; cbn [app await_migration connect_to_server open_fd]; rewrite bind_OK; cbn match.
    + destruct (IH (set_com_sock (-1) p)) as (p' & E & Hs & Hl). by exists p'.
    + match goal with |- context [await_migration _ _ _ ?q] => destruct (IH q) as (p' & E & Hs & Hl) end.
      exists p'. split; [exact E|]. split; [exact Hs|]. by apply leaked_step.
Qed.

Lemma connect_ok s p sent :
  params_named (params p) -> R s [] sent ->
  exists s', connect_to_server sock fuel (Accepted s) p =
      OK (0, set_com_sock (lowest_free (fds p)) (set_fds (<[lowest_free (fds p) := Connected (mig_server p)]> (fds p)) p),
          Some s') /\
    R s' [] (sent ++ encode_params (params p)).
Proof.
  intros Hps HR. destruct (send_bytes_ok sock R Hsock fuel (encode_params (params p)) [] sent s HR) as (s' & E & HR');
    [rewrite length_encode_params; lia..|].
  exists s'. split; [|done]. cbn [connect_to_server open_fd]. by rewrite E, bind_OK, print_params_ok.
Qed.

(** A process that only has the one socket closes it. *)
Lemma close_source t fd e p :
  t !! fd = None -> listen_sock p = 0 ->
  close_migration_channel (set_com_sock fd (set_fds (<[fd := e]> t) p)) = OK (set_com_sock fd (set_fds t p)).
Proof.
  intros Hfd Hl. unfold close_migration_channel. cbn [listen_sock set_com_sock set_fds]. rewrite Hl. cbn.
  unfold close_sock. cbn [fds com_sock set_com_sock set_fds]. rewrite lookup_insert_eq.
  by rewrite delete_insert_id.
Qed.

Lemma wait_for_client_ok port ephemeral peer s rest d ps sent :
  params_named ps -> R s (encode_params ps ++ rest) sent -> is_Some (fds d !! 0) ->
  exists d' s', wait_for_client sock fuel port true ephemeral (Some (peer, s)) d = OK (d', s') /\
    R s' rest sent /\ params d' = ps /\
    fds d' !! listen_sock d' = Some (Listening (mksockaddr AF_INET (htons port) INADDR_ANY)) /\
    fds d' !! com_sock d' = Some (Connected peer) /\
    exists d'', close_migration_channel d' = OK d'' /\ fds d'' = fds d /\ listen_sock d'' = lowest_free (fds d).
Proof.
  intros Hps HR H0. destruct (recv_bytes_ok sock R Hsock fuel (encode_params ps) rest sent s sizeof_mig_params HR)
    as (s' & E & HR'); [by rewrite length_encode_params|done|rewrite length_encode_params; lia|].
  set (l := lowest_free (fds d)). set (t1 := <[l := Listening (mksockaddr AF_INET (htons port) INADDR_ANY)]> (fds d)).
  set (c := lowest_free t1).
  assert (t1 !! c = None) as Hc by apply lowest_free_unused.
  assert (l <> c) as Hlc by (intros <-; unfold t1 in Hc; by rewrite lookup_insert_eq in Hc).
  assert (t1 !! l = Some (Listening (mksockaddr AF_INET (htons port) INADDR_ANY))) as Hl by apply lookup_insert_eq.
  exists (mkprocess (<[c := Connected peer]> t1) c l (mig_server d) ps), s'.
  split.
  { unfold wait_for_client. cbn [open_fd]. fold l. cbn [fds listen_sock set_listen_sock set_fds].
    rewrite insert_insert_eq. cbn match. fold t1. fold c. rewrite E, bind_OK. cbn match.
    rewrite decode_encode_params by apply Hps. by rewrite print_params_ok. }
  split; [done|]. split; [done|]. cbn [fds listen_sock com_sock].
  split; [by rewrite lookup_insert_ne|]. split; [apply lookup_insert_eq|].
  exists (mkprocess (fds d) c l (mig_server d) ps). split; [|done].
  unfold close_migration_channel. cbn [listen_sock]. rewrite (proj2 (Z.eqb_neq l 0)) by by apply lowest_free_pos.
  unfold close_sock. cbn [fds]. rewrite lookup_insert_ne, Hl, bind_OK by done. cbn [fds set_fds com_sock]. rewrite lookup_delete_ne, lookup_insert_eq by done.
  unfold set_fds. cbn [com_sock listen_sock mig_server params]. do 2 f_equal. rewrite delete_insert_ne by done.
  rewrite delete_insert_id by by rewrite lookup_delete_ne. unfold t1. apply delete_insert_id, lowest_free_unused.
Qed.
End Channel.

(** C40. The channel of a migration. The source connects to the address that
    [HERMIT_MIGRATION_SUPPORT] writes in dotted decimal, at port 1337, at the
    first request that is not refused, and sends its parameters; a destination
    that listens at that port receives them.  When both have closed the channel,
    the destination has the descriptors it had before, and the source all of
    them and one more for each connection that was refused, whose socket it
    loses.  The source has never listened itself ([listen_sock p = 0]). *)
Theorem migration_channel {S1 S2} (sock1 : Socket S1) R1 (sock2 : Socket S2) R2
    fuel addr tried requests s1 p :
  connection sock1 R1 -> connection sock2 R2 -> (12 < fuel)%nat ->
  is_address addr -> params_named (params p) -> listen_sock p = 0 ->
  Forall refused tried -> R1 s1 [] [] ->
  exists p1 s1' p2,
    await_migration sock1 fuel (tried ++ Accepted s1 :: requests)
      (set_migration_target (inet_ntop addr) MIGRATION_PORT p) = OK (p1, Some (s1', requests)) /\
    fds p1 !! com_sock p1 = Some (Connected (mksockaddr AF_INET (htons MIGRATION_PORT) addr)) /\
    R1 s1' [] (encode_params (params p)) /\
    close_migration_channel p1 = OK p2 /\ leaked (fds p) (list_sum (sockets_of <$> tried)) (fds p2) /\
    forall d peer ephemeral s2 rest, R2 s2 (encode_params (params p) ++ rest) [] -> is_Some (fds d !! 0) ->
      exists d1 s2' d2,
        wait_for_client sock2 fuel MIGRATION_PORT true ephemeral (Some (peer, s2)) d = OK (d1, s2') /\
        fds d1 !! listen_sock d1 = Some (Listening (mksockaddr AF_INET (htons MIGRATION_PORT) INADDR_ANY)) /\
        params d1 = params p /\ R2 s2' rest [] /\
        close_migration_channel d1 = OK d2 /\ fds d2 = fds d.
Proof.
  intros H1 H2 Hf Ha Hp Hl Ht HR. unfold set_migration_target. rewrite inet_pton_ntop by done.
  match goal with |- context [await_migration _ _ _ ?q] => set (p0 := q) end.
  destruct (await_refused sock1 fuel tried (Accepted s1 :: requests) p0 Ht) as (p' & E & (Em & Ep & El) & Hleak).
  destruct (connect_ok sock1 R1 H1 fuel Hf s1 p' [] ltac:(by rewrite Ep) HR) as (s1' & Ec & HR1).
  pose proof (lowest_free_unused (fds p')) as Hfree.
  eexists _, s1', _. split; [rewrite E; cbn [await_migration]; rewrite Ec, bind_OK; reflexivity|].
  cbn [fds com_sock set_com_sock set_fds]. rewrite lookup_insert_eq, Em. split; [done|].
  rewrite Ep in HR1. split; [done|].
  split; [apply close_source; [done|by rewrite El]|]. split; [done|].
  intros d peer ephemeral s2 rest HR2 H0.
  destruct (wait_for_client_ok sock2 R2 H2 fuel Hf MIGRATION_PORT ephemeral peer s2 rest d (params p) [] Hp HR2 H0)
    as (d1 & s2' & Ew & HR2' & Hps & Hls & _ & d2 & Ecl & Hfd & _).
  by exists d1, s2', d2.
Qed.

(** A process with its standard streams. *)
Definition fresh_process : process :=
  mkprocess (<[2 := File]> (<[1 := File]> (<[0 := File]> ∅))) 0 0 (mksockaddr 0 0 INADDR_ANY) default_params.

Lemma migration_channel_witness :
  exists p1 s1' p2 d1 s2' d2,
    await_migration slow_socket 20 ([Refused; NoSocket] ++ [Accepted ([], [])])
      (set_migration_target (str "192.168.28.1") MIGRATION_PORT fresh_process) = OK (p1, Some (s1', [])) /\
    fds p1 !! 4 = Some (Connected (mksockaddr AF_INET 0x3905 [192; 168; 28; 1])) /\
    close_migration_channel p1 = OK p2 /\ fds p2 !! 3 = Some Fresh /\
    wait_for_client slow_socket 20 MIGRATION_PORT true 0
      (Some (mksockaddr AF_INET 0x1234 [192; 168; 28; 2], (encode_params default_params, []))) fresh_process =
      OK (d1, s2') /\
    close_migration_channel d1 = OK d2 /\ fds d2 = fds fresh_process.
Proof.
  destruct (migration_channel slow_socket _ slow_socket _ 20 [192; 168; 28; 1] [Refused; NoSocket] []
    ([], []) fresh_process slow_connection slow_connection)
    as (p1 & s1' & p2 & E1 & _ & _ & E2 & _ & H).
  - lia.
  - split; [reflexivity|]. repeat (apply Forall_cons; split; [lia|]). by apply Forall_nil.
  - vm_compute. intuition congruence.
  - reflexivity.
  - repeat (apply Forall_cons; split; [exact I|]). by apply Forall_nil.
  - reflexivity.
  - destruct (H fresh_process (mksockaddr AF_INET 0x1234 [192; 168; 28; 2]) 0 (encode_params default_params, []) [])
      as (d1 & s2' & d2 & E3 & _ & _ & _ & E4 & E5).
    + by rewrite app_nil_r.
    + by exists File.
    + exists p1, s1', p2, d1, s2', d2. split; [exact E1|].
      assert (p1 = set_com_sock 4 (set_fds (<[4 := Connected (mksockaddr AF_INET 0x3905 [192; 168; 28; 1])]>
        (<[3 := Fresh]> (fds fresh_process)))
        (set_migration_target (str "192.168.28.1") MIGRATION_PORT fresh_process))) as Ep.
      { vm_compute in E1. injection E1 as <- _. reflexivity. }
      split; [by rewrite Ep|]. split; [exact E2|]. split; [|by split].
      rewrite Ep in E2. vm_compute in E2. injection E2 as <-. reflexivity.
Defined.

(** [listen_sock] keeps its number after the channel is closed: when a guest
    that arrived by a migration leaves by another one, whatever has got that
    number since is closed, which may be the new connection, closed twice. *)
Definition arrived : outcome process :=
  '(p, _) ← wait_for_client slow_socket 20 MIGRATION_PORT true 0
      (Some (mksockaddr AF_INET 0x1234 [10; 0; 0; 1], (encode_params default_params, []))) fresh_process;
  close_migration_channel p.
Example onward_migration_fails :
  (p ← arrived; '(p, _) ← await_migration slow_socket 20 [Accepted ([], [])] p; close_migration_channel p) = Exited 1.
Proof. reflexivity. Qed.
Example onward_migration_closes_another :
  (p ← arrived;
   let '(kvm, t) := open_fd File (fds p) in
   '(p, _) ← await_migration slow_socket 20 [Accepted ([], [])] (set_fds t p);
   p ← close_migration_channel p; OK (fds p !! kvm)) = OK None.
Proof. reflexivity. Qed.

(** Parameters are not checked when they arrive. *)
Example unknown_mode_received :
  wait_for_client slow_socket 20 MIGRATION_PORT true 0
    (Some (mksockaddr AF_INET 0x1234 [10; 0; 0; 1], (encode_params (mkparams 0 2 0 0), []))) fresh_process = Undefined.
Proof. reflexivity. Qed.

(** What is not an address leaves the filling of the struct as the address. *)
Example invalid_target_connects :
  sin_addr (mig_server (set_migration_target (str "server") MIGRATION_PORT fresh_process)) = [48; 48; 48; 48].
Proof. reflexivity. Qed.

(** ** The debugger's connection *)

(** Either the process ends, or the table has one connection more and the
    listening socket is closed. *)
Lemma wait_for_connect_ok portno a t :
  wait_for_connect portno a t = Exited 1 \/
  exists fd peer, wait_for_connect portno a t = OK (<[fd := Connected peer]> t, fd) /\
    accepted a = Some peer /\ t !! fd = None.
Proof.
  unfold wait_for_connect, open_fd. destruct a as [[] [] [] [] [peer|] [] []]; cbn [negb]; cbn; try (by left).
  right. set (l := lowest_free t). rewrite !insert_insert_eq.
  set (t1 := <[l := _]> t). assert (t1 !! lowest_free t1 = None) as Hc by apply lowest_free_unused.
  assert (l <> lowest_free t1) as Hne by (intros E; rewrite <- E in Hc; unfold t1 in Hc; by rewrite lookup_insert_eq in Hc).
  exists (lowest_free t1), peer. split; [|split; [done|]].
  - rewrite delete_insert_ne by done. do 3 f_equal. apply delete_insert_id, lowest_free_unused.
  - rewrite <- Hc. symmetry. by apply lookup_insert_ne.
Qed.
