(* ===== verification/Signals.v ===== *)
(** * Signal handlers

    The handlers of a checkpoint ([timer_handler], src/uhyve-x86_64.c, and
    [sigusr_handler], src/uhyve.c) and of a migration
    ([vcpu_thread_mig_handler], src/uhyve.c) in one process: the handlers nest
    where the masks of the signals allow it, and both kinds wait at the same
    [barrier].  The machine is refined from Snapshot.v and Freeze.v: a
    checkpoint is one of Snapshot.v and a migration is one of Freeze.v, as long
    as signals come in order. *)

From stdpp Require Import functions.
From S2P Require Import Prelude Snapshot Freeze.

Open Scope nat_scope.

(** ** Handlers *)

Inductive signal_name := SIGALRM | SIGTHRCHKP | SIGTHRMIG.
#[export] Instance signal_name_eq_dec : EqDecision signal_name.
Proof. solve_decision. Defined.

(** [barrier] and [migration_barrier]. *)
Inductive barrier_name := VcpuBarrier | MigrationBarrier.

Inductive stmt :=
| KillOthers               (* pthread_kill(vcpu_threads[i], SIGTHRCHKP), for the others *)
| WriteCpuState            (* write_cpu_state() *)
| WriteMemory              (* determine_dirty_pages(...) into the file *)
| AssertStates             (* assert(vcpu_thread_states != NULL) *)
| SaveState                (* vcpu_thread_states[cpuid] = save_cpu_state() *)
| Wait (b : barrier_name). (* pthread_barrier_wait *)

Definition timer_handler : list stmt := [KillOthers; Wait VcpuBarrier; WriteCpuState; WriteMemory; Wait VcpuBarrier].
Definition sigusr_handler : list stmt := [Wait VcpuBarrier; WriteCpuState; Wait VcpuBarrier].
Definition vcpu_thread_mig_handler : list stmt :=
  [AssertStates; Wait VcpuBarrier; SaveState; Wait MigrationBarrier; Wait MigrationBarrier].
Definition handler (sg : signal_name) : list stmt :=
  match sg with SIGALRM => timer_handler | SIGTHRCHKP => sigusr_handler | SIGTHRMIG => vcpu_thread_mig_handler end.

(** A handler that has been interrupted or waits: the barrier it is at, the
    generation of that barrier when it arrived, whether it has found it open,
    and what is left to do. *)
Record frame := mkframe {
  fsig : signal_name; at_bar : barrier_name; fgen : nat; opened : bool; rest : list stmt
}.

(** ** The process *)

Section Signals.
Context {M R : Type} (ncores : nat).

(** Memory and registers of the guest; for each vCPU thread its handlers, the
    innermost first, and how often each signal is queued for it (they are
    real-time signals); the barriers; the files of the checkpoint;
    [vcpu_thread_states]; the migration thread. *)
Record process := mkprocess {
  mem : M;
  cpu_regs : nat -> R;
  frames : nat -> list frame;
  queued : nat -> signal_name -> nat;
  barrier_of : barrier_name -> barrier;
  file_mem : option M;
  file_regs : nat -> option R;
  states_allocated : bool;
  thread_states : nat -> option R;
  mig_thread : mig_pc
}.

Definition guest (i : nat) (m : M) (r : R) (s : process) : process :=
  mkprocess m (<[i := r]> (cpu_regs s)) (frames s) (queued s) (barrier_of s) (file_mem s) (file_regs s)
    (states_allocated s) (thread_states s) (mig_thread s).
Definition set_frames (i : nat) (fs : list frame) (s : process) : process :=
  mkprocess (mem s) (cpu_regs s) (<[i := fs]> (frames s)) (queued s) (barrier_of s) (file_mem s) (file_regs s)
    (states_allocated s) (thread_states s) (mig_thread s).
Definition set_queued (q : nat -> signal_name -> nat) (s : process) : process :=
  mkprocess (mem s) (cpu_regs s) (frames s) q (barrier_of s) (file_mem s) (file_regs s)
    (states_allocated s) (thread_states s) (mig_thread s).
Definition set_files (m : option M) (r : nat -> option R) (s : process) : process :=
  mkprocess (mem s) (cpu_regs s) (frames s) (queued s) (barrier_of s) m r
    (states_allocated s) (thread_states s) (mig_thread s).
Definition set_states (r : nat -> option R) (s : process) : process :=
  mkprocess (mem s) (cpu_regs s) (frames s) (queued s) (barrier_of s) (file_mem s) (file_regs s)
    true r (mig_thread s).
Definition set_mig (p : mig_pc) (s : process) : process :=
  mkprocess (mem s) (cpu_regs s) (frames s) (queued s) (barrier_of s) (file_mem s) (file_regs s)
    (states_allocated s) (thread_states s) p.

(** [barrier] is for the vCPU threads, [migration_barrier] for one more. *)
Definition members (b : barrier_name) : nat := match b with VcpuBarrier => ncores | MigrationBarrier => ncores + 1 end.
Definition arrive (b : barrier_name) (s : process) : process :=
  mkprocess (mem s) (cpu_regs s) (frames s) (queued s)
    (fun b' => match b, b' with
               | VcpuBarrier, VcpuBarrier | MigrationBarrier, MigrationBarrier => arrive_at (members b) (barrier_of s b)
               | _, _ => barrier_of s b'
               end)
    (file_mem s) (file_regs s) (states_allocated s) (thread_states s) (mig_thread s).

Definition queue (i : nat) (sg : signal_name) (s : process) : process :=
  set_queued (fun j sg' => if (j =? i) && bool_decide (sg' = sg) then S (queued s j sg') else queued s j sg') s.
Definition dequeue (i : nat) (sg : signal_name) (s : process) : process :=
  set_queued (fun j sg' => if (j =? i) && bool_decide (sg' = sg) then pred (queued s j sg') else queued s j sg') s.

(** A statement on thread [i]. *)
Definition act (i : nat) (x : stmt) (s : process) : outcome process :=
  match x with
  | KillOthers =>
      OK (set_queued (fun j sg => if (j <? ncores) && negb (j =? i) && bool_decide (sg = SIGTHRCHKP)
                                  then S (queued s j sg) else queued s j sg) s)
  | WriteCpuState => OK (set_files (file_mem s) (<[i := Some (cpu_regs s i)]> (file_regs s)) s)
  | WriteMemory => OK (set_files (Some (mem s)) (file_regs s) s)
  | AssertStates => if states_allocated s then OK s else Exited 134
  | SaveState => OK (set_states (<[i := Some (cpu_regs s i)]> (thread_states s)) s)
  | Wait _ => OK s
  end.

(** A handler from one barrier to the next, or to its return. *)
Fixpoint run_handler (i : nat) (sg : signal_name) (p : list stmt) (s : process) : outcome process :=
  match p with
  | [] => OK s
  | Wait b :: p =>
      OK (set_frames i (mkframe sg b (generation (barrier_of s b)) false p :: frames s i) (arrive b s))
  | x :: p => s ← act i x s; run_handler i sg p s
  end.

(** A signal is masked while its handler is active. *)
Definition masked (i : nat) (sg : signal_name) (s : process) : bool :=
  existsb (fun f => bool_decide (fsig f = sg)) (frames s i).

(** What can happen: the guest runs; the timer expires and thread [i] gets the
    signal; a queued signal is delivered; a thread finds its barrier open; it
    goes on; the migration thread takes its next step. *)
Inductive event :=
| Guest (i : nat) (m : M) (r : R)
| Alarm (i : nat)
| Deliver (i : nat) (sg : signal_name)
| Open (i : nat)
| Go (i : nat)
| Migrate.

(** The kernel gives the signal of the timer to the main thread unless that has
    it masked. *)
Definition alarm_goes_to (i : nat) (s : process) : bool :=
  (i <? ncores) && negb (masked i SIGALRM s) && ((i =? 0) || masked 0 SIGALRM s).

Definition step (e : event) (s : process) : option (outcome process) :=
  match e with
  | Guest i m r =>
      if (i <? ncores) && bool_decide (frames s i = []) then Some (OK (guest i m r s)) else None
  | Alarm i => if alarm_goes_to i s then Some (run_handler i SIGALRM (handler SIGALRM) s) else None
  | Deliver i sg =>
      if (i <? ncores) && (0 <? queued s i sg) && negb (masked i sg s)
      then Some (run_handler i sg (handler sg) (dequeue i sg s)) else None
  | Open i =>
      match frames s i with
      | mkframe sg b g false p :: fs =>
          if (i <? ncores) && (g <? generation (barrier_of s b))
          then Some (OK (set_frames i (mkframe sg b g true p :: fs) s)) else None
      | _ => None
      end
  | Go i =>
      match frames s i with
      | mkframe sg b g true p :: fs =>
          if i <? ncores then Some (run_handler i sg p (set_frames i fs s)) else None
      | _ => None
      end
  | Migrate =>
      match mig_thread s with
      | Precopying => Some (OK (set_mig (Signalling 0) (set_states (fun _ => None) s)))
      | Signalling i =>
          if i <? ncores then Some (OK (set_mig (Signalling (S i)) (queue i SIGTHRMIG s)))
          else Some (OK (set_mig (MigAtBarrier (generation (barrier_of s MigrationBarrier))) (arrive MigrationBarrier s)))
      | MigAtBarrier g =>
          if g <? generation (barrier_of s MigrationBarrier) then Some (OK (set_mig Copying s)) else None
      | Copying => None
      end
  end.

Fixpoint run (es : list event) (s : process) : option (outcome process) :=
  match es with
  | [] => Some (OK s)
  | e :: es => match step e s with Some (OK s) => run es s | r => r end
  end.

Definition process_start (m : M) (r : nat -> R) : process :=
  mkprocess m r (fun _ => []) (fun _ _ => 0) (fun _ => mkbarrier 0 0) None (fun _ => None) false (fun _ => None) Precopying.

(** ** Signals in order *)

(** No handler is active and no signal is on its way. *)
Definition idle (s : process) : bool :=
  forallb (fun i => bool_decide (frames s i = []) && (queued s i SIGTHRCHKP =? 0) && (queued s i SIGTHRMIG =? 0))
    (seq 0 ncores).

(** The timer does not expire and the migration does not signal the cores while
    a checkpoint is taken, and the timer does not expire once the migration has
    signalled them. *)
Definition in_order (e : event) (s : process) : bool :=
  match e with
  | Alarm _ => idle s && bool_decide (mig_thread s = Precopying)
  | Migrate => negb (bool_decide (mig_thread s = Precopying)) || idle s
  | _ => true
  end.

Fixpoint run_in_order (es : list event) (s : process) : option (outcome process) :=
  match es with
  | [] => Some (OK s)
  | e :: es =>
      if in_order e s then
        match step e s with Some (OK s) => run_in_order es s | r => r end
      else None
  end.

Lemma idle_spec s : idle s = true <->
  forall i, i < ncores -> frames s i = [] /\ queued s i SIGTHRCHKP = 0 /\ queued s i SIGTHRMIG = 0.
Proof.
  unfold idle. rewrite forallb_forall. split; intros H i Hi.
  - specialize (H i ltac:(apply in_seq; lia)). apply andb_true_iff in H as [[H1 H2]%andb_true_iff H3].
    apply bool_decide_eq_true in H1. apply Nat.eqb_eq in H2, H3. done.
  - apply in_seq in Hi. destruct (H i ltac:(lia)) as (-> & -> & ->). by rewrite bool_decide_true.
Qed.

(** ** A checkpoint *)

(** What thread [i] does after the first barrier of a checkpoint. *)
Definition saves (i : nat) : list stmt :=
  if i =? 0 then [WriteCpuState; WriteMemory; Wait VcpuBarrier] else [WriteCpuState; Wait VcpuBarrier].
Definition checkpoint_signal (i : nat) : signal_name := if i =? 0 then SIGALRM else SIGTHRCHKP.

(** The handlers of thread [i] and where Snapshot.v has it. *)
Inductive chk_frames (i : nat) : list frame -> Snapshot.vcpu_pc -> Prop :=
| chk_running : chk_frames i [] Snapshot.Running
| chk_barrier1 g : chk_frames i [mkframe (checkpoint_signal i) VcpuBarrier g false (saves i)] (Snapshot.Barrier1 g)
| chk_saving g : chk_frames i [mkframe (checkpoint_signal i) VcpuBarrier g true (saves i)] Snapshot.Saving
| chk_barrier2 g : chk_frames i [mkframe (checkpoint_signal i) VcpuBarrier g false []] (Snapshot.Barrier2 g)
| chk_return g : chk_frames i [mkframe (checkpoint_signal i) VcpuBarrier g true []] Snapshot.Running.

Lemma chk_frames_nil i p : chk_frames i [] p -> p = Snapshot.Running.
Proof. by inversion 1. Qed.

Record chk_sim (s : process) (v : Snapshot.vm (M := M) (R := R)) : Prop := {
  cs_mem : Snapshot.memory v = mem s;
  cs_regs : Snapshot.regs v = cpu_regs s;
  cs_frames : forall i, i < ncores -> chk_frames i (frames s i) (Snapshot.pc v i);
  cs_chkp : forall i, i < ncores -> queued s i SIGTHRCHKP = if i =? 0 then 0 else Nat.b2n (Snapshot.pending v i);
  cs_mig : forall i, i < ncores -> queued s i SIGTHRMIG = 0;
  cs_alrm : forall i, queued s i SIGALRM = 0;
  cs_barrier : barrier_of s VcpuBarrier = mkbarrier (Snapshot.waiting v) (Snapshot.generation v);
  cs_migration : barrier_of s MigrationBarrier = mkbarrier 0 0;
  cs_main : Snapshot.saver v = 0 /\ Snapshot.pending v 0 = false;
  cs_file_mem : Snapshot.saved_mem v = None \/ Snapshot.saved_mem v = file_mem s;
  cs_file_regs : Snapshot.saved_regs v = file_regs s;
  cs_thread : mig_thread s = Precopying
}.

(** The checkpoints of Snapshot.v when the main thread gets every alarm and no
    packets arrive. *)
Definition main_alarm (c : nat) : Prop := c = 0.
Abbreviation chk_step_rel := (Snapshot.vm_step ncores (@eq M) main_alarm).

Lemma arrive_barrier w g : arrive_at ncores (mkbarrier w g) =
  mkbarrier (if w + 1 =? ncores then 0 else w + 1) (if w + 1 =? ncores then S g else g).
Proof. unfold arrive_at. cbn. by destruct (_ =? _). Qed.

Lemma handler_saves i :
  run_handler i (checkpoint_signal i) (saves i) =
  fun s => OK (set_frames i (mkframe (checkpoint_signal i) VcpuBarrier (generation (barrier_of s VcpuBarrier)) false []
                 :: frames s i)
              (arrive VcpuBarrier (set_files (if i =? 0 then Some (mem s) else file_mem s)
                 (<[i := Some (cpu_regs s i)]> (file_regs s)) s))).
Proof. unfold saves. by destruct (i =? 0). Qed.

Lemma frames_move (P : nat -> list frame -> Snapshot.vcpu_pc -> Prop) (f : nat -> list frame) (pc : nat -> Snapshot.vcpu_pc)
    i fs p :
  (forall j, j < ncores -> P j (f j) (pc j)) -> P i fs p ->
  forall j, j < ncores -> P j (<[i := fs]> f j) (<[i := p]> pc j).
Proof.
  intros H Hi j Hj. destruct (decide (j = i)) as [->|Hne]; [by rewrite !fn_lookup_insert|].
  rewrite !fn_lookup_insert_ne by done. auto.
Qed.

Ltac chk_fields :=
  cbn [mem cpu_regs frames queued barrier_of file_mem file_regs states_allocated thread_states mig_thread
       set_frames set_queued set_files set_mig arrive dequeue guest members
       Snapshot.memory Snapshot.regs Snapshot.pc Snapshot.pending Snapshot.waiting Snapshot.generation
       Snapshot.saver Snapshot.saved_mem Snapshot.saved_regs Snapshot.at_pc Snapshot.guest_runs Snapshot.arrive
       Snapshot.alarm Snapshot.handle_signal Snapshot.save].

Lemma chk_alarm s v :
  0 < ncores -> chk_sim s v -> idle s = true -> Snapshot.pc v 0 = Snapshot.Running ->
  exists s', run_handler 0 SIGALRM (handler SIGALRM) s = OK s' /\ chk_sim s' (Snapshot.alarm ncores 0 v).
Proof.
  intros Hn [H1 H2 H3 H4 H5 H6 H7 H8 [Hsv Hp0] H9 H10 H11] Hidle Epc. rewrite idle_spec in Hidle.
  destruct (Hidle 0 Hn) as (E0 & _). eexists. split; [reflexivity|]. cbn [act]. unfold Snapshot.alarm, Snapshot.arrive.
  split; chk_fields; auto.
  - rewrite E0, H7. apply frames_move; [done|]. constructor.
  - intros j Hj. rewrite (proj2 (Nat.ltb_lt _ _) Hj). destruct (Hidle j Hj) as (_ & -> & _).
    by destruct (j =? 0).
  - intros j Hj. rewrite bool_decide_false, andb_false_r by done. auto.
  - intros j. rewrite bool_decide_false, andb_false_r by done. auto.
  - by rewrite H7, arrive_barrier.
Qed.

Lemma chk_deliver s v i :
  0 < i < ncores -> chk_sim s v -> 0 < queued s i SIGTHRCHKP -> frames s i = [] ->
  exists s', run_handler i SIGTHRCHKP (handler SIGTHRCHKP) (dequeue i SIGTHRCHKP s) = OK s' /\
    chk_sim s' (Snapshot.handle_signal ncores i v).
Proof.
  intros Hi [H1 H2 H3 H4 H5 H6 H7 H8 [Hsv Hp0] H9 H10 H11] Hq E0. eexists. split; [reflexivity|].
  assert ((i =? 0) = false) as Hi0 by (apply Nat.eqb_neq; lia).
  assert (queued s i SIGTHRCHKP = 1) as Eq.
  { specialize (H4 i ltac:(lia)). rewrite Hi0 in H4. destruct (Snapshot.pending v i); cbn in H4; lia. }
  unfold Snapshot.handle_signal, Snapshot.arrive. split; chk_fields; auto.
  - rewrite E0, H7. apply frames_move; [done|].
    pose proof (chk_barrier1 i (Snapshot.generation v)) as H. unfold saves, checkpoint_signal in H. by rewrite Hi0 in H.
  - intros j Hj. rewrite bool_decide_true, andb_true_r by done. destruct (Nat.eqb_spec j i) as [->|Hne].
    + by rewrite fn_lookup_insert, Eq, Hi0.
    + rewrite fn_lookup_insert_ne by done. auto.
  - intros j Hj. rewrite bool_decide_false, andb_false_r by done. auto.
  - intros j. rewrite bool_decide_false, andb_false_r by done. auto.
  - by rewrite H7, arrive_barrier.
  - split; [done|]. by rewrite fn_lookup_insert_ne by lia.
Qed.

Lemma chk_go s v i g :
  i < ncores -> chk_sim s v -> frames s i = [mkframe (checkpoint_signal i) VcpuBarrier g true (saves i)] ->
  exists s', run_handler i (checkpoint_signal i) (saves i) (set_frames i [] s) = OK s' /\
    chk_sim s' (Snapshot.save ncores i (Snapshot.memory v) v).
Proof.
  intros Hi [H1 H2 H3 H4 H5 H6 H7 H8 [Hsv Hp0] H9 H10 H11] E0. rewrite handler_saves. eexists. split; [reflexivity|].
  unfold Snapshot.save, Snapshot.arrive. split; chk_fields; auto.
  - rewrite fn_lookup_insert, H7. cbn [generation]. intros j Hj. destruct (decide (j = i)) as [->|Hne].
    + rewrite !fn_lookup_insert. constructor.
    + rewrite !fn_lookup_insert_ne by done. auto.
  - by rewrite H7, arrive_barrier.
  - rewrite Hsv. destruct (i =? 0); [|done]. right. by rewrite H1.
  - by rewrite H10, H2.
Qed.

(** A step in order is a step of Snapshot.v, or none. *)
Lemma chk_step e s v o :
  0 < ncores -> chk_sim s v -> in_order e s = true -> e <> Migrate -> step e s = Some o ->
  exists s', o = OK s' /\ exists v', (v' = v \/ chk_step_rel v v') /\ chk_sim s' v'.
Proof.
  intros Hn Hsim Ho Hm H. pose proof Hsim as [H1 H2 H3 H4 H5 H6 H7 H8 Hm0 H9 H10 H11].
  destruct e as [i m r|i|i sg|i|i|]; cbn [step] in H; [| | | | |done].
  - destruct (_ && _)%bool eqn:Eb; [|done]. apply andb_true_iff in Eb as [Hi%Nat.ltb_lt E%bool_decide_eq_true].
    injection H as <-. eexists. split; [done|].
    exists (Snapshot.guest_runs i m r v). pose proof (H3 i Hi) as Hf. rewrite E in Hf.
    apply chk_frames_nil in Hf. split; [right; by constructor|]. split; chk_fields; auto. by rewrite H2.
  - cbn in Ho. apply andb_true_iff in Ho as [Hid _]. unfold alarm_goes_to in H.
    assert (frames s 0 = []) as E0 by (by apply (proj1 (idle_spec s) Hid)).
    assert (i = 0) as ->.
    { destruct (Nat.eqb_spec i 0); [done|]. unfold masked at 2 in H. rewrite E0 in H. cbn in H.
      by rewrite andb_false_r in H. }
    destruct (_ && _)%bool; [|done]. injection H as <-. pose proof (H3 0 Hn) as Hf. rewrite E0 in Hf. apply chk_frames_nil in Hf.
    destruct (chk_alarm s v Hn Hsim Hid Hf) as (s' & E & Hs). exists s'. split; [done|].
    exists (Snapshot.alarm ncores 0 v). split; [|done]. right. constructor; [done..|]. intros j Hj.
    destruct (proj1 (idle_spec s) Hid j Hj) as (_ & Hq & _). rewrite (H4 j Hj) in Hq.
    destruct (Nat.eqb_spec j 0) as [->|]; [apply Hm0|]. by destruct (Snapshot.pending v j).
  - destruct (_ && _)%bool eqn:Eb; [|done].
    apply andb_true_iff in Eb as [[Hi%Nat.ltb_lt Hq%Nat.ltb_lt]%andb_true_iff Em%negb_true_iff]. destruct sg; [rewrite H6 in Hq; lia| |rewrite H5 in Hq by done; lia].
    pose proof (H4 i Hi) as Hq'. destruct (Nat.eqb_spec i 0) as [->|Hi0]; [lia|].
    injection H as <-.
    assert (frames s i = []) as E0.
    { unfold masked in Em. pose proof (H3 i Hi) as Hf. unfold checkpoint_signal in Hf.
      destruct Hf as [| | | |]; [done|..]; unfold checkpoint_signal in Em; rewrite (proj2 (Nat.eqb_neq i 0)) in Em by done; done. }
    destruct (chk_deliver s v i ltac:(lia) Hsim Hq E0) as (s' & E & Hs). exists s'. split; [done|].
    exists (Snapshot.handle_signal ncores i v). split; [|done]. right. constructor; [lia| |].
    + pose proof (H3 i Hi) as Hf. rewrite E0 in Hf. by apply chk_frames_nil in Hf.
    + destruct (Snapshot.pending v i); [done|cbn in Hq'; lia].
  - destruct (frames s i) as [|[sg b g [] p] fs] eqn:Ef; [done..|]. destruct (_ && _)%bool eqn:Eb; [|done].
    apply andb_true_iff in Eb as [Hi%Nat.ltb_lt Hg%Nat.ltb_lt]. injection H as <-.
    eexists. split; [done|]. pose proof (H3 i Hi) as Hf. rewrite Ef in Hf.
    inversion Hf as [|g' Eg Ep|g'|g' Eg Ep|g']; subst; rewrite H7 in Hg; cbn [generation] in Hg.
    + exists (Snapshot.at_pc i Snapshot.Saving v). split; [right; by apply (Snapshot.step_opened1 _ _ _ i g)|].
      split; chk_fields; auto. apply frames_move; [done|constructor].
    + exists (Snapshot.at_pc i Snapshot.Running v). split; [right; by apply (Snapshot.step_opened2 _ _ _ i g)|].
      split; chk_fields; auto. apply frames_move; [done|constructor].
  - destruct (frames s i) as [|[sg b g [] p] fs] eqn:Ef; [done| |done]. destruct (i <? ncores) eqn:Hi; [|done].
    apply Nat.ltb_lt in Hi. injection H as <-. pose proof (H3 i Hi) as Hf. rewrite Ef in Hf.
    inversion Hf as [|g'|g' Eg Ep|g'|g' Eg Ep]; subst.
    + destruct (chk_go s v i g Hi Hsim Ef) as (s' & E & Hs). exists s'. split; [done|].
      exists (Snapshot.save ncores i (Snapshot.memory v) v). split; [right; by constructor|done].
    + eexists. split; [reflexivity|]. exists v. split; [by left|]. split; chk_fields; auto.
      intros j Hj. destruct (decide (j = i)) as [->|Hne]; [rewrite fn_lookup_insert, <- Ep; constructor|].
      rewrite fn_lookup_insert_ne by done. auto.
Qed.

(** ** A migration *)

Definition after_barrier : list stmt := [SaveState; Wait MigrationBarrier; Wait MigrationBarrier].

(** The handlers of a thread and where Freeze.v has it; [g0] is how often
    [barrier] had opened when the migration began. *)
Inductive mig_frames (g0 : nat) : list frame -> Freeze.vcpu_pc -> Prop :=
| mig_running : mig_frames g0 [] Freeze.Running
| mig_barrier g : mig_frames g0 [mkframe SIGTHRMIG VcpuBarrier (g0 + g) false after_barrier] (Freeze.AtBarrier g)
| mig_saving g : mig_frames g0 [mkframe SIGTHRMIG VcpuBarrier g true after_barrier] Freeze.Saving
| mig_saved g o : mig_frames g0 [mkframe SIGTHRMIG MigrationBarrier g o [Wait MigrationBarrier]] (Freeze.AtMigration g)
| mig_parked : mig_frames g0 [mkframe SIGTHRMIG MigrationBarrier 1 false []] (Freeze.Parked 1).

Lemma mig_frames_nil g0 p : mig_frames g0 [] p -> p = Freeze.Running.
Proof. by inversion 1. Qed.
Lemma mig_frames_masked g0 fs p : mig_frames g0 fs p ->
  existsb (fun f => bool_decide (fsig f = SIGTHRMIG)) fs = false -> fs = [].
Proof. by destruct 1. Qed.

Record mig_sim (g0 : nat) (s : process) (v : Freeze.vm (M := M) (R := R)) : Prop := {
  ms_mem : Freeze.memory v = mem s;
  ms_regs : Freeze.regs v = cpu_regs s;
  ms_frames : forall i, i < ncores -> mig_frames g0 (frames s i) (Freeze.pc v i);
  ms_opened : forall i g p, i < ncores -> frames s i = [mkframe SIGTHRMIG MigrationBarrier g true p] ->
    g < generation (Freeze.migration v);
  ms_mig : forall i, i < ncores -> queued s i SIGTHRMIG = Nat.b2n (Freeze.pending v i);
  ms_signalled : forall i k, i < ncores -> Freeze.mig v = Signalling k -> k <= i -> Freeze.pending v i = false;
  ms_chkp : forall i, i < ncores -> queued s i SIGTHRCHKP = 0;
  ms_alrm : forall i, queued s i SIGALRM = 0;
  ms_barrier : barrier_of s VcpuBarrier =
    mkbarrier (waiting (Freeze.vcpus v)) (g0 + generation (Freeze.vcpus v));
  ms_migration : barrier_of s MigrationBarrier = Freeze.migration v;
  ms_allocated : Freeze.allocated v = states_allocated s;
  ms_states : Freeze.states v = thread_states s;
  ms_thread : Freeze.mig v = mig_thread s
}.

Lemma arrive_shift n g0 b :
  arrive_at n (mkbarrier (waiting b) (g0 + generation b)) =
  mkbarrier (waiting (arrive_at n b)) (g0 + generation (arrive_at n b)).
Proof. unfold arrive_at. cbn. destruct (_ =? _); cbn; f_equal; lia. Qed.
Lemma arrive_generation n b : generation b <= generation (arrive_at n b).
Proof. unfold arrive_at. destruct (_ =? _); cbn; lia. Qed.

Ltac mig_fields :=
  cbn [mem cpu_regs frames queued barrier_of file_mem file_regs states_allocated thread_states mig_thread
       set_frames set_queued set_files set_states set_mig arrive dequeue queue guest members
       Freeze.memory Freeze.regs Freeze.pc Freeze.pending Freeze.vcpus Freeze.migration Freeze.allocated Freeze.states
       Freeze.mig Freeze.at_pc Freeze.at_mig Freeze.wait_vcpus Freeze.wait_migration Freeze.guest_runs Freeze.freeze
       Freeze.signal Freeze.mig_waits Freeze.handle_signal Freeze.save Freeze.park].

(** Thread [i] gets other handlers; [migration_barrier] may have opened. *)
Lemma mig_move g0 (f : nat -> list frame) pc i fs p b b' :
  (forall j, j < ncores -> mig_frames g0 (f j) (pc j)) -> mig_frames g0 fs p ->
  (forall j g q, j < ncores -> f j = [mkframe SIGTHRMIG MigrationBarrier g true q] -> g < generation b) ->
  (forall g q, fs = [mkframe SIGTHRMIG MigrationBarrier g true q] -> g < generation b') ->
  generation b <= generation b' ->
  (forall j, j < ncores -> mig_frames g0 (<[i := fs]> f j) (<[i := p]> pc j)) /\
  (forall j g q, j < ncores -> <[i := fs]> f j = [mkframe SIGTHRMIG MigrationBarrier g true q] -> g < generation b').
Proof.
  intros H Hi Ho Hio Hb. split.
  - intros j Hj. destruct (decide (j = i)) as [->|Hne]; [by rewrite !fn_lookup_insert|].
    rewrite !fn_lookup_insert_ne by done. auto.
  - intros j g q Hj E. destruct (decide (j = i)) as [->|Hne].
    + rewrite fn_lookup_insert in E. by eapply Hio.
    + rewrite fn_lookup_insert_ne in E by done. specialize (Ho j g q Hj E). lia.
Qed.

Lemma mig_deliver g0 s v i :
  i < ncores -> mig_sim g0 s v -> 0 < queued s i SIGTHRMIG -> frames s i = [] -> states_allocated s = true ->
  exists s', run_handler i SIGTHRMIG (handler SIGTHRMIG) (dequeue i SIGTHRMIG s) = OK s' /\
    mig_sim g0 s' (Freeze.handle_signal ncores i v).
Proof.
  intros Hi [H1 H2 H3 H4 H5 H6 H7 H8 H9 H10 H11 H12 H13] Hq E0 Ha. eexists. split.
  { cbn [run_handler handler vcpu_thread_mig_handler act]. unfold dequeue at 1. cbn [states_allocated set_queued].
    rewrite Ha, bind_OK. reflexivity. }
  destruct (mig_move g0 (frames s) (Freeze.pc v) i
    [mkframe SIGTHRMIG VcpuBarrier (g0 + generation (Freeze.vcpus v)) false after_barrier]
    (Freeze.AtBarrier (generation (Freeze.vcpus v))) (Freeze.migration v) (Freeze.migration v) H3 ltac:(constructor) H4)
    as [Hf Ho]; [done|done|].
  assert (queued s i SIGTHRMIG = 1) as Eq.
  { specialize (H5 i Hi). destruct (Freeze.pending v i); cbn in H5; lia. }
  unfold Freeze.handle_signal. split; mig_fields; auto.
  - rewrite E0, H9. exact Hf.
  - rewrite E0, H9. exact Ho.
  - intros j Hj. rewrite bool_decide_true, andb_true_r by done. destruct (Nat.eqb_spec j i) as [->|Hne].
    + by rewrite fn_lookup_insert, Eq.
    + rewrite fn_lookup_insert_ne by done. auto.
  - intros j k Hj Hk Hle. destruct (decide (j = i)) as [->|Hne]; [by rewrite fn_lookup_insert|].
    rewrite fn_lookup_insert_ne by done. by eapply H6.
  - intros j Hj. rewrite bool_decide_false, andb_false_r by done. auto.
  - intros j. rewrite bool_decide_false, andb_false_r by done. auto.
  - by rewrite H9, arrive_shift.
Qed.

Lemma mig_save g0 s v i g :
  i < ncores -> mig_sim g0 s v -> Freeze.allocated v = true ->
  frames s i = [mkframe SIGTHRMIG VcpuBarrier g true after_barrier] ->
  exists s', run_handler i SIGTHRMIG after_barrier (set_frames i [] s) = OK s' /\
    mig_sim g0 s' (Freeze.save ncores i v).
Proof.
  intros Hi [H1 H2 H3 H4 H5 H6 H7 H8 H9 H10 H11 H12 H13] Hal E0. eexists. split; [reflexivity|].
  destruct (mig_move g0 (frames s) (Freeze.pc v) i
    [mkframe SIGTHRMIG MigrationBarrier (generation (Freeze.migration v)) false [Wait MigrationBarrier]]
    (Freeze.AtMigration (generation (Freeze.migration v))) (Freeze.migration v)
    (arrive_at (ncores + 1) (Freeze.migration v)) H3 ltac:(constructor) H4) as [Hf Ho]; [done|apply arrive_generation|].
  unfold Freeze.save. split; mig_fields; auto.
  - rewrite fn_lookup_insert, H10. intros j Hj. specialize (Hf j Hj).
    destruct (decide (j = i)) as [->|Hne]; [by rewrite !fn_lookup_insert in *|by rewrite !fn_lookup_insert_ne in * by done].
  - rewrite fn_lookup_insert, H10. intros j k p Hj Ej. apply (Ho j k p Hj). rewrite <- Ej.
    destruct (decide (j = i)) as [->|Hne]; [by rewrite !fn_lookup_insert|by rewrite !fn_lookup_insert_ne by done].
  - by rewrite H10.
  - by rewrite H12, H2.
Qed.

Lemma mig_park g0 s v i g :
  i < ncores -> mig_sim g0 s v -> generation (Freeze.migration v) = 1 ->
  frames s i = [mkframe SIGTHRMIG MigrationBarrier g true [Wait MigrationBarrier]] ->
  exists s', run_handler i SIGTHRMIG [Wait MigrationBarrier] (set_frames i [] s) = OK s' /\
    mig_sim g0 s' (Freeze.park ncores i v).
Proof.
  intros Hi [H1 H2 H3 H4 H5 H6 H7 H8 H9 H10 H11 H12 H13] Hg E0. eexists. split; [reflexivity|].
  destruct (mig_move g0 (frames s) (Freeze.pc v) i [mkframe SIGTHRMIG MigrationBarrier 1 false []]
    (Freeze.Parked 1) (Freeze.migration v)
    (arrive_at (ncores + 1) (Freeze.migration v)) H3 ltac:(constructor) H4) as [Hf Ho]; [done|apply arrive_generation|].
  unfold Freeze.park. split; mig_fields; auto.
  - rewrite fn_lookup_insert, H10, Hg. intros j Hj. specialize (Hf j Hj).
    destruct (decide (j = i)) as [->|Hne]; [by rewrite !fn_lookup_insert in *|by rewrite !fn_lookup_insert_ne in * by done].
  - rewrite fn_lookup_insert, H10, Hg. intros j k p Hj Ej. apply (Ho j k p Hj). rewrite <- Ej.
    destruct (decide (j = i)) as [->|Hne]; [by rewrite !fn_lookup_insert|by rewrite !fn_lookup_insert_ne by done].
  - by rewrite H10.
Qed.

(** The vCPU threads of a migration. *)
Lemma mig_step_vcpu g0 e s v o :
  Freeze.vm_inv ncores v -> mig_sim g0 s v -> mig_thread s <> Precopying ->
  in_order e s = true -> e <> Migrate -> step e s = Some o ->
  exists s', o = OK s' /\ exists v', rtc (Freeze.vm_step ncores) v v' /\ mig_sim g0 s' v'.
Proof.
  intros Hinv Hsim Hp Ho Hm H. pose proof Hsim as [H1 H2 H3 H4 H5 H6 H7 H8 H9 H10 H11 H12 H13].
  assert (Freeze.allocated v = true) as Hal by (apply (Freeze.inv_allocated _ _ Hinv); by rewrite H13).
  destruct e as [i m r|i|i sg|i|i|]; cbn [step] in H; [| | | | |done].
  - destruct (_ && _)%bool eqn:Eb; [|done]. apply andb_true_iff in Eb as [Hi%Nat.ltb_lt E%bool_decide_eq_true].
    injection H as <-. eexists. split; [done|]. exists (Freeze.guest_runs i m r v).
    pose proof (H3 i Hi) as Hf. rewrite E in Hf. apply mig_frames_nil in Hf.
    split; [apply rtc_once, Freeze.step_guest; by exists i, m, r|]. split; mig_fields; auto. by rewrite H2.
  - cbn in Ho. by rewrite bool_decide_false, andb_false_r in Ho by done.
  - destruct (_ && _)%bool eqn:Eb; [|done].
    apply andb_true_iff in Eb as [[Hi%Nat.ltb_lt Hq%Nat.ltb_lt]%andb_true_iff Em%negb_true_iff].
    destruct sg; [rewrite H8 in Hq; lia|rewrite H7 in Hq by done; lia|]. injection H as <-.
    pose proof (mig_frames_masked _ _ _ (H3 i Hi) Em) as E0.
    destruct (mig_deliver g0 s v i Hi Hsim Hq E0) as (s' & E & Hs); [by rewrite <- H11|].
    exists s'. split; [done|]. exists (Freeze.handle_signal ncores i v). split; [|done].
    pose proof (H3 i Hi) as Hf. rewrite E0 in Hf. apply mig_frames_nil in Hf. specialize (H5 i Hi).
    apply rtc_once, Freeze.step_sync, Freeze.step_handle; [done..|].
    destruct (Freeze.pending v i); [done|cbn in H5; lia].
  - destruct (frames s i) as [|[sg b g [] p] fs] eqn:Ef; [done..|]. destruct (_ && _)%bool eqn:Eb; [|done].
    apply andb_true_iff in Eb as [Hi%Nat.ltb_lt Hg%Nat.ltb_lt]. injection H as <-.
    eexists. split; [done|]. pose proof (H3 i Hi) as Hf. rewrite Ef in Hf.
    inversion Hf as [|g' Eg Ep| |g' o' Eg Ep|Eg Ep]; subst.
    + rewrite H9 in Hg. cbn [generation] in Hg.
      destruct (mig_move g0 (frames s) (Freeze.pc v) i [mkframe SIGTHRMIG VcpuBarrier (g0 + g') true after_barrier]
        Freeze.Saving (Freeze.migration v) (Freeze.migration v) H3 ltac:(constructor) H4) as [F1 F2]; [done|done|].
      exists (Freeze.at_pc i Freeze.Saving v).
      split; [apply rtc_once, Freeze.step_sync, (Freeze.step_opened _ i g'); [done..|lia]|].
      split; mig_fields; auto.
    + rewrite H10 in Hg. exists v. split; [done|].
      destruct (mig_move g0 (frames s) (Freeze.pc v) i [mkframe SIGTHRMIG MigrationBarrier g true [Wait MigrationBarrier]]
        (Freeze.AtMigration g) (Freeze.migration v) (Freeze.migration v) H3 ltac:(constructor) H4) as [F1 F2];
        [by intros ?? [= <- <-]|done|].
      split; mig_fields; auto. intros j Hj. specialize (F1 j Hj).
      destruct (decide (j = i)) as [->|Hne]; [by rewrite !fn_lookup_insert, <- ?Ep in *|].
      by rewrite !fn_lookup_insert_ne in * by done.
    + rewrite H10 in Hg. destruct (Freeze.inv_migration _ _ Hinv) as [[E _]|[E _]]; lia.
  - destruct (frames s i) as [|[sg b g [] p] fs] eqn:Ef; [done| |done]. destruct (i <? ncores) eqn:Hi; [|done].
    apply Nat.ltb_lt in Hi. injection H as <-. pose proof (H3 i Hi) as Hf. rewrite Ef in Hf.
    inversion Hf as [| |g' Eg Ep|g' o' Eg Ep|]; subst.
    + destruct (mig_save g0 s v i g Hi Hsim Hal Ef) as (s' & E & Hs). exists s'. split; [done|].
      exists (Freeze.save ncores i v). split; [by apply rtc_once, Freeze.step_sync, Freeze.step_save|done].
    + pose proof (H4 i g _ Hi Ef) as Hg.
      assert (generation (Freeze.migration v) = 1) as Hg1
        by (destruct (Freeze.inv_migration _ _ Hinv) as [[E _]|[E _]]; lia).
      destruct (mig_park g0 s v i g Hi Hsim Hg1 Ef) as (s' & E & Hs). exists s'. split; [done|].
      exists (Freeze.park ncores i v). split; [by apply rtc_once, Freeze.step_sync, (Freeze.step_park _ i g)|done].
Qed.

(** The migration thread. *)
Lemma mig_step_thread g0 s v o :
  Freeze.vm_inv ncores v -> mig_sim g0 s v -> mig_thread s <> Precopying -> step Migrate s = Some o ->
  exists s', o = OK s' /\ mig_thread s' <> Precopying /\ exists v', rtc (Freeze.vm_step ncores) v v' /\ mig_sim g0 s' v'.
Proof.
  intros Hinv [H1 H2 H3 H4 H5 H6 H7 H8 H9 H10 H11 H12 H13] Hp H. cbn [step] in H.
  destruct (mig_thread s) as [|k|g|] eqn:Em; [done| | |done].
  - destruct (Nat.ltb_spec k ncores) as [Hk|Hk]; injection H as <-.
    + eexists. split; [done|]. split; [done|]. exists (Freeze.signal k v).
      split; [by apply rtc_once, Freeze.step_sync, Freeze.step_signal|].
      assert (Freeze.pending v k = false) as Ek by (by eapply H6).
      split; mig_fields; auto.
      * intros j Hj. rewrite bool_decide_true, andb_true_r by done. destruct (Nat.eqb_spec j k) as [->|Hne].
        -- by rewrite fn_lookup_insert, H5, Ek.
        -- rewrite fn_lookup_insert_ne by done. auto.
      * intros j k' Hj [= <-] Hle. rewrite fn_lookup_insert_ne by lia. eapply H6; [done..|lia].
      * intros j Hj. rewrite bool_decide_false, andb_false_r by done. auto.
      * intros j. rewrite bool_decide_false, andb_false_r by done. auto.
    + eexists. split; [done|]. split; [done|]. exists (Freeze.mig_waits ncores v).
      assert (k = ncores) as -> by (pose proof (Freeze.inv_mig _ _ Hinv) as Hk'; unfold Freeze.mig_ok in Hk'; rewrite H13 in Hk'; lia).
      split; [by apply rtc_once, Freeze.step_sync, Freeze.step_mig_waits|]. split; mig_fields; auto.
      * intros j g p Hj Ej. specialize (H4 j g p Hj Ej). pose proof (arrive_generation (ncores + 1) (Freeze.migration v)). lia.
      * done.
      * by rewrite H10.
      * by rewrite H10.
  - destruct (Nat.ltb_spec g (generation (barrier_of s MigrationBarrier))) as [Hg|]; [|done]. injection H as <-.
    eexists. split; [done|]. split; [done|]. exists (Freeze.at_mig Copying v). rewrite H10 in Hg.
    split; [by apply rtc_once, Freeze.step_sync, (Freeze.step_copy _ g)|]. split; mig_fields; auto. done.
Qed.

(** The migration thread signals the cores: what Snapshot.v described until
    then is a start of Freeze.v. *)
Lemma mig_begin s v o :
  0 < ncores -> Snapshot.vm_inv ncores eq v -> chk_sim s v -> in_order Migrate s = true -> step Migrate s = Some o ->
  exists s', o = OK s' /\ mig_thread s' <> Precopying /\
    mig_sim (Snapshot.generation v) s' (Freeze.freeze (Freeze.vm_start (mem s) (cpu_regs s))).
Proof.
  intros Hn Hinv [H1 H2 H3 H4 H5 H6 H7 H8 _ H9 H10 H11] Ho H. cbn [step in_order] in *. rewrite H11 in H, Ho.
  injection H as <-. eexists. split; [done|]. split; [done|].
  rewrite bool_decide_true in Ho by done. cbn [negb orb] in Ho. rewrite idle_spec in Ho.
  assert (Snapshot.waiting v = 0) as Hw.
  { rewrite (Snapshot.inv_waiting _ _ _ Hinv). apply length_zero_iff_nil.
    destruct (Snapshot.arrived ncores v) as [|j l] eqn:Ea; [done|].
    assert (j ∈ Snapshot.arrived ncores v) as [Hj Hjn]%Snapshot.elem_of_arrived by (rewrite Ea; left).
    destruct (Ho j Hjn) as (E0 & _). pose proof (H3 j Hjn) as Hf. rewrite E0 in Hf. apply chk_frames_nil in Hf.
    pose proof (Snapshot.not_waiting _ _ v j Hinv Hjn (or_introl Hf)). lia. }
  split; mig_fields; auto.
  - intros i Hi. destruct (Ho i Hi) as (-> & _). constructor.
  - intros i g p Hi Ef. destruct (Ho i Hi) as (E & _). by rewrite E in Ef.
  - intros i Hi. by destruct (Ho i Hi) as (_ & E1 & E2).
  - rewrite H7, Hw. cbn. by rewrite Nat.add_0_r.
Qed.

(** What a run in order is: checkpoints of Snapshot.v, then perhaps a migration
    of Freeze.v from the memory and registers of that moment. *)
Definition in_phase (m0 : M) (r0 : nat -> R) (s : process) : Prop :=
  (exists v, rtc chk_step_rel (Snapshot.vm_start m0 r0) v /\ chk_sim s v) \/
  (mig_thread s <> Precopying /\
   exists g0 m r v, rtc (Freeze.vm_step ncores) (Freeze.vm_start m r) v /\ mig_sim g0 s v).

Lemma migrating_steps (v v' : Freeze.vm (M := M) (R := R)) :
  rtc (Freeze.vm_step ncores) v v' -> Freeze.mig v <> Precopying -> Freeze.mig v' <> Precopying.
Proof.
  induction 1 as [|v v1 v' H _ IH]; [done|]. intros Hp. apply IH.
  destruct H as [s s' (i & m & r & _ & _ & ->)|s Ep|s s' H]; [done..|]. by eapply Freeze.sync_step_mig.
Qed.

Lemma step_in_phase m0 r0 e s o :
  0 < ncores -> in_phase m0 r0 s -> in_order e s = true -> step e s = Some o ->
  exists s', o = OK s' /\ in_phase m0 r0 s'.
Proof.
  intros Hn [(v & Hr & Hsim)|(Hp & g0 & m & r & v & Hr & Hsim)] Ho H.
  - assert (e = Migrate \/ e <> Migrate) as [->|Hm] by (destruct e; (by left) || (right; done)).
    + destruct (mig_begin s v o Hn (Snapshot.vm_reachable _ _ _ eq_equivalence _ _ _ Hn Hr) Hsim Ho H) as (s' & -> & Hp & Hs).
      exists s'. split; [done|]. right. split; [done|]. eexists _, _, _, _. split; [|exact Hs].
      apply rtc_once. by apply Freeze.step_freeze.
    + destruct (chk_step e s v o Hn Hsim Ho Hm H) as (s' & -> & v' & Hs & Hsim'). exists s'. split; [done|].
      left. exists v'. split; [|done]. destruct Hs as [->|Hs]; [done|]. by eapply rtc_r.
  - pose proof (Freeze.freeze_reachable _ _ _ _ Hn Hr) as Hinv.
    assert (e = Migrate \/ e <> Migrate) as [->|Hm] by (destruct e; (by left) || (right; done)).
    + destruct (mig_step_thread g0 s v o Hinv Hsim Hp H) as (s' & -> & Hp' & v' & Hs & Hsim').
      exists s'. split; [done|]. right. split; [done|]. exists g0, m, r, v'. split; [by etransitivity|done].
    + destruct (mig_step_vcpu g0 e s v o Hinv Hsim Hp Ho Hm H) as (s' & -> & v' & Hs & Hsim').
      exists s'. split; [done|]. right. split.
      * rewrite <- (ms_thread _ _ _ Hsim'). eapply migrating_steps; [exact Hs|]. by rewrite (ms_thread _ _ _ Hsim).
      * exists g0, m, r, v'. split; [by etransitivity|done].
Qed.

(** ** In order *)

(** The thread is between the barriers, where it saves. *)
Definition saving (fs : list frame) : bool :=
  match fs with
  | f :: _ => opened f && existsb (fun x => match x with WriteCpuState | WriteMemory | SaveState => true | _ => false end) (rest f)
  | [] => false
  end.

Lemma run_in_phase m0 r0 es s o :
  0 < ncores -> in_phase m0 r0 s -> run_in_order es s = Some o -> exists s', o = OK s' /\ in_phase m0 r0 s'.
Proof.
  intros Hn. revert s. induction es as [|e es IH]; intros s Hs H; cbn in H; [injection H as <-; eauto|].
  destruct (in_order e s) eqn:Eo; [|done]. destruct (step e s) as [o'|] eqn:E; [|done].
  destruct (step_in_phase m0 r0 e s o' Hn Hs Eo E) as (s' & -> & Hs'). by apply (IH s').
Qed.

Lemma start_in_phase m r : in_phase m r (process_start m r).
Proof.
  left. exists (Snapshot.vm_start m r). split; [done|]. split; try done.
  - intros i _. constructor.
  - intros i _. by destruct (i =? 0).
  - by left.
Qed.

Lemma chk_saving_pc i fs p : chk_frames i fs p -> saving fs = true -> p = Snapshot.Saving.
Proof. by destruct 1. Qed.
Lemma mig_saving_pc g0 fs p : mig_frames g0 fs p -> saving fs = true -> p = Freeze.Saving.
Proof. destruct 1; cbn; rewrite ?andb_false_r; done. Qed.

Lemma phase_saving m r s i j :
  0 < ncores -> in_phase m r s -> i < ncores -> j < ncores -> saving (frames s i) = true -> frames s j <> [].
Proof.
  intros Hn [(v & Hr & Hsim)|(_ & g0 & m' & r' & v & Hr & Hsim)] Hi Hj Hs E.
  - pose proof (Snapshot.vm_reachable _ _ _ eq_equivalence _ _ _ Hn Hr) as Hinv.
    pose proof (chk_saving_pc _ _ _ (cs_frames _ _ Hsim i Hi) Hs) as Ei.
    pose proof (cs_frames _ _ Hsim j Hj) as Ej. rewrite E in Ej. apply chk_frames_nil in Ej.
    pose proof (Snapshot.saving_odd _ _ v i Hinv Hi Ei). pose proof (Snapshot.running_even _ _ v j Hinv Hj Ej). congruence.
  - pose proof (Freeze.freeze_reachable _ _ _ _ Hn Hr) as Hinv.
    pose proof (mig_saving_pc _ _ _ (ms_frames _ _ _ Hsim i Hi) Hs) as Ei.
    pose proof (ms_frames _ _ _ Hsim j Hj) as Ej. rewrite E in Ej. apply mig_frames_nil in Ej.
    destruct (Freeze.saving_generation _ v i Hinv Hi Ei). destruct (Freeze.running_generation _ v j Hinv Hj Ej). lia.
Qed.

Lemma phase_single m r s i : in_phase m r s -> i < ncores -> length (frames s i) <= 1.
Proof.
  intros [(v & _ & Hsim)|(_ & g0 & m' & r' & v & _ & Hsim)] Hi.
  - destruct (cs_frames _ _ Hsim i Hi); cbn; lia.
  - destruct (ms_frames _ _ _ Hsim i Hi); cbn; lia.
Qed.

Lemma phase_copying m r s i :
  0 < ncores -> in_phase m r s -> mig_thread s = Copying -> i < ncores ->
  frames s i <> [] /\ thread_states s i = Some (cpu_regs s i).
Proof.
  intros Hn [(v & _ & Hsim)|(_ & g0 & m' & r' & v & Hr & Hsim)] Hc Hi.
  - rewrite (cs_thread _ _ Hsim) in Hc. done.
  - pose proof (Freeze.freeze_reachable _ _ _ _ Hn Hr) as Hinv.
    rewrite <- (ms_thread _ _ _ Hsim) in Hc. destruct (Freeze.copying_frozen _ v Hinv Hc) as [_ H].
    destruct (H i Hi) as [Hnr Hst]. rewrite <- (ms_states _ _ _ Hsim), <- (ms_regs _ _ _ Hsim). split; [|done].
    intros E. pose proof (ms_frames _ _ _ Hsim i Hi) as Hf. rewrite E in Hf. by apply mig_frames_nil in Hf.
Qed.

(** The second opening of the barrier in a checkpoint. *)
Lemma phase_checkpoint m r e s s' :
  0 < ncores -> in_phase m r s -> mig_thread s = Precopying -> in_order e s = true -> step e s = Some (OK s') ->
  generation (barrier_of s' VcpuBarrier) = S (generation (barrier_of s VcpuBarrier)) ->
  Nat.even (generation (barrier_of s' VcpuBarrier)) = true ->
  file_mem s' = Some (mem s') /\ forall i, i < ncores -> file_regs s' i = Some (cpu_regs s' i).
Proof.
  intros Hn [(v & Hr & Hsim)|(Hp & _)] Hpre Ho H Hg Hev; [|done].
  assert (e = Migrate \/ e <> Migrate) as [->|Hm] by (destruct e; (by left) || (right; done)).
  { cbn [step] in H. rewrite Hpre in H. injection H as <-. cbn in Hg. lia. }
  destruct (chk_step e s v _ Hn Hsim Ho Hm H) as (s1 & [= <-] & v' & Hs & Hsim').
  rewrite (cs_barrier _ _ Hsim), (cs_barrier _ _ Hsim') in Hg. rewrite (cs_barrier _ _ Hsim') in Hev. cbn in Hg, Hev.
  destruct Hs as [->|Hs]; [lia|].
  destruct (Snapshot.opening_saved _ _ _ v v' (Snapshot.vm_reachable _ _ _ eq_equivalence _ _ _ Hn Hr) Hs Hg Hev) as [(m1 & F1 & <-) F2].
  rewrite (cs_mem _ _ Hsim') in F1. rewrite (cs_regs _ _ Hsim'), (cs_file_regs _ _ Hsim') in F2. split; [|done].
  destruct (cs_file_mem _ _ Hsim') as [E|E]; congruence.
Qed.

End Signals.





Arguments Guest {M R} i m r.
Arguments Alarm {M R} i.
Arguments Deliver {M R} i sg.
Arguments Open {M R} i.
Arguments Go {M R} i.
Arguments Migrate {M R}.

Abbreviation two_events := (list (event (M := nat) (R := nat))).

(** A checkpoint of two cores, then a migration. *)
Definition ordered_checkpoint : two_events :=
  [Guest 0 8 110; Alarm 0; Guest 1 9 111; Deliver 1 SIGTHRCHKP; Open 0; Open 1; Go 0; Go 1; Open 1; Go 1; Open 0; Go 0].
Definition ordered_migration : two_events :=
  [Guest 1 10 112; Migrate; Migrate; Deliver 0 SIGTHRMIG; Migrate; Guest 1 11 113; Deliver 1 SIGTHRMIG; Open 0; Open 1;
   Go 0; Migrate; Go 1; Migrate].
Definition ordered_start : process (M := nat) (R := nat) := process_start 7 (fun i => 100 + i).


(** ** Signals out of order *)

(** A second alarm while the main thread still writes the checkpoint: the other
    thread gets it, arrives at the barrier in the place of the main thread, and
    runs the guest again; the main thread, whose own handler is interrupted by
    the signal of the second checkpoint, has not saved the memory yet. *)
Definition second_alarm : two_events :=
  [Alarm 0; Deliver 1 SIGTHRCHKP; Open 0; Open 1; Go 1; Alarm 1; Open 1; Go 1; Deliver 0 SIGTHRCHKP; Open 1; Go 1;
   Open 1; Go 1; Guest 1 8 111].
Example alarm_during_checkpoint :
  match run 2 second_alarm ordered_start with
  | Some (OK s) => frames s 1 = [] /\ mem s = 8 /\ saving (drop 1 (frames s 0)) = true
  | _ => False
  end.
Proof. vm_compute. done. Qed.

(** A migration that begins during a checkpoint: the main thread handles its
    signal inside [timer_handler], the other one finishes the checkpoint first
    and then waits at [barrier] alone. *)
Definition early_migration : two_events :=
  [Alarm 0; Deliver 1 SIGTHRCHKP; Migrate; Migrate; Deliver 0 SIGTHRMIG; Open 1; Go 1; Open 0; Go 0; Open 1; Go 1;
   Migrate; Migrate; Deliver 1 SIGTHRMIG].
Example migration_during_checkpoint_hangs :
  match run 2 early_migration ordered_start with
  | Some (OK s) => mig_thread s <> Copying /\ forall e, is_Some (step 2 e s) -> exists i, e = Alarm i
  | _ => False
  end.
Proof.
  destruct (run 2 early_migration ordered_start) as [o|] eqn:E; vm_compute in E; [|discriminate E]. injection E as <-.
  split; [discriminate|]. intros e [o H].
  destruct e as [[|[|i]] m r|i|[|[|i]] []|[|[|i]]|[|[|i]]|]; try (vm_compute in H; discriminate H); by exists i.
Qed.
