(* ===== verification/Allocations.v ===== *)
(** * Asking the guest for its allocations

    Before a cold migration the migration thread asks the guest which of its
    memory is free ([determine_guest_allocations] in src/uhyve.c): it raises an
    interrupt through an event descriptor and waits for a semaphore, while the
    guest runs on; the guest answers on the port of the free list, where the
    thread of its vCPU writes [mem_mappings] ([determine_mem_mappings] in
    src/uhyve-x86_64.c) and posts the semaphore.  Both sides and everything the
    guest does meanwhile, in all interleavings; the chunks are those of
    MemRegions.v, the other ports those of Hypercall.v. *)

From S2P Require Import Prelude GuestMem Paging MemRegions Hypercall Config Migration.

Open Scope uhyve_scope.

(** The next statement of [determine_guest_allocations]: the reset of
    [mem_mappings], [write(mig_efd, ...)], [sem_wait(&mig_sem)]. *)
Inductive mig_pc := AtReset | AtWrite | AtWait | AtReturn.

(** [mig_efd]: the counter of the event descriptor, [None] when it could not be
    created.  [asked]: the interrupt has reached the guest, which has not
    answered yet.  [posting]: cores that have written [mem_mappings] and not
    yet posted the semaphore. *)
Record handover (W : Type) := mkhandover {
  pc : mig_pc;
  vm : machine W;
  mig_efd : option Z;
  asked : bool;
  posting : nat
}.
Arguments mkhandover {W}.
Arguments pc {W}.
Arguments vm {W}.
Arguments mig_efd {W}.
Arguments asked {W}.
Arguments posting {W}.

Inductive action :=
| Mig                            (* the migration thread *)
| Interrupt                      (* a signal handler interrupts its sem_wait *)
| Inject                         (* KVM turns the event into UHYVE_IRQ_MIGRATION *)
| Answer (raddr : Z)             (* an exit at UHYVE_PORT_FREELIST, up to sem_post *)
| Post                           (* its sem_post *)
| Exit (cpuid port raddr : Z)    (* an exit at another port *)
| GuestWrites (m : gmem).        (* the guest runs *)

Definition with_map {W} (s : machine W) (mm : mem_mappings) : machine W :=
  mkmachine (mem s) (os s) (tx_sem s) (mig_sem s) mm (efd s).
Definition with_sem {W} (s : machine W) (n : Z) : machine W :=
  mkmachine (mem s) (os s) (tx_sem s) n (mem_map s) (efd s).

Definition no_mappings : mem_mappings := mkmappings [] 0.

Section Handover.
Context {W : Type} (host : HostOS W) (verbose : bool).
Context (uhyve_argc uhyve_envc : Z) (uhyve_argv uhyve_envp : list (list byte)).
Context (uhyve_get_mac : list byte) (HERMIT_NETIF : option (list byte)) (eventfd : Z).
Context (guest_size : Z) (fuel : nat) `{AddrTranslation gmem}.
(** The guest answers each request once and is silent otherwise. *)
Context (polite : bool).

Abbreviation state := (handover W).

Definition determine_guest_allocations (s : state) : option state :=
  match pc s with
  | AtReset => Some (mkhandover AtWrite (with_map (vm s) no_mappings) (mig_efd s) (asked s) (posting s))
  | AtWrite =>
      match mig_efd s with
      | Some c => Some (mkhandover AtWait (vm s) (Some (c + 1)) (asked s) (posting s))
      | None => Some (mkhandover AtReturn (vm s) None (asked s) (posting s))
      end
  | AtWait =>
      if 0 <? mig_sem (vm s)
      then Some (mkhandover AtReturn (with_sem (vm s) (mig_sem (vm s) - 1)) (mig_efd s) (asked s) (posting s))
      else None
  | AtReturn => None
  end.

(** The port of the free list: [determine_mem_mappings] unless the guest
    passes no list; then [sem_post]. *)
Definition freelist_map (s : machine W) (raddr : Z) : outcome (machine W) :=
  if raddr =? 0 then OK s
  else mm ← determine_mem_mappings fuel (mem s) guest_size raddr; OK (with_map s mm).
Definition freelist_post (s : machine W) : machine W := with_sem s (mig_sem s + 1).

Definition other_port (s : machine W) (cpuid port raddr : Z) : outcome (machine W * control) :=
  handle_io host verbose cpuid uhyve_argc uhyve_envc uhyve_argv uhyve_envp uhyve_get_mac HERMIT_NETIF
    eventfd guest_size fuel s port raddr.

(** [None]: the action cannot happen. *)
Definition step (a : action) (s : state) : option (outcome state) :=
  match a with
  | Mig => OK <$> determine_guest_allocations s
  | Interrupt =>
      match pc s with
      | AtWait => Some (OK (mkhandover AtReturn (vm s) (mig_efd s) (asked s) (posting s)))
      | _ => None
      end
  | Inject =>
      match mig_efd s with
      | Some c => if 0 <? c then Some (OK (mkhandover (pc s) (vm s) (Some 0) true (posting s))) else None
      | None => None
      end
  | Answer raddr =>
      if polite && negb (asked s) then None
      else Some (v ← freelist_map (vm s) raddr; OK (mkhandover (pc s) v (mig_efd s) false (S (posting s))))
  | Post =>
      match posting s with
      | O => None
      | S n => Some (OK (mkhandover (pc s) (freelist_post (vm s)) (mig_efd s) (asked s) n))
      end
  | Exit cpuid port raddr =>
      if port =? UHYVE_PORT_FREELIST then None
      else Some ('(v, _) ← other_port (vm s) cpuid port raddr;
                 OK (mkhandover (pc s) v (mig_efd s) (asked s) (posting s)))
  | GuestWrites m => Some (OK (mkhandover (pc s) (with_mem (vm s) m) (mig_efd s) (asked s) (posting s)))
  end.

Fixpoint run (acts : list action) (s : state) : option (outcome state) :=
  match acts with
  | [] => Some (OK s)
  | a :: acts =>
      match step a s with
      | Some (OK s) => run acts s
      | r => r
      end
  end.

(** The two parts of the exit are the handler of Hypercall.v. *)
Lemma freelist_parts s raddr :
  hypercall_freelist guest_size fuel s raddr = (freelist_post <$> freelist_map s raddr).
Proof.
  unfold hypercall_freelist, freelist_map. destruct (raddr =? 0); [done|].
  by destruct (determine_mem_mappings _ _ _ _).
Qed.

(** ** Who holds the token *)

(** The other ports leave the semaphore and the mappings alone. *)
Lemma other_port_frame s cpuid port raddr v c :
  port <> UHYVE_PORT_FREELIST -> other_port s cpuid port raddr = OK (v, c) ->
  mig_sem v = mig_sem s /\ mem_map v = mem_map s.
Proof.
  intros Hp E. unfold other_port, handle_io in E. rewrite (proj2 (Z.eqb_neq _ _) Hp) in E.
  repeat match type of E with (if ?b then _ else _) = _ => destruct b end;
    unfold continue, hypercall_write, hypercall_read, hypercall_unlink, hypercall_open, hypercall_close,
      hypercall_netinfo, hypercall_lseek, hypercall_cmdsize, hypercall_cmdval in E;
    outcome_inv; try (destruct verbose; done); repeat (case_match; outcome_inv; try done).
  unfold check_network. by repeat case_match.
Qed.

Lemma run_snoc acts a s :
  run (acts ++ [a]) s =
  match run acts s with Some (OK s) => step a s | r => r end.
Proof.
  revert s. induction acts as [|b acts IH]; intros s; cbn [run app].
  - by destruct (step a s) as [[| | |]|].
  - destruct (step b s) as [[s'| | |]|]; [apply IH|done..].
Qed.

(** The way of a request: a count of the event descriptor, an interrupt the
    guest has not answered, a core about to post, a post of the semaphore. *)
Inductive phase := Idle | Cleared | OnEvent | Asked | Filled | Posted | Done.

Definition shape (ph : phase) : mig_pc * option Z * bool * nat * Z :=
  match ph with
  | Idle => (AtReset, Some 0, false, O, 0)
  | Cleared => (AtWrite, Some 0, false, O, 0)
  | OnEvent => (AtWait, Some 1, false, O, 0)
  | Asked => (AtWait, Some 0, true, O, 0)
  | Filled => (AtWait, Some 0, false, 1%nat, 0)
  | Posted => (AtWait, Some 0, false, O, 1)
  | Done => (AtReturn, Some 0, false, O, 0)
  end.
Definition shape_of (s : state) : mig_pc * option Z * bool * nat * Z :=
  (pc s, mig_efd s, asked s, posting s, mig_sem (vm s)).

(** [mem_mappings] is what the guest's answer, the action behind [as1], left. *)
Definition answered (s0 : state) (acts : list action) (mm : mem_mappings) : Prop :=
  exists as1 raddr as2 s1, acts = as1 ++ Answer raddr :: as2 /\ run as1 s0 = Some (OK s1) /\
    if raddr =? 0 then mm = no_mappings else determine_mem_mappings fuel (mem (vm s1)) guest_size raddr = OK mm.

Definition contents (s0 : state) (acts : list action) (ph : phase) (mm : mem_mappings) : Prop :=
  match ph with
  | Idle => True
  | Cleared | OnEvent | Asked => mm = no_mappings
  | Filled | Posted | Done => answered s0 acts mm
  end.

Lemma contents_snoc s0 acts a ph mm : contents s0 acts ph mm -> contents s0 (acts ++ [a]) ph mm.
Proof.
  destruct ph; cbn; try done; intros (as1 & raddr & as2 & s1 & -> & H1 & H2);
    exists as1, raddr, (as2 ++ [a]), s1; by rewrite <- app_assoc.
Qed.

Lemma freelist_map_OK s raddr v :
  mem_map s = no_mappings -> freelist_map s raddr = OK v ->
  mig_sem v = mig_sem s /\
  if raddr =? 0 then mem_map v = no_mappings
  else determine_mem_mappings fuel (mem s) guest_size raddr = OK (mem_map v).
Proof.
  unfold freelist_map. intros Hm E. destruct (raddr =? 0); [by injection E as <-|].
  outcome_inv. cbn. done.
Qed.

Lemma handover_step s0 acts ph a s s' :
  polite = true -> a <> Interrupt -> run acts s0 = Some (OK s) ->
  shape_of s = shape ph -> contents s0 acts ph (mem_map (vm s)) -> step a s = Some (OK s') ->
  exists ph', shape_of s' = shape ph' /\ contents s0 (acts ++ [a]) ph' (mem_map (vm s')).
Proof.
  intros Hpol Ha Hrun Hsh Hc E.
  assert (forall v p' e' k' n' ph', mem_map v = mem_map (vm s) -> s' = mkhandover p' v e' k' n' ->
    shape_of s' = shape ph' -> contents s0 acts ph' (mem_map (vm s)) ->
    exists ph', shape_of s' = shape ph' /\ contents s0 (acts ++ [a]) ph' (mem_map (vm s'))) as Hstep.
  { intros v p' e' k' n' ph' Hm -> Hs Hp. exists ph'. split; [done|]. apply contents_snoc. cbn. by rewrite Hm. }
  assert (forall v, mem_map v = mem_map (vm s) -> mig_sem v = mig_sem (vm s) ->
    s' = mkhandover (pc s) v (mig_efd s) (asked s) (posting s) ->
    exists ph', shape_of s' = shape ph' /\ contents s0 (acts ++ [a]) ph' (mem_map (vm s'))) as Hstay.
  { intros v Hm Hv ->. eapply (Hstep v); [done|done| |exact Hc]. rewrite <- Hsh. unfold shape_of. cbn. by rewrite Hv. }
  destruct s as [p v e k n]. unfold shape_of in Hsh. cbn [pc vm mig_efd asked posting] in *.
  destruct a as [| | |raddr| |cpuid port raddr|m]; cbn [step] in E.
  - (* the migration thread *)
    unfold determine_guest_allocations in E. cbn [pc vm mig_efd asked posting] in E.
    destruct ph; injection Hsh as -> -> -> -> Hsem; rewrite ?Hsem in E; cbn in E; simplify_eq;
      cbn [contents] in Hc.
    + exists Cleared. unfold shape_of. cbn. by rewrite Hsem.
    + eapply (Hstep _ _ _ _ _ OnEvent); try done. unfold shape_of. cbn. by rewrite Hsem.
    + by eapply (Hstep (with_sem v (1 - 1)) _ _ _ _ Done).
  - done.
  - destruct ph; injection Hsh as -> -> -> -> Hsem; cbn in E; simplify_eq.
    eapply (Hstep _ _ _ _ _ Asked); try done. unfold shape_of. cbn. by rewrite Hsem.
  - rewrite Hpol in E. destruct ph; injection Hsh as -> -> -> -> Hsem; cbn in E; try done.
    injection E as E. apply bind_OK_inv in E as (v' & E & [= <-]). cbn [contents] in Hc.
    apply freelist_map_OK in E as [Hv Hmap]; [|done]. exists Filled. split.
    + unfold shape_of. cbn. by rewrite Hv, Hsem.
    + exists acts, raddr, [], (mkhandover AtWait v (Some 0) true 0). done.
  - destruct ph; injection Hsh as -> -> -> -> Hsem; cbn in E; simplify_eq.
    eapply (Hstep (freelist_post v) _ _ _ _ Posted); try done. unfold shape_of. cbn. by rewrite Hsem.
  - destruct (Z.eqb_spec port UHYVE_PORT_FREELIST) as [|Hp]; [done|]. injection E as E.
    apply bind_OK_inv in E as ([v' c] & E & [= <-]). apply other_port_frame in E as [? ?]; [|done]. by apply (Hstay v').
  - injection E as <-. by apply (Hstay (with_mem v m)).
Qed.

Definition ready (s : state) : Prop := shape_of s = shape Idle.

Lemma handover_run s0 acts s :
  polite = true -> Interrupt ∉ acts -> ready s0 -> run acts s0 = Some (OK s) ->
  exists ph, shape_of s = shape ph /\ contents s0 acts ph (mem_map (vm s)).
Proof.
  intros Hpol Hint H0. revert s. induction acts as [|a acts IH] using rev_ind; intros s Hrun.
  - cbn in Hrun. simplify_eq. by exists Idle.
  - rewrite run_snoc in Hrun. apply not_elem_of_app in Hint as [Hint Ha].
    destruct (run acts s0) as [[s1| | |]|] eqn:E; try done.
    destruct (IH Hint s1 eq_refl) as (ph & Hsh & Hc).
    apply (handover_step s0 acts ph a s1 s); try done. intros ->. apply Ha. by left.
Qed.

(** ** The chunks of the answer *)

Lemma first_allocated s0 e0 l x :
  let L := (s0, e0) :: l in
  ascending FIRST_ALLOCATION L -> x = FIRST_ALLOCATION ->
  FIRST_ALLOCATION <= x < last_end FIRST_ALLOCATION L /\ in_gap x = false /\ ~ is_free x L.
Proof.
  intros L Ha ->. cbn [ascending L] in Ha. destruct Ha as (H1 & H2 & H3).
  pose proof (last_end_le _ _ H3). split; [cbn; lia|]. split; [done|].
  unfold is_free, L. rewrite Exists_cons. intros [Hx|Hx]; [lia|].
  revert H3 Hx. assert (FIRST_ALLOCATION < e0) as Hlt by lia. clear -Hlt. revert e0 Hlt.
  induction l as [|[s e] l IH]; intros e0 Hlt Ha Hx; [by apply Exists_nil in Hx|].
  cbn in Ha. destruct Ha as (? & ? & Ha). apply Exists_cons in Hx as [Hx|Hx]; [lia|]. apply (IH e); [lia|done..].
Qed.

(** The free list a cold migration can work with: it describes the memory from
    8 MiB up to the end of its last free region; what is behind it, if anything,
    is on one side of the I/O gap. *)
Definition describes_memory (m : gmem) (raddr : Z) (L : list (Z * Z)) : Prop :=
  free_list_at m raddr L /\ L <> [] /\ (length L < fuel)%nat /\ Z.of_nat (length L) < 2 ^ 60 /\
  ascending FIRST_ALLOCATION L /\ Forall chunk_ok (chunks_before FIRST_ALLOCATION L) /\
  tail_ok guest_size (last_end FIRST_ALLOCATION L).

(** C22. Whatever the cores do meanwhile, the migration thread comes back from
    [determine_guest_allocations] with the guest's answer: at every moment the
    request is under way (one of the threads can go on, or the guest still owes
    its answer), the thread returns only behind exactly one answer, and when the
    free list of that moment is well formed a cold migration announces and sends
    chunks that cover exactly the memory that was allocated then below the end of
    the last free region, whatever is done later.  What the guest has allocated
    behind its last free region is in no chunk, though [determine_mem_mappings]
    writes it to the array ([MemRegions.trailing_allocation_not_counted]).  The
    guest answers each request once, and no signal interrupts the wait. *)
Theorem allocations_handed_over s0 acts s :
  polite = true -> ready s0 -> Interrupt ∉ acts -> run acts s0 = Some (OK s) ->
  (pc s = AtReturn \/ asked s = true \/ exists a, a ∈ [Mig; Inject; Post] /\ is_Some (step a s)) /\
  (pc s = AtReturn -> exists as1 raddr as2 s1,
     acts = as1 ++ Answer raddr :: as2 /\ run as1 s0 = Some (OK s1) /\
     forall L p c, describes_memory (mem (vm s1)) raddr L -> mig_type p = MIG_TYPE_COLD ->
       exists cs, migrated p c (mem_map (vm s)) cs /\ chunks_ordered FIRST_ALLOCATION cs /\
         forall x, in_chunks x cs <-> FIRST_ALLOCATION <= x < last_end FIRST_ALLOCATION L /\ in_gap x = false /\ ~ is_free x L).
Proof.
  intros Hpol H0 Hint Hrun. destruct (handover_run _ _ _ Hpol Hint H0 Hrun) as (ph & Hsh & Hc). split.
  - destruct s as [q v e k n]. unfold shape_of in Hsh. cbn [pc vm mig_efd asked posting] in *.
    destruct ph; injection Hsh as -> -> -> -> Hsem; auto; right; right.
    + exists Mig. split; [left|by eexists].
    + exists Mig. split; [left|by eexists].
    + exists Inject. split; [right; left|by eexists].
    + exists Post. split; [right; right; left|by eexists].
    + exists Mig. split; [left|]. cbn. rewrite Hsem. by eexists.
  - intros Hpc. assert (contents s0 acts Done (mem_map (vm s))) as (as1 & raddr & as2 & s1 & -> & H1 & Hmm).
    { unfold shape_of in Hsh. rewrite Hpc in Hsh. by destruct ph. }
    exists as1, raddr, as2, s1. split; [done|]. split; [done|].
    intros L p c (Hl & Hne & Hf & Hb & Ha & Hok & Hg) Hcold.
    destruct L as [|[f0 e0] l]; [done|]. pose proof (first_allocated f0 e0 l FIRST_ALLOCATION Ha eq_refl) as Hfirst.
    destruct (determine_mem_mappings_spec _ _ _ _ _ _ _ Hl Hf Hb Ha Hok Hg) as (mm & cs & E & Hcs & Hn & Ho & Hx).
    assert (raddr <> 0) as Hr by (by inversion Hl). rewrite (proj2 (Z.eqb_neq _ _) Hr), E in Hmm. injection Hmm as <-.
    exists cs. split; [|done]. unfold migrated, precopy_phase. rewrite Hcold. cbn.
    split; [|done]. right. rewrite Hn. apply Hx in Hfirst.
    destruct cs; [by apply Exists_nil in Hfirst|]. cbn. lia.
Qed.
End Handover.

(** ** A session *)

(** A host without files, and a guest of 5 GiB with the two free regions of
    [two_regions]. *)
Definition no_files : HostOS unit := {|
  os_write _ _ _ := (-1, tt); os_read _ _ _ := (-1, [], tt); os_open _ _ _ _ := (-1, tt);
  os_close _ _ := (-1, tt); os_unlink _ _ := (-1, tt); os_lseek _ _ _ _ := (-1, tt);
  os_realpath _ _ := (0, []); os_putc _ _ := tt; os_start_network _ := tt |}.
Definition five_gib (polite : bool) : list action -> handover unit -> option (outcome (handover unit)) :=
  run no_files false 0 0 [] [] [] None (-1) 0x140000000 3 polite.
Definition asking : handover unit :=
  mkhandover AtReset (mkmachine two_regions tt 0 0 no_mappings (-1)) (Some 0) false 0.

Definition busy_session : list action :=
  [Mig; Exit 0 UHYVE_UART_PORT 65; Mig; Exit 1 UHYVE_PORT_NETWRITE 0; Inject; Answer 0x13000;
   Exit 1 UHYVE_UART_PORT 66; Post; Mig].

Lemma busy_answer as1 raddr as2 :
  busy_session = as1 ++ Answer raddr :: as2 ->
  as1 = [Mig; Exit 0 UHYVE_UART_PORT 65; Mig; Exit 1 UHYVE_PORT_NETWRITE 0; Inject] /\ raddr = 0x13000.
Proof.
  unfold busy_session. intros E.
  do 6 (destruct as1 as [|? as1]; [first [discriminate E|by injection E as <- <-]|injection E as <- E]).
  do 3 (destruct as1 as [|? as1]; [discriminate E|injection E as <- E]). by destruct as1.
Qed.

Lemma busy_uninterrupted : Interrupt ∉ busy_session.
Proof.
  unfold busy_session. rewrite !not_elem_of_cons. repeat (split; [discriminate|]). by intros ?%elem_of_nil.
Qed.

Lemma allocations_handed_over_witness :
  match five_gib true busy_session asking with
  | Some (OK s) => exists cs, migrated default_params default_config (mem_map (vm s)) cs /\ in_chunks 0xB00000 cs
  | _ => False
  end.
Proof.
  assert (match five_gib true busy_session asking with
          | Some (OK s) => match pc s with AtReturn => true | _ => false end
          | _ => false
          end = true) as Hret by (vm_compute; reflexivity).
  destruct (five_gib true busy_session asking) as [[s| | |]|] eqn:E; [|discriminate Hret..].
  destruct (allocations_handed_over no_files false 0 0 [] [] [] None (-1) 0x140000000 3 true asking busy_session s)
    as [_ H]; [reflexivity|reflexivity|exact busy_uninterrupted|exact E|].
  destruct H as (as1 & raddr & as2 & s1 & Eacts & E1 & H).
  { destruct (pc s); [discriminate Hret..|reflexivity]. }
  apply busy_answer in Eacts as [-> ->].
  destruct (H [(0x900000, 0xA00000); (0x100000000, 0x140000000)] default_params default_config) as (cs & Hm & _ & Hx).
  - assert (mem (vm s1) = two_regions) as ->.
    { cbv -[two_regions no_files no_mappings] in E1. injection E1 as <-. reflexivity. }
    split; [exact two_regions_list|]. split; [done|]. split; [cbn; lia|]. split; [cbn; lia|].
    split; [cbn; repeat split; lia|]. split; [|by left].
    apply Forall_cons_2; [|apply Forall_cons_2; [|by apply Forall_nil_2]]; split_and!; vm_compute; congruence.
  - reflexivity.
  - exists cs. split; [exact Hm|]. apply Hx. split; [cbv; split; congruence|]. split; [reflexivity|].
    intros Hf. apply Exists_cons in Hf as [Hf|Hf]; [lia|].
    apply Exists_cons in Hf as [Hf|Hf]; [lia|]. by apply Exists_nil in Hf.
Defined.

(** ** What the protocol does not promise *)

Definition counted {W} (r : option (outcome (handover W))) : option (mig_pc * outcome (list mem_chunk)) :=
  match r with Some (OK s) => Some (pc s, counted_chunks (mem_map (vm s))) | _ => None end.

(** The guest takes [0x900000, 0x980000) from its free list after it has
    answered: the chunks are not those of the moment the cores are stopped, and
    that memory is in none of them. *)
Definition one_more : gmem := poken two_regions 0x13000 (le_split 8 0x980000).
Lemma late_allocation_not_sent :
  counted (five_gib true [Mig; Mig; Inject; Answer 0x13000; GuestWrites one_more; Post; Mig] asking) =
    Some (AtReturn, OK [mkchunk FIRST_ALLOCATION 0x100000;
                        mkchunk 0xA00000 (KVM_32BIT_GAP_START - 0xA00000)]) /\
  counted (five_gib true [Mig; Mig; GuestWrites one_more; Inject; Answer 0x13000; Post; Mig] asking) =
    Some (AtReturn, OK [mkchunk FIRST_ALLOCATION 0x180000;
                        mkchunk 0xA00000 (KVM_32BIT_GAP_START - 0xA00000)]).
Proof. split; vm_compute; reflexivity. Qed.

(** A signal that interrupts [sem_wait] lets the migration go on with no
    mappings, which the answer still changes later. *)
Lemma interrupted_wait :
  counted (five_gib true [Mig; Mig; Interrupt] asking) = Some (AtReturn, OK []) /\
  counted (five_gib true [Mig; Mig; Interrupt; Inject; Answer 0x13000; Post] asking) =
    Some (AtReturn, OK [mkchunk FIRST_ALLOCATION 0x100000;
                        mkchunk 0xA00000 (KVM_32BIT_GAP_START - 0xA00000)]).
Proof. split; vm_compute; reflexivity. Qed.

(** So does a request of the guest that was not asked for, also long before. *)
Lemma unsolicited_answer :
  counted (five_gib false [Answer 0x13000; Post; Mig; Mig; Mig] asking) = Some (AtReturn, OK []) /\
  five_gib true [Answer 0x13000] asking = None.
Proof. split; vm_compute; reflexivity. Qed.
