(* ===== verification/Dump.v ===== *)
(** * Diagnostic output

    What uhyve prints about a core that failed: [print_registers] of
    src/uhyve-x86_64.c with its helpers and of src/uhyve-aarch64.c,
    [print_migration_params] of src/uhyve-migration.c and [print_send_wr_info] of
    src/uhyve-migration-rdma.c.  A function that prints
    is the list of its calls of [fprintf]; the formats are those of the source
    and are interpreted here, for the directives they use. *)

From S2P Require Import Prelude CLib Boot Migration MigParams.
From S2P Require Connections Rdma.

Open Scope uhyve_scope.

(** ** Formats *)

(** [%<width>x] with the length modifiers (the width always comes with the
    flag 0), [%d], [%u] and [%s]. *)
Inductive directive :=
| PLit (c : byte)
| PHex (width : nat) (bits : Z)
| PInt
| PUns (bits : Z)
| PStr.

(** [st]: width and size of a directive that has begun. *)
Fixpoint parse_format (fmt : list byte) (st : option (nat * Z)) : list directive :=
  match fmt with
  | [] => []
  | c :: fmt =>
      match st with
      | None => if char c =? 37 then parse_format fmt (Some (O, 32)) else PLit c :: parse_format fmt None
      | Some (width, bits) =>
          if isdigit c then parse_format fmt (Some (10 * width + Z.to_nat (char c - 48), bits)%nat)
          else if char c =? 104 then parse_format fmt (Some (width, bits / 2))        (* h *)
          else if (char c =? 122) || (char c =? 108) then parse_format fmt (Some (width, 64))  (* z, l *)
          else if char c =? 120 then PHex width bits :: parse_format fmt None
          else if char c =? 100 then PInt :: parse_format fmt None
          else if char c =? 117 then PUns bits :: parse_format fmt None
          else if char c =? 115 then PStr :: parse_format fmt None
          else PLit c :: parse_format fmt None
      end
  end.

Inductive arg := AInt (z : Z) | AStr (s : list byte).

Definition ZERO : byte := Byte.x30.
Definition pad (width : nat) (s : list byte) : list byte := replicate (width - length s) ZERO ++ s.
Definition print_d (z : Z) : list byte := if z <? 0 then Byte.x2d :: print_u (- z) else print_u z.

(** Too few arguments, or one of another type, are undefined behaviour. *)
Fixpoint format (ds : list directive) (args : list arg) : outcome (list byte) :=
  match ds, args with
  | [], _ => OK []
  | PLit c :: ds, _ => s ← format ds args; OK (c :: s)
  | PHex width bits :: ds, AInt z :: args =>
      s ← format ds args; OK (pad width (print_zx (z mod 2 ^ bits)) ++ s)
  | PInt :: ds, AInt z :: args => s ← format ds args; OK (print_d (s32 z) ++ s)
  | PUns bits :: ds, AInt z :: args => s ← format ds args; OK (print_u (z mod 2 ^ bits) ++ s)
  | PStr :: ds, AStr t :: args => s ← format ds args; OK (t ++ s)
  | _, _ => Undefined
  end.

Definition call : Type := list directive * list arg.
Definition fprintf (fmt : list byte) (args : list arg) : call := (parse_format fmt None, args).

Fixpoint output (calls : list call) : outcome (list byte) :=
  match calls with
  | [] => OK []
  | (ds, args) :: calls => t ← format ds args; s ← output calls; OK (t ++ s)
  end.

(** A line. *)
Definition line (s : string) : list byte := str s ++ [NL].

(** ** x86_64 *)

Record kvm_regs := mkregs {
  rax : Z; rbx : Z; rcx : Z; rdx : Z; rsi : Z; rdi : Z; rsp : Z; rbp : Z;
  r8 : Z; r9 : Z; r10 : Z; r11 : Z; r12 : Z; r13 : Z; r14 : Z; r15 : Z;
  rip : Z; rflags : Z
}.
Record kvm_dtable := mkdtable { dt_base : Z; dt_limit : Z }.
Record kvm_sregs := mksregs {
  cs : kvm_segment; ds : kvm_segment; es : kvm_segment; fs : kvm_segment; gs : kvm_segment; ss : kvm_segment;
  tr : kvm_segment; ldt : kvm_segment;
  gdt : kvm_dtable; idt : kvm_dtable;
  cr0 : Z; cr2 : Z; cr3 : Z; cr4 : Z; cr8 : Z;
  efer : Z; apic_base : Z;
  interrupt_bitmap : list Z
}.

Definition KVM_NR_INTERRUPTS : Z := 256.

Definition show_dtable (name : string) (dtable : kvm_dtable) : call :=
  fprintf (line " %s                 %016zx  %08hx") [AStr (str name); AInt (dt_base dtable); AInt (dt_limit dtable)].

Definition show_segment (name : string) (seg : kvm_segment) : call :=
  fprintf (line " %s       %04hx      %016zx  %08x  %02hhx    %x %x   %x  %x %x %x %x")
    [AStr (str name); AInt (seg_selector seg); AInt (seg_base seg); AInt (seg_limit seg); AInt (seg_type seg);
     AInt (seg_present seg); AInt (seg_dpl seg); AInt (seg_db seg); AInt (seg_s seg); AInt (seg_l seg);
     AInt (seg_g seg); AInt (seg_avl seg)].

Definition word (l : list Z) (i : nat) : Z := default 0 (l !! i).

Definition show_registers (id : Z) (regs : kvm_regs) (sregs : kvm_sregs) : list call :=
  [fprintf ([NL] ++ line " Dump state of CPU %d") [AInt id];
   fprintf ([NL] ++ line " Registers:") [];
   fprintf (line " ----------") [];
   fprintf (line " rip: %016zx   rsp: %016zx flags: %016zx") [AInt (rip regs); AInt (rsp regs); AInt (rflags regs)];
   fprintf (line " rax: %016zx   rbx: %016zx   rcx: %016zx") [AInt (rax regs); AInt (rbx regs); AInt (rcx regs)];
   fprintf (line " rdx: %016zx   rsi: %016zx   rdi: %016zx") [AInt (rdx regs); AInt (rsi regs); AInt (rdi regs)];
   fprintf (line " rbp: %016zx    r8: %016zx    r9: %016zx") [AInt (rbp regs); AInt (r8 regs); AInt (r9 regs)];
   fprintf (line " r10: %016zx   r11: %016zx   r12: %016zx") [AInt (r10 regs); AInt (r11 regs); AInt (r12 regs)];
   fprintf (line " r13: %016zx   r14: %016zx   r15: %016zx") [AInt (r13 regs); AInt (r14 regs); AInt (r15 regs)];
   fprintf (line " cr0: %016zx   cr2: %016zx   cr3: %016zx") [AInt (cr0 sregs); AInt (cr2 sregs); AInt (cr3 sregs)];
   fprintf (line " cr4: %016zx   cr8: %016zx") [AInt (cr4 sregs); AInt (cr8 sregs)];
   fprintf ([NL] ++ line " Segment registers:") [];
   fprintf (line " ------------------") [];
   fprintf (line " register  selector  base              limit     type  p dpl db s l g avl") [];
   show_segment "cs " (cs sregs); show_segment "ss " (ss sregs); show_segment "ds " (ds sregs);
   show_segment "es " (es sregs); show_segment "fs " (fs sregs); show_segment "gs " (gs sregs);
   show_segment "tr " (tr sregs); show_segment "ldt" (ldt sregs);
   show_dtable "gdt" (gdt sregs); show_dtable "idt" (idt sregs);
   fprintf ([NL] ++ line " APIC:") [];
   fprintf (line " -----") [];
   fprintf (line " efer: %016zx  apic base: %016zx") [AInt (efer sregs); AInt (apic_base sregs)];
   fprintf ([NL] ++ line " Interrupt bitmap:") [];
   fprintf (line " -----------------") []] ++
  ((fun i => fprintf (str " %016zx") [AInt (word (interrupt_bitmap sregs) i)]) <$>
     seq 0 (Z.to_nat ((KVM_NR_INTERRUPTS + 63) / 64))) ++
  [fprintf [NL] []].

(** The state as KVM reports it. *)
Definition print_registers (cpuid : Z) (KVM_GET_SREGS : outcome kvm_sregs) (KVM_GET_REGS : outcome kvm_regs)
  : outcome (list byte) :=
  sregs ← KVM_GET_SREGS; regs ← KVM_GET_REGS; output (show_registers (s32 cpuid) regs sregs).

(** ** aarch64 *)

Module Arm.
Inductive reg := PC | PSTATE | SP_EL1 | MPIDR | X (i : nat).    (* the link register is [X 30] *)

Section Print.
(** The value [ioctl(vcpufd, KVM_GET_ONE_REG, ...)] stores. *)
Context (KVM_GET_ONE_REG : reg -> Z).

(** One iteration of [for (int i=0; i<=29; i+=2)]. *)
Definition print_pair (i : nat) : list call :=
  [fprintf (str " X%d:" ++ [Byte.x09] ++ str " 0x%016lx" ++ [Byte.x09])
     [AInt (Z.of_nat i); AInt (KVM_GET_ONE_REG (X i))];
   fprintf (str " X%d:" ++ [Byte.x09] ++ line "0x%016lx")
     [AInt (Z.of_nat (i + 1)); AInt (KVM_GET_ONE_REG (X (i + 1)))]].

Definition print_registers (cpuid : Z) : list call :=
  [fprintf ([NL] ++ line " Dump state of CPU %d" ++ [NL]) [AInt cpuid];
   fprintf (line " Registers") [];
   fprintf (line " =========") [];
   fprintf (line " PC:     0x%016lx") [AInt (KVM_GET_ONE_REG PC)];
   fprintf (line " PSTATE: 0x%016lx") [AInt (KVM_GET_ONE_REG PSTATE)];
   fprintf (line " SP_EL1: 0x%016lx") [AInt (KVM_GET_ONE_REG SP_EL1)];
   fprintf (line " LR:     0x%016lx") [AInt (KVM_GET_ONE_REG (X 30))];
   fprintf (line " MPIDR:  0x%016lx") [AInt (KVM_GET_ONE_REG MPIDR)]] ++
  flat_map (fun k => print_pair (2 * k)) (seq 0 15).
End Print.
End Arm.

(** ** The parameters of a migration *)

Definition print_migration_params (p : mig_params) : outcome (list byte) :=
  mode ← get_migration_mode_str (mig_mode p);
  type ← get_migration_type_str (mig_type p);
  output
    [fprintf (line "========== MIGRATION PARAMETERS ==========") [];
     fprintf (line "   MODE     : %s") [AStr mode];
     fprintf (line "   TYPE     : %s") [AStr type];
     fprintf (line "   USE ODP  : %u") [AInt (use_odp p)];
     fprintf (line "   PREFETCH : %u") [AInt (prefetch p)];
     fprintf (line "==========================================") []].

(** ** A work request of RDMA *)

(** The first request of the list with the number [id]. *)
Fixpoint print_send_wr_info (send_list : list Rdma.send_wr) (id : Z) : call :=
  match send_list with
  | [] => fprintf (line "[ERROR] Could not find send_wr with ID %llu") [AInt id]
  | search_wr :: next =>
      if Rdma.wr_id search_wr =? id
      then fprintf (line "[INFO] WR_ID: %llu; LADDR: 0x%llx; RADDR: 0x%llx; SIZE: %llu")
             [AInt (Rdma.wr_id search_wr); AInt (Rdma.sg_addr search_wr); AInt (Rdma.remote_addr search_wr);
              AInt (Rdma.sg_length search_wr)]
      else print_send_wr_info next id
  end.

(** ** Reading the output back *)

(** The text is compared with the format, [%s] with the names given, to its
    end; the numbers are collected. *)
Fixpoint read_format (ds : list directive) (names : list (list byte)) (s : list byte) : option (list Z) :=
  match ds with
  | [] => match s with [] => Some [] | _ => None end
  | PLit c :: ds =>
      match s with
      | c' :: s => if decide (c = c') then read_format ds names s else None
      | [] => None
      end
  | PHex _ _ :: ds =>
      if starts_with_digit 16 s
      then let '(v, s) := scan_digits 16 s 0 in l ← read_format ds names s; Some (v :: l) else None
  | (PInt | PUns _) :: ds =>
      if starts_with_digit 10 s
      then let '(v, s) := scan_digits 10 s 0 in l ← read_format ds names s; Some (v :: l) else None
  | PStr :: ds =>
      match names with
      | t :: names => if is_prefix t s then read_format ds names (drop (length t) s) else None
      | [] => None
      end
  end.

(** A number is followed by something that cannot belong to it. *)
Fixpoint separated (ds : list directive) : bool :=
  match ds with
  | [] => true
  | (PHex _ _ | PInt | PUns _) :: ds' =>
      match ds' with PLit c :: _ => negb (isxdigit c) && separated ds' | _ => false end
  | _ :: ds => separated ds
  end.

(** The arguments fit the directives without truncation. *)
Fixpoint ranged (ds : list directive) (args : list arg) : Prop :=
  match ds, args with
  | [], [] => True
  | PLit _ :: ds, _ => ranged ds args
  | PHex _ bits :: ds, AInt z :: args => 0 <= bits <= 64 /\ 0 <= z < 2 ^ bits /\ ranged ds args
  | PInt :: ds, AInt z :: args => 0 <= z < 2 ^ 31 /\ ranged ds args
  | PUns bits :: ds, AInt z :: args => 0 <= bits <= 64 /\ 0 <= z < 2 ^ bits /\ ranged ds args
  | PStr :: ds, AStr _ :: args => ranged ds args
  | _, _ => False
  end.

Definition numbers (args : list arg) : list Z :=
  omap (fun a => match a with AInt z => Some z | AStr _ => None end) args.
Definition strings (args : list arg) : list (list byte) :=
  omap (fun a => match a with AStr s => Some s | AInt _ => None end) args.

Lemma pad_scan width s rest : scan_digits 16 (pad width s ++ rest) 0 = scan_digits 16 (s ++ rest) 0.
Proof. unfold pad. rewrite <- app_assoc. by induction (width - length s)%nat as [|n IH]. Qed.
Lemma pad_starts width s rest : starts_with_digit 16 s = true -> starts_with_digit 16 (pad width s ++ rest) = true.
Proof. unfold pad. intros H. destruct (width - length s)%nat; [by destruct s|done]. Qed.

Lemma printed_starts base z : 2 <= base <= 16 -> 0 <= z < base ^ 64 ->
  starts_with_digit base (to_digits 64 base z) = true.
Proof.
  intros Hb Hz. destruct (to_digits_head base Hb 64 z) as (d & l & E & Hd & _); [exact Hz|lia|]. rewrite E.
  by apply (digit_step base Hb).
Qed.

Lemma read_hex width bits z rest : 0 <= bits <= 64 -> 0 <= z < 2 ^ bits -> starts_with_digit 16 rest = false ->
  let t := pad width (print_zx (z mod 2 ^ bits)) ++ rest in
  starts_with_digit 16 t = true /\ scan_digits 16 t 0 = (z, rest).
Proof.
  intros Hb Hz Hr t. unfold t, print_zx. rewrite Z.mod_small by done.
  assert (2 ^ bits <= 2 ^ 64) by (apply Z.pow_le_mono_r; lia).
  assert (0 <= z < 16 ^ 64) by lia. split.
  - by apply pad_starts, printed_starts.
  - rewrite pad_scan. by apply scan_printed; [|change (16 ^ Z.of_nat 64) with (16 ^ 64)|lia|].
Qed.

Lemma read_dec z rest : is_u64 z -> starts_with_digit 10 rest = false ->
  starts_with_digit 10 (print_u z ++ rest) = true /\ scan_digits 10 (print_u z ++ rest) 0 = (z, rest).
Proof.
  unfold is_u64, print_u. intros Hz Hr. assert (0 <= z < 10 ^ 64) by lia. split.
  - pose proof (printed_starts 10 z ltac:(lia) ltac:(done)) as H1. by destruct (to_digits 64 10 z).
  - by apply scan_printed; [|change (10 ^ Z.of_nat 64) with (10 ^ 64)|lia|].
Qed.


Lemma prefix_app t s : is_prefix t (t ++ s) = true /\ drop (length t) (t ++ s) = s.
Proof.
  split; [|apply drop_app_length]. induction t as [|c t IH]; [by destruct s|]. cbn. by rewrite decide_True.
Qed.

Lemma no_digit base c t : base <= 16 -> isxdigit c = false -> starts_with_digit base (c :: t) = false.
Proof.
  intros Hb Hc. cbn. destruct (is_digit_of base c) eqn:E; [|done].
  apply (is_digit_of_mono base 16) in E; [|done]. unfold isxdigit in Hc. congruence.
Qed.

(** What follows a number in a separated format. *)
Lemma format_head c ds args s : format (PLit c :: ds) args = OK s -> exists s', s = c :: s'.
Proof. cbn. intros H. outcome_inv. eauto. Qed.

Lemma s32_small z : 0 <= z < 2 ^ 31 -> s32 z = z.
Proof.
  intros Hz. unfold s32, signed. cbv zeta. rewrite Z.mod_small by lia. by destruct (Z.ltb_spec z (2 ^ (32 - 1))); [|lia].
Qed.

(** Printing with a format and reading with it. *)
Lemma read_printed ds : forall args,
  ranged ds args -> separated ds = true ->
  exists t, format ds args = OK t /\ read_format ds (strings args) t = Some (numbers args).
Proof.
  induction ds as [|d ds IH]; intros args Hr Hs; [destruct args; [by exists []|done]|].
  assert (forall a args', args = a :: args' -> ranged ds args' ->
    match d with PHex _ _ | PInt | PUns _ => true | _ => false end = true ->
    exists t, format ds args' = OK t /\ read_format ds (strings args') t = Some (numbers args') /\
      starts_with_digit 16 t = false /\ starts_with_digit 10 t = false) as Hnum.
  { intros a args' -> Hr' Hd. assert (exists c ds', ds = PLit c :: ds' /\ isxdigit c = false /\ separated ds = true)
      as (c & ds' & E & Hc & Hs').
    { destruct d; try done; cbn in Hs; (destruct ds as [|[] ds]; try done);
        apply andb_true_iff in Hs as [Hc%negb_true_iff Hs]; eauto. }
    destruct (IH args' Hr' Hs') as (t & Ht & Hread). exists t. split; [done|]. split; [done|].
    rewrite E in Ht. apply format_head in Ht as [t' ->]. split; by apply no_digit. }
  destruct d as [c|width bits| |bits|]; cbn [ranged] in Hr.
  - destruct (IH args Hr Hs) as (t & E & H). exists (c :: t). cbn [format read_format].
    rewrite E, bind_OK. split; [done|]. by rewrite decide_True.
  - destruct args as [|[z|] args]; try done. destruct Hr as (Hb & Hz & Hr).
    destruct (Hnum _ _ eq_refl Hr eq_refl) as (t & E & H & H16 & _). eexists. cbn [format read_format].
    rewrite E, bind_OK. split; [done|]. destruct (read_hex width bits z t Hb Hz H16) as [-> ->].
    change (strings (AInt z :: args)) with (strings args). by rewrite H.
  - destruct args as [|[z|] args]; try done. destruct Hr as (Hz & Hr).
    destruct (Hnum _ _ eq_refl Hr eq_refl) as (t & E & H & _ & H10). eexists. cbn [format read_format].
    rewrite E, bind_OK. split; [done|]. rewrite s32_small by done. unfold print_d.
    destruct (Z.ltb_spec z 0); [lia|]. destruct (read_dec z t) as [-> ->]; [unfold is_u64; lia|done|].
    change (strings (AInt z :: args)) with (strings args). by rewrite H.
  - destruct args as [|[z|] args]; try done. destruct Hr as (Hb & Hz & Hr).
    destruct (Hnum _ _ eq_refl Hr eq_refl) as (t & E & H & _ & H10). eexists. cbn [format read_format].
    rewrite E, bind_OK. split; [done|]. rewrite Z.mod_small by done.
    assert (2 ^ bits <= 2 ^ 64) by (apply Z.pow_le_mono_r; lia).
    destruct (read_dec z t) as [-> ->]; [unfold is_u64; lia|done|].
    change (strings (AInt z :: args)) with (strings args). by rewrite H.
  - destruct args as [|[|s] args]; try done. destruct (IH args Hr Hs) as (t & E & H).
    exists (s ++ t). cbn [format read_format]. rewrite E, bind_OK. split; [done|].
    change (strings (AStr s :: args)) with (s :: strings args). cbv iota.
    by destruct (prefix_app s t) as [-> ->].
Qed.

(** ** Sequences of calls *)

Definition directives (calls : list call) : list directive := calls ≫= fst.
Definition arguments (calls : list call) : list arg := calls ≫= snd.
Definition read_output (calls : list call) (s : list byte) : option (list Z) :=
  read_format (directives calls) (strings (arguments calls)) s.

(** The first directive with its argument, if it takes one. *)
Ltac first_directive d args :=
  destruct d; [|destruct args as [|[] args]; try done..]; cbn [ranged format app] in *;
  repeat match goal with H : _ /\ _ |- _ => destruct H end.

Lemma ranged_app ds1 a1 ds2 a2 : ranged ds1 a1 -> ranged ds2 a2 -> ranged (ds1 ++ ds2) (a1 ++ a2).
Proof.
  revert a1. induction ds1 as [|d ds1 IH]; intros a1 H1 H2; [by destruct a1|].
  first_directive d a1; split_and?; auto.
Qed.

Lemma format_app ds1 a1 ds2 a2 t1 t2 :
  ranged ds1 a1 -> format ds1 a1 = OK t1 -> format ds2 a2 = OK t2 ->
  format (ds1 ++ ds2) (a1 ++ a2) = OK (t1 ++ t2).
Proof.
  intros Hr H1 H2. revert a1 t1 Hr H1. induction ds1 as [|d ds1 IH]; intros a1 t1 Hr H1.
  - destruct a1; [|done]. cbn in *. by simplify_eq.
  - first_directive d a1; apply bind_OK_inv in H1 as (t & E & H1); apply OK_inj in H1 as <-;
      erewrite IH by eassumption; rewrite bind_OK, ?app_comm_cons, <- ?app_assoc; reflexivity.
Qed.

Lemma calls_ranged calls :
  Forall (fun '(ds, args) => ranged ds args) calls -> ranged (directives calls) (arguments calls).
Proof. induction 1 as [|[d a] calls H _ IH]; [done|]. cbn. by apply ranged_app. Qed.

Lemma ranged_formats ds args : ranged ds args -> exists t, format ds args = OK t.
Proof.
  revert args. induction ds as [|d ds IH]; intros args H; [by exists []|].
  first_directive d args; (edestruct IH as [t E]; [eassumption|]); rewrite E, bind_OK; by eexists.
Qed.

Lemma output_format calls :
  Forall (fun '(ds, args) => ranged ds args) calls ->
  exists t, output calls = OK t /\ format (directives calls) (arguments calls) = OK t.
Proof.
  induction 1 as [|[d a] calls H _ (t & E & IH)]; [by exists []|].
  destruct (ranged_formats d a H) as [t1 E1]. exists (t1 ++ t). cbn [output]. rewrite E1, bind_OK, E, bind_OK.
  split; [done|]. by apply format_app.
Qed.

Lemma read_calls calls :
  Forall (fun '(ds, args) => ranged ds args) calls -> separated (directives calls) = true ->
  exists t, output calls = OK t /\ read_output calls t = Some (numbers (arguments calls)).
Proof.
  intros H Hs. destruct (output_format calls H) as (t & Ht & Hf). exists t. split; [done|].
  destruct (read_printed _ _ (calls_ranged _ H) Hs) as (t' & Ht' & Hr). rewrite Hf in Ht'. by injection Ht' as ->.
Qed.

(** ** The registers *)

(** The dump does not say whether a segment is [unusable]. *)
Definition is_width (bits z : Z) : Prop := 0 <= z < 2 ^ bits.
Definition segment_ok (seg : kvm_segment) : Prop :=
  is_width 16 (seg_selector seg) /\ is_width 64 (seg_base seg) /\ is_width 32 (seg_limit seg) /\
  Forall (is_width 8) [seg_type seg; seg_present seg; seg_dpl seg; seg_db seg; seg_s seg; seg_l seg; seg_g seg;
                       seg_avl seg].
Definition dtable_ok (t : kvm_dtable) : Prop := is_width 64 (dt_base t) /\ is_width 16 (dt_limit t).
Definition regs_ok (r : kvm_regs) : Prop :=
  Forall (is_width 64) [rax r; rbx r; rcx r; rdx r; rsi r; rdi r; rsp r; rbp r; r8 r; r9 r; r10 r; r11 r; r12 r;
                        r13 r; r14 r; r15 r; rip r; rflags r].
Definition sregs_ok (s : kvm_sregs) : Prop :=
  Forall segment_ok [cs s; ds s; es s; fs s; gs s; ss s; tr s; ldt s] /\ Forall dtable_ok [gdt s; idt s] /\
  Forall (is_width 64) [cr0 s; cr2 s; cr3 s; cr4 s; cr8 s; efer s; apic_base s] /\
  length (interrupt_bitmap s) = 4%nat /\ Forall (is_width 64) (interrupt_bitmap s).

(** Where the numbers of the dump belong. *)
Definition segment_at (l : list Z) (i : nat) : kvm_segment :=
  {| seg_selector := word l i; seg_base := word l (i + 1); seg_limit := word l (i + 2); seg_type := word l (i + 3);
     seg_present := word l (i + 4); seg_dpl := word l (i + 5); seg_db := word l (i + 6); seg_s := word l (i + 7);
     seg_l := word l (i + 8); seg_g := word l (i + 9); seg_avl := word l (i + 10) |}.
Definition regs_of (l : list Z) : kvm_regs :=
  {| rip := word l 1; rsp := word l 2; rflags := word l 3; rax := word l 4; rbx := word l 5; rcx := word l 6;
     rdx := word l 7; rsi := word l 8; rdi := word l 9; rbp := word l 10; r8 := word l 11; r9 := word l 12;
     r10 := word l 13; r11 := word l 14; r12 := word l 15; r13 := word l 16; r14 := word l 17; r15 := word l 18 |}.
Definition sregs_of (l : list Z) : kvm_sregs :=
  {| cr0 := word l 19; cr2 := word l 20; cr3 := word l 21; cr4 := word l 22; cr8 := word l 23;
     cs := segment_at l 24; ss := segment_at l 35; ds := segment_at l 46; es := segment_at l 57;
     fs := segment_at l 68; gs := segment_at l 79; tr := segment_at l 90; ldt := segment_at l 101;
     gdt := mkdtable (word l 112) (word l 113); idt := mkdtable (word l 114) (word l 115);
     efer := word l 116; apic_base := word l 117; interrupt_bitmap := drop 118 l |}.

(** The numbers in a dump of x86_64, at their places. *)
Definition read_registers (s : list byte) : option (Z * kvm_regs * kvm_sregs) :=
  l ← read_output (show_registers 0 (regs_of []) (sregs_of [])) s; Some (word l 0, regs_of l, sregs_of l).

Ltac formats :=
  unfold fprintf;
  repeat match goal with |- context [parse_format ?f None] =>
    let x := eval vm_compute in (parse_format f None) in change (parse_format f None) with x end.
Ltac forall_inv :=
  repeat match goal with
  | H : Forall _ (_ :: _) |- _ => apply Forall_cons in H as [? H]
  | H : Forall _ [] |- _ => clear H
  end.

Lemma segment_ranged name seg :
  segment_ok seg -> let '(ds, args) := show_segment name seg in ranged ds args.
Proof.
  intros (H1 & H2 & H3 & H). forall_inv. unfold show_segment. formats. cbn [ranged]. unfold is_width in *. lia.
Qed.
Lemma dtable_ranged name t : dtable_ok t -> let '(ds, args) := show_dtable name t in ranged ds args.
Proof. intros [H1 H2]. unfold show_dtable. formats. cbn [ranged]. unfold is_width in *. lia. Qed.

Lemma registers_ranged id regs sregs :
  0 <= id < 2 ^ 31 -> regs_ok regs -> sregs_ok sregs ->
  Forall (fun '(ds, args) => ranged ds args) (show_registers id regs sregs).
Proof.
  intros Hid Hr (Hs & Ht & Hc & Hl & Hb). unfold regs_ok in Hr.
  destruct (interrupt_bitmap sregs) as [|b0 [|b1 [|b2 [|b3 [|]]]]] eqn:Eb; try done.
  forall_inv. unfold show_registers. rewrite Eb. cbn [fmap list_fmap seq Z.to_nat app].
  change (Z.to_nat ((KVM_NR_INTERRUPTS + 63) / 64)) with 4%nat. cbn [fmap list_fmap seq app].
  change (word [b0; b1; b2; b3] 0) with b0. change (word [b0; b1; b2; b3] 1) with b1.
  change (word [b0; b1; b2; b3] 2) with b2. change (word [b0; b1; b2; b3] 3) with b3.
  repeat (apply Forall_cons; split; [lazymatch goal with
    | |- context [show_segment _ ?seg] => by apply (segment_ranged _ seg)
    | |- context [show_dtable _ ?t] => by apply (dtable_ranged _ t)
    | |- _ => formats; cbn [ranged]; unfold is_width in *; lia
    end|]).
  apply Forall_nil_2.
Qed.

(** C37. The dump of a failed core is faithful: whatever its registers are,
    [print_registers] succeeds, and the values can be read back from the text,
    each at its place and in full width (only the [unusable] flags of the
    segments are not shown). *)
Theorem registers_read_back id regs sregs :
  0 <= id < 2 ^ 31 -> regs_ok regs -> sregs_ok sregs ->
  exists t, print_registers id (OK sregs) (OK regs) = OK t /\ read_registers t = Some (id, regs, sregs).
Proof.
  intros Hid Hr Hs. pose proof (registers_ranged id regs sregs Hid Hr Hs) as Hall.
  destruct (read_calls _ Hall) as (t & Ht & Hread); [vm_compute; reflexivity|].
  exists t. unfold print_registers. rewrite !bind_OK, s32_small by done. split; [done|].
  unfold read_registers. replace (read_output (show_registers 0 (regs_of []) (sregs_of [])) t)
    with (read_output (show_registers id regs sregs) t) by reflexivity.
  rewrite Hread. destruct Hs as (_ & _ & _ & Hl & _).
  destruct regs, sregs as [[] [] [] [] [] [] [] [] [] [] ? ? ? ? ? ? ? bm]. cbn [interrupt_bitmap] in Hl.
  destruct bm as [|b0 [|b1 [|b2 [|b3 [|]]]]]; try done.
Qed.

Definition some_segment : kvm_segment :=
  {| seg_base := 0; seg_limit := 0xfffff; seg_selector := 8; seg_type := 0xb; seg_present := 1; seg_dpl := 0;
     seg_db := 0; seg_s := 1; seg_l := 1; seg_g := 1; seg_avl := 0 |}.
Definition some_regs : kvm_regs := mkregs 1 2 3 4 5 6 0x8000 8 9 10 11 12 13 14 15 16 0x200000 (2 ^ 64 - 1).
Definition some_sregs : kvm_sregs :=
  mksregs some_segment some_segment some_segment some_segment some_segment some_segment some_segment some_segment
    (mkdtable 0x1000 0x17) (mkdtable 0 0xffff) 0x80000011 0 0x10000 0x20 0 0x500 0xfee00900 [1; 0; 0; 2 ^ 63].

Lemma registers_read_back_witness :
  exists t, print_registers 3 (OK some_sregs) (OK some_regs) = OK t /\
    read_registers t = Some (3, some_regs, some_sregs).
Proof.
  apply (registers_read_back 3 some_regs some_sregs).
  - lia.
  - unfold regs_ok. cbn. unfold is_width. repeat (apply Forall_cons; split; [lia|]). by apply Forall_nil_2.
  - assert (segment_ok some_segment) as Hs.
    { unfold segment_ok, is_width. cbn. repeat (split; [lia|]). repeat (apply Forall_cons; split; [lia|]).
      by apply Forall_nil_2. }
    split; [cbn; repeat (apply Forall_cons; split; [exact Hs|]); by apply Forall_nil_2|].
    unfold dtable_ok, is_width.
    split; [cbn; repeat (apply Forall_cons; split; [cbn; lia|]); by apply Forall_nil_2|].
    split; [cbn; repeat (apply Forall_cons; split; [lia|]); by apply Forall_nil_2|].
    split; [reflexivity|]. cbn. repeat (apply Forall_cons; split; [lia|]). by apply Forall_nil_2.
Defined.

(** On aarch64: the core, the five named registers, and each of the others
    behind its number. *)
Lemma arm_registers_read_back (get_one_reg : Arm.reg -> Z) id :
  0 <= id < 2 ^ 31 -> (forall r, is_width 64 (get_one_reg r)) ->
  exists t, output (Arm.print_registers get_one_reg id) = OK t /\
    read_output (Arm.print_registers (fun _ => 0) 0) t =
      Some ([id; get_one_reg Arm.PC; get_one_reg Arm.PSTATE; get_one_reg Arm.SP_EL1; get_one_reg (Arm.X 30);
             get_one_reg Arm.MPIDR] ++
            flat_map (fun i => [Z.of_nat i; get_one_reg (Arm.X i)]) (seq 0 30)).
Proof.
  intros Hid Hreg. destruct (read_calls (Arm.print_registers get_one_reg id)) as (t & Ht & Hread).
  - unfold Arm.print_registers. cbn [flat_map seq app Arm.print_pair Nat.mul Nat.add].
    repeat (apply Forall_cons; split; [formats; cbn [ranged];
      repeat match goal with |- context [get_one_reg ?r] => pose proof (Hreg r); generalize dependent (get_one_reg r); intros end;
      unfold is_width in *; cbn [Z.of_nat Pos.of_succ_nat Pos.succ]; lia|]).
    apply Forall_nil_2.
  - vm_compute. reflexivity.
  - exists t. split; [done|]. exact Hread.
Qed.

(** The parameters in force are printed by name, whatever they are as long as
    the tables have them. *)
Lemma migration_params_printed p mode type :
  get_migration_mode_str (mig_mode p) = OK mode -> get_migration_type_str (mig_type p) = OK type ->
  is_u32 (use_odp p) -> is_u32 (prefetch p) ->
  print_migration_params p =
    OK (line "========== MIGRATION PARAMETERS ==========" ++
        str "   MODE     : " ++ mode ++ [NL] ++ str "   TYPE     : " ++ type ++ [NL] ++
        str "   USE ODP  : " ++ print_u (use_odp p) ++ [NL] ++ str "   PREFETCH : " ++ print_u (prefetch p) ++ [NL] ++
        line "==========================================").
Proof.
  intros Hm Ht Ho Hp. unfold print_migration_params. rewrite Hm, Ht, !bind_OK. formats. cbn [output format].
  rewrite !bind_OK, !Z.mod_small by done. cbn [str line app String.list_byte_of_string]. unfold line.
  repeat rewrite <- app_assoc. reflexivity.
Qed.

(** Connections.v knows of this function only when it is undefined. *)
Lemma migration_params_defined p :
  (_ ← print_migration_params p; OK ()) = Connections.print_migration_params p.
Proof.
  unfold print_migration_params, Connections.print_migration_params.
  destruct (get_migration_mode_str _) as [mode| | |], (get_migration_type_str _) as [type| | |]; done.
Qed.

Lemma segment_line :
  output [show_segment "cs " some_segment] =
    OK (line " cs        0008      0000000000000000  000fffff  0b    1 0   0  1 1 1 0").
Proof. vm_compute. reflexivity. Qed.

(** A request that is in the list is described, with the numbers it has. *)
Lemma send_wr_read_back l1 wr l2 id :
  Rdma.wr_id wr = id -> (forall w, w ∈ l1 -> Rdma.wr_id w <> id) ->
  is_u64 id -> is_u64 (Rdma.sg_addr wr) -> is_u64 (Rdma.remote_addr wr) -> is_u32 (Rdma.sg_length wr) ->
  let dump := print_send_wr_info (l1 ++ wr :: l2) id in
  exists t, output [dump] = OK t /\
    read_output [dump] t = Some [id; Rdma.sg_addr wr; Rdma.remote_addr wr; Rdma.sg_length wr].
Proof.
  intros Hid Hl Hu Ha Hr Hs dump. assert (dump = print_send_wr_info [wr] id) as ->.
  { unfold dump. clear dump. induction l1 as [|w l1 IH]; cbn [app print_send_wr_info].
    - by rewrite Hid, Z.eqb_refl.
    - rewrite (proj2 (Z.eqb_neq _ _)) by (apply Hl; left). apply IH. intros w' Hw. apply Hl. by right. }
  cbn [print_send_wr_info]. rewrite Hid, Z.eqb_refl.
  match goal with |- context [output [?c]] => destruct (read_calls [c]) as (t & Ht & Hread) end.
  - apply Forall_cons. split; [|by apply Forall_nil_2]. formats. cbn [ranged]. unfold is_u64, is_u32 in *. lia.
  - vm_compute. reflexivity.
  - exists t. split; [exact Ht|exact Hread].
Qed.
