(* ===== verification/Debugging.v ===== *)
(** * A debugged run

    The debugger from its connection to the end of the process:
    [uhyve_gdb_init], [gdb_stub_start], [uhyve_gdb_handle_exception] and
    [uhyve_gdb_handle_term] (src/uhyve-gdb.c) in the order in which [vcpu_loop]
    and [exit] call them (src/uhyve.c), on the sessions of Gdb.v and the
    connection of Connections.v. *)

From S2P Require Import Prelude GuestMem GdbPacket GdbBreak Gdb.
From S2P Require Connections.

Open Scope uhyve_scope.

Definition GDB_SIGNAL_FIRST : Z := 0.
Definition portno : Z := 1234.

(** The functions [exit] calls, the last one registered first. *)
Inductive atexit_function := UhyveAtexit | UhyveGdbHandleTerm.

(** [socket_fd] with the bytes on it, the target, the descriptors, and the
    functions registered with [atexit], newest first. *)
Record debugged := mkdebugged {
  socket_fd : Z;
  line : conn;
  tgt : target;
  fds : Connections.fd_table;
  at_exit : list atexit_function
}.

Section Run.
Context (ncores : Z) (kvm_translate : Z -> Z) (fuel : nat).

Definition uhyve_gdb_handle_exception (d : debugged) (sigval : Z) : outcome debugged :=
  '(c, t) ← gdb_handle_exception ncores kvm_translate fuel sigval (line d) (tgt d);
  OK (mkdebugged (socket_fd d) c t (fds d) (at_exit d)).

(** [input]: what the debugger sends on the connection. *)
Definition gdb_stub_start (a : Connections.answers) (input : list byte) (d : debugged) : outcome debugged :=
  '(t, fd) ← Connections.wait_for_connect portno a (fds d);
  uhyve_gdb_handle_exception
    (mkdebugged fd (mkconn input (sent (line d)) (in_buffer (line d))) (tgt d) t (at_exit d)) GDB_SIGNAL_FIRST.

(** [mprotect_ok]: the guest memory could be made executable. *)
Definition uhyve_gdb_init (mprotect_ok : bool) (a : Connections.answers) (input : list byte) (d : debugged)
  : outcome (Z * debugged) :=
  if mprotect_ok then
    d ← gdb_stub_start a input (mkdebugged (socket_fd d) (line d) (tgt d) (fds d) (UhyveGdbHandleTerm :: at_exit d));
    OK (0, d)
  else Exited 1.

Definition uhyve_gdb_handle_term (d : debugged) : outcome debugged :=
  c ← send_response (line d) (byte.of_Z 87) 0 true;
  OK (mkdebugged (socket_fd d) c (tgt d) (fds d) (at_exit d)).

(** [exit], as far as the debugger sees it ([uhyve_atexit] is in Shutdown.v). *)
Fixpoint run_atexit (l : list atexit_function) (d : debugged) : outcome debugged :=
  match l with
  | [] => OK d
  | UhyveGdbHandleTerm :: l => d ← uhyve_gdb_handle_term d; run_atexit l d
  | UhyveAtexit :: l => run_atexit l d
  end.
Definition exit (d : debugged) : outcome debugged := run_atexit (at_exit d) d.

(** What core 0 does between the connection and the end: it runs the guest to
    a debug exit, or to the exit that ends the process.  [guest] is what the
    guest and the other exits change in the target meanwhile. *)
Record stop := mkstop { guest : target -> target; signal : Z }.
Definition with_target (d : debugged) (t : target) : debugged :=
  mkdebugged (socket_fd d) (line d) t (fds d) (at_exit d).

Fixpoint run_stops (stops : list stop) (d : debugged) : outcome debugged :=
  match stops with
  | [] => OK d
  | s :: stops =>
      d ← uhyve_gdb_handle_exception (with_target d (guest s (tgt d))) (signal s);
      run_stops stops d
  end.

(** The guest ends with a request on UHYVE_PORT_EXIT, or it halts. *)
Inductive ending := PortExit | Halt.
Definition debug_run (mprotect_ok : bool) (a : Connections.answers) (input : list byte) (stops : list stop)
    (e : ending) (d : debugged) : outcome debugged :=
  '(_, d) ← uhyve_gdb_init mprotect_ok a input d;
  d ← run_stops stops d;
  d ← (match e with Halt => uhyve_gdb_handle_term d | PortExit => OK d end);
  exit d.

(** ** What the debugger does *)

(** A session: the packets that leave the guest stopped with their replies, and
    the one that resumes it. *)
Record session := mksession {
  packets : list (list byte);
  replies : list (option (list byte));
  resuming : list byte;
  last_reply : option (list byte)
}.

Definition from_debugger (s : session) : list byte :=
  byte.of_Z PLUS :: to_stub (packets s) (replies s) ++ frame (resuming s) ++ acked (last_reply s).
Definition to_debugger (sigval : Z) (s : session) : list byte :=
  frame (str "S" ++ hex_byte sigval) ++ from_stub (replies s) ++ byte.of_Z PLUS :: answered (last_reply s).

(** The commands of a session alone take the target from [t] to [t']. *)
Definition session_serves (sigval : Z) (t : target) (s : session) (t' : target) : Prop :=
  exists t1, serves ncores kvm_translate sigval t (packets s) (replies s) t1 /\ packet_ok (resuming s) /\
    gdb_command ncores kvm_translate sigval (resuming s) t1 = OK (mkresult (last_reply s) true t') /\
    0 <= sigval < 256 /\ (length (packets s) < fuel)%nat.

Inductive serves_stops : target -> list stop -> list session -> target -> Prop :=
| serves_stops_nil t : serves_stops t [] [] t
| serves_stops_cons t p ps s ss t1 t2 :
    session_serves (signal p) (guest p t) s t1 -> serves_stops t1 ps ss t2 ->
    serves_stops t (p :: ps) (s :: ss) t2.

Definition buffer_ok (buf : list byte) : Prop := no_sequence buf /\ length buf = BUFMAX.

Lemma exception_session d sigval s t' rest :
  session_serves sigval (tgt d) s t' -> buffer_ok (in_buffer (line d)) ->
  input (line d) = from_debugger s ++ rest ->
  exists buf, buffer_ok buf /\ uhyve_gdb_handle_exception d sigval =
    OK (mkdebugged (socket_fd d) (mkconn rest (sent (line d) ++ to_debugger sigval s) buf) t' (fds d) (at_exit d)).
Proof.
  intros (t1 & Hs & Hp & Hc & Hsig & Hf) [Hb Hl] Hin. destruct d as [fd [inp out buf] t f l].
  cbn [input line in_buffer tgt socket_fd fds at_exit sent] in *. subst inp.
  destruct (exception_serves ncores kvm_translate sigval t _ _ t1 _ _ t' rest out buf fuel Hs Hp Hc Hb Hl Hsig Hf)
    as (buf' & H1 & H2 & E).
  exists buf'. split; [done|]. unfold uhyve_gdb_handle_exception, from_debugger, to_debugger. cbn [line tgt].
  replace ((byte.of_Z PLUS :: to_stub (packets s) (replies s) ++ frame (resuming s) ++ acked (last_reply s)) ++ rest)
    with (byte.of_Z PLUS :: to_stub (packets s) (replies s) ++ frame (resuming s) ++ acked (last_reply s) ++ rest)
    by (cbn [app]; rewrite <- !app_assoc; reflexivity).
  by rewrite E, bind_OK.
Qed.

(** What the debugger sees of the stops. *)
Definition reports (stops : list stop) (ss : list session) : list byte :=
  concat (zip_with (fun p s => to_debugger (signal p) s) stops ss).

Lemma run_stops_serves t stops ss t' :
  serves_stops t stops ss t' -> forall d rest,
  tgt d = t -> buffer_ok (in_buffer (line d)) -> input (line d) = (ss ≫= from_debugger) ++ rest ->
  exists buf, buffer_ok buf /\ run_stops stops d =
    OK (mkdebugged (socket_fd d) (mkconn rest (sent (line d) ++ reports stops ss) buf) t' (fds d) (at_exit d)).
Proof.
  induction 1 as [t|t p ps s ss t1 t2 Hs _ IH]; intros d rest <- Hb Hin.
  - exists (in_buffer (line d)). split; [done|]. destruct d as [fd [inp out buf] t f l]. cbn in *. subst.
    by rewrite app_nil_r.
  - cbn [mbind list_bind] in Hin. rewrite <- app_assoc in Hin. cbn [run_stops].
    destruct (exception_session (with_target d (guest p (tgt d))) (signal p) s t1 _ Hs Hb Hin) as (buf & Hbuf & ->).
    rewrite bind_OK. edestruct IH as (buf' & Hb' & E); [| | |exists buf'; split; [done|]; rewrite E]; try done.
    cbn. unfold reports. cbn [zip_with concat]. by rewrite <- app_assoc.
Qed.

Lemma term_reports d rest : input (line d) = byte.of_Z PLUS :: rest ->
  uhyve_gdb_handle_term d =
    OK (mkdebugged (socket_fd d) (mkconn rest (sent (line d) ++ frame (str "W00")) (in_buffer (line d)))
          (tgt d) (fds d) (at_exit d)).
Proof.
  destruct d as [fd [inp out buf] t f l]. cbn [input line]. intros ->. unfold uhyve_gdb_handle_term, send_response, send_packet.
  cbn [line socket_fd tgt fds at_exit]. rewrite while_S, send_packet_body_ack by done.
  change (byte.unsigned (byte.of_Z PLUS) =? PLUS) with true. cbv iota. by rewrite !bind_OK.
Qed.

(** [wait_for_connect] where every call of the system succeeds. *)
Definition connects (a : Connections.answers) (client : Connections.sockaddr) : Prop :=
  a = Connections.mkanswers true true true true (Some client) true true.

(** A halt reports the end itself, and [exit] reports it a second time. *)
Lemma halt_reports_twice d rest :
  at_exit d = [UhyveGdbHandleTerm; UhyveAtexit] -> input (line d) = byte.of_Z PLUS :: byte.of_Z PLUS :: rest ->
  (d ← uhyve_gdb_handle_term d; exit d) =
    OK (mkdebugged (socket_fd d) (mkconn rest (sent (line d) ++ frame (str "W00") ++ frame (str "W00")) (in_buffer (line d)))
          (tgt d) (fds d) (at_exit d)).
Proof.
  intros Hl Hin. rewrite (term_reports _ _ Hin), bind_OK. unfold exit. cbn [at_exit]. rewrite Hl. cbn [run_atexit].
  rewrite (term_reports _ rest) by reflexivity. rewrite !bind_OK. cbn [socket_fd line sent in_buffer tgt fds at_exit].
  by rewrite <- app_assoc.
Qed.
(** How often the end of the guest is reported: a request on UHYVE_PORT_EXIT by
    [exit] alone, a halt by [vcpu_loop] and by [exit]. *)
Definition end_reports (e : ending) : nat := match e with PortExit => 1 | Halt => 2 end.
Definition reported (n : nat) : list byte := concat (replicate n (frame (str "W00"))).

Lemma end_reported e d :
  at_exit d = [UhyveGdbHandleTerm; UhyveAtexit] -> input (line d) = replicate (end_reports e) (byte.of_Z PLUS) ->
  (d ← (match e with Halt => uhyve_gdb_handle_term d | PortExit => OK d end); exit d) =
    OK (mkdebugged (socket_fd d) (mkconn [] (sent (line d) ++ reported (end_reports e)) (in_buffer (line d)))
          (tgt d) (fds d) (at_exit d)).
Proof.
  intros Hl Hin. destruct e.
  - rewrite bind_OK. unfold exit. rewrite Hl. cbn [run_atexit]. rewrite (term_reports _ [] Hin), !bind_OK. by rewrite Hl.
  - exact (halt_reports_twice _ [] Hl Hin).
Qed.

(** C19. The debugger follows the guest from the first instruction to its end:
    after the connection, on a new descriptor, it is told of a stop with signal
    0 before the guest runs, then of each stop in order; each of its sessions
    changes the target exactly as its commands do one by one, on what the guest
    has left; and before the process is taken down it is told of the end: once
    when the guest asks for the exit, twice when it halts.  Nothing else is sent,
    and nothing the debugger sends is lost.  The debugger acknowledges every
    report, the system's calls succeed, and core 0 is the one that stops. *)
Theorem debugging_run a client d first ss stops e t1 t2 :
  connects a client -> buffer_ok (in_buffer (line d)) -> at_exit d = [UhyveAtexit] ->
  session_serves GDB_SIGNAL_FIRST (tgt d) first t1 -> serves_stops t1 stops ss t2 ->
  exists fd buf, fds d !! fd = None /\
    debug_run true a (from_debugger first ++ (ss ≫= from_debugger) ++
      replicate (end_reports e) (byte.of_Z PLUS)) stops e d =
    OK (mkdebugged fd
          (mkconn [] (sent (line d) ++ to_debugger GDB_SIGNAL_FIRST first ++ reports stops ss ++
            reported (end_reports e)) buf)
          t2 (<[fd := Connections.Connected client]> (fds d)) [UhyveGdbHandleTerm; UhyveAtexit]).
Proof.
  intros Ha Hb Hl H1 H2.
  destruct (Connections.wait_for_connect_ok portno a (fds d)) as [E|(fd & peer & E & Hpeer & Hfd)];
    [rewrite Ha in E; discriminate E|]. rewrite Ha in Hpeer. injection Hpeer as <-.
  set (input := from_debugger first ++ (ss ≫= from_debugger) ++ replicate (end_reports e) (byte.of_Z PLUS)).
  unfold debug_run, uhyve_gdb_init, gdb_stub_start. cbn [fds line tgt at_exit]. rewrite E, bind_OK, Hl.
  edestruct (exception_session (mkdebugged fd (mkconn input (sent (line d)) (in_buffer (line d))) (tgt d)
    (<[fd := Connections.Connected client]> (fds d)) [UhyveGdbHandleTerm; UhyveAtexit])) as (buf1 & Hb1 & ->);
    [exact H1|exact Hb|reflexivity|].
  rewrite !bind_OK. cbn [socket_fd line sent fds at_exit].
  edestruct (run_stops_serves _ _ _ _ H2) as (buf2 & Hb2 & E2); [| | |rewrite E2]; [reflexivity|exact Hb1|reflexivity|].
  rewrite bind_OK, end_reported by reflexivity. exists fd, buf2. split; [done|]. cbn [socket_fd line sent in_buffer tgt fds at_exit].
  by rewrite <- !app_assoc.
Qed.

End Run.

(** ** A run with two stops *)

Definition asks : session := mksession [str "?"] [Some (str "S00")] (str "c") None.
Definition continues : session := mksession [] [] (str "c") None.
Definition resumed : target :=
  with_stub example_target (mkstub (gm example_stub) [] [] 0 false (mkdebug 0 ∅)).
Definition loopback : Connections.sockaddr := Connections.mksockaddr 2 0x1234 [127; 0; 0; 1].
Definition all_succeed : Connections.answers :=
  Connections.mkanswers true true true true (Some loopback) true true.
Definition before_connection : debugged :=
  mkdebugged (-1) (mkconn [] [] (replicate BUFMAX NUL)) example_target ∅ [UhyveAtexit].

Lemma plain_packet (c : byte) : byte.unsigned c = 63 \/ byte.unsigned c = 99 -> packet_ok [c].
Proof.
  intros H. split; [apply clean_forallb|split; [apply Nat.ltb_lt; reflexivity|]]; destruct c; try done; cbn in H;
    destruct H; done.
Qed.

Lemma debugging_run_witness :
  exists fd buf,
    debug_run 1 (fun a => a) 2 true all_succeed (str "+$?#3f+$c#63" ++ str "+$c#63" ++ str "++")
      [mkstop (fun t => t) 5] Halt before_connection =
    OK (mkdebugged fd (mkconn [] (str "$S00#b3+$S00#b3+" ++ str "$S05#b8+" ++ str "$W00#b7$W00#b7") buf) resumed
          (<[fd := Connections.Connected loopback]> ∅) [UhyveGdbHandleTerm; UhyveAtexit]).
Proof.
  destruct (debugging_run 1 (fun a => a) 2 all_succeed loopback before_connection asks [continues]
    [mkstop (fun t => t) 5] Halt resumed resumed) as (fd & buf & _ & E).
  - reflexivity.
  - split; [vm_compute; discriminate|apply length_replicate].
  - reflexivity.
  - exists example_target. split; [|split; [|split; [reflexivity|]]].
    + eapply serves_cons; [|reflexivity|apply serves_nil]. apply plain_packet. by left.
    + apply plain_packet. by right.
    + cbn. unfold GDB_SIGNAL_FIRST. lia.
  - eapply serves_stops_cons; [|apply serves_stops_nil].
    exists resumed. split; [apply serves_nil|split; [|split; [reflexivity|]]].
    + apply plain_packet. by right.
    + cbn. lia.
  - exists fd, buf. exact E.
Defined.
